(* ===== verification/_CoqProject ===== *)
-Q . S2P
Prelude.v
GoString.v
GoFloat.v
GoJson.v
GoJsonSpec.v
Api.v
GoEncode.v
GoEncodeSpec.v
Llm.v
LlmSpec.v
Bucket.v
Budget.v
Store.v
Memory.v
MemorySpec.v
MemoryBudget.v
MemoryProps.v
Lease.v
LeaseSpec.v
Limiter.v
LimiterSpec.v
ApiLimiter.v
Ledger.v
LimiterMemory.v
LimiterLedger.v
LimiterBudget.v
Concurrent.v
Roles.v
ConcurrentBudget.v
Race.v
RedisServer.v
RedisScripts.v
Redis.v
RedisSpec.v
RedisLifecycle.v
RedisLaws.v
RedisBuckets.v
RedisEffects.v
RedisCalls.v
RedisBudget.v
RedisProps.v
Observe.v
Headers.v
GoHttp.v
Logx.v
Middleware.v
Server.v
ServerSpec.v
Valved.v
Proxy.v
ProxySpec.v
