(* ===== verification/Prelude.v ===== *)
(** * Verification of the valve rate limiter

    valve limits the requests and tokens per minute that a subject may spend on a
    model.  A client asks [Check] before a request and reports afterwards what it used
    ([Settle], [SettleIO]) or that nothing was ([Refund]); budgets are token buckets,
    one per axis: requests, tokens, or input and output tokens in split mode.

    ** Parts, and the files that model them

    - pkg/bucket: [Bucket] - snapshots, refill, consumption, credit, debit to the floor.
    - pkg/api, pkg/store (types and interface): [Api], [Store]; pkg/api/limiter.go:
      [ApiLimiter].  The interfaces are type classes.
    - pkg/store/memory: [Memory].  The mutex makes a method one step.
    - pkg/store/redis with its Lua scripts: [RedisServer] (the server and client
      library, parameters with laws), [RedisScripts] (the scripts), [Redis] (the
      methods; the two round trips of a settlement or refund are two steps).
    - pkg/lease: [Lease] - local leases, their reservations, the deny cache.
    - pkg/limiter: [Limiter] - the calls as programs whose actions are the methods of
      pool, deny cache and store; [Limiter.exec] runs one alone, over any store, and
      [Concurrent] interleaves those of many calls.
    - pkg/llm: [Llm] - estimates, usage of responses and streams, size gate, counters.
    - pkg/headers, pkg/metrics, pkg/logx: [Headers], [Observe], [Logx].
    - pkg/middleware, and the Gin and Echo examples' adapters: [Middleware].
    - cmd/valved: [Server] - both front ends, routes, configuration, start; [Valved] -
      the daemon over a run of requests.
    - examples/openai-proxy: [Proxy].
    - Go's language and library: this file ([int64] as [Z] with [wrap64]), [GoFloat]
      (float64 exactly, as integers in units of 2^-1074), [GoString], [GoJson] and
      [GoEncode] (encoding/json, UTF-8, RFC 3339, durations, hex, SHA-256), [GoHttp].

    Definitions keep the names of the code.  [f] of package p is [P.f]; a method's
    receiver is an argument and part of the result; [(T, error)] is [result error T]; a
    clock is a function of the number of readings so far, or an argument of a step.

    ** How the parts interact

    Server, middlewares and proxy call an [ApiLimiter]; [Observe] is one over another,
    and [Limiter] is one over a [Store].  [Store] has two instances, [Memory] and
    [Redis], and both satisfy [Store.StoreLaws], from which the theorems about the
    limiter are proved.  [Budget] states when a store meters a bucket; both stores do,
    so one proof bounds what either charges.  [Store.Lifecycle] is the abstract life of
    a reservation, which both stores and the lease pool refine.  [Ledger] is the account
    a client can keep of an [ApiLimiter]'s calls and answers; [LimiterMemory] proves
    triples for the limiter's programs (what they take from the store is what they
    admit and lease), [LimiterLedger] and [LimiterBudget] the limiter's budget from
    them, with the fast path and without, and [Valved] puts the daemon together: every
    request on either port, through front end, observer, limiter, pool and store.

    Those take the limiter's calls one after the other.  A server's goroutines share
    the limiter, and [Concurrent] is their machine: calls start at any time, and any
    running call does its next action.  A program [Concurrent.follows] a protocol
    whatever the answers to its actions are, and what holds of all interleavings comes
    from protocols: [Roles] has the one of the fast path - what a call was lent and has
    not credited yet, what it settled and has not paid - and [ConcurrentBudget] adds up
    the roles of all running calls; [Race] is about settlements that overlap.

    ** What the theorems show

    - Budgets: [MemoryBudget.key_budget], [RedisProps.redis_key_budget] and
      [Bucket.bucket_rate_bound] bound what can be taken from a key in any window of
      time, whatever the calls and their interleaving, with all rounding accounted for;
      [LeaseSpec.lease_never_overspends] does for leases.  [LimiterBudget.ledger_budget]
      and [Valved.valved_budget] bound what the clients of the limiter, and of the whole
      daemon, hold by their own ledger: what admitted requests cost, less what came
      back.  (What a settlement reports beyond its reservation is not in the ledger;
      the stores charge it as far as the balance goes.  Without the fast path the
      limiter must fail closed: failing open admits what the store never charged,
      [LimiterBudget.fail_open_admits_rejected].)
    - Interleaving: [ConcurrentBudget.concurrent_budget] has the same bound however the
      limiter's calls interleave, unless two settlements of one reservation overlap;
      [Race.racing_settlements_mint_credits] shows what then happens.  Each
      call takes effect at most once ([Concurrent.calls_take_effect_once]) and returns
      after a bounded number of its own actions ([Concurrent.calls_are_wait_free]);
      calls that do not overlap are those of the sequential limiter
      ([Concurrent.in_turn_is_sequential]).
    - Reservations: [MemorySpec.reservations_refine_lifecycle],
      [RedisProps.redis_calls_linearize], [LeaseSpec.local_reservations_refine_lifecycle],
      [MemorySpec.reservation_closes_once], [MemoryProps.reservations_expire].
    - Admission and accounting, call by call: [MemoryProps], [RedisProps],
      [LimiterSpec]; [RedisProps.lua_bucket_equivalence] identifies the scripts'
      arithmetic with pkg/bucket's.
    - Clients: [ProxySpec] (every admission closed exactly once, unless a stream blocks
      the handler or its status makes it panic), [ServerSpec.front_ends_agree], [Middleware.handlers_run_iff_admitted],
      [Observe.observed_refines_inner], and the round trips of headers, bodies and logs.
    - Parsing: [LlmSpec] (estimates, usage, what the stream scanner reads),
      [GoJsonSpec] and [GoEncodeSpec] (fuel, and reading back what is printed).

    ** Bounds and fuel

    The JSON scanner, the rune counter, the line scanner and the printers recurse on
    fuel equal to the length of their text, or one more; each step consumes a byte, and
    [GoJsonSpec.scan_fuel], [LlmSpec.rune_count_fuel] and [LlmSpec.Scanned_unique] show
    that more fuel changes nothing.  Theorems that need exact arithmetic ask that limits
    and costs be at most 2^53, above which float64 skips integers, or that times be
    within the range where a clock in milliseconds is exact.  JSON nests to Go's depth
    of 10000; a stream's line to the scanner's mebibyte.

    ** Not modelled

    Sockets, signals, process start and shutdown around the calls; cancellation of
    contexts; the metrics page; the multiplexer's own answers; the text of
    encoding/json's errors (a parameter of [Server]); the protobuf code, which is
    generated; the frameworks under the examples; the Python client.  The Prometheus
    library appears as a log of the operations asked of it, Redis as a class of commands
    with their documented laws, the network of the proxy as parameters.  Counters that
    the code updates with separate atomic operations are updated in one step here.
    In [Concurrent] a call of the store is one action, also over Redis, where a
    settlement or refund takes two round trips ([RedisProps.redis_calls_linearize] is
    about those); the record [GetReservation] answers is read when it is answered, while
    the code reads its last decision through a pointer a moment later, without the lock;
    and [Close] only runs alone.  The daemon of [Valved] serves one request after the
    other. *)

From stdpp Require Import base tactics numbers list gmap strings.
From Stdlib Require Import ZArith Lia.

#[global] Open Scope Z_scope.

(** ** Results of fallible Go functions: [(T, error)] *)

Inductive result (E A : Type) : Type :=
| Ok (a : A)
| Err (e : E).
Arguments Ok {E A} a.
Arguments Err {E A} e.

Definition is_ok {E A} (r : result E A) : bool :=
  match r with Ok _ => true | Err _ => false end.

(** ** Machine integers *)

Definition int64_min : Z := -9223372036854775808.
Definition int64_max : Z := 9223372036854775807.
Definition int64_modulus : Z := 18446744073709551616.

(** Two's complement wrap-around of Go's [int64] (and of [int] on a 64-bit target). *)
Definition wrap64 (z : Z) : Z :=
  (z - int64_min) mod int64_modulus + int64_min.

Definition in_int64 (z : Z) : Prop := int64_min <= z <= int64_max.

#[global] Instance in_int64_dec z : Decision (in_int64 z).
Proof. unfold in_int64. apply _. Defined.

Create HintDb valve.

Lemma wrap64_range z : in_int64 (wrap64 z).
Proof.
  unfold in_int64, wrap64, int64_min, int64_max, int64_modulus.
  pose proof (Z.mod_pos_bound (z - -9223372036854775808) 18446744073709551616).
  lia.
Qed.

Lemma wrap64_id z : in_int64 z -> wrap64 z = z.
Proof.
  unfold in_int64, wrap64, int64_min, int64_max, int64_modulus; intros H.
  rewrite Z.mod_small; lia.
Qed.

Lemma wrap64_idemp z : wrap64 (wrap64 z) = wrap64 z.
Proof. apply wrap64_id, wrap64_range. Qed.

#[export] Hint Resolve wrap64_range : valve.
Create Rewrite HintDb valve.

(** ** Tactics *)

(** Splits the boolean comparisons of a goal and of its hypotheses into the
    propositions they decide. *)
Ltac bool_to_prop :=
  repeat match goal with
  | H : (_ && _)%bool = true |- _ => apply andb_prop in H; destruct H
  | H : (_ || _)%bool = false |- _ => apply orb_false_elim in H; destruct H
  | H : negb _ = true |- _ => apply negb_true_iff in H
  | H : negb _ = false |- _ => apply negb_false_iff in H
  | H : (_ <? _) = true |- _ => apply Z.ltb_lt in H
  | H : (_ <? _) = false |- _ => apply Z.ltb_ge in H
  | H : (_ <=? _) = true |- _ => apply Z.leb_le in H
  | H : (_ <=? _) = false |- _ => apply Z.leb_gt in H
  | H : (_ =? _) = true |- _ => apply Z.eqb_eq in H
  | H : (_ =? _) = false |- _ => apply Z.eqb_neq in H
  end.

(** Case analysis on the first conditional of the goal. *)
Ltac case_if :=
  match goal with
  | |- context [if ?b then _ else _] => destruct b eqn:?; bool_to_prop
  end.

(** ** Strings *)

(** The byte 0 between subject and model. *)
Definition NUL : string := String.String Ascii.zero String.EmptyString.

(** A string without the separator byte. *)
Fixpoint nul_free (x : string) : bool :=
  match x with
  | EmptyString => true
  | String.String c x => negb (Ascii.eqb c Ascii.zero) && nul_free x
  end.

(** The separator is found again: a key is recovered from its bucket key. *)
Lemma nul_free_prefix x y a b :
  nul_free x = true -> nul_free y = true ->
  x +:+ NUL +:+ a = y +:+ NUL +:+ b -> x = y /\ a = b.
Proof.
  revert y. induction x as [|u x IH]; intros [|v y] Hx Hy E; cbn in E, Hx, Hy; bool_to_prop.
  - injection E as E. auto.
  - injection E as <- _. discriminate.
  - injection E as -> _. discriminate.
  - injection E as -> E. destruct (IH y) as [-> ->]; auto.
Qed.

(** ** Record update: [r <| f := v |>]

    A Go assignment [r.f = v] on a local struct; the instance of [Eta] lists the
    fields of the record once. *)

Class Eta (R : Type) := eta : R -> R.

(** Replaces the projections of the record literal [r] in [t] by its fields. *)
Ltac reduce_projections t r :=
  lazymatch t with
  | context C [?p r] =>
      let a := eval red in (p r) in
      let t' := context C [a] in
      reduce_projections t' r
  | _ => t
  end.

(** [r] with field [f] replaced, all other fields being projections of [r]. *)
Ltac record_update_var r f v :=
  let R := type of r in
  let e := constr:(ltac:(apply _) : Eta R) in
  let t := eval hnf in (e r) in
  lazymatch eval pattern (f r) in t with
  | ?g _ => eval cbv beta in (g v)
  end.

(** The update of a record literal is again a literal: chains of updates stay
    small. *)
Ltac record_update r f v :=
  tryif is_var r then (let x := record_update_var r f v in exact x)
  else (let r := eval hnf in r in
        let x := record_update_var r f v in
        let x := reduce_projections x r in
        exact x).

Notation "r <| f := v |>" := (ltac:(record_update r f v))
  (at level 1, left associativity, f at level 0, only parsing).
