(* ===== verification/GoString.v ===== *)
(** * GoString: the string functions of Go's standard library that the code uses

    [strconv.FormatInt] and [strconv.ParseInt] in base 10 on [int64], and the
    prefix, search and trimming functions of package strings, on byte strings. *)

From stdpp Require Import base tactics numbers strings list.
From Stdlib Require Import ZArith Lia Ascii DecimalString DecimalZ DecimalPos.
From S2P Require Import Prelude.

(** ** strconv *)

(** [strconv.FormatInt(n, 10)] and [strconv.Itoa(n)]. *)
Definition FormatInt (n : Z) : string := NilZero.string_of_int (Z.to_int n).

(** A nonempty string of decimal digits. *)
Definition digits (s : string) : option Z := Z.of_uint <$> NilZero.uint_of_string s.

(** The errors of [strconv.ParseInt]. *)
Inductive num_error : Type := ErrSyntax | ErrRange.

(** [strconv.ParseInt(s, 10, 64)]: an optional sign and digits.  Out of range, the
    value is the nearest bound of [int64] beside the error. *)
Definition ParseInt (s : string) : Z * option num_error :=
  let '(neg, d) := match s with
                   | String.String "-"%char r => (true, r)
                   | String.String "+"%char r => (false, r)
                   | _ => (false, s)
                   end in
  match digits d with
  | None => (0, Some ErrSyntax)
  | Some n =>
      if negb neg && (int64_max <? n) then (int64_max, Some ErrRange)
      else if neg && (- int64_min <? n) then (int64_min, Some ErrRange)
      else (if neg then - n else n, None)
  end.

(** ** strings *)

(** [s] without the prefix, if it starts with it. *)
Fixpoint strip (prefix s : string) : option string :=
  match prefix, s with
  | EmptyString, _ => Some s
  | String.String p prefix, String.String c s => if Ascii.eqb p c then strip prefix s else None
  | String.String _ _, EmptyString => None
  end.

Definition HasPrefix (s prefix : string) : bool := bool_decide (is_Some (strip prefix s)).
Definition TrimPrefix (s prefix : string) : string := default s (strip prefix s).

Fixpoint Contains (s substr : string) : bool :=
  HasPrefix s substr ||
  match s with
  | EmptyString => false
  | String.String _ s' => Contains s' substr
  end.

(** ** Bytes *)

Definition byte_of (c : ascii) : Z := Z.of_nat (nat_of_ascii c).
Definition ascii_byte (z : Z) : ascii := ascii_of_nat (Z.to_nat z).

Definition bytes (l : list Z) : string := fold_right (fun b s => String.String (ascii_byte b) s) EmptyString l.

(** The encodings of the characters with [unicode.IsSpace]. *)
Definition spaces : list string :=
  map bytes
    ([[9]; [10]; [11]; [12]; [13]; [32]; [194; 133]; [194; 160]; [225; 154; 128]; [226; 128; 168];
      [226; 128; 169]; [226; 128; 175]; [226; 129; 159]; [227; 128; 128]]
     ++ map (fun k => [226; 128; k]) [128; 129; 130; 131; 132; 133; 134; 135; 136; 137; 138]).

Fixpoint first_strip (prefixes : list string) (s : string) : option string :=
  match prefixes with
  | [] => None
  | p :: prefixes => match strip p s with Some r => Some r | None => first_strip prefixes s end
  end.

(** Removes the prefixes while there are any; the fuel is the length of the text. *)
Fixpoint trim (prefixes : list string) (fuel : nat) (s : string) : string :=
  match fuel with
  | O => s
  | S fuel => match first_strip prefixes s with Some r => trim prefixes fuel r | None => s end
  end.

Definition TrimSpace (s : string) : string :=
  let s := trim spaces (String.length s) s in
  String.rev (trim (map String.rev spaces) (String.length s) (String.rev s)).

(** ** Facts *)

Lemma digits_to_uint p : digits (NilZero.string_of_uint (Pos.to_uint p)) = Some (Zpos p).
Proof.
  unfold digits. rewrite NilZero.usu by apply DecimalPos.Unsigned.to_uint_nonnil.
  cbn. f_equal. unfold Z.of_uint. rewrite DecimalPos.Unsigned.of_to. reflexivity.
Qed.

(** A string of digits does not start with a sign. *)
Lemma digit_head p :
  exists c s, NilZero.string_of_uint (Pos.to_uint p) = String.String c s /\ c <> "-"%char /\ c <> "+"%char.
Proof.
  pose proof (DecimalPos.Unsigned.to_uint_nonnil p) as N.
  destruct (Pos.to_uint p); [congruence|..]; cbn; eauto 6 with congruence;
    (eexists _, _; split; [reflexivity|split; discriminate]).
Qed.

(** What is formatted is parsed back. *)
Lemma ParseInt_FormatInt n : in_int64 n -> ParseInt (FormatInt n) = (n, None).
Proof.
  intros [H1 H2]. unfold FormatInt. destruct n as [|p|p]; [reflexivity| |].
  - cbn [Z.to_int NilZero.string_of_int]. pose proof (digits_to_uint p) as D.
    destruct (digit_head p) as (c & s & E & N1 & N2). rewrite E in *.
    unfold ParseInt.
    destruct c as [[] [] [] [] [] [] [] []]; try (destruct N1; reflexivity);
      try (destruct N2; reflexivity); rewrite D;
      (destruct (Z.ltb_spec int64_max (Zpos p)); [lia|reflexivity]).
  - cbn [Z.to_int NilZero.string_of_int]. unfold ParseInt. rewrite digits_to_uint. cbn [negb andb].
    change (- Z.neg p) with (Z.pos p) in *.
    destruct (Z.ltb_spec (- int64_min) (Zpos p)); [unfold int64_min in *; lia|reflexivity].
Qed.

#[global] Instance FormatInt_inj : Inj (=) (=) FormatInt.
Proof.
  intros n m E. unfold FormatInt in E.
  apply (f_equal NilZero.int_of_string) in E.
  assert (N : forall z, Z.to_int z <> Decimal.Pos Decimal.Nil /\ Z.to_int z <> Decimal.Neg Decimal.Nil).
  { intros [|p|p]; cbn; split; try discriminate; intros [= X];
      apply (DecimalPos.Unsigned.to_uint_nonnil p X). }
  destruct (N n), (N m). rewrite !NilZero.isi in E by assumption. simplify_eq.
  apply DecimalZ.to_int_inj. assumption.
Qed.

(** A string in which a prefix is followed by [s] has that prefix, and trimming
    it gives [s]. *)
Lemma strip_app p s : strip p (p +:+ s) = Some s.
Proof.
  induction p as [|c p IH]; [destruct s; reflexivity|].
  change (String.String c p +:+ s) with (String.String c (p +:+ s)). cbn [strip].
  rewrite Ascii.eqb_refl. exact IH.
Qed.

Lemma strip_spec p s t : strip p s = Some t -> s = p +:+ t.
Proof.
  revert s. induction p as [|c p IH]; intros s E; [destruct s; injection E as <-; reflexivity|].
  destruct s as [|d s]; [discriminate|]. cbn [strip] in E.
  destruct (Ascii.eqb_spec c d) as [->|]; [|discriminate]. apply IH in E as ->. reflexivity.
Qed.

(** ** Appending *)

Lemma length_app (x s : string) : String.length (x +:+ s) = (String.length x + String.length s)%nat.
Proof.
  induction x as [|c x IH]; [reflexivity|].
  change (String.String c x +:+ s) with (String.String c (x +:+ s)). cbn. rewrite IH. reflexivity.
Qed.

Lemma app_inj_length (x y s t : string) :
  String.length s = String.length t -> x +:+ s = y +:+ t -> x = y /\ s = t.
Proof.
  revert y. induction x as [|c x IH]; intros [|d y] L E; pose proof (f_equal String.length E) as Le;
    rewrite !length_app in Le; cbn in Le; try lia; [split; [reflexivity|exact E]|].
  change (String.String c (x +:+ s) = String.String d (y +:+ t)) in E. injection E as -> E.
  destruct (IH y L E) as [-> ->]. auto.
Qed.

Lemma str_app_assoc (x s t : string) : x +:+ (s +:+ t) = (x +:+ s) +:+ t.
Proof.
  induction x as [|c x IH]; [reflexivity|].
  change (String.String c (x +:+ (s +:+ t)) = String.String c ((x +:+ s) +:+ t)). rewrite IH. reflexivity.
Qed.
