(* ===== verification/GoFloat.v ===== *)
(** * GoFloat: Go's [float64] (IEEE 754 binary64)

    Every finite binary64 value is an integer multiple of [2^-1074], so a
    [float64] is that integer: [x : Z] stands for the real number [x / 2^1074].
    Each arithmetic operation returns the exact result rounded to nearest, ties
    to even, to 53 significant bits, subnormals included (the last place is never
    below one unit).  [rnd] is that rounding, as the standard words it; [rnd_fast]
    computes it with one short division and shifts, and the operations use it;
    the [_spec] lemmas relate the two. *)

From stdpp Require Import base tactics numbers.
From Stdlib Require Import ZArith Lia.
From S2P Require Import Prelude.

Abbreviation float64 := Z (only parsing).

(** [1.0], in units of [2^-1074]. *)
Definition one : Z := 2 ^ 1074.

(** ** Rounding, the reference definition *)

(** Nearest integer to [n / d], ties to even ([0 <= n], [0 < d]). *)
Definition rne (n d : Z) : Z :=
  let q := n / d in
  match 2 * (n mod d) ?= d with
  | Lt => q
  | Gt => q + 1
  | Eq => if Z.even q then q else q + 1
  end.

(** Exponent of the last place of a 53-bit significand of magnitude [n / d]. *)
Definition ulp_exp (n d : Z) : Z := Z.max 0 (Z.log2 (n / d) - 52).

Definition rnd_pos (n d : Z) : Z :=
  let e := ulp_exp n d in rne n (d * 2 ^ e) * 2 ^ e.

(** The binary64 value nearest to [n / d] units ([0 < d]). *)
Definition rnd (n d : Z) : float64 :=
  if n <? 0 then - rnd_pos (- n) d else rnd_pos n d.

(** ** Rounding, computed *)

(** [rnd_pos n (d * 2 ^ k)] with one division by [d]. *)
Definition rnd_pos_fast (n d k : Z) : Z :=
  let '(q0, r0) := Z.div_eucl n d in
  let e := Z.max 0 (Z.log2 q0 - k - 52) in
  let s := e + k in
  let q := Z.shiftr q0 s in
  let r := Z.land q0 (Z.ones s) * d + r0 in
  let q' := match 2 * r ?= Z.shiftl d s with
            | Lt => q
            | Gt => q + 1
            | Eq => if Z.even q then q else q + 1
            end in
  Z.shiftl q' e.

Definition rnd_fast (n d k : Z) : float64 :=
  if n <? 0 then - rnd_pos_fast (- n) d k else rnd_pos_fast n d k.

(** A positive number as an odd part and a power of two. *)
Fixpoint odd_part (p : positive) : positive * Z :=
  match p with
  | xO p' => let '(m, k) := odd_part p' in (m, k + 1)
  | _ => (p, 0)
  end.

(** ** The operations *)

Definition fadd (x y : float64) : float64 := rnd_fast (x + y) 1 0.
Definition fsub (x y : float64) : float64 := rnd_fast (x - y) 1 0.
Definition fmul (x y : float64) : float64 := rnd_fast (x * y) 1 1074.

(** Division.  Every divisor of the program is a nonzero constant or has been
    tested to be nonzero, so the value at [0] is not used. *)
Definition fdiv (x y : float64) : float64 :=
  match y with
  | Z0 => 0
  | Zpos p => let '(m, k) := odd_part p in rnd_fast (Z.shiftl x 1074) (Zpos m) k
  | Zneg p => let '(m, k) := odd_part p in rnd_fast (Z.shiftl (- x) 1074) (Zpos m) k
  end.

Definition fmin (x y : float64) : float64 := if x <? y then x else y.

(** [float64(n)] of an integer. *)
Definition of_int (n : Z) : float64 := rnd_fast (Z.shiftl n 1074) 1 0.

(** The constant [n / d] of the source ([0 < d]), rounded once. *)
Definition of_ratio (n d : Z) : float64 := rnd_fast (Z.shiftl n 1074) d 0.

(** [math.Floor] and [math.Ceil] are exact. *)
Definition floorZ (x : float64) : Z := Z.shiftr x 1074.
Definition ceilZ (x : float64) : Z := - Z.shiftr (- x) 1074.
Definition ffloor (x : float64) : float64 := Z.shiftl (floorZ x) 1074.
Definition fceil (x : float64) : float64 := Z.shiftl (ceilZ x) 1074.

(** [int64(x)]: truncation.  Out of range the language leaves the value to the
    implementation; this is amd64's (the "integer indefinite" value). *)
Definition to_int64 (x : float64) : Z :=
  let t := if x <? 0 then ceilZ x else floorZ x in
  if ((int64_min <=? t) && (t <=? int64_max))%bool then t else int64_min.

(** ** Powers of two *)

Lemma one_pos : 0 < one.
Proof. unfold one. apply Z.pow_pos_nonneg; lia. Qed.

#[export] Hint Resolve one_pos : valve.

(** [1.0] in units of the last place of [1.0]; and a convenient lower bound. *)
Lemma one_ulp : one = 2 ^ 53 * 2 ^ 1021.
Proof. unfold one. rewrite <- Z.pow_add_r by lia. reflexivity. Qed.

Lemma one_big : 2 ^ 200 <= one.
Proof. apply Z.pow_le_mono_r; lia. Qed.

Lemma pow2_pos e : 0 <= e -> 0 < 2 ^ e.
Proof. intros; apply Z.pow_pos_nonneg; lia. Qed.

Lemma shiftl_one x : Z.shiftl x 1074 = x * one.
Proof. apply Z.shiftl_mul_pow2. lia. Qed.

Lemma shiftr_one x : Z.shiftr x 1074 = x / one.
Proof. apply Z.shiftr_div_pow2. lia. Qed.

(** ** [rne] *)

Lemma rne_cases n d :
  0 < d ->
  (2 * (n mod d) < d /\ rne n d = n / d) \/
  (d < 2 * (n mod d) /\ rne n d = n / d + 1) \/
  (2 * (n mod d) = d /\ Z.even (rne n d) = true /\
   (rne n d = n / d \/ rne n d = n / d + 1)).
Proof.
  intros Hd. unfold rne.
  destruct (Z.compare_spec (2 * (n mod d)) d) as [H|H|H]; [|lia|lia].
  right; right. split; [lia|].
  destruct (Z.even (n / d)) eqn:E; [rewrite E; lia|].
  split; [|lia]. rewrite Z.add_1_r, Z.even_succ, <- Z.negb_even, E. reflexivity.
Qed.

(** The rounded quotient is within half of the exact one, ties being even. *)
Lemma rne_spec n d :
  0 < d ->
  - d <= 2 * (rne n d * d - n) <= d /\
  (Z.abs (2 * (rne n d * d - n)) = d -> Z.even (rne n d) = true).
Proof.
  intros Hd. pose proof (Z.div_mod n d ltac:(lia)) as E.
  pose proof (Z.mod_pos_bound n d Hd) as B. pose proof (rne_cases n d Hd) as C.
  set (q := n / d) in *. set (r := n mod d) in *. clearbody q r.
  destruct C as [[H ->]|[[H ->]|[H [Ev [Eq|Eq]]]]]; split; intros;
    try assumption; rewrite ?Eq; lia.
Qed.

Lemma even_consecutive a : Z.even a = true -> Z.even (a + 1) = true -> False.
Proof.
  rewrite Z.add_1_r, Z.even_succ, <- Z.negb_even. intros ->. discriminate.
Qed.

Lemma rne_mono n1 d1 n2 d2 :
  0 < d1 -> 0 < d2 -> n1 * d2 <= n2 * d1 -> rne n1 d1 <= rne n2 d2.
Proof.
  intros H1 H2 H.
  destruct (rne_spec n1 d1 H1) as [B1 E1], (rne_spec n2 d2 H2) as [B2 E2].
  destruct (Z.le_gt_cases (rne n1 d1) (rne n2 d2)) as [|G]; [assumption|exfalso].
  set (a := rne n1 d1) in *. set (b := rne n2 d2) in *.
  assert (2 * a * d1 - d1 <= 2 * n1) by lia.
  assert (2 * n2 <= 2 * b * d2 + d2) by lia.
  assert (Hab : (2 * a - 1) * (d1 * d2) <= (2 * b + 1) * (d1 * d2)) by nia.
  assert (0 < d1 * d2) by nia.
  assert (2 * a - 1 <= 2 * b + 1) by nia.
  assert (Ea : a = b + 1) by lia.
  assert (2 * n1 = 2 * a * d1 - d1) by nia.
  assert (2 * n2 = 2 * b * d2 + d2) by nia.
  apply (even_consecutive b); [apply E2; lia|rewrite <- Ea; apply E1; lia].
Qed.

Lemma rne_exact k d : 0 < d -> rne (k * d) d = k.
Proof.
  intros Hd. unfold rne. rewrite Z.mod_mul, Z.div_mul by lia.
  destruct (Z.compare_spec (2 * 0) d); lia.
Qed.

Lemma rne_nonneg n d : 0 <= n -> 0 < d -> 0 <= rne n d.
Proof.
  intros. rewrite <- (rne_exact 0 1) by lia. apply rne_mono; lia.
Qed.

Lemma rne_scale n d k : 0 < d -> 0 < k -> rne (n * k) (d * k) = rne n d.
Proof. intros. apply Z.le_antisymm; apply rne_mono; nia. Qed.

(** ** The format: binary64 values *)

(** [x] is a binary64 value: 53 significant bits above the unit. *)
Definition is_float (x : Z) : Prop :=
  exists m e, 0 <= e /\ Z.abs m <= 2 ^ 53 /\ x = m * 2 ^ e.

Lemma is_float_opp x : is_float x -> is_float (- x).
Proof. intros (m & e & H & B & ->). exists (- m), e. lia. Qed.

Lemma is_float_0 : is_float 0.
Proof. exists 0, 0. repeat split; reflexivity || discriminate || lia. Qed.

Lemma ulp_exp_nonneg n d : 0 <= ulp_exp n d.
Proof. unfold ulp_exp. lia. Qed.

(** The magnitude of [n / d] fits 53 bits of the last place. *)
Lemma ulp_exp_upper n d :
  0 <= n -> 0 < d -> n < d * 2 ^ (53 + ulp_exp n d).
Proof.
  intros Hn Hd. unfold ulp_exp.
  assert (Hq : 0 <= n / d) by (apply Z.div_pos; lia).
  assert (n / d < 2 ^ (53 + Z.max 0 (Z.log2 (n / d) - 52))).
  { destruct (Z.eq_dec (n / d) 0) as [->|].
    - apply Z.pow_pos_nonneg; lia.
    - eapply Z.lt_le_trans; [apply (Z.log2_spec (n / d)); lia|].
      apply Z.pow_le_mono_r; lia. }
  pose proof (Z.mul_succ_div_gt n d ltac:(lia)). nia.
Qed.

(** Above the unit, it fills them. *)
Lemma ulp_exp_lower n d :
  0 <= n -> 0 < d -> 0 < ulp_exp n d -> d * 2 ^ (52 + ulp_exp n d) <= n.
Proof.
  intros Hn Hd. unfold ulp_exp. intros He.
  assert (Hq : 0 < n / d).
  { destruct (Z.eq_dec (n / d) 0) as [E|]; [rewrite E in He; simpl in He; lia|].
    pose proof (Z.div_pos n d). lia. }
  replace (52 + Z.max 0 (Z.log2 (n / d) - 52)) with (Z.log2 (n / d)) by lia.
  pose proof (Z.log2_spec (n / d) Hq). pose proof (Z.mul_div_le n d Hd). nia.
Qed.

(** The exponent is determined by the two bounds. *)
Lemma ulp_exp_mono n1 d1 n2 d2 :
  0 <= n1 -> 0 < d1 -> 0 < d2 -> n1 * d2 <= n2 * d1 ->
  ulp_exp n1 d1 <= ulp_exp n2 d2.
Proof.
  intros. unfold ulp_exp.
  assert (n1 / d1 <= n2 / d2).
  { apply Z.div_le_lower_bound; [lia|].
    pose proof (Z.mul_div_le n1 d1). nia. }
  pose proof (Z.log2_le_mono _ _ H3). lia.
Qed.

Lemma rnd_pos_bound n d :
  0 <= n -> 0 < d ->
  0 <= rne n (d * 2 ^ ulp_exp n d) <= 2 ^ 53.
Proof.
  intros Hn Hd. pose proof (ulp_exp_nonneg n d) as He.
  pose proof (pow2_pos _ He). split; [apply rne_nonneg; nia|].
  rewrite <- (rne_exact (2 ^ 53) 1) by lia. apply rne_mono; [nia|lia|].
  pose proof (ulp_exp_upper n d Hn Hd) as U. rewrite Z.pow_add_r in U by lia. nia.
Qed.

Lemma rnd_pos_float n d : 0 <= n -> 0 < d -> is_float (rnd_pos n d).
Proof.
  intros Hn Hd. exists (rne n (d * 2 ^ ulp_exp n d)), (ulp_exp n d).
  pose proof (rnd_pos_bound n d Hn Hd). pose proof (ulp_exp_nonneg n d).
  split; [lia|]. split; [lia|reflexivity].
Qed.

(** Every binary64 value is a multiple of the last place of any magnitude not
    above its own. *)
Lemma is_float_multiple x e :
  0 <= x -> is_float x -> 0 <= e -> (e = 0 \/ 2 ^ (52 + e) <= x) ->
  exists k, x = k * 2 ^ e.
Proof.
  intros Hx (m & f & Hf & Hm & ->) He [-> | Hb].
  - exists (m * 2 ^ f). rewrite Z.pow_0_r. lia.
  - pose proof (pow2_pos _ Hf) as P. assert (Hm0 : 0 <= m) by nia.
    destruct (Z.le_gt_cases e f) as [L|G].
    + exists (m * 2 ^ (f - e)). rewrite <- Z.mul_assoc, <- Z.pow_add_r by lia.
      do 2 f_equal. lia.
    + (* e = f + 1 and m = 2^53 *)
      replace (52 + e) with (53 + (e - f - 1) + f) in Hb by lia.
      rewrite Z.pow_add_r in Hb by lia.
      assert (2 ^ (53 + (e - f - 1)) <= m) by nia.
      rewrite Z.pow_add_r in H by lia.
      assert (0 < 2 ^ (e - f - 1)) by (apply pow2_pos; lia).
      assert (e - f - 1 = 0).
      { destruct (Z.eq_dec (e - f - 1) 0) as [|N]; [assumption|].
        assert (2 ^ 1 <= 2 ^ (e - f - 1)) by (apply Z.pow_le_mono_r; lia).
        change (2 ^ 1) with 2 in H1. nia. }
      exists (2 ^ 52). replace m with (2 ^ 53) by (rewrite H1 in *; change (2 ^ 0) with 1 in *; lia).
      replace e with (f + 1) by lia. rewrite Z.pow_add_r by lia.
      change (2 ^ 53) with (2 ^ 52 * 2). change (2 ^ 1) with 2. ring.
Qed.

(** ** [rnd] is exact on values, monotone, odd, and lands in the format *)

Lemma rnd_pos_mono n1 d1 n2 d2 :
  0 <= n1 -> 0 < d1 -> 0 < d2 -> n1 * d2 <= n2 * d1 ->
  rnd_pos n1 d1 <= rnd_pos n2 d2.
Proof.
  intros Hn1 H1 H2 H. assert (Hn2 : 0 <= n2) by nia.
  pose proof (ulp_exp_mono _ _ _ _ Hn1 H1 H2 H) as He.
  pose proof (ulp_exp_nonneg n1 d1) as E1.
  unfold rnd_pos. set (e1 := ulp_exp n1 d1) in *.
  destruct (Z.eq_dec e1 (ulp_exp n2 d2)) as [Q|Q].
  - rewrite <- Q. pose proof (pow2_pos _ E1).
    apply Z.mul_le_mono_nonneg_r; [lia|]. apply rne_mono; nia.
  - set (e2 := ulp_exp n2 d2) in *.
    pose proof (rnd_pos_bound n1 d1 Hn1 H1) as [_ B1]. fold e1 in B1.
    assert (L2 : 2 ^ 52 <= rne n2 (d2 * 2 ^ e2)).
    { rewrite <- (rne_exact (2 ^ 52) 1) by lia.
      pose proof (ulp_exp_lower n2 d2 Hn2 H2 ltac:(fold e2; lia)) as L.
      fold e2 in L. rewrite Z.pow_add_r in L by lia.
      apply rne_mono; [lia| |lia]. pose proof (pow2_pos e2 ltac:(lia)). nia. }
    pose proof (pow2_pos e1 E1).
    assert (2 * 2 ^ e1 <= 2 ^ e2).
    { change 2 with (2 ^ 1) at 1. rewrite <- Z.pow_add_r by lia.
      apply Z.pow_le_mono_r; lia. }
    nia.
Qed.

Lemma rnd_pos_exact x d : 0 <= x -> 0 < d -> is_float x -> rnd_pos (x * d) d = x.
Proof.
  intros Hx Hd F. unfold rnd_pos.
  pose proof (ulp_exp_nonneg (x * d) d) as He. pose proof (pow2_pos _ He).
  destruct (is_float_multiple x (ulp_exp (x * d) d) Hx F He) as [k E].
  - destruct (Z.eq_dec (ulp_exp (x * d) d) 0) as [|N]; [left; assumption|right].
    pose proof (ulp_exp_lower (x * d) d). nia.
  - set (e := ulp_exp (x * d) d) in *. rewrite E at 1.
    replace (k * 2 ^ e * d) with (k * (d * 2 ^ e)) by ring.
    rewrite rne_exact by nia. lia.
Qed.

Lemma rnd_pos_0 d : 0 < d -> rnd_pos 0 d = 0.
Proof. intros. apply (rnd_pos_exact 0 d); [lia|lia|apply is_float_0]. Qed.

Lemma rnd_pos_nonneg n d : 0 <= n -> 0 < d -> 0 <= rnd_pos n d.
Proof.
  intros. rewrite <- (rnd_pos_0 d) by assumption. apply rnd_pos_mono; nia.
Qed.

Lemma rnd_mono n1 d1 n2 d2 :
  0 < d1 -> 0 < d2 -> n1 * d2 <= n2 * d1 -> rnd n1 d1 <= rnd n2 d2.
Proof.
  intros H1 H2 H. unfold rnd.
  destruct (Z.ltb_spec n1 0), (Z.ltb_spec n2 0).
  - apply Z.opp_le_mono. rewrite !Z.opp_involutive. apply rnd_pos_mono; nia.
  - pose proof (rnd_pos_nonneg (- n1) d1). pose proof (rnd_pos_nonneg n2 d2). lia.
  - nia.
  - apply rnd_pos_mono; assumption.
Qed.

Lemma rnd_float n d : 0 < d -> is_float (rnd n d).
Proof.
  intros. unfold rnd. destruct (Z.ltb_spec n 0).
  - apply is_float_opp, rnd_pos_float; lia.
  - apply rnd_pos_float; lia.
Qed.

Lemma rnd_exact x d : 0 < d -> is_float x -> rnd (x * d) d = x.
Proof.
  intros Hd F. unfold rnd. destruct (Z.ltb_spec (x * d) 0).
  - replace (- (x * d)) with (- x * d) by ring.
    rewrite rnd_pos_exact; [lia|nia|lia|apply is_float_opp; assumption].
  - apply rnd_pos_exact; [nia|lia|assumption].
Qed.

Lemma rnd_0 d : 0 < d -> rnd 0 d = 0.
Proof. intros. unfold rnd. apply rnd_pos_0. assumption. Qed.

(** Comparisons with a binary64 value survive rounding. *)
Lemma rnd_ge x n d : 0 < d -> is_float x -> x * d <= n -> x <= rnd n d.
Proof. intros. rewrite <- (rnd_exact x d) by assumption. apply rnd_mono; nia. Qed.

Lemma rnd_le x n d : 0 < d -> is_float x -> n <= x * d -> rnd n d <= x.
Proof. intros. rewrite <- (rnd_exact x d) by assumption. apply rnd_mono; nia. Qed.

Lemma rnd_scale n d k : 0 < d -> 0 < k -> rnd (n * k) (d * k) = rnd n d.
Proof. intros. apply Z.le_antisymm; apply rnd_mono; nia. Qed.

Lemma rnd_opp n d : 0 < d -> rnd (- n) d = - rnd n d.
Proof.
  intros Hd. unfold rnd. destruct (Z.ltb_spec (- n) 0), (Z.ltb_spec n 0); try lia.
  - rewrite Z.opp_involutive. reflexivity.
  - assert (n = 0) as -> by lia. change (- 0) with 0.
    rewrite rnd_pos_0 by assumption. reflexivity.
Qed.

(** *** Error: half a unit in the last place, hence relative [2^-53] or half a unit *)

Lemma rnd_pos_error n d :
  0 <= n -> 0 < d ->
  2 * Z.abs (rnd_pos n d * d - n) <= d * 2 ^ ulp_exp n d.
Proof.
  intros Hn Hd. unfold rnd_pos. pose proof (ulp_exp_nonneg n d) as He.
  pose proof (pow2_pos _ He). set (p := 2 ^ ulp_exp n d) in *.
  destruct (rne_spec n (d * p)) as [B _]; [nia|].
  replace (rne n (d * p) * p * d) with (rne n (d * p) * (d * p)) by ring. lia.
Qed.

Lemma rnd_error n d :
  0 < d -> 2 ^ 53 * Z.abs (rnd n d * d - n) <= Z.max (2 ^ 52 * d) (Z.abs n).
Proof.
  intros Hd.
  enough (P : forall k, 0 <= k ->
    2 ^ 53 * Z.abs (rnd_pos k d * d - k) <= Z.max (2 ^ 52 * d) k).
  { unfold rnd. destruct (Z.ltb_spec n 0).
    - specialize (P (- n) ltac:(lia)). lia.
    - specialize (P n ltac:(lia)). lia. }
  intros k Hk. pose proof (rnd_pos_error k d Hk Hd) as E.
  destruct (Z.eq_dec (ulp_exp k d) 0) as [Z0|N].
  - rewrite Z0 in E. change (2 ^ 0) with 1 in E. lia.
  - pose proof (ulp_exp_nonneg k d).
    pose proof (ulp_exp_lower k d Hk Hd ltac:(lia)) as L.
    rewrite Z.pow_add_r in L by lia. lia.
Qed.

(** ** The computed rounding is the reference one *)

Lemma log2_shiftr_max q k : 0 <= q -> 0 <= k ->
  Z.max 0 (Z.log2 (q / 2 ^ k) - 52) = Z.max 0 (Z.log2 q - k - 52).
Proof.
  intros. rewrite <- Z.shiftr_div_pow2 by assumption.
  destruct (Z.eq_dec q 0) as [->|]; [rewrite Z.shiftr_0_l; simpl; lia|].
  rewrite Z.log2_shiftr by lia. lia.
Qed.

Lemma rnd_pos_fast_spec n d k :
  0 <= n -> 0 < d -> 0 <= k -> rnd_pos_fast n d k = rnd_pos n (d * 2 ^ k).
Proof.
  intros Hn Hd Hk. unfold rnd_pos_fast, rnd_pos.
  pose proof (Z.div_mod n d ltac:(lia)) as E. pose proof (Z.mod_pos_bound n d Hd) as B.
  pose proof (Z.div_pos n d Hn Hd) as Q.
  unfold Z.div, Z.modulo in E, B, Q. destruct (Z.div_eucl n d) as [q0 r0] eqn:D.
  pose proof (pow2_pos k Hk) as Pk.
  assert (Hu : ulp_exp n (d * 2 ^ k) = Z.max 0 (Z.log2 q0 - k - 52)).
  { unfold ulp_exp. rewrite <- Z.div_div by lia.
    replace (n / d) with q0 by (unfold Z.div; rewrite D; reflexivity).
    apply log2_shiftr_max; assumption. }
  rewrite Hu. set (e := Z.max 0 (Z.log2 q0 - k - 52)).
  assert (He : 0 <= e) by lia. pose proof (pow2_pos e He) as Pe.
  rewrite Z.shiftl_mul_pow2 by lia. f_equal. unfold rne.
  rewrite Z.land_ones, Z.shiftr_div_pow2, Z.shiftl_mul_pow2 by lia.
  pose proof (Z.div_mod q0 (2 ^ (e + k))) as E0.
  pose proof (Z.mod_pos_bound q0 (2 ^ (e + k))) as B0.
  assert (Ps : 0 < 2 ^ (e + k)) by (apply pow2_pos; lia).
  replace (d * 2 ^ k * 2 ^ e) with (d * 2 ^ (e + k)) by (rewrite Z.pow_add_r by lia; ring).
  set (p := 2 ^ (e + k)) in *. set (q := q0 / p) in *. set (l := q0 mod p) in *.
  assert (N : n = d * p * q + (l * d + r0)) by nia.
  assert (R : 0 <= l * d + r0 < d * p) by nia.
  rewrite <- (Z.div_unique_pos n (d * p) q (l * d + r0)) by lia.
  rewrite <- (Z.mod_unique_pos n (d * p) q (l * d + r0)) by lia.
  reflexivity.
Qed.

Lemma rnd_fast_spec n d k :
  0 < d -> 0 <= k -> rnd_fast n d k = rnd n (d * 2 ^ k).
Proof.
  intros. unfold rnd_fast, rnd. destruct (Z.ltb_spec n 0).
  - rewrite rnd_pos_fast_spec by lia. reflexivity.
  - apply rnd_pos_fast_spec; lia.
Qed.

Lemma odd_part_spec p : let '(m, k) := odd_part p in 0 <= k /\ Zpos p = Zpos m * 2 ^ k.
Proof.
  induction p as [p|p IH|]; simpl; try lia.
  destruct (odd_part p) as [m k]. destruct IH as [H E]. split; [lia|].
  rewrite Pos2Z.inj_xO, E, Z.pow_add_r by lia. change (2 ^ 1) with 2. ring.
Qed.

Lemma fadd_spec x y : fadd x y = rnd (x + y) 1.
Proof. unfold fadd. rewrite rnd_fast_spec by lia. reflexivity. Qed.

Lemma fsub_spec x y : fsub x y = rnd (x - y) 1.
Proof. unfold fsub. rewrite rnd_fast_spec by lia. reflexivity. Qed.

Lemma fmul_spec x y : fmul x y = rnd (x * y) one.
Proof. unfold fmul. rewrite rnd_fast_spec by lia. f_equal. Qed.

Lemma of_int_spec n : of_int n = rnd (n * one) 1.
Proof. unfold of_int. rewrite rnd_fast_spec, shiftl_one by lia. reflexivity. Qed.

Lemma of_ratio_spec n d : 0 < d -> of_ratio n d = rnd (n * one) d.
Proof.
  intros. unfold of_ratio. rewrite rnd_fast_spec, shiftl_one by lia.
  f_equal. rewrite Z.pow_0_r. lia.
Qed.

Lemma fdiv_spec x y : 0 < y -> fdiv x y = rnd (x * one) y.
Proof.
  intros. destruct y as [|p|p]; [lia| |lia]. unfold fdiv.
  pose proof (odd_part_spec p) as S. destruct (odd_part p) as [m k].
  destruct S as [Hk E]. rewrite rnd_fast_spec, shiftl_one, <- E by lia. reflexivity.
Qed.

Lemma floorZ_spec x : floorZ x = x / one.
Proof. apply shiftr_one. Qed.

Lemma ceilZ_spec x : ceilZ x = - ((- x) / one).
Proof. unfold ceilZ. rewrite shiftr_one. reflexivity. Qed.

Lemma ffloor_spec x : ffloor x = x / one * one.
Proof. unfold ffloor. rewrite shiftl_one, floorZ_spec. reflexivity. Qed.

Lemma fceil_spec x : fceil x = - ((- x) / one) * one.
Proof. unfold fceil. rewrite shiftl_one, ceilZ_spec. reflexivity. Qed.

(** ** The result of every operation is a binary64 value *)

Lemma fadd_float x y : is_float (fadd x y).
Proof. rewrite fadd_spec. apply rnd_float. lia. Qed.

Lemma fsub_float x y : is_float (fsub x y).
Proof. rewrite fsub_spec. apply rnd_float. lia. Qed.

Lemma fmul_float x y : is_float (fmul x y).
Proof. rewrite fmul_spec. apply rnd_float, one_pos. Qed.

Lemma fdiv_float x y : 0 < y -> is_float (fdiv x y).
Proof. intros. rewrite fdiv_spec by assumption. apply rnd_float. assumption. Qed.

Lemma of_int_float n : is_float (of_int n).
Proof. rewrite of_int_spec. apply rnd_float. lia. Qed.

Lemma of_ratio_float n d : 0 < d -> is_float (of_ratio n d).
Proof. intros. rewrite of_ratio_spec by assumption. apply rnd_float. assumption. Qed.

Lemma fmin_float x y : is_float x -> is_float y -> is_float (fmin x y).
Proof. intros. unfold fmin. destruct (x <? y); assumption. Qed.

Lemma fmin_eq x y : fmin x y = Z.min x y.
Proof. unfold fmin. destruct (Z.ltb_spec x y); lia. Qed.

#[export] Hint Resolve fadd_float fsub_float fmul_float fdiv_float of_int_float
  of_ratio_float fmin_float is_float_0 : valve.

(** ** Order *)

Lemma fadd_ge x y : is_float x -> 0 <= y -> x <= fadd x y.
Proof. intros. rewrite fadd_spec. apply rnd_ge; [lia|assumption|lia]. Qed.

Lemma fsub_nonneg x y : y <= x -> 0 <= fsub x y.
Proof. intros. rewrite fsub_spec. apply rnd_ge; [lia|apply is_float_0|lia]. Qed.

Lemma fsub_le x y : is_float x -> 0 <= y -> fsub x y <= x.
Proof. intros. rewrite fsub_spec. apply rnd_le; [lia|assumption|lia]. Qed.

Lemma fmul_nonneg x y : 0 <= x -> 0 <= y -> 0 <= fmul x y.
Proof.
  intros. rewrite fmul_spec. apply rnd_ge; [apply one_pos|apply is_float_0|nia].
Qed.

Lemma fdiv_nonneg x y : 0 <= x -> 0 < y -> 0 <= fdiv x y.
Proof.
  intros. pose proof one_pos. rewrite fdiv_spec by assumption.
  apply rnd_ge; [assumption|apply is_float_0|nia].
Qed.

Lemma fadd_mono x x' y y' : x <= x' -> y <= y' -> fadd x y <= fadd x' y'.
Proof. intros. rewrite !fadd_spec. apply rnd_mono; lia. Qed.

Lemma fsub_mono x x' y y' : x <= x' -> y' <= y -> fsub x y <= fsub x' y'.
Proof. intros. rewrite !fsub_spec. apply rnd_mono; lia. Qed.

Lemma fmul_mono x x' y y' :
  0 <= x <= x' -> 0 <= y <= y' -> fmul x y <= fmul x' y'.
Proof.
  intros. pose proof one_pos. rewrite !fmul_spec. apply rnd_mono; [lia|lia|].
  apply Z.mul_le_mono_nonneg_r; [lia|]. apply Z.mul_le_mono_nonneg; lia.
Qed.

Lemma fdiv_mono x x' y : x <= x' -> 0 < y -> fdiv x y <= fdiv x' y.
Proof.
  intros. pose proof one_pos. rewrite !fdiv_spec by assumption. apply rnd_mono; [lia|lia|].
  apply Z.mul_le_mono_nonneg_r; [lia|]. apply Z.mul_le_mono_nonneg_r; lia.
Qed.

Lemma of_int_mono n m : n <= m -> of_int n <= of_int m.
Proof.
  intros. pose proof one_pos. rewrite !of_int_spec. apply rnd_mono; [lia|lia|].
  rewrite !Z.mul_1_r. apply Z.mul_le_mono_nonneg_r; lia.
Qed.

(** ** Exact cases *)

(** Integers up to [2^53] are values. *)
Lemma int_is_float n : Z.abs n <= 2 ^ 53 -> is_float (n * one).
Proof. intros. exists n, 1074. split; [lia|]. split; [assumption|reflexivity]. Qed.

Lemma of_int_exact n : Z.abs n <= 2 ^ 53 -> of_int n = n * one.
Proof.
  intros. rewrite of_int_spec.
  pose proof (rnd_exact (n * one) 1 ltac:(lia) (int_is_float n H)) as E.
  rewrite Z.mul_1_r in E. exact E.
Qed.

Lemma of_int_0 : of_int 0 = 0.
Proof. rewrite of_int_exact; [apply Z.mul_0_l|lia]. Qed.

Lemma of_int_nonneg n : 0 <= n -> 0 <= of_int n.
Proof. intros. rewrite <- of_int_0. apply of_int_mono. assumption. Qed.

Lemma of_int_ge_one n : 1 <= n -> one <= of_int n.
Proof.
  intros. replace one with (of_int 1) by (rewrite of_int_exact; [apply Z.mul_1_l|lia]).
  apply of_int_mono. assumption.
Qed.

Lemma of_int_pos n : 0 < n -> 0 < of_int n.
Proof. intros. pose proof (of_int_ge_one n). pose proof one_pos. lia. Qed.

Lemma fadd_exact x y : is_float (x + y) -> fadd x y = x + y.
Proof.
  intros F. rewrite fadd_spec. pose proof (rnd_exact _ 1 ltac:(lia) F) as E.
  rewrite Z.mul_1_r in E. exact E.
Qed.

Lemma fsub_exact x y : is_float (x - y) -> fsub x y = x - y.
Proof.
  intros F. rewrite fsub_spec. pose proof (rnd_exact _ 1 ltac:(lia) F) as E.
  rewrite Z.mul_1_r in E. exact E.
Qed.

Lemma fmul_of_int x n : is_float (x * n) -> Z.abs n <= 2 ^ 53 -> fmul x (of_int n) = x * n.
Proof.
  intros F H. rewrite fmul_spec, of_int_exact by assumption.
  rewrite Z.mul_assoc. apply rnd_exact; [apply one_pos|assumption].
Qed.

(** Subtracting an integer from a value of magnitude at most [2^53] is exact
    when it does not increase the magnitude. *)
Lemma is_float_sub_int x c :
  is_float x -> Z.abs x <= 2 ^ 53 * one -> Z.abs (x - c * one) <= Z.abs x ->
  is_float (x - c * one).
Proof.
  intros (m & e & He & Hm & ->) Hx Hc. pose proof (pow2_pos e He) as P.
  destruct (Z.le_gt_cases e 1074) as [L|G].
  - assert (O : one = 2 ^ (1074 - e) * 2 ^ e)
      by (unfold one; rewrite <- Z.pow_add_r by lia; f_equal; lia).
    exists (m - c * 2 ^ (1074 - e)), e. split; [assumption|].
    rewrite O in *. split; [|ring].
    replace (m * 2 ^ e - c * (2 ^ (1074 - e) * 2 ^ e))
      with ((m - c * 2 ^ (1074 - e)) * 2 ^ e) in Hc by ring.
    rewrite !Z.abs_mul, (Z.abs_eq (2 ^ e)) in Hc by lia. nia.
  - assert (O : 2 ^ e = 2 ^ (e - 1074) * one)
      by (unfold one; rewrite <- Z.pow_add_r by lia; f_equal; lia).
    pose proof one_pos. rewrite O in *.
    replace (m * (2 ^ (e - 1074) * one) - c * one)
      with ((m * 2 ^ (e - 1074) - c) * one) in * by ring.
    apply int_is_float. rewrite Z.mul_assoc in Hx, Hc.
    rewrite !Z.abs_mul, (Z.abs_eq one) in * by lia. nia.
Qed.

Lemma fsub_int_exact x c :
  is_float x -> Z.abs x <= 2 ^ 53 * one -> Z.abs (x - c * one) <= Z.abs x ->
  fsub x (c * one) = x - c * one.
Proof. intros. apply fsub_exact, is_float_sub_int; assumption. Qed.

(** ** Floor *)

Lemma floorZ_bounds x : floorZ x * one <= x < (floorZ x + 1) * one.
Proof.
  rewrite floorZ_spec. pose proof one_pos.
  pose proof (Z.mul_div_le x one). pose proof (Z.mul_succ_div_gt x one). lia.
Qed.

Lemma floorZ_mono x y : x <= y -> floorZ x <= floorZ y.
Proof. rewrite !floorZ_spec. apply Z.div_le_mono, one_pos. Qed.

Lemma floorZ_int n : floorZ (n * one) = n.
Proof. rewrite floorZ_spec. apply Z.div_mul. pose proof one_pos. lia. Qed.

Lemma floorZ_nonneg x : 0 <= x -> 0 <= floorZ x.
Proof. rewrite floorZ_spec. intros. apply Z.div_pos; [assumption|apply one_pos]. Qed.

Lemma floorZ_le_int x n : x <= n * one -> floorZ x <= n.
Proof. intros. rewrite <- (floorZ_int n). apply floorZ_mono. assumption. Qed.

Lemma floorZ_ge_int x n : n * one <= x -> n <= floorZ x.
Proof. intros. rewrite <- (floorZ_int n). apply floorZ_mono. assumption. Qed.

Lemma ceilZ_bounds x : (ceilZ x - 1) * one < x <= ceilZ x * one.
Proof.
  rewrite ceilZ_spec. pose proof one_pos.
  pose proof (Z.mul_div_le (- x) one). pose proof (Z.mul_succ_div_gt (- x) one). lia.
Qed.

Lemma to_int64_int n : in_int64 n -> to_int64 (n * one) = n.
Proof.
  intros [H1 H2]. unfold to_int64. pose proof one_pos.
  assert (E : (if n * one <? 0 then ceilZ (n * one) else floorZ (n * one)) = n).
  { destruct (Z.ltb_spec (n * one) 0); [|apply floorZ_int].
    pose proof (ceilZ_bounds (n * one)). nia. }
  rewrite E. rewrite (proj2 (Z.leb_le _ _) H1), (proj2 (Z.leb_le _ _) H2). reflexivity.
Qed.

Lemma to_int64_floor x : in_int64 (floorZ x) -> to_int64 (ffloor x) = floorZ x.
Proof. intros. unfold ffloor. rewrite shiftl_one. apply to_int64_int. assumption. Qed.

Lemma to_int64_ceil x : in_int64 (ceilZ x) -> to_int64 (fceil x) = ceilZ x.
Proof. intros. unfold fceil. rewrite shiftl_one. apply to_int64_int. assumption. Qed.

(** ** No binary64 value is nearer than the rounded one *)

Lemma rne_nearest n d k : 0 < d -> Z.abs (rne n d * d - n) <= Z.abs (k * d - n).
Proof.
  intros Hd. destruct (rne_spec n d Hd) as [B _].
  destruct (Z.eq_dec k (rne n d)) as [->|N]; [lia|].
  assert (d <= Z.abs (k * d - rne n d * d)).
  { rewrite <- Z.mul_sub_distr_r, Z.abs_mul, (Z.abs_eq d) by lia. nia. }
  lia.
Qed.

Lemma rnd_pos_nearest n d x :
  0 <= n -> 0 < d -> is_float x -> Z.abs (rnd_pos n d * d - n) <= Z.abs (x * d - n).
Proof.
  intros Hn Hd F. unfold rnd_pos. pose proof (ulp_exp_nonneg n d) as He.
  pose proof (pow2_pos _ He) as P. pose proof (ulp_exp_lower n d Hn Hd) as L.
  set (e := ulp_exp n d) in *.
  assert (G : forall k, Z.abs (rne n (d * 2 ^ e) * 2 ^ e * d - n)
                        <= Z.abs (k * 2 ^ e * d - n)).
  { intros k. pose proof (rne_nearest n (d * 2 ^ e) k ltac:(nia)) as N.
    replace (rne n (d * 2 ^ e) * 2 ^ e * d) with (rne n (d * 2 ^ e) * (d * 2 ^ e)) by ring.
    replace (k * 2 ^ e * d) with (k * (d * 2 ^ e)) by ring. exact N. }
  destruct (Z.lt_ge_cases x 0) as [Neg|Pos].
  - specialize (G 0). rewrite !Z.mul_0_l in G.
    assert (x * d <= 0) by (apply Z.mul_nonpos_nonneg; lia). lia.
  - destruct (Z.le_gt_cases (2 ^ (52 + e)) x) as [B|S].
    + destruct (is_float_multiple x e Pos F He (or_intror B)) as [k ->]. apply G.
    + destruct (Z.eq_dec e 0) as [E0|N].
      * destruct (is_float_multiple x e Pos F He (or_introl E0)) as [k ->]. apply G.
      * specialize (L ltac:(lia)). specialize (G (2 ^ 52)).
        rewrite <- Z.pow_add_r in G by lia.
        assert (x * d <= 2 ^ (52 + e) * d) by (apply Z.mul_le_mono_nonneg_r; lia). lia.
Qed.

Lemma rnd_nearest n d x :
  0 < d -> is_float x -> Z.abs (rnd n d * d - n) <= Z.abs (x * d - n).
Proof.
  intros Hd F. unfold rnd. destruct (Z.ltb_spec n 0).
  - pose proof (rnd_pos_nonneg (- n) d).
    pose proof (rnd_pos_nearest (- n) d (- x) ltac:(lia) Hd (is_float_opp x F)). lia.
  - apply rnd_pos_nearest; assumption.
Qed.

(** If adding [y] to the value [x] reaches the value [z], then [z] is within
    [2 * y] of [x]. *)
Lemma fadd_reach x y z :
  is_float x -> 0 <= y -> z <= fadd x y -> z - x <= 2 * y.
Proof.
  intros F Hy H. rewrite fadd_spec in H.
  pose proof (rnd_nearest (x + y) 1 x ltac:(lia) F). lia.
Qed.

(** *** Relative error of a rounding above [2^52] units *)

Lemma rnd_error_rel n d :
  0 < d -> 2 ^ 52 * d <= n -> 2 ^ 53 * Z.abs (rnd n d * d - n) <= n.
Proof. intros Hd H. pose proof (rnd_error n d Hd). lia. Qed.

#[global] Opaque one.
#[global] Opaque fadd fsub fmul fdiv of_int of_ratio floorZ ceilZ ffloor fceil to_int64.
