(* ===== verification/GoJson.v ===== *)
(** * GoJson: encoding/json and unicode/utf8 as the program uses them

    Strings are byte strings.  A JSON text is scanned one level at a time: the
    elements of an array and the members of an object are kept as their texts
    ([json.RawMessage]), which the decoders below scan in turn, as the code does. *)

From stdpp Require Import base tactics numbers strings list.
From Stdlib Require Import ZArith Lia Ascii.
From S2P Require Import Prelude GoString.

(** ** UTF-8 *)

Definition between (lo hi : Z) (c : ascii) : bool := (lo <=? byte_of c) && (byte_of c <=? hi).
Definition continuation : ascii -> bool := between 128 191.

(** The size of the first rune of a nonempty string, and whether it is valid: an
    invalid encoding is one byte wide. *)
Definition first_rune (s : string) : nat * bool :=
  match s with
  | EmptyString => (0%nat, false)
  | String.String c s =>
      if between 0 127 c then (1%nat, true)
      else if between 194 223 c then
        match s with
        | String.String c1 _ => if continuation c1 then (2%nat, true) else (1%nat, false)
        | _ => (1%nat, false)
        end
      else if between 224 239 c then
        let lo := if byte_of c =? 224 then 160 else 128 in
        let hi := if byte_of c =? 237 then 159 else 191 in
        match s with
        | String.String c1 (String.String c2 _) =>
            if between lo hi c1 && continuation c2 then (3%nat, true) else (1%nat, false)
        | _ => (1%nat, false)
        end
      else if between 240 244 c then
        let lo := if byte_of c =? 240 then 144 else 128 in
        let hi := if byte_of c =? 244 then 143 else 191 in
        match s with
        | String.String c1 (String.String c2 (String.String c3 _)) =>
            if between lo hi c1 && continuation c2 && continuation c3 then (4%nat, true) else (1%nat, false)
        | _ => (1%nat, false)
        end
      else (1%nat, false)
  end.

Fixpoint drop (n : nat) (s : string) : string :=
  match n, s with
  | S n, String.String _ s => drop n s
  | _, _ => s
  end.

Fixpoint take (n : nat) (s : string) : string :=
  match n, s with
  | S n, String.String c s => String.String c (take n s)
  | _, _ => EmptyString
  end.

(** [utf8.RuneCountInString]: the fuel is the length of the string. *)
Fixpoint rune_count (fuel : nat) (s : string) : Z :=
  match fuel, s with
  | S fuel, String.String _ _ => 1 + rune_count fuel (drop (first_rune s).1 s)
  | _, _ => 0
  end.

Definition RuneCountInString (s : string) : Z := rune_count (String.length s) s.

(** [utf8.AppendRune]; surrogates become U+FFFD. *)
Definition encode_rune (r : Z) : string :=
  if r <? 128 then bytes [r]
  else if r <? 2048 then bytes [192 + r / 64; 128 + r mod 64]
  else if ((55296 <=? r) && (r <=? 57343)) || (1114111 <? r) then bytes [239; 191; 189]
  else if r <? 65536 then bytes [224 + r / 4096; 128 + r / 64 mod 64; 128 + r mod 64]
  else bytes [240 + r / 262144; 128 + r / 4096 mod 64; 128 + r / 64 mod 64; 128 + r mod 64].

(** ** Scanning a JSON text *)

(** One level of a JSON value. *)
#[warnings="-register-all"]
Inductive json : Type :=
| JNull
| JBool (b : bool)
| JNum (lit : string)
| JStr (s : string)
| JArr (elts : list string)
| JObj (members : list (string * string)).

Definition is_ws (c : ascii) : bool :=
  let b := byte_of c in (b =? 32) || (b =? 9) || (b =? 10) || (b =? 13).

Fixpoint skip_ws (s : string) : string :=
  match s with
  | String.String c s' => if is_ws c then skip_ws s' else s
  | EmptyString => EmptyString
  end.

Definition is_digit : ascii -> bool := between 48 57.

Definition hex_value (c : ascii) : option Z :=
  if is_digit c then Some (byte_of c - 48)
  else if between 97 102 c then Some (byte_of c - 87)
  else if between 65 70 c then Some (byte_of c - 55)
  else None.

Definition cons_fst (c : ascii) (r : option (string * string)) : option (string * string) :=
  match r with Some (a, b) => Some (String.String c a, b) | None => None end.

Definition dquote : ascii := ascii_of_nat 34.
(** The double quote as a string. *)
Definition quote : string := String.String dquote EmptyString.

Definition backslash : ascii := ascii_of_nat 92.

Definition is_escape (c : ascii) : bool :=
  let b := byte_of c in
  (b =? 34) || (b =? 92) || (b =? 47) || (b =? 98) || (b =? 102) || (b =? 110) || (b =? 114) || (b =? 116).

(** The body of a string literal up to its closing quote, and what follows. *)
Fixpoint scan_str (s : string) : option (string * string) :=
  match s with
  | EmptyString => None
  | String.String c s =>
      if Ascii.eqb c dquote then Some ("", s)
      else if byte_of c <? 32 then None
      else if Ascii.eqb c backslash then
        match s with
        | EmptyString => None
        | String.String e s =>
            if is_escape e then cons_fst c (cons_fst e (scan_str s))
            else if byte_of e =? 117 then
              match s with
              | String.String a (String.String b (String.String d (String.String f s))) =>
                  match hex_value a, hex_value b, hex_value d, hex_value f with
                  | Some _, Some _, Some _, Some _ =>
                      cons_fst c (cons_fst e (cons_fst a (cons_fst b (cons_fst d (cons_fst f (scan_str s))))))
                  | _, _, _, _ => None
                  end
              | _ => None
              end
            else None
        end
      else cons_fst c (scan_str s)
  end.

(** The four hexadecimal digits of an escape, if there are. *)
Definition hex4 (s : string) : option Z :=
  match s with
  | String.String a (String.String b (String.String c (String.String d _))) =>
      match hex_value a, hex_value b, hex_value c, hex_value d with
      | Some a, Some b, Some c, Some d => Some (((a * 16 + b) * 16 + c) * 16 + d)
      | _, _, _, _ => None
      end
  | _ => None
  end.

(** The low surrogate of an escape that follows, if there is one. *)
Definition low_surrogate (s : string) : option Z :=
  match s with
  | String.String c (String.String e s) =>
      if Ascii.eqb c backslash && (byte_of e =? 117) then
        match hex4 s with
        | Some r => if (56320 <=? r) && (r <=? 57343) then Some r else None
        | None => None
        end
      else None
  | _ => None
  end.

Definition escaped (e : ascii) : ascii :=
  let b := byte_of e in
  if b =? 98 then ascii_byte 8 else if b =? 102 then ascii_byte 12 else if b =? 110 then ascii_byte 10
  else if b =? 114 then ascii_byte 13 else if b =? 116 then ascii_byte 9 else e.

(** The string a literal's body stands for; the fuel is its length. *)
Fixpoint unquote (fuel : nat) (s : string) : string :=
  match fuel, s with
  | S fuel, String.String c s' =>
      if Ascii.eqb c backslash then
        match s' with
        | String.String e s'' =>
            if byte_of e =? 117 then
              match hex4 s'' with
              | Some r =>
                  let rest := drop 4 s'' in
                  if (55296 <=? r) && (r <=? 56319) then
                    match low_surrogate rest with
                    | Some r' =>
                        encode_rune (65536 + (r - 55296) * 1024 + (r' - 56320)) +:+ unquote fuel (drop 6 rest)
                    | None => encode_rune 65533 +:+ unquote fuel rest
                    end
                  else encode_rune r +:+ unquote fuel rest
              | None => ""
              end
            else String.String (escaped e) (unquote fuel s'')
        | EmptyString => ""
        end
      else
        let '(n, valid) := first_rune s in
        (if valid then take n s else encode_rune 65533) +:+ unquote fuel (drop n s)
  | _, _ => ""
  end.

Fixpoint span_digits (s : string) : string * string :=
  match s with
  | String.String c s' => if is_digit c then let '(a, b) := span_digits s' in (String.String c a, b) else ("", s)
  | EmptyString => ("", "")
  end.

(** A fraction or an exponent: nothing, or its text with at least one digit. *)
Definition scan_frac (s : string) : option (string * string) :=
  match strip "." s with
  | Some s => let '(ds, rest) := span_digits s in
              if decide (ds = "") then None else Some ("." +:+ ds, rest)
  | None => Some ("", s)
  end.

Definition scan_exp (s : string) : option (string * string) :=
  match s with
  | String.String c s' =>
      if (byte_of c =? 101) || (byte_of c =? 69) then
        let '(sign, s') := match s' with
                           | String.String g r => if (byte_of g =? 43) || (byte_of g =? 45)
                                                  then (String.String g "", r) else ("", s')
                           | EmptyString => ("", "")
                           end in
        let '(ds, rest) := span_digits s' in
        if decide (ds = "") then None else Some (String.String c (sign +:+ ds), rest)
      else Some ("", s)
  | EmptyString => Some ("", "")
  end.

(** A number literal and what follows. *)
Definition scan_num (s : string) : option (string * string) :=
  let '(sign, s) := match strip "-" s with Some s => ("-", s) | None => ("", s) end in
  let '(ds, s) := match strip "0" s with Some s => ("0", s) | None => span_digits s end in
  if decide (ds = "") then None
  else match scan_frac s with
       | Some (fr, s) =>
           match scan_exp s with
           | Some (ex, s) => Some (sign +:+ ds +:+ fr +:+ ex, s)
           | None => None
           end
       | None => None
       end.

(** The text of [s] before its suffix [rest]. *)
Definition before (s rest : string) : string := take (String.length s - String.length rest) s.

(** The elements of an array after its bracket, with a scanner of values. *)
Fixpoint elements (scan : string -> option (json * string)) (fuel : nat) (s : string)
    : option (list string * string) :=
  match fuel with
  | O => None
  | S fuel =>
      match scan s with
      | None => None
      | Some (_, rest) =>
          let v := before s rest in
          match skip_ws rest with
          | String.String c rest =>
              if byte_of c =? 93 then Some ([v], rest)
              else if byte_of c =? 44 then
                match elements scan fuel (skip_ws rest) with
                | Some (vs, rest) => Some (v :: vs, rest)
                | None => None
                end
              else None
          | EmptyString => None
          end
      end
  end.

(** The members of an object after its brace. *)
Fixpoint members (scan : string -> option (json * string)) (fuel : nat) (s : string)
    : option (list (string * string) * string) :=
  match fuel with
  | O => None
  | S fuel =>
      match strip quote s with
      | None => None
      | Some s =>
          match scan_str s with
          | None => None
          | Some (body, s) =>
              match strip ":" (skip_ws s) with
              | None => None
              | Some s =>
                  let s := skip_ws s in
                  match scan s with
                  | None => None
                  | Some (_, rest) =>
                      let kv := (unquote (String.length body) body, before s rest) in
                      match skip_ws rest with
                      | String.String c rest =>
                          if byte_of c =? 125 then Some ([kv], rest)
                          else if byte_of c =? 44 then
                            match members scan fuel (skip_ws rest) with
                            | Some (kvs, rest) => Some (kv :: kvs, rest)
                            | None => None
                            end
                          else None
                      | EmptyString => None
                      end
                  end
              end
          end
      end
  end.

(** Go refuses texts nested deeper than this. *)
Definition maxNestingDepth : Z := 10000.

(** [null], [true], [false] or a number. *)
Definition scan_literal (s : string) : option (json * string) :=
  match strip "null" s, strip "true" s, strip "false" s with
  | Some rest, _, _ => Some (JNull, rest)
  | _, Some rest, _ => Some (JBool true, rest)
  | _, _, Some rest => Some (JBool false, rest)
  | None, None, None => match scan_num s with Some (lit, rest) => Some (JNum lit, rest) | None => None end
  end.

(** A value at nesting depth [depth], and what follows it. *)
Fixpoint scan (fuel : nat) (depth : Z) (s : string) : option (json * string) :=
  match fuel, s with
  | S fuel, String.String c r =>
      if byte_of c =? 34 then
        match scan_str r with
        | Some (body, rest) => Some (JStr (unquote (String.length body) body), rest)
        | None => None
        end
      else if byte_of c =? 123 then
        if maxNestingDepth <? depth + 1 then None
        else match strip "}" (skip_ws r) with
             | Some rest => Some (JObj [], rest)
             | None =>
                 match members (scan fuel (depth + 1)) fuel (skip_ws r) with
                 | Some (kvs, rest) => Some (JObj kvs, rest)
                 | None => None
                 end
             end
      else if byte_of c =? 91 then
        if maxNestingDepth <? depth + 1 then None
        else match strip "]" (skip_ws r) with
             | Some rest => Some (JArr [], rest)
             | None =>
                 match elements (scan fuel (depth + 1)) fuel (skip_ws r) with
                 | Some (vs, rest) => Some (JArr vs, rest)
                 | None => None
                 end
             end
      else scan_literal s
  | _, _ => None
  end.

(** The value of a whole text: [json.Unmarshal] first checks that the text is valid. *)
Definition parse (s : string) : option json :=
  match scan (S (String.length s)) 0 (skip_ws s) with
  | Some (v, rest) => if decide (skip_ws rest = "") then Some v else None
  | None => None
  end.

(** ** Decoding *)

Definition mapM {A B} (f : A -> option B) : list A -> option (list B) :=
  fix go xs := match xs with
               | [] => Some []
               | x :: xs => match f x, go xs with Some y, Some ys => Some (y :: ys) | _, _ => None end
               end.

(** The value a Go map holds for a key: that of its last member. *)
Fixpoint find_key {A} (k : string) (kvs : list (string * A)) : option A :=
  match kvs with
  | [] => None
  | (k', v) :: kvs => match find_key k kvs with
                      | Some v => Some v
                      | None => if decide (k = k') then Some v else None
                      end
  end.

(** Into a [map[string]json.RawMessage]. *)
Definition decode_raw_map (text : string) : option (list (string * string)) :=
  match parse text with
  | Some (JObj kvs) => Some kvs
  | Some JNull => Some []
  | _ => None
  end.

(** Into an [int64] that is zero; null leaves it. *)
Definition decode_int64 (text : string) : option Z :=
  match parse text with
  | Some (JNum lit) => match ParseInt lit with (n, None) => Some n | _ => None end
  | Some JNull => Some 0
  | _ => None
  end.

(** Into a [map[string]int64]. *)
Definition decode_int_map (text : string) : option (list (string * Z)) :=
  match parse text with
  | Some (JObj kvs) => mapM (fun '(k, v) => match decode_int64 v with Some n => Some (k, n) | None => None end) kvs
  | Some JNull => Some []
  | _ => None
  end.

Definition decode_string (text : string) : option string :=
  match parse text with
  | Some (JStr s) => Some s
  | Some JNull => Some ""
  | _ => None
  end.

(** *** Members of a struct *)

(** [foldName]: upper case, and the two other characters that fold to ASCII letters
    (long s and the Kelvin sign). *)
Fixpoint fold_name (s : string) : string :=
  match s with
  | String.String c s' =>
      if between 97 122 c then String.String (ascii_byte (byte_of c - 32)) (fold_name s')
      else match strip (bytes [197; 191]) s, strip (bytes [226; 132; 170]) s with
           | Some _, _ => match s' with String.String _ r => String.String "S"%char (fold_name r) | _ => "" end
           | _, Some _ => match s' with
                          | String.String _ (String.String _ r) => String.String "K"%char (fold_name r)
                          | _ => ""
                          end
           | None, None => String.String c (fold_name s')
           end
  | EmptyString => ""
  end.

(** The texts of the members that set the field [name], in order. *)
Definition fields (name : string) (kvs : list (string * string)) : list string :=
  snd <$> filter (fun kv => fold_name kv.1 = fold_name name) kvs.

(** *** Numbers as [float64] *)

(** The exponent as [strconv.ParseFloat] reads it. *)
Fixpoint exp_digits (e : Z) (s : string) : Z :=
  match s with
  | String.String c s => exp_digits (if e <? 10000 then e * 10 + (byte_of c - 48) else e) s
  | EmptyString => e
  end.

Definition exp_value (s : string) : Z :=
  match s with
  | String.String _ s =>
      match strip "-" s, strip "+" s with
      | Some s, _ => - exp_digits 0 s
      | _, Some s => exp_digits 0 s
      | None, None => exp_digits 0 s
      end
  | EmptyString => 0
  end.

Fixpoint strip_zeros (s : string) : string :=
  match s with
  | String.String c s' => if byte_of c =? 48 then strip_zeros s' else s
  | EmptyString => ""
  end.

(** The literal rounds to an infinite [float64]. *)
Definition overflows (lit : string) : bool :=
  let s := default lit (strip "-" lit) in
  let '(ds, s) := span_digits s in
  let '(fr, s) := match strip "." s with Some s => span_digits s | None => ("", s) end in
  let sig := strip_zeros (ds +:+ fr) in
  let e := exp_value s - Z.of_nat (String.length fr) in
  let len := Z.of_nat (String.length sig) in
  match digits sig with
  | None => false
  | Some m =>
      if 310 <? len + e then true
      else if len + e <? 300 then false
      else let bound := 2 ^ 1024 - 2 ^ 970 in
           if 0 <=? e then bound <=? m * 10 ^ e else bound * 10 ^ (- e) <=? m
  end.

(** The text decodes into an [any]: every number in it is a finite [float64].  The
    fuel is the length of the text. *)
Fixpoint any_ok (fuel : nat) (text : string) : bool :=
  match fuel with
  | O => false
  | S fuel =>
      match parse text with
      | Some (JNum lit) => negb (overflows lit)
      | Some (JArr vs) => forallb (any_ok fuel) vs
      | Some (JObj kvs) => forallb (fun kv => any_ok fuel kv.2) kvs
      | Some _ => true
      | None => false
      end
  end.

Definition decode_any_ok (text : string) : bool := any_ok (S (String.length text)) text.

(** *** Decoding into a struct

    A field is its name and how a member's text sets it.  The member's name is compared
    with the field's regardless of case; members of other names are skipped. *)
Definition field (A : Type) : Type := string * (string -> A -> option A).

Fixpoint field_named {A} (fields : list (field A)) (name : string) : option (string -> A -> option A) :=
  match fields with
  | [] => None
  | (f, set) :: fields => if decide (fold_name name = fold_name f) then Some set else field_named fields name
  end.

(** The members are decoded in order; one that does not fit its field fails the whole. *)
Fixpoint decode_members {A} (fields : list (field A)) (kvs : list (string * string)) (a : A) : option A :=
  match kvs with
  | [] => Some a
  | (k, v) :: kvs =>
      match field_named fields k with
      | None => decode_members fields kvs a
      | Some set => match set v a with Some a => decode_members fields kvs a | None => None end
      end
  end.

Definition decode_struct {A} (fields : list (field A)) (text : string) (a : A) : option A :=
  match parse text with
  | Some (JObj kvs) => decode_members fields kvs a
  | Some JNull => Some a
  | _ => None
  end.

(** Fields of the types [string], [int64] and [*int64], bool, and a nested struct. *)
Definition string_field {A} (put : string -> A -> A) (text : string) (a : A) : option A :=
  match parse text with
  | Some (JStr s) => Some (put s a)
  | Some JNull => Some a
  | _ => None
  end.

Definition int_field {A} (put : Z -> A -> A) (text : string) (a : A) : option A :=
  match parse text with
  | Some (JNum lit) => match ParseInt lit with (n, None) => Some (put n a) | _ => None end
  | Some JNull => Some a
  | _ => None
  end.

Definition int_ptr_field {A} (put : option Z -> A -> A) (text : string) (a : A) : option A :=
  match parse text with
  | Some (JNum lit) => match ParseInt lit with (n, None) => Some (put (Some n) a) | _ => None end
  | Some JNull => Some (put None a)
  | _ => None
  end.

Definition bool_field {A} (put : bool -> A -> A) (text : string) (a : A) : option A :=
  match parse text with
  | Some (JBool b) => Some (put b a)
  | Some JNull => Some a
  | _ => None
  end.

Definition struct_field {A B} (fields : list (field B)) (get : A -> B) (put : B -> A -> A) (text : string) (a : A)
    : option A :=
  match decode_struct fields text (get a) with Some b => Some (put b a) | None => None end.

(** The first value of a stream: what [json.Decoder] decodes, whatever follows. *)
Definition first_value (s : string) : option string :=
  match scan (S (String.length s)) 0 (skip_ws s) with
  | Some (_, rest) => Some (before (skip_ws s) rest)
  | None => None
  end.

(** [json.NewDecoder(r).Decode(&a)] of a zero [a]. *)
Definition Decode {A} (fields : list (field A)) (zero : A) (stream : string) : option A :=
  match first_value stream with
  | Some text => decode_struct fields text zero
  | None => None
  end.
