(* ===== verification/GoJsonSpec.v ===== *)
(** * GoJsonSpec: the JSON scanner terminates and reads what was printed *)

From stdpp Require Import base tactics numbers strings list.
From Stdlib Require Import ZArith Lia Ascii.
From S2P Require Import Prelude GoString GoJson.

(** ** Lengths *)

Lemma strip_length p s r : strip p s = Some r -> String.length s = (String.length p + String.length r)%nat.
Proof. intros E. apply strip_spec in E as ->. apply length_app. Qed.

Lemma skip_ws_length s : (String.length (skip_ws s) <= String.length s)%nat.
Proof. induction s as [|c s IH]; cbn; [lia|]. destruct (is_ws c); cbn; lia. Qed.

(** A scanner consumes at least one byte. *)
Definition shrinks {A} (f : string -> option (A * string)) : Prop :=
  forall s v r, f s = Some (v, r) -> (String.length r < String.length s)%nat.

Lemma cons_fst_some c o a r :
  cons_fst c o = Some (a, r) -> exists b, o = Some (b, r).
Proof. destruct o as [[b r']|]; cbn; intros [= <- <-]. eauto. Qed.

Lemma scan_str_shrinks : shrinks scan_str.
Proof.
  intros s. remember (String.length s) as n eqn:L. assert (Ln : (String.length s <= n)%nat) by lia. clear L.
  revert s Ln. induction n as [|n IH]; intros [|c s] Ln v r E; cbn in Ln; try discriminate; try lia.
  cbn [scan_str] in E. destruct (Ascii.eqb c dquote); [injection E as <- <-; lia|].
  destruct (byte_of c <? 32); [discriminate|]. destruct (Ascii.eqb c backslash).
  2: { apply cons_fst_some in E as [b E]. apply IH in E; lia. }
  destruct s as [|e s]; [discriminate|]. cbn in Ln. destruct (is_escape e).
  { apply cons_fst_some in E as [b E]. apply cons_fst_some in E as [b' E]. apply IH in E; lia. }
  destruct (byte_of e =? 117); [|discriminate].
  destruct s as [|h1 [|h2 [|h3 [|h4 s]]]]; try discriminate. cbn in Ln.
  destruct (hex_value h1), (hex_value h2), (hex_value h3), (hex_value h4); try discriminate.
  repeat (apply cons_fst_some in E as [? E]). apply IH in E; lia.
Qed.

Lemma span_digits_app s a b : span_digits s = (a, b) -> s = a +:+ b.
Proof.
  revert a b. induction s as [|c s IH]; intros a b E; [injection E as <- <-; reflexivity|].
  cbn in E. destruct (is_digit c); [|injection E as <- <-; reflexivity].
  destruct (span_digits s) as [a' b']. injection E as <- <-.
  change (String.String c s = String.String c (a' +:+ b')). f_equal. apply IH. reflexivity.
Qed.

Lemma span_digits_length s a b : span_digits s = (a, b) -> String.length s = (String.length a + String.length b)%nat.
Proof. intros E. apply span_digits_app in E as ->. apply length_app. Qed.

Lemma scan_frac_length s f r : scan_frac s = Some (f, r) -> (String.length r <= String.length s)%nat.
Proof.
  unfold scan_frac. destruct (strip "." s) as [t|] eqn:St; [|intros [= <- <-]; lia].
  apply strip_length in St. destruct (span_digits t) as [ds rest] eqn:Sp. apply span_digits_length in Sp.
  destruct (decide (ds = "")); [discriminate|]. intros [= <- <-]. cbn in St. lia.
Qed.

Lemma scan_exp_length s f r : scan_exp s = Some (f, r) -> (String.length r <= String.length s)%nat.
Proof.
  unfold scan_exp. destruct s as [|c s]; [intros [= <- <-]; lia|].
  destruct (_ || _); [|intros [= <- <-]; lia].
  assert (G : forall t : string * string, t = match s with
    | String.String g r => if (byte_of g =? 43) || (byte_of g =? 45) then (String.String g "", r) else ("", s)
    | EmptyString => ("", "") end -> (String.length t.2 <= String.length s)%nat).
  { intros t ->. destruct s as [|g s]; [cbn; lia|]. destruct (_ || _); cbn; lia. }
  destruct (match s with String.String _ _ => _ | EmptyString => _ end) as [sign s'] eqn:E.
  specialize (G _ eq_refl). cbn in G. destruct (span_digits s') as [ds rest] eqn:Sp.
  apply span_digits_length in Sp. destruct (decide (ds = "")); [discriminate|]. intros [= <- <-]. cbn. lia.
Qed.

Lemma nonempty_length (s : string) : s <> "" -> (1 <= String.length s)%nat.
Proof. destruct s; cbn; [congruence|lia]. Qed.

Lemma scan_num_shrinks : shrinks scan_num.
Proof.
  intros s v r. unfold scan_num.
  set (p := match strip "-" s with Some t => ("-", t) | None => ("", s) end).
  assert (L : (String.length p.2 <= String.length s)%nat).
  { subst p. destruct (strip "-" s) as [t|] eqn:E; [apply strip_length in E; cbn in *; lia|cbn; lia]. }
  destruct p as [sign t]. cbn in L.
  set (q := match strip "0" t with Some u => ("0", u) | None => span_digits t end).
  assert (Q : String.length t = (String.length q.1 + String.length q.2)%nat).
  { subst q. destruct (strip "0" t) as [u|] eqn:E; [apply strip_length in E; exact E|].
    destruct (span_digits t) as [a b] eqn:Sp. apply span_digits_length, Sp. }
  destruct q as [ds u]. cbn in Q. destruct (decide (ds = "")) as [|N]; [discriminate|].
  apply nonempty_length in N.
  destruct (scan_frac u) as [[fr w]|] eqn:Fr; [|discriminate]. apply scan_frac_length in Fr.
  destruct (scan_exp w) as [[ex z]|] eqn:Ex; [|discriminate]. apply scan_exp_length in Ex.
  intros [= <- <-]. lia.
Qed.

Lemma scan_literal_shrinks : shrinks scan_literal.
Proof.
  intros s v r. unfold scan_literal.
  destruct (strip "null" s) eqn:E1; [intros [= <- <-]; apply strip_length in E1; cbn in E1; lia|].
  destruct (strip "true" s) eqn:E2; [intros [= <- <-]; apply strip_length in E2; cbn in E2; lia|].
  destruct (strip "false" s) eqn:E3; [intros [= <- <-]; apply strip_length in E3; cbn in E3; lia|].
  destruct (scan_num s) as [[lit t]|] eqn:E4; [|discriminate]. intros [= <- <-]. apply scan_num_shrinks in E4. exact E4.
Qed.

(** ** Fuel *)

Section Sequences.
Context (f : string -> option (json * string)) (Sf : shrinks f).

Lemma elements_shrinks n : shrinks (elements f n).
Proof.
  induction n as [|n IH]; intros s v r; cbn [elements]; [discriminate|].
  destruct (f s) as [[x t]|] eqn:E; [|discriminate]. apply Sf in E.
  pose proof (skip_ws_length t) as L. destruct (skip_ws t) as [|c u]; [discriminate|]. cbn in L.
  destruct (byte_of c =? 93); [intros [= <- <-]; lia|]. destruct (byte_of c =? 44); [|discriminate].
  destruct (elements f n (skip_ws u)) as [[vs w]|] eqn:E'; [|discriminate]. intros [= <- <-].
  apply IH in E'. pose proof (skip_ws_length u). lia.
Qed.

Lemma members_shrinks n : shrinks (members f n).
Proof.
  induction n as [|n IH]; intros s v r; cbn [members]; [discriminate|].
  destruct (strip quote s) as [s1|] eqn:E1; [|discriminate]. apply strip_length in E1. cbn in E1.
  destruct (scan_str s1) as [[body s2]|] eqn:E2; [|discriminate]. apply scan_str_shrinks in E2.
  pose proof (skip_ws_length s2). destruct (strip ":" (skip_ws s2)) as [s3|] eqn:E3; [|discriminate].
  apply strip_length in E3. cbn in E3. pose proof (skip_ws_length s3).
  destruct (f (skip_ws s3)) as [[x t]|] eqn:E; [|discriminate]. apply Sf in E.
  pose proof (skip_ws_length t) as L. destruct (skip_ws t) as [|c u]; [discriminate|]. cbn in L.
  destruct (byte_of c =? 125); [intros [= <- <-]; lia|]. destruct (byte_of c =? 44); [|discriminate].
  destruct (members f n (skip_ws u)) as [[vs w]|] eqn:E'; [|discriminate]. intros [= <- <-].
  apply IH in E'. pose proof (skip_ws_length u). lia.
Qed.

Context (g : string -> option (json * string)) (b : nat).
Context (Eq : forall t, (String.length t <= b)%nat -> f t = g t).

(** Fuel beyond the length makes no difference. *)
Lemma elements_fuel n m s :
  (String.length s < n)%nat -> (String.length s < m)%nat -> (String.length s <= b)%nat ->
  elements f n s = elements g m s.
Proof.
  revert m s. induction n as [|n IH]; intros [|m] s Hn Hm Hb; try lia. cbn [elements]. rewrite <- Eq by lia.
  destruct (f s) as [[x t]|] eqn:E; [|reflexivity]. apply Sf in E.
  pose proof (skip_ws_length t) as L. destruct (skip_ws t) as [|c u]; [reflexivity|]. cbn in L.
  destruct (byte_of c =? 93); [reflexivity|]. destruct (byte_of c =? 44); [|reflexivity].
  pose proof (skip_ws_length u). rewrite (IH m) by lia. reflexivity.
Qed.

Lemma members_fuel n m s :
  (String.length s < n)%nat -> (String.length s < m)%nat -> (String.length s <= b)%nat ->
  members f n s = members g m s.
Proof.
  revert m s. induction n as [|n IH]; intros [|m] s Hn Hm Hb; try lia. cbn [members].
  destruct (strip quote s) as [s1|] eqn:E1; [|reflexivity]. apply strip_length in E1. cbn in E1.
  destruct (scan_str s1) as [[body s2]|] eqn:E2; [|reflexivity]. apply scan_str_shrinks in E2.
  pose proof (skip_ws_length s2). destruct (strip ":" (skip_ws s2)) as [s3|] eqn:E3; [|reflexivity].
  apply strip_length in E3. cbn in E3. pose proof (skip_ws_length s3). rewrite <- Eq by lia.
  destruct (f (skip_ws s3)) as [[x t]|] eqn:E; [|reflexivity]. apply Sf in E.
  pose proof (skip_ws_length t) as L. destruct (skip_ws t) as [|c u]; [reflexivity|]. cbn in L.
  destruct (byte_of c =? 125); [reflexivity|]. destruct (byte_of c =? 44); [|reflexivity].
  pose proof (skip_ws_length u). rewrite (IH m) by lia. reflexivity.
Qed.
End Sequences.

Lemma scan_shrinks n d : shrinks (scan n d).
Proof.
  revert d. induction n as [|n IH]; intros d s v r; cbn [scan]; [discriminate|].
  destruct s as [|c s]; [discriminate|]. pose proof (skip_ws_length s).
  destruct (byte_of c =? 34).
  { destruct (scan_str s) as [[body t]|] eqn:E; [|discriminate]. apply scan_str_shrinks in E.
    intros [= <- <-]. cbn. lia. }
  destruct (byte_of c =? 123).
  { destruct (_ <? _); [discriminate|]. destruct (strip "}" (skip_ws s)) as [t|] eqn:E.
    - apply strip_length in E. intros [= <- <-]. cbn in *. lia.
    - destruct (members _ _ _) as [[kvs t]|] eqn:E'; [|discriminate]. intros [= <- <-].
      apply members_shrinks in E'; [cbn; lia|apply IH]. }
  destruct (byte_of c =? 91).
  { destruct (_ <? _); [discriminate|]. destruct (strip "]" (skip_ws s)) as [t|] eqn:E.
    - apply strip_length in E. intros [= <- <-]. cbn in *. lia.
    - destruct (elements _ _ _) as [[vs t]|] eqn:E'; [|discriminate]. intros [= <- <-].
      apply elements_shrinks in E'; [cbn; lia|apply IH]. }
  apply scan_literal_shrinks.
Qed.

Lemma scan_fuel n m d s :
  (String.length s < n)%nat -> (String.length s < m)%nat -> scan n d s = scan m d s.
Proof.
  revert m d s. induction n as [|n IH]; intros [|m] d s Hn Hm; try lia. cbn [scan].
  destruct s as [|c s]; [reflexivity|]. cbn in Hn, Hm. pose proof (skip_ws_length s).
  assert (Eq : forall t, (String.length t <= String.length s)%nat -> scan n (d + 1) t = scan m (d + 1) t) by
    (intros t L; apply IH; lia).
  rewrite (members_fuel _ (scan_shrinks n (d + 1)) _ _ Eq n m) by lia.
  rewrite (elements_fuel _ (scan_shrinks n (d + 1)) _ _ Eq n m) by lia. reflexivity.
Qed.

(** ** Printed numbers *)

(** A number ends here. *)
Definition delimited (rest : string) : Prop :=
  match rest with
  | String.String c _ => byte_of c = 44 \/ byte_of c = 125 \/ byte_of c = 93
  | EmptyString => True
  end.

Lemma app_String c s t : String.String c s +:+ t = String.String c (s +:+ t).
Proof. reflexivity. Qed.

Lemma span_digits_uint u rest :
  delimited rest -> span_digits (DecimalString.NilEmpty.string_of_uint u +:+ rest)
    = (DecimalString.NilEmpty.string_of_uint u, rest).
Proof.
  intros Dl. induction u; cbn [DecimalString.NilEmpty.string_of_uint]; rewrite ?app_String; cbn [span_digits];
    try (rewrite IHu; reflexivity).
  change ("" +:+ rest) with rest. destruct rest as [|c r]; [reflexivity|]. cbn in Dl |- *.
  unfold is_digit, between. destruct (Z.leb_spec 48 (byte_of c)), (Z.leb_spec (byte_of c) 57); cbn; try reflexivity; lia.
Qed.

Lemma uint_string u : u <> Decimal.Nil ->
  DecimalString.NilZero.string_of_uint u = DecimalString.NilEmpty.string_of_uint u.
Proof. destruct u; congruence || reflexivity. Qed.

(** A positive number is printed without a leading zero. *)
Lemma to_uint_head p : match Pos.to_uint p with Decimal.D0 _ | Decimal.Nil => False | _ => True end.
Proof.
  pose proof (DecimalN.Unsigned.to_of (Pos.to_uint p)) as E.
  assert (E' : N.of_uint (Pos.to_uint p) = Npos p).
  { change (Pos.to_uint p) with (N.to_uint (Npos p)). apply DecimalN.Unsigned.of_to. }
  rewrite E' in E. cbn in E. pose proof (DecimalPos.Unsigned.to_uint_nonzero p) as Z0.
  destruct (Pos.to_uint p) as [|u| | | | | | | | |] eqn:U; try exact I.
  - pose proof (DecimalPos.Unsigned.to_uint_nonnil p). congruence.
  - unfold Decimal.unorm in E. destruct (Decimal.nzhead (Decimal.D0 u)) eqn:Nz; try discriminate.
    + rewrite E in Z0. apply Z0. reflexivity.
    + exact (DecimalFacts.nzhead_nonzero _ _ Nz).
Qed.

Lemma str_app_nil (s : string) : s +:+ "" = s.
Proof. induction s as [|c s IH]; [reflexivity|]. rewrite app_String, IH. reflexivity. Qed.

Lemma scan_tail rest : delimited rest -> scan_frac rest = Some ("", rest) /\ scan_exp rest = Some ("", rest).
Proof.
  destruct rest as [|c r]; [split; reflexivity|]. intros Dl. cbn in Dl. unfold scan_frac, scan_exp. cbn [strip].
  destruct (Ascii.eqb_spec "."%char c) as [<-|].
  { exfalso. destruct Dl as [Dl|[Dl|Dl]]; vm_compute in Dl; discriminate Dl. }
  destruct (Z.eqb_spec (byte_of c) 101), (Z.eqb_spec (byte_of c) 69); try lia. split; reflexivity.
Qed.

(** The digits of a number, then what ends it. *)
Definition unsigned (sign s : string) : option (string * string) :=
  let '(ds, s) := match strip "0" s with Some s => ("0", s) | None => span_digits s end in
  if decide (ds = "") then None
  else match scan_frac s with
       | Some (fr, s) =>
           match scan_exp s with
           | Some (ex, s) => Some (sign +:+ ds +:+ fr +:+ ex, s)
           | None => None
           end
       | None => None
       end.

Lemma scan_digits p rest sign :
  delimited rest ->
  unsigned sign (DecimalString.NilZero.string_of_uint (Pos.to_uint p) +:+ rest)
    = Some (sign +:+ DecimalString.NilZero.string_of_uint (Pos.to_uint p), rest).
Proof.
  intros Dl. pose proof (to_uint_head p) as Hd. pose proof (scan_tail rest Dl) as [T1 T2].
  rewrite uint_string by (apply DecimalPos.Unsigned.to_uint_nonnil). unfold unsigned.
  assert (S0 : strip "0" (DecimalString.NilEmpty.string_of_uint (Pos.to_uint p) +:+ rest) = None) by
    (destruct (Pos.to_uint p); try contradiction; reflexivity).
  rewrite S0, span_digits_uint by exact Dl.
  destruct (decide _) as [E|_]; [destruct (Pos.to_uint p); discriminate || contradiction|].
  rewrite T1, T2, !str_app_nil. reflexivity.
Qed.

Lemma scan_num_sign s :
  scan_num s = match strip "-" s with Some t => unsigned "-" t | None => unsigned "" s end.
Proof. unfold scan_num. destruct (strip "-" s); reflexivity. Qed.

(** A printed integer is scanned as printed. *)
Lemma scan_num_FormatInt n rest : delimited rest -> scan_num (FormatInt n +:+ rest) = Some (FormatInt n, rest).
Proof.
  intros Dl. unfold FormatInt. destruct n as [|p|p]; cbn [Z.to_int DecimalString.NilZero.string_of_int].
  - unfold scan_num. pose proof (scan_tail rest Dl) as [T1 T2].
    change (DecimalString.NilZero.string_of_uint _ +:+ rest) with (String.String "0" rest).
    cbn [strip Ascii.eqb Bool.eqb]. cbn. rewrite T1, T2. reflexivity.
  - rewrite scan_num_sign.
    assert (S0 : strip "-" (DecimalString.NilZero.string_of_uint (Pos.to_uint p) +:+ rest) = None).
    { pose proof (digit_head p) as (c & s & E & N1 & _). rewrite E, app_String. cbn [strip].
      destruct (Ascii.eqb_spec "-"%char c); [congruence|reflexivity]. }
    rewrite S0. exact (scan_digits p rest "" Dl).
  - change (String.String "-"%char ?x +:+ rest) with ("-" +:+ (x +:+ rest)).
    rewrite scan_num_sign, strip_app. exact (scan_digits p rest "-" Dl).
Qed.

(** A printed integer starts with a sign or a digit. *)
Lemma FormatInt_head n :
  exists c s, FormatInt n = String.String c s /\ (byte_of c = 45 \/ 48 <= byte_of c <= 57).
Proof.
  assert (P : forall p, exists c s,
    DecimalString.NilZero.string_of_uint (Pos.to_uint p) = String.String c s /\ 48 <= byte_of c <= 57).
  { intros p. pose proof (DecimalPos.Unsigned.to_uint_nonnil p).
    destruct (Pos.to_uint p); [congruence|..]; (eexists _, _; split; [reflexivity|vm_compute; split; discriminate]). }
  unfold FormatInt. destruct n as [|p|p]; cbn [Z.to_int DecimalString.NilZero.string_of_int].
  - eexists _, _. split; [reflexivity|]. right. vm_compute. split; discriminate.
  - destruct (P p) as (c & s & E & H). eauto 6.
  - eexists _, _. split; [reflexivity|]. left. reflexivity.
Qed.

(** ** Printed objects *)

(** A text that is scanned as one value at nesting depth [d], whatever ends it. *)
Definition value (d : Z) (v : string) : Prop :=
  forall n rest, (String.length v < n)%nat -> delimited rest ->
  skip_ws (v +:+ rest) = v +:+ rest /\ exists j, scan n d (v +:+ rest) = Some (j, rest).

Lemma scan_FormatInt n d k rest :
  (0 < n)%nat -> delimited rest -> scan n d (FormatInt k +:+ rest) = Some (JNum (FormatInt k), rest).
Proof.
  intros Hn Dl. pose proof (scan_num_FormatInt k rest Dl) as E.
  destruct (FormatInt_head k) as (c & s & Ek & Hc). rewrite Ek, app_String in *.
  destruct n as [|n]; [lia|]. cbn [scan].
  destruct (Z.eqb_spec (byte_of c) 34), (Z.eqb_spec (byte_of c) 123), (Z.eqb_spec (byte_of c) 91); try lia.
  unfold scan_literal. cbn [strip].
  destruct (Ascii.eqb_spec "n"%char c) as [<-|]; [exfalso; vm_compute in Hc; intuition discriminate|].
  destruct (Ascii.eqb_spec "t"%char c) as [<-|]; [exfalso; vm_compute in Hc; intuition discriminate|].
  destruct (Ascii.eqb_spec "f"%char c) as [<-|]; [exfalso; vm_compute in Hc; intuition discriminate|].
  rewrite E. reflexivity.
Qed.

Lemma FormatInt_skip_ws k rest : skip_ws (FormatInt k +:+ rest) = FormatInt k +:+ rest.
Proof.
  destruct (FormatInt_head k) as (c & s & -> & Hc). rewrite app_String. cbn. unfold is_ws.
  destruct (Z.eqb_spec (byte_of c) 32), (Z.eqb_spec (byte_of c) 9), (Z.eqb_spec (byte_of c) 10),
    (Z.eqb_spec (byte_of c) 13); try lia. reflexivity.
Qed.

Lemma value_FormatInt d k : value d (FormatInt k).
Proof.
  intros n rest L Dl. split; [apply FormatInt_skip_ws|].
  eexists. apply scan_FormatInt; [lia|exact Dl].
Qed.

(** An integer is read back from its decimal form. *)
Lemma parse_FormatInt n : parse (FormatInt n) = Some (JNum (FormatInt n)).
Proof.
  unfold parse.
  replace (skip_ws (FormatInt n)) with (FormatInt n +:+ "") by
    (rewrite <- FormatInt_skip_ws; rewrite str_app_nil; reflexivity).
  rewrite scan_FormatInt by (lia || exact I). reflexivity.
Qed.

Lemma decode_int64_FormatInt n : in_int64 n -> decode_int64 (FormatInt n) = Some n.
Proof. intros R. unfold decode_int64. rewrite parse_FormatInt, ParseInt_FormatInt by exact R. reflexivity. Qed.

(** Keys printed as they are: ASCII without controls, quotes and backslashes. *)
Definition plain_char (c : ascii) : bool :=
  between 32 127 c && negb (Ascii.eqb c dquote) && negb (Ascii.eqb c backslash).

Fixpoint plain (s : string) : bool :=
  match s with String.String c s => plain_char c && plain s | EmptyString => true end.

Lemma scan_str_plain k rest : plain k = true -> scan_str (k +:+ quote +:+ rest) = Some (k, rest).
Proof.
  induction k as [|c k IH]; cbn [plain]; intros P; [reflexivity|].
  apply andb_true_iff in P as [Pc P]. unfold plain_char in Pc. rewrite !andb_true_iff, !negb_true_iff in Pc.
  destruct Pc as [[B Q] Bs]. rewrite app_String. cbn [scan_str]. rewrite Q, Bs.
  unfold between in B. destruct (Z.ltb_spec (byte_of c) 32); [bool_to_prop; lia|].
  rewrite IH by exact P. reflexivity.
Qed.

Lemma unquote_plain k n : plain k = true -> (String.length k <= n)%nat -> unquote n k = k.
Proof.
  revert n. induction k as [|c k IH]; cbn [plain String.length]; intros n P L; [destruct n; reflexivity|].
  apply andb_true_iff in P as [Pc P]. unfold plain_char in Pc. rewrite !andb_true_iff, !negb_true_iff in Pc.
  destruct Pc as [[B _] Bs]. destruct n as [|n]; [lia|]. cbn [unquote]. rewrite Bs. unfold between in B.
  unfold first_rune, between. bool_to_prop.
  destruct (Z.leb_spec 0 (byte_of c)), (Z.leb_spec (byte_of c) 127); try lia. cbn.
  rewrite IH by (assumption || lia). reflexivity.
Qed.

(** The members of an object as texts, after its brace. *)
Fixpoint print_members (kvs : list (string * string)) : string :=
  match kvs with
  | [] => "}"
  | (k, v) :: kvs =>
      quote +:+ k +:+ quote +:+ ":" +:+ v +:+ match kvs with [] => "}" | _ => "," +:+ print_members kvs end
  end.

Definition obj (kvs : list (string * string)) : string := "{" +:+ print_members kvs.

Definition printable (d : Z) (kvs : list (string * string)) : Prop :=
  Forall (fun kv => plain kv.1 = true /\ value d kv.2) kvs.

Lemma app_app (a b c : string) : (a +:+ b) +:+ c = a +:+ b +:+ c.
Proof. symmetry. apply str_app_assoc. Qed.

Lemma drop_length n s : String.length (drop n s) = (String.length s - n)%nat.
Proof. revert s. induction n as [|n IH]; intros [|c s]; cbn; auto. Qed.

Lemma take_app s t : take (String.length s) (s +:+ t) = s.
Proof.
  induction s as [|c s IH]; [destruct t; reflexivity|].
  change (take (String.length (String.String c s)) (String.String c s +:+ t))
    with (String.String c (take (String.length s) (s +:+ t))).
  rewrite IH. reflexivity.
Qed.

Lemma before_app s t : before (s +:+ t) t = s.
Proof.
  unfold before. rewrite length_app. replace (_ + _ - _)%nat with (String.length s) by lia. apply take_app.
Qed.

(** One member and what follows it. *)
Lemma members_printed d n m k v tail :
  plain k = true -> value d v -> (String.length v < m)%nat -> delimited tail ->
  members (scan m d) (S n) (quote +:+ k +:+ quote +:+ ":" +:+ v +:+ tail) =
  match skip_ws tail with
  | String.String c rest =>
      if byte_of c =? 125 then Some ([(k, v)], rest)
      else if byte_of c =? 44 then
        match members (scan m d) n (skip_ws rest) with
        | Some (kvs, rest) => Some ((k, v) :: kvs, rest)
        | None => None
        end
      else None
  | EmptyString => None
  end.
Proof.
  intros P V Lv Dl. cbn [members]. rewrite strip_app, scan_str_plain by exact P.
  change (skip_ws (":" +:+ v +:+ tail)) with (":" +:+ v +:+ tail). rewrite strip_app.
  destruct (V m tail Lv Dl) as [-> [j ->]].
  rewrite unquote_plain by (assumption || lia).
  rewrite before_app. reflexivity.
Qed.

Lemma members_print d m kvs rest n :
  kvs <> [] -> printable d kvs -> (String.length (print_members kvs) <= n)%nat ->
  (String.length (print_members kvs) <= m)%nat ->
  members (scan m d) n (print_members kvs +:+ rest) = Some (kvs, rest).
Proof.
  revert n. induction kvs as [|[k v] kvs IH]; intros n N P Ln Lm; [congruence|].
  inversion P as [|? ? [Pk Pv] P']; subst. cbn [fst snd] in Pk, Pv. cbn [print_members] in *.
  rewrite !app_app in *.
  rewrite !length_app in Ln, Lm. change (String.length quote) with 1%nat in Ln, Lm.
  change (String.length ":") with 1%nat in Ln, Lm. destruct n as [|n]; [lia|].
  destruct kvs as [|kv kvs].
  - rewrite members_printed; [reflexivity|exact Pk|exact Pv|lia|right; left; reflexivity].
  - rewrite length_app in Ln, Lm. change (String.length ",") with 1%nat in Ln, Lm. rewrite app_app.
    rewrite members_printed; [|exact Pk|exact Pv|lia|left; reflexivity].
    set (more := print_members (kv :: kvs) +:+ rest).
    change (skip_ws ("," +:+ more)) with (String.String ","%char more). cbv iota beta.
    change (byte_of ","%char) with 44. cbn [Z.eqb Pos.eqb].
    assert (W : skip_ws more = more) by (destruct kv; reflexivity). rewrite W. unfold more. rewrite IH; [reflexivity|discriminate|exact P'|lia|lia].
Qed.

Lemma scan_obj n d kvs rest :
  kvs <> [] -> d + 1 <= maxNestingDepth -> printable (d + 1) kvs ->
  (String.length (obj kvs) < n)%nat -> scan n d (obj kvs +:+ rest) = Some (JObj kvs, rest).
Proof.
  intros N D P L. unfold obj in *. rewrite app_app in *.
  change ("{" +:+ ?x) with (String.String "{"%char x) in *. cbn [String.length] in L.
  destruct n as [|n]; [lia|]. cbn [scan]. change (byte_of "{"%char) with 123. cbn [Z.eqb Pos.eqb].
  destruct (Z.ltb_spec maxNestingDepth (d + 1)); [lia|].
  assert (W : skip_ws (print_members kvs +:+ rest) = print_members kvs +:+ rest) by
    (destruct kvs as [|[] ?]; [congruence|reflexivity]).
  assert (S0 : strip "}" (print_members kvs +:+ rest) = None) by (destruct kvs as [|[] ?]; [congruence|reflexivity]).
  rewrite W, S0, members_print; [reflexivity|exact N|exact P|lia|lia].
Qed.

(** A printed object is read back, whatever white space follows. *)
Lemma parse_obj_ws kvs ws :
  kvs <> [] -> printable 1 kvs -> skip_ws ws = "" -> parse (obj kvs +:+ ws) = Some (JObj kvs).
Proof.
  intros N P W. unfold parse. change (skip_ws (obj kvs +:+ ws)) with (obj kvs +:+ ws).
  rewrite scan_obj; [rewrite W; reflexivity|exact N|unfold maxNestingDepth; lia|exact P|].
  rewrite length_app. lia.
Qed.

Lemma parse_obj kvs : kvs <> [] -> printable 1 kvs -> parse (obj kvs) = Some (JObj kvs).
Proof. intros N P. rewrite <- (str_app_nil (obj kvs)). apply parse_obj_ws; auto. Qed.

Lemma value_obj d kvs :
  kvs <> [] -> d + 1 <= maxNestingDepth -> printable (d + 1) kvs -> value d (obj kvs).
Proof.
  intros N D P n rest L Dl. split; [reflexivity|]. eexists. apply scan_obj; assumption.
Qed.

(** ** Decoded members *)

Lemma find_key_app {A} k (a b : list (string * A)) :
  find_key k (a ++ b) = match find_key k b with Some v => Some v | None => find_key k a end.
Proof.
  induction a as [|[k' v] a IH]; cbn; [destruct (find_key k b); reflexivity|].
  rewrite IH. destruct (find_key k b); reflexivity.
Qed.

Lemma find_key_none {A} k (a : list (string * A)) : Forall (fun kv => kv.1 <> k) a -> find_key k a = None.
Proof.
  induction 1 as [|[k' v] a N F IH]; [reflexivity|]. cbn in *. rewrite IH, decide_False by congruence. reflexivity.
Qed.

(** Integers as the texts of members. *)
Definition int_members (ints : list (string * Z)) : list (string * string) :=
  map (fun kn => (kn.1, FormatInt kn.2)) ints.

Lemma printable_ints d ints : Forall (fun kn => plain kn.1 = true) ints -> printable d (int_members ints).
Proof.
  intros F. unfold printable, int_members. apply Forall_map. eapply Forall_impl; [exact F|].
  intros [k n] P. cbn in *. split; [exact P|apply value_FormatInt].
Qed.

(** An object of integers is read back as the map it was printed from. *)
Lemma decode_int_map_obj ints :
  ints <> [] -> Forall (fun kn => plain kn.1 = true) ints -> Forall (fun kn => in_int64 kn.2) ints ->
  decode_int_map (obj (int_members ints)) = Some ints.
Proof.
  intros N P R. unfold decode_int_map. rewrite parse_obj; [|destruct ints; discriminate || congruence|apply printable_ints, P].
  clear N P. induction R as [|[k n] ints Rn R IH]; [reflexivity|]. cbn [int_members map mapM fst snd] in *.
  rewrite decode_int64_FormatInt by exact Rn. unfold int_members in IH. rewrite IH. reflexivity.
Qed.

Lemma mapM_none {A B} (f : A -> option B) xs x : In x xs -> f x = None -> mapM f xs = None.
Proof.
  intros I E. induction xs as [|y xs IH]; [destruct I|]. cbn. destruct I as [->|I]; [rewrite E; reflexivity|].
  rewrite IH by exact I. destruct (f y); reflexivity.
Qed.

(** A single member that is not an integer makes the whole object unreadable as a map of integers. *)
Lemma decode_int_map_none kvs k v :
  printable 1 kvs -> In (k, v) kvs -> decode_int64 v = None -> decode_int_map (obj kvs) = None.
Proof.
  intros P I E. unfold decode_int_map. rewrite parse_obj; [|intros ->; destruct I|exact P].
  eapply mapM_none; [exact I|]. cbn. rewrite E. reflexivity.
Qed.
