(* ===== verification/Api.v ===== *)
(** * Api: the public data of pkg/api and pkg/store

    Keys, limits, costs and decisions (pkg/api/types.go), the store's errors and
    borrow records and its interface (pkg/store/store.go).  [int64] fields are
    [Z]; a [time.Time] is its number of nanoseconds since the Unix epoch, a
    [time.Duration] an [int64] number of nanoseconds. *)

From stdpp Require Import base tactics numbers strings gmap.
From Stdlib Require Import ZArith Lia.
From S2P Require Import Prelude.

(** ** Package time *)

Abbreviation Time := Z (only parsing).
Abbreviation Duration := Z (only parsing).

Definition Millisecond : Duration := 1000000.
Definition Second : Duration := 1000000000.
Definition Minute : Duration := 60 * Second.
Definition Hour : Duration := 60 * Minute.

(** January 1, year 1, 00:00:00 UTC: the zero [time.Time]. *)
Definition zeroTime : Time := -62135596800 * Second.

Definition IsZero (t : Time) : bool := t =? zeroTime.
Definition After (t u : Time) : bool := u <? t.
Definition Before (t u : Time) : bool := t <? u.
Definition Add (t : Time) (d : Duration) : Time := t + d.

(** [t.Sub(u)] saturates. *)
Definition Sub (t u : Time) : Duration := Z.max int64_min (Z.min int64_max (t - u)).

(** [time.UnixMilli(ms)] and [t.UnixMilli()]. *)
Definition UnixMilli (ms : Z) : Time := ms * Millisecond.
Definition toUnixMilli (t : Time) : Z := t / Millisecond.

(** ** Limit types *)

Abbreviation LimitType_t := string (only parsing).

Definition LimitTypeNone : LimitType_t := "".
Definition LimitTypeRequests : LimitType_t := "requests".
Definition LimitTypeTokens : LimitType_t := "tokens".
Definition LimitTypeInputTokens : LimitType_t := "input_tokens".
Definition LimitTypeOutputTokens : LimitType_t := "output_tokens".
Definition LimitTypeBackend : LimitType_t := "backend".

Inductive FailMode : Type := FailClosed | FailOpen.

#[export] Instance FailMode_eq_dec : EqDecision FailMode.
Proof. solve_decision. Defined.

(** ** Errors *)

Inductive error : Type :=
| ErrReservationNotFound
| ErrReservationSettled
| ErrReservationRefunded
| ErrWrongSettleMode
| ErrPartialSplit           (* api.Limits.Validate *)
| ErrInvalid (msg : string) (* memory.errInvalid, errors.New("valve: ...") *)
| ErrOther (msg : string).  (* driver, random source, response shape *)

#[export] Instance error_eq_dec : EqDecision error.
Proof. solve_decision. Defined.

(** [err.Error()] *)
Definition errMsg (e : error) : string :=
  match e with
  | ErrReservationNotFound => "valve: reservation not found"
  | ErrReservationSettled => "valve: reservation already settled"
  | ErrReservationRefunded => "valve: reservation already refunded"
  | ErrWrongSettleMode => "valve: wrong settle mode for reservation"
  | ErrPartialSplit =>
      "valve: InputTokensPerMinute and OutputTokensPerMinute must both be set (or neither)"
  | ErrInvalid msg => "valve: " +:+ msg
  | ErrOther msg => msg
  end.

(** [(T, error)] of Go; on an error every function of the program returns the
    zero value for [T]. *)
Abbreviation res := (result error) (only parsing).

(** ** Keys, limits, costs *)

Record Key := mkKey { Subject : string; Model : string }.

Record Limits := mkLimits {
  RequestsPerMinute : Z;
  TokensPerMinute : Z;
  InputTokensPerMinute : Z;
  OutputTokensPerMinute : Z
}.

Definition Split (l : Limits) : bool :=
  (0 <? InputTokensPerMinute l) && (0 <? OutputTokensPerMinute l).

Definition Validate (l : Limits) : option error :=
  let in_ := 0 <? InputTokensPerMinute l in
  let out := 0 <? OutputTokensPerMinute l in
  if negb (Bool.eqb in_ out) then Some ErrPartialSplit else None.

Record Cost := mkCost {
  Requests : Z;
  Tokens : Z;
  InputTokens : Z;
  OutputTokens : Z
}.

#[export] Instance eta_Cost : Eta Cost :=
  fun c => mkCost (Requests c) (Tokens c) (InputTokens c) (OutputTokens c).

(** ** Decisions *)

Record Decision := mkDecision {
  Allowed : bool;
  LimitType : LimitType_t;
  RemainingRPM : Z;
  RemainingTPM : Z;
  RemainingITPM : Z;
  RemainingOTPM : Z;
  LimitRPM : Z;
  LimitTPM : Z;
  LimitITPM : Z;
  LimitOTPM : Z;
  ResetRPM : Time;
  ResetTPM : Time;
  ResetITPM : Time;
  ResetOTPM : Time;
  RetryAfter : Duration;
  ReservationID : string;
  OvershootTPM : Z;
  OvershootITPM : Z;
  OvershootOTPM : Z
}.

#[export] Instance eta_Decision : Eta Decision := fun d =>
  mkDecision (Allowed d) (LimitType d)
    (RemainingRPM d) (RemainingTPM d) (RemainingITPM d) (RemainingOTPM d)
    (LimitRPM d) (LimitTPM d) (LimitITPM d) (LimitOTPM d)
    (ResetRPM d) (ResetTPM d) (ResetITPM d) (ResetOTPM d)
    (RetryAfter d) (ReservationID d)
    (OvershootTPM d) (OvershootITPM d) (OvershootOTPM d).

(** [api.Decision{}] *)
Definition zeroDecision : Decision :=
  mkDecision false LimitTypeNone 0 0 0 0 0 0 0 0
    zeroTime zeroTime zeroTime zeroTime 0 "" 0 0 0.

(** ** Package store *)

Definition ReservationTTL : Duration := 15 * Minute.

(** The life of a reservation: the strings pending, settled and refunded. *)
Inductive status : Type := pending | settled | refunded.

#[export] Instance status_eq_dec : EqDecision status.
Proof. solve_decision. Defined.

Record BorrowSpec := mkBorrowSpec {
  MinRPM : Z; MinTPM : Z; MinITPM : Z; MinOTPM : Z;
  ChunkRPM : Z; ChunkTPM : Z; ChunkITPM : Z; ChunkOTPM : Z
}.

#[export] Instance eta_BorrowSpec : Eta BorrowSpec := fun s =>
  mkBorrowSpec (MinRPM s) (MinTPM s) (MinITPM s) (MinOTPM s)
    (ChunkRPM s) (ChunkTPM s) (ChunkITPM s) (ChunkOTPM s).

Definition zeroBorrowSpec : BorrowSpec := mkBorrowSpec 0 0 0 0 0 0 0 0.

Record BorrowResult := mkBorrowResult {
  bAllowed : bool;
  bLimitType : LimitType_t;
  GotRPM : Z; GotTPM : Z; GotITPM : Z; GotOTPM : Z;
  bRemainingRPM : Z; bRemainingTPM : Z; bRemainingITPM : Z; bRemainingOTPM : Z;
  bRetryAfter : Duration;
  bLimitRPM : Z; bLimitTPM : Z; bLimitITPM : Z; bLimitOTPM : Z
}.

#[export] Instance eta_BorrowResult : Eta BorrowResult := fun b =>
  mkBorrowResult (bAllowed b) (bLimitType b)
    (GotRPM b) (GotTPM b) (GotITPM b) (GotOTPM b)
    (bRemainingRPM b) (bRemainingTPM b) (bRemainingITPM b) (bRemainingOTPM b)
    (bRetryAfter b)
    (bLimitRPM b) (bLimitTPM b) (bLimitITPM b) (bLimitOTPM b).

Definition zeroBorrowResult : BorrowResult :=
  mkBorrowResult false LimitTypeNone 0 0 0 0 0 0 0 0 0 0 0 0 0.

(** ** Axes

    The four budgets, which the code spells out field by field. *)

Inductive axis : Type := RPM | TPM | ITPM | OTPM.

#[export] Instance axis_eq_dec : EqDecision axis.
Proof. solve_decision. Defined.

(** An axis's part of limits, costs and loans. *)
Definition limit_of (a : axis) (l : Limits) : Z :=
  match a with
  | RPM => RequestsPerMinute l
  | TPM => TokensPerMinute l
  | ITPM => InputTokensPerMinute l
  | OTPM => OutputTokensPerMinute l
  end.

Definition cost_of (a : axis) (c : Cost) : Z :=
  match a with RPM => Requests c | TPM => Tokens c | ITPM => InputTokens c | OTPM => OutputTokens c end.

Definition got_of (a : axis) (b : BorrowResult) : Z :=
  match a with RPM => GotRPM b | TPM => GotTPM b | ITPM => GotITPM b | OTPM => GotOTPM b end.

(** The axes a request is charged on: requests always, total tokens in classic
    mode, input and output tokens in split mode. *)
Definition counts (a : axis) (sp : bool) : bool :=
  match a with RPM => true | TPM => negb sp | ITPM | OTPM => sp end.

Definition axes (sp : bool) : list axis := if sp then [RPM; ITPM; OTPM] else [RPM; TPM].

Definition axis_type (a : axis) : LimitType_t :=
  match a with
  | RPM => LimitTypeRequests
  | TPM => LimitTypeTokens
  | ITPM => LimitTypeInputTokens
  | OTPM => LimitTypeOutputTokens
  end.

(** ** Facts *)

Lemma Split_true l :
  Split l = true <-> 0 < InputTokensPerMinute l /\ 0 < OutputTokensPerMinute l.
Proof. unfold Split. rewrite andb_true_iff, !Z.ltb_lt. tauto. Qed.

(** Limits are accepted exactly when both or neither split budget is set. *)
Lemma Validate_None l :
  Validate l = None <->
  (0 < InputTokensPerMinute l <-> 0 < OutputTokensPerMinute l).
Proof.
  unfold Validate.
  destruct (Z.ltb_spec 0 (InputTokensPerMinute l)), (Z.ltb_spec 0 (OutputTokensPerMinute l));
    simpl; split; intros; try reflexivity; try discriminate; lia.
Qed.

#[export] Hint Unfold Add After Before : valve.
