(* ===== verification/GoEncode.v ===== *)
(** * GoEncode: what the program prints with Go's standard library

    [json.Marshal] of the values it writes, [time.RFC3339Nano] and
    [time.Duration.String], [hex.EncodeToString] and [sha256.Sum256]. *)

From stdpp Require Import base tactics numbers strings list.
From Stdlib Require Import ZArith Lia Ascii.
From S2P Require Import Prelude GoString GoJson Api.

(** ** encoding/json *)

(** A value of type [any] the program encodes; the members of a struct are in the order
    of its fields, a map's in any order. *)
#[warnings="-register-all"]
Inductive any : Type :=
| ABool (b : bool)
| AInt (n : Z)
| AString (s : string)
| AStruct (fields : list (string * any))
| AMap (entries : list (string * any)).

Definition hex_digit (n : Z) : ascii := ascii_byte (if n <? 10 then 48 + n else 87 + n).

Definition escape_byte (c : ascii) : string :=
  let b := byte_of c in
  let short (e : ascii) := String.String backslash (String.String e "") in
  if (b =? 34) || (b =? 92) then short c
  else if b =? 8 then short "b"%char else if b =? 12 then short "f"%char else if b =? 10 then short "n"%char
  else if b =? 13 then short "r"%char else if b =? 9 then short "t"%char
  else if (b <? 32) || (b =? 60) || (b =? 62) || (b =? 38) then
    String.String backslash ("u00" +:+ String.String (hex_digit (b / 16)) (String.String (hex_digit (b mod 16)) ""))
  else String.String c "".

(** The text between the quotes; the fuel is the length of the string. *)
Fixpoint escape (fuel : nat) (s : string) : string :=
  match fuel, s with
  | S fuel, String.String c s' =>
      if between 0 127 c then escape_byte c +:+ escape fuel s'
      else let '(n, valid) := first_rune s in
           let r := take n s in
           (if negb valid then String.String backslash "ufffd"
            else if decide (r = bytes [226; 128; 168]) then String.String backslash "u2028"
            else if decide (r = bytes [226; 128; 169]) then String.String backslash "u2029"
            else r) +:+ escape fuel (drop n s)
  | _, _ => ""
  end.

Definition encode_string (s : string) : string := quote +:+ escape (String.length s) s +:+ quote.

Fixpoint insert_key {A} (kv : string * A) (kvs : list (string * A)) : list (string * A) :=
  match kvs with
  | [] => [kv]
  | kv' :: rest => if String.leb kv.1 kv'.1 then kv :: kvs else kv' :: insert_key kv rest
  end.

(** The entries of a map are encoded in the order of their keys. *)
Definition sort_keys {A} (kvs : list (string * A)) : list (string * A) := fold_right insert_key [] kvs.

Fixpoint encode_members (kvs : list (string * string)) : string :=
  match kvs with
  | [] => "}"
  | (k, v) :: kvs =>
      encode_string k +:+ ":" +:+ v +:+ match kvs with [] => "}" | _ => "," +:+ encode_members kvs end
  end.

Definition encode_object (kvs : list (string * string)) : string := "{" +:+ encode_members kvs.

Fixpoint encode (v : any) : string :=
  let texts := fix texts (kvs : list (string * any)) : list (string * string) :=
    match kvs with [] => [] | (k, v) :: kvs => (k, encode v) :: texts kvs end in
  match v with
  | ABool b => if b then "true" else "false"
  | AInt n => FormatInt n
  | AString s => encode_string s
  | AStruct kvs => encode_object (texts kvs)
  | AMap kvs => encode_object (sort_keys (texts kvs))
  end.

Definition newline : string := bytes [10].

(** ** Package time *)

(** A nonnegative number with at least [w] digits. *)
Definition pad (w : nat) (n : Z) : string :=
  let s := FormatInt n in
  fold_right (fun _ s => "0" +:+ s) s (seq 0 (w - String.length s)).

Fixpoint strip_trailing_zeros (s : string) : string :=
  match s with
  | EmptyString => ""
  | String.String c s =>
      let r := strip_trailing_zeros s in
      if decide (r = "") then (if byte_of c =? 48 then "" else String.String c "") else String.String c r
  end.

(** The fraction [n / 10 ^ w] with its point, without trailing zeros. *)
Definition fraction (w : nat) (n : Z) : string :=
  if n =? 0 then "" else "." +:+ strip_trailing_zeros (pad w n).

(** Year, month and day of a number of days since 1 January 1970. *)
Definition civil (days : Z) : Z * Z * Z :=
  let z := days + 719468 in
  let era := z / 146097 in
  let doe := z mod 146097 in
  let yoe := (doe - doe / 1460 + doe / 36524 - doe / 146096) / 365 in
  let doy := doe - (365 * yoe + yoe / 4 - yoe / 100) in
  let mp := (5 * doy + 2) / 153 in
  let d := doy - (153 * mp + 2) / 5 + 1 in
  let m := if mp <? 10 then mp + 3 else mp - 9 in
  let y := yoe + era * 400 + (if m <=? 2 then 1 else 0) in
  (y, m, d).

(** [t.UTC().Format(time.RFC3339Nano)] *)
Definition RFC3339Nano (t : Time) : string :=
  let secs := t / Second in
  let '(y, m, d) := civil (secs / 86400) in
  let tod := secs mod 86400 in
  (if y <? 0 then "-" else "") +:+ pad 4 (Z.abs y) +:+ "-" +:+ pad 2 m +:+ "-" +:+ pad 2 d +:+ "T" +:+
  pad 2 (tod / 3600) +:+ ":" +:+ pad 2 (tod / 60 mod 60) +:+ ":" +:+ pad 2 (tod mod 60) +:+
  fraction 9 (t mod Second) +:+ "Z".

(** [d.String()] *)
Definition DurationString (d : Duration) : string :=
  let u := Z.abs d in
  let text :=
    if u =? 0 then "0s"
    else if u <? 1000 then FormatInt u +:+ "ns"
    else if u <? 1000000 then FormatInt (u / 1000) +:+ fraction 3 (u mod 1000) +:+ bytes [194; 181] +:+ "s"
    else if u <? Second then FormatInt (u / 1000000) +:+ fraction 6 (u mod 1000000) +:+ "ms"
    else
      let secs := u / Second in
      let mins := secs / 60 in
      (if mins / 60 =? 0 then "" else FormatInt (mins / 60) +:+ "h") +:+
      (if mins =? 0 then "" else FormatInt (mins mod 60) +:+ "m") +:+
      FormatInt (secs mod 60) +:+ fraction 9 (u mod Second) +:+ "s" in
  if d <? 0 then "-" +:+ text else text.

(** ** encoding/hex and crypto/sha256 *)

Fixpoint to_bytes (s : string) : list Z :=
  match s with String.String c s => byte_of c :: to_bytes s | EmptyString => [] end.

Definition EncodeToString (bs : list Z) : string :=
  fold_right (fun b s => String.String (hex_digit (b / 16)) (String.String (hex_digit (b mod 16)) s)) "" bs.

Module Sha256.

Definition w32 (z : Z) : Z := Z.land z 4294967295.
Definition rotr (n x : Z) : Z := Z.lor (Z.shiftr x n) (w32 (Z.shiftl x (32 - n))).

Definition K : list Z :=
  [1116352408; 1899447441; 3049323471; 3921009573; 961987163; 1508970993; 2453635748; 2870763221;
   3624381080; 310598401; 607225278; 1426881987; 1925078388; 2162078206; 2614888103; 3248222580;
   3835390401; 4022224774; 264347078; 604807628; 770255983; 1249150122; 1555081692; 1996064986;
   2554220882; 2821834349; 2952996808; 3210313671; 3336571891; 3584528711; 113926993; 338241895;
   666307205; 773529912; 1294757372; 1396182291; 1695183700; 1986661051; 2177026350; 2456956037;
   2730485921; 2820302411; 3259730800; 3345764771; 3516065817; 3600352804; 4094571909; 275423344;
   430227734; 506948616; 659060556; 883997877; 958139571; 1322822218; 1537002063; 1747873779;
   1955562222; 2024104815; 2227730452; 2361852424; 2428436474; 2756734187; 3204031479; 3329325298].

Definition H0 : list Z :=
  [1779033703; 3144134277; 1013904242; 2773480762; 1359893119; 2600822924; 528734635; 1541459225].

(** Message, one bit, zeros, and the length in bits in eight bytes. *)
Definition padded (bs : list Z) : list Z :=
  let n := Z.of_nat (List.length bs) in
  bs ++ [128] ++ repeat 0 (Z.to_nat ((55 - n) mod 64)) ++
  map (fun i => Z.land (Z.shiftr (8 * n) (8 * i)) 255) [7; 6; 5; 4; 3; 2; 1; 0].

Fixpoint words (bs : list Z) : list Z :=
  match bs with
  | a :: b :: c :: d :: bs =>
      Z.lor (Z.shiftl a 24) (Z.lor (Z.shiftl b 16) (Z.lor (Z.shiftl c 8) d)) :: words bs
  | _ => []
  end.

(** The sixteen words of a block extended to sixty-four, the latest first. *)
Fixpoint schedule (n : nat) (ws : list Z) : list Z :=
  match n with
  | O => ws
  | S n =>
      let s0 x := Z.lxor (rotr 7 x) (Z.lxor (rotr 18 x) (Z.shiftr x 3)) in
      let s1 x := Z.lxor (rotr 17 x) (Z.lxor (rotr 19 x) (Z.shiftr x 10)) in
      schedule n (w32 (s1 (nth 1 ws 0) + nth 6 ws 0 + s0 (nth 14 ws 0) + nth 15 ws 0) :: ws)
  end.

Definition round (st : list Z) (kw : Z * Z) : list Z :=
  match st with
  | [a; b; c; d; e; f; g; h] =>
      let S1 := Z.lxor (rotr 6 e) (Z.lxor (rotr 11 e) (rotr 25 e)) in
      let ch := Z.lxor (Z.land e f) (Z.land (Z.lxor e 4294967295) g) in
      let t1 := h + S1 + ch + kw.1 + kw.2 in
      let S0 := Z.lxor (rotr 2 a) (Z.lxor (rotr 13 a) (rotr 22 a)) in
      let maj := Z.lxor (Z.land a b) (Z.lxor (Z.land a c) (Z.land b c)) in
      [w32 (t1 + S0 + maj); a; b; c; w32 (d + t1); e; f; g]
  | _ => st
  end.

Definition block (st ws : list Z) : list Z :=
  let w := rev (schedule 48 (rev ws)) in
  zip_with (fun a b => w32 (a + b)) st (fold_left round (zip K w) st).

Fixpoint blocks (n : nat) (st ws : list Z) : list Z :=
  match n with
  | O => st
  | S n => blocks n (block st (firstn 16 ws)) (skipn 16 ws)
  end.

Definition Sum256 (s : string) : list Z :=
  let ws := words (padded (to_bytes s)) in
  flat_map (fun w => map (fun i => Z.land (Z.shiftr w (8 * i)) 255) [3; 2; 1; 0])
    (blocks (List.length ws / 16) H0 ws).

End Sha256.

Example sha256_abc :
  EncodeToString (Sha256.Sum256 "abc") = "ba7816bf8f01cfea414140de5dae2223b00361a396177a9cb410ff61f20015ad".
Proof. vm_compute. reflexivity. Qed.

Example sha256_empty :
  EncodeToString (Sha256.Sum256 "") = "e3b0c44298fc1c149afbf4c8996fb92427ae41e4649b934ca495991b7852b855".
Proof. vm_compute. reflexivity. Qed.

Example rfc3339_examples :
  map RFC3339Nano [0; zeroTime; 1709210096120000000; -1]
  = ["1970-01-01T00:00:00Z"; "0001-01-01T00:00:00Z"; "2024-02-29T12:34:56.12Z"; "1969-12-31T23:59:59.999999999Z"].
Proof. vm_compute. reflexivity. Qed.

Example duration_examples :
  map DurationString [0; 1500000; 1000000000; 61500000000; 3600000000000; -5]
  = ["0s"; "1.5ms"; "1s"; "1m1.5s"; "1h0m0s"; "-5ns"].
Proof. vm_compute. reflexivity. Qed.
