(* ===== verification/GoEncodeSpec.v ===== *)
(** * GoEncodeSpec: what is encoded is decoded *)

From stdpp Require Import base tactics numbers strings list.
From Stdlib Require Import ZArith Lia Ascii.
From S2P Require Import Prelude GoString GoJson GoJsonSpec GoEncode.

(** ** Valid UTF-8 *)

Fixpoint valid_utf8 (fuel : nat) (s : string) : bool :=
  match fuel, s with
  | S fuel, String.String _ _ => let '(n, ok) := first_rune s in ok && valid_utf8 fuel (drop n s)
  | _, _ => true
  end.

Definition ValidString (s : string) : bool := valid_utf8 (String.length s) s.

(** [scan_str] lets the text [p] through. *)
Definition passes (p : string) : Prop :=
  forall t, scan_str (p +:+ t) = match scan_str t with Some (a, b) => Some (p +:+ a, b) | None => None end.

Lemma passes_app p q : passes p -> passes q -> passes (p +:+ q).
Proof.
  intros P Q t. rewrite app_app, P, Q. destruct (scan_str t) as [[a b]|]; [rewrite app_app|]; reflexivity.
Qed.

Definition plain_byte (c : ascii) : bool :=
  negb (Ascii.eqb c dquote) && negb (byte_of c <? 32) && negb (Ascii.eqb c backslash).

Lemma scan_char c t : plain_byte c = true -> scan_str (String.String c t) = cons_fst c (scan_str t).
Proof.
  unfold plain_byte. rewrite !andb_true_iff, !negb_true_iff. intros [[Q B] Bs]. cbn [scan_str]. rewrite Q, B, Bs. reflexivity.
Qed.

Lemma scan_escape e t :
  is_escape e = true -> scan_str (String.String backslash (String.String e t)) = cons_fst backslash (cons_fst e (scan_str t)).
Proof. intros E. cbn [scan_str]. rewrite E. reflexivity. Qed.

Lemma scan_unicode a b c d t :
  bool_decide (is_Some (hex_value a) /\ is_Some (hex_value b) /\ is_Some (hex_value c) /\ is_Some (hex_value d)) = true ->
  scan_str (String.String backslash (String.String "u"%char (String.String a (String.String b (String.String c (String.String d t))))))
  = match scan_str t with
    | Some (p, q) => Some (String.String backslash (String.String "u"%char (String.String a (String.String b (String.String c (String.String d p))))), q)
    | None => None
    end.
Proof.
  intros E. apply bool_decide_eq_true in E as ([? Ea] & [? Eb] & [? Ec] & [? Ed]).
  cbn [scan_str]. rewrite Ea, Eb, Ec, Ed.
  destruct (scan_str t) as [[p q]|]; reflexivity.
Qed.

Lemma passes_ascii c : between 0 127 c = true -> passes (escape_byte c).
Proof.
  intros B t. destruct c as [[] [] [] [] [] [] [] []]; try discriminate B; clear B;
    match goal with |- context [escape_byte ?c] =>
      let s := eval vm_compute in (escape_byte c) in change (escape_byte c) with s end;
    rewrite !app_String; change ("" +:+ t) with t;
    first [ etransitivity; [apply scan_char; vm_compute; reflexivity|]
          | etransitivity; [apply (scan_escape _ t); vm_compute; reflexivity|]
          | etransitivity; [apply (scan_unicode _ _ _ _ t); vm_compute; reflexivity|] ];
    destruct (scan_str t) as [[a b]|]; reflexivity.
Qed.

Lemma passes_high c : between 0 127 c = false -> passes (String.String c "").
Proof.
  intros B t. rewrite app_String. change ("" +:+ t) with t. rewrite scan_char.
  - destruct (scan_str t) as [[a b]|]; reflexivity.
  - destruct c as [[] [] [] [] [] [] [] []]; first [discriminate B | vm_compute; reflexivity].
Qed.

Lemma unquote_ascii c n t :
  between 0 127 c = true -> unquote (S n) (escape_byte c +:+ t) = String.String c (unquote n t).
Proof.
  intros B. destruct c as [[] [] [] [] [] [] [] []]; try discriminate B; reflexivity.
Qed.

(** ** Runes *)

Lemma take_drop n s : take n s +:+ drop n s = s.
Proof. revert s. induction n as [|n IH]; intros [|c s]; try reflexivity. cbn [take drop]. rewrite app_String, IH. reflexivity. Qed.

Fixpoint high (s : string) : bool :=
  match s with String.String c s => negb (between 0 127 c) && high s | EmptyString => true end.

Lemma passes_highs s : high s = true -> passes s.
Proof.
  induction s as [|c s IH]; intros E; [intros t; destruct (scan_str t) as [[]|] eqn:F; exact F|].
  cbn [high] in E. apply andb_prop in E as [Ec E]. apply negb_true_iff in Ec.
  exact (passes_app (String.String c "") s (passes_high c Ec) (IH E)).
Qed.

(** A valid rune that is not ASCII: its bytes stand for themselves in any context. *)
Lemma first_rune_high c s n :
  between 0 127 c = false -> first_rune (String.String c s) = (n, true) ->
  let r := take n (String.String c s) in
  (2 <= n)%nat /\ String.length r = n /\ (forall t, first_rune (r +:+ t) = (n, true)) /\
  high r = true.
Proof.
  intros B E. cbv zeta. unfold first_rune, continuation in E. rewrite B in E.
  assert (L : forall lo hi d, between lo hi d = true -> 128 <= lo -> between 0 127 d = false).
  { intros lo hi d Bd Hl. unfold between in *. bool_to_prop. destruct (Z.leb_spec (byte_of d) 127); [lia|].
    apply andb_false_r. }
  assert (Lo : 128 <= (if byte_of c =? 224 then 160 else 128)) by (clear; repeat case_match; discriminate || lia).
  assert (Lo' : 128 <= (if byte_of c =? 240 then 144 else 128)) by (clear; repeat case_match; discriminate || lia).
  repeat match type of E with
  | context [between ?l ?h c] => destruct (between l h c) eqn:?
  end; repeat match type of E with
  | context [match ?x with EmptyString => _ | String.String _ _ => _ end] => destruct x as [|? ?]
  end; try discriminate; cbv zeta in E;
  match type of E with context [if ?b then _ else _] => destruct b eqn:C | _ => idtac end; try discriminate;
  injection E as <-; repeat match goal with H : (_ && _)%bool = true |- _ => apply andb_prop in H as [? ?] end;
  (split; [lia|]); (split; [reflexivity|]); (split; [intros t; unfold first_rune, continuation; cbn [take]; rewrite !app_String;
    rewrite B; repeat match goal with H : between _ _ c = _ |- _ => rewrite H end; cbv zeta;
    repeat match goal with H : ?b = true |- context [?b] => rewrite H end; reflexivity|]);
  cbn [take high]; rewrite ?B; repeat match goal with
    H : between ?lo ?hi ?d = true |- context [between 0 127 ?d] => rewrite (L lo hi d H) by lia end; reflexivity.
Qed.

Lemma take_length n s : String.length (take n s) = Nat.min n (String.length s).
Proof. revert s. induction n as [|n IH]; intros [|c s]; cbn; auto. Qed.

Lemma first_rune_invalid c s n : first_rune (String.String c s) = (n, false) -> n = 1%nat.
Proof. unfold first_rune. repeat case_match; congruence. Qed.

Lemma escape_byte_length c : (1 <= String.length (escape_byte c))%nat.
Proof. unfold escape_byte. cbv zeta. repeat case_match; cbn; lia. Qed.

(** The six characters of a \u escape. *)
Definition u_escape (a b c d : ascii) : string :=
  String.String backslash (String.String "u"%char (String.String a (String.String b (String.String c (String.String d ""))))).

Lemma passes_u_escape a b c d :
  bool_decide (is_Some (hex_value a) /\ is_Some (hex_value b) /\ is_Some (hex_value c) /\ is_Some (hex_value d)) = true ->
  passes (u_escape a b c d).
Proof.
  intros E t. unfold u_escape. rewrite !app_String. change ("" +:+ t) with t. rewrite scan_unicode by exact E.
  destruct (scan_str t) as [[]|]; reflexivity.
Qed.

Lemma unquote_high r k t n :
  (2 <= n)%nat -> String.length r = n -> (forall t, first_rune (r +:+ t) = (n, true)) -> high r = true ->
  unquote (S k) (r +:+ t) = r +:+ unquote k t.
Proof.
  intros N L F Hi. pose proof (F t) as Ft. destruct r as [|c r]; [cbn in L; lia|]. rewrite app_String in *.
  cbn [unquote]. cbn [high] in Hi. apply andb_prop in Hi as [Hc _]. apply negb_true_iff in Hc.
  destruct (Ascii.eqb_spec c backslash) as [->|_]; [discriminate Hc|]. rewrite Ft.
  rewrite <- app_String, <- L, take_app. f_equal. f_equal. clear.
  induction (String.String c r) as [|d s IH]; [destruct t; reflexivity|]. rewrite app_String. exact IH.
Qed.

(** One step of the printer: a rune, its text, and how the text is read back. *)
Lemma escape_step m c s :
  exists n p, (1 <= n <= String.length (String.String c s))%nat /\
    escape (S m) (String.String c s) = p +:+ escape m (drop n (String.String c s)) /\ passes p /\
    (n <= String.length p)%nat /\
    (snd (first_rune (String.String c s)) = true ->
     n = fst (first_rune (String.String c s)) /\
     forall k t, unquote (S k) (p +:+ t) = take n (String.String c s) +:+ unquote k t).
Proof.
  cbn [escape]. destruct (between 0 127 c) eqn:B.
  - exists 1%nat, (escape_byte c). split; [cbn; lia|]. split; [reflexivity|]. split; [apply passes_ascii, B|].
    split; [apply escape_byte_length|]. intros _. split; [cbn; rewrite B; reflexivity|].
    intros k t. apply unquote_ascii, B.
  - destruct (first_rune (String.String c s)) as [n v] eqn:F. destruct v; cbn [negb fst snd].
    + destruct (first_rune_high c s n B F) as (N & L & Fr & Hi).
      set (r := take n (String.String c s)) in *.
      assert (Ln : (1 <= n <= String.length (String.String c s))%nat).
      { pose proof (take_length n (String.String c s)) as T. fold r in T. lia. }
      destruct (decide (r = bytes [226; 128; 168])) as [E|E1]; [|destruct (decide (r = bytes [226; 128; 169])) as [E|E2]].
      * exists n, (u_escape "2" "0" "2" "8"). split; [exact Ln|]. split; [reflexivity|].
        split; [apply passes_u_escape; reflexivity|]. split; [rewrite E in L; cbn in L |- *; lia|]. intros _. split; [reflexivity|].
        intros k t. fold r. rewrite E. reflexivity.
      * exists n, (u_escape "2" "0" "2" "9"). split; [exact Ln|]. split; [reflexivity|].
        split; [apply passes_u_escape; reflexivity|]. split; [rewrite E in L; cbn in L |- *; lia|]. intros _. split; [reflexivity|].
        intros k t. fold r. rewrite E. reflexivity.
      * exists n, r. split; [exact Ln|]. split; [reflexivity|]. split; [apply passes_highs, Hi|].
        split; [lia|]. intros _. split; [reflexivity|]. intros k t. apply (unquote_high r k t n); assumption.
    + apply first_rune_invalid in F as ->. exists 1%nat, (u_escape "f" "f" "f" "d"). split; [cbn; lia|].
      split; [reflexivity|]. split; [apply passes_u_escape; reflexivity|]. split; [cbn; lia|discriminate].
Qed.

(** ** Strings *)

Lemma passes_escape m s : passes (escape m s).
Proof.
  revert s. induction m as [|m IH]; intros [|c s]; try (intros t; destruct (scan_str t) as [[]|] eqn:F; exact F).
  destruct (escape_step m c s) as (n & p & _ & -> & P & _). apply passes_app; [exact P|apply IH].
Qed.

(** A printed string is scanned to its closing quote, whatever it holds. *)
Lemma scan_str_escape m s rest : scan_str (escape m s +:+ quote +:+ rest) = Some (escape m s, rest).
Proof. rewrite (passes_escape m s). change (scan_str (quote +:+ rest)) with (Some ("", rest)). cbv beta iota.
  rewrite str_app_nil. reflexivity. Qed.

Lemma unquote_escape m s n :
  (String.length s <= m)%nat -> (String.length s <= n)%nat -> valid_utf8 m s = true ->
  unquote n (escape m s) = s /\ (String.length s <= String.length (escape m s))%nat.
Proof.
  revert s n. induction m as [|m IH]; intros [|c s] n Lm Ln V; cbn [String.length] in *; try lia;
    [destruct n; split; reflexivity..|].
  destruct n as [|n]; [lia|]. destruct (escape_step m c s) as (k & p & K & -> & _ & Lp & U).
  cbn [valid_utf8] in V. destruct (first_rune (String.String c s)) as [k' ok]. cbn [fst snd] in U.
  apply andb_prop in V as [-> V]. destruct (U eq_refl) as [<- U']. clear U.
  destruct (IH (drop k (String.String c s)) n) as [E L]; try (rewrite drop_length; cbn [String.length]; lia); [exact V|].
  rewrite U', E. split; [apply take_drop|]. rewrite length_app. rewrite drop_length in L. cbn [String.length] in *. lia.
Qed.

Lemma scan_encode_string n d s rest :
  (0 < n)%nat -> ValidString s = true -> scan n d (encode_string s +:+ rest) = Some (JStr s, rest).
Proof.
  intros N V. destruct n as [|n]; [lia|]. unfold encode_string. rewrite !app_app.
  change (quote +:+ ?x) with (String.String dquote x). cbn [scan]. change (byte_of dquote) with 34. cbn [Z.eqb Pos.eqb].
  rewrite scan_str_escape. destruct (unquote_escape (String.length s) s (String.length (escape (String.length s) s))) as [E _];
    [lia| |exact V|rewrite E; reflexivity].
  destruct (unquote_escape (String.length s) s (String.length s)) as [_ L]; auto.
Qed.

Lemma value_string d s : value d (encode_string s).
Proof.
  intros n rest L Dl. split; [reflexivity|]. destruct n as [|n]; [lia|]. eexists.
  unfold encode_string. rewrite !app_app. change (quote +:+ ?x) with (String.String dquote x). cbn [scan].
  change (byte_of dquote) with 34. cbn [Z.eqb Pos.eqb].
  change (String.String dquote rest) with (quote +:+ rest). rewrite scan_str_escape. reflexivity.
Qed.

(** A string is read back, if it is valid UTF-8. *)
Lemma parse_encode_string s : ValidString s = true -> parse (encode_string s) = Some (JStr s).
Proof.
  intros V. unfold parse. change (skip_ws (encode_string s)) with (encode_string s).
  rewrite <- (str_app_nil (encode_string s)) at 2. rewrite scan_encode_string by (exact V || lia). reflexivity.
Qed.

Lemma decode_encode_string s : ValidString s = true -> decode_string (encode_string s) = Some s.
Proof. intros V. unfold decode_string. rewrite parse_encode_string by exact V. reflexivity. Qed.

Definition bool_text (b : bool) : string := if b then "true" else "false".

Lemma value_bool d b : value d (bool_text b).
Proof.
  intros n rest L Dl. destruct b; (split; [reflexivity|]); (destruct n as [|n]; [cbn in L; lia|]);
    eexists; reflexivity.
Qed.

Definition decode_bool (text : string) : option bool :=
  match parse text with Some (JBool b) => Some b | Some JNull => Some false | _ => None end.

Lemma decode_bool_text b : decode_bool (bool_text b) = Some b.
Proof. destruct b; vm_compute; reflexivity. Qed.

(** ** Objects *)

(** Keys printed as they are. *)
Definition safe_char (c : ascii) : bool :=
  plain_char c && bool_decide (byte_of c ∉ [60; 62; 38]).

Fixpoint safe (s : string) : bool :=
  match s with String.String c s => safe_char c && safe s | EmptyString => true end.

Lemma safe_plain s : safe s = true -> plain s = true.
Proof.
  induction s as [|c s IH]; cbn; [reflexivity|]. unfold safe_char. intros E. bool_to_prop.
  apply andb_true_iff. auto.
Qed.

Lemma escape_safe m s : safe s = true -> (String.length s <= m)%nat -> escape m s = s.
Proof.
  revert s. induction m as [|m IH]; intros [|c s] E L; cbn in L; try lia; [reflexivity..|]. cbn [safe] in E.
  apply andb_prop in E as [Ec E]. assert (B : between 0 127 c = true /\ escape_byte c = String.String c "").
  { destruct c as [[] [] [] [] [] [] [] []]; first [discriminate Ec | split; vm_compute; reflexivity]. }
  destruct B as [B Eb]. cbn [escape]. rewrite B, Eb, IH by (assumption || lia). reflexivity.
Qed.

Lemma encode_object_obj kvs : Forall (fun kv => safe kv.1 = true) kvs -> encode_object kvs = obj kvs.
Proof.
  intros F. unfold encode_object, obj. f_equal. induction F as [|[k v] kvs S F IH]; [reflexivity|].
  cbn [encode_members print_members]. unfold encode_string. cbn [fst] in S. rewrite escape_safe by (assumption || lia).
  rewrite !app_app. rewrite IH. reflexivity.
Qed.

(** An object with safe keys is read back member by member, with or without a line
    feed after it. *)
Lemma parse_encode_object_ws kvs ws :
  kvs <> [] -> Forall (fun kv => safe kv.1 = true /\ value 1 kv.2) kvs -> skip_ws ws = "" ->
  parse (encode_object kvs +:+ ws) = Some (JObj kvs).
Proof.
  intros N F W. rewrite encode_object_obj by (eapply Forall_impl; [exact F|]; intros ? []; assumption).
  apply parse_obj_ws; [exact N| |exact W]. eapply Forall_impl; [exact F|].
  intros kv []. split; [apply safe_plain|]; assumption.
Qed.

Lemma parse_encode_object kvs :
  kvs <> [] -> Forall (fun kv => safe kv.1 = true /\ value 1 kv.2) kvs ->
  parse (encode_object kvs) = Some (JObj kvs).
Proof. intros N F. rewrite <- (str_app_nil (encode_object kvs)). apply parse_encode_object_ws; auto. Qed.

Lemma value_encode_object d kvs :
  kvs <> [] -> d + 1 <= maxNestingDepth -> Forall (fun kv => safe kv.1 = true /\ value (d + 1) kv.2) kvs ->
  value d (encode_object kvs).
Proof.
  intros N D F. rewrite encode_object_obj by (eapply Forall_impl; [exact F|]; intros ? []; assumption).
  apply value_obj; [exact N|exact D|]. eapply Forall_impl; [exact F|]. intros kv []. split; [apply safe_plain|]; assumption.
Qed.

(** ** Lines *)

(** No control characters, hence a single line. *)
Fixpoint printing (s : string) : bool :=
  match s with String.String c s => (32 <=? byte_of c) && printing s | EmptyString => true end.

Lemma printing_app s t : printing (s +:+ t) = printing s && printing t.
Proof. induction s as [|c s IH]; [reflexivity|]. rewrite app_String. cbn. rewrite IH. apply andb_assoc. Qed.

Lemma hex_value_printing c v : hex_value c = Some v -> (32 <=? byte_of c) = true.
Proof.
  unfold hex_value, is_digit, between. intros E. apply Z.leb_le.
  repeat case_match; try discriminate; bool_to_prop; lia.
Qed.

(** What a scanner accepts as a string holds no control characters. *)
Lemma scan_str_printing n s a b : (String.length s <= n)%nat -> scan_str s = Some (a, b) -> printing a = true.
Proof.
  revert s a b. induction n as [|n IH]; intros [|c s] a b L E; cbn [String.length] in L; try discriminate; try lia.
  cbn [scan_str] in E. destruct (Ascii.eqb c dquote); [injection E as <- <-; reflexivity|].
  destruct (Z.ltb_spec (byte_of c) 32) as [|Lc]; [discriminate|]. apply Z.leb_le in Lc.
  destruct (Ascii.eqb c backslash).
  2: { destruct (scan_str s) as [[a' b']|] eqn:F; [|discriminate]. injection E as <- <-. cbn. rewrite Lc.
       apply (IH s a' b'); [lia|exact F]. }
  destruct s as [|e s]; [discriminate|]. cbn [String.length] in L. destruct (is_escape e) eqn:Ie.
  { destruct (scan_str s) as [[a' b']|] eqn:F; [|discriminate]. injection E as <- <-. cbn. rewrite Lc.
    assert (Le : (32 <=? byte_of e) = true).
    { destruct (Z.leb_spec 32 (byte_of e)); [reflexivity|]. unfold is_escape in Ie.
      repeat match type of Ie with context [byte_of e =? ?k] => destruct (Z.eqb_spec (byte_of e) k); [lia|] end. discriminate. }
    rewrite Le. apply (IH s a' b'); [lia|exact F]. }
  destruct (Z.eqb_spec (byte_of e) 117) as [Eu|]; [|discriminate].
  destruct s as [|h1 [|h2 [|h3 [|h4 s]]]]; try discriminate. cbn [String.length] in L.
  destruct (hex_value h1) eqn:E1, (hex_value h2) eqn:E2, (hex_value h3) eqn:E3, (hex_value h4) eqn:E4; try discriminate.
  apply hex_value_printing in E1, E2, E3, E4.
  destruct (scan_str s) as [[a' b']|] eqn:F; [|discriminate]. injection E as <- <-. cbn.
  rewrite Lc, Eu, E1, E2, E3, E4. apply (IH s a' b'); [lia|exact F].
Qed.

Lemma printing_encode_string s : printing (encode_string s) = true.
Proof.
  unfold encode_string. rewrite !printing_app. pose proof (scan_str_escape (String.length s) s "") as E.
  rewrite (scan_str_printing _ _ _ _ (le_n _) E). reflexivity.
Qed.

Lemma printing_encode_object kvs : Forall (fun kv => printing kv.2 = true) kvs -> printing (encode_object kvs) = true.
Proof.
  intros F. unfold encode_object. rewrite printing_app. apply andb_true_iff. split; [reflexivity|].
  induction F as [|[k v] kvs P F IH]; [reflexivity|]. cbn [encode_members snd] in *.
  rewrite !printing_app, printing_encode_string, P. destruct kvs; [reflexivity|].
  rewrite printing_app, IH. reflexivity.
Qed.

(** Members that are strings. *)
Definition string_members (ss : list (string * string)) : list (string * string) :=
  map (fun kv => (kv.1, encode_string kv.2)) ss.

Lemma string_members_values d ss :
  forallb (fun kv => safe kv.1) ss = true -> Forall (fun kv => safe kv.1 = true /\ value d kv.2) (string_members ss).
Proof.
  rewrite forallb_forall. intros S. apply Forall_map, List.Forall_forall. intros kv I. split; [exact (S kv I)|].
  apply value_string.
Qed.

Lemma string_members_printing ss : printing (encode_object (string_members ss)) = true.
Proof.
  apply printing_encode_object, Forall_map, List.Forall_forall. intros kv _. apply printing_encode_string.
Qed.

(** ** Sorted entries *)

Lemma insert_key_perm {A} (kv : string * A) kvs : Permutation (kv :: kvs) (insert_key kv kvs).
Proof.
  induction kvs as [|kv' kvs IH]; cbn; [reflexivity|]. destruct (String.leb _ _); [reflexivity|].
  rewrite perm_swap, IH. reflexivity.
Qed.

Lemma sort_keys_perm {A} (kvs : list (string * A)) : Permutation kvs (sort_keys kvs).
Proof. induction kvs as [|kv kvs IH]; cbn; [reflexivity|]. rewrite <- insert_key_perm, <- IH. reflexivity. Qed.

(** With distinct keys the order of the entries does not matter to a reader. *)
Lemma find_key_perm {A} k (a b : list (string * A)) :
  Permutation a b -> NoDup (map fst a) -> find_key k a = find_key k b.
Proof.
  induction 1 as [|[k' v] a b P IH|[k1 v1] [k2 v2] a|a b c P1 IH1 P2 IH2]; cbn; intros N.
  - reflexivity.
  - apply NoDup_cons in N as [_ N]. rewrite IH by exact N. reflexivity.
  - apply NoDup_cons in N as [N _]. destruct (find_key k a); [reflexivity|].
    destruct (decide (k = k1)) as [E1|], (decide (k = k2)) as [E2|]; try reflexivity.
    exfalso. apply N. rewrite <- E1, E2. left.
  - rewrite IH1 by exact N. apply IH2. rewrite <- P1. exact N.
Qed.

Lemma find_key_sort {A} k (kvs : list (string * A)) :
  NoDup (map fst kvs) -> find_key k (sort_keys kvs) = find_key k kvs.
Proof. intros N. symmetry. apply find_key_perm; [apply sort_keys_perm|exact N]. Qed.

Lemma find_key_in {A} k (v : A) kvs : NoDup (map fst kvs) -> In (k, v) kvs -> find_key k kvs = Some v.
Proof.
  induction kvs as [|[k' v'] kvs IH]; cbn; intros N I; [destruct I|]. apply NoDup_cons in N as [N' N].
  destruct I as [[= -> ->]|I]; [|rewrite IH by assumption; reflexivity].
  rewrite find_key_none; [rewrite decide_True by reflexivity; reflexivity|].
  apply List.Forall_forall. intros [k'' v''] I E. apply N'. cbn in E. subst.
  apply list_elem_of_In, in_map_iff. exists (k, v''). auto.
Qed.

Lemma find_key_out {A} k (kvs : list (string * A)) : k ∉ map fst kvs -> find_key k kvs = None.
Proof.
  intros N. apply find_key_none, List.Forall_forall. intros [k' v'] I E. apply N. cbn in E. subst.
  apply list_elem_of_In, in_map_iff. exists (k, v'). auto.
Qed.

(** ** Hexadecimal *)

Lemma hex_digit_inj a b : 0 <= a < 16 -> 0 <= b < 16 -> hex_digit a = hex_digit b -> a = b.
Proof.
  intros Ha Hb E.
  assert (B : forall n, 0 <= n < 16 -> byte_of (hex_digit n) = if n <? 10 then 48 + n else 87 + n).
  { intros n Hn. assert (F : Forall (fun n => byte_of (hex_digit n) = if n <? 10 then 48 + n else 87 + n) (seqZ 0 16))
      by (vm_compute; repeat constructor).
    rewrite Forall_forall in F. apply F, elem_of_seqZ. lia. }
  pose proof (f_equal byte_of E) as F. rewrite !B in F by assumption.
  destruct (Z.ltb_spec a 10), (Z.ltb_spec b 10); lia.
Qed.

(** Different blocks of bytes print differently. *)
Lemma EncodeToString_inj bs bs' :
  Forall (fun b => 0 <= b < 256) bs -> Forall (fun b => 0 <= b < 256) bs' ->
  EncodeToString bs = EncodeToString bs' -> bs = bs'.
Proof.
  intros F. revert bs'. induction F as [|b bs Hb F IH]; intros bs' F' E; destruct F' as [|b' bs' Hb' F']; try discriminate.
  - reflexivity.
  - change (String.String (hex_digit (b / 16)) (String.String (hex_digit (b mod 16)) (EncodeToString bs)) =
      String.String (hex_digit (b' / 16)) (String.String (hex_digit (b' mod 16)) (EncodeToString bs'))) in E.
    injection E as E1 E2 E3. apply IH in E3; [|exact F']. subst.
    apply hex_digit_inj in E1; [|split; [apply Z.div_pos; lia|apply Z.div_lt_upper_bound; lia]..].
    apply hex_digit_inj in E2; [|apply Z.mod_pos_bound; lia..].
    pose proof (Z.div_mod b 16 ltac:(lia)). pose proof (Z.div_mod b' 16 ltac:(lia)). f_equal. lia.
Qed.
