(* ===== verification/Llm.v ===== *)
(** * Llm: pkg/llm - token estimation, usage parsing, size gate, counters *)

From stdpp Require Import base tactics numbers strings list.
From Stdlib Require Import ZArith Lia Ascii.
From S2P Require Import Prelude GoFloat GoString GoJson Api.

(** ** estimate.go *)

(** [int(math.Ceil(float64(n) / 4.0))] *)
Definition EstimateTokens (text : string) : Z :=
  if decide (text = "") then 0
  else let n := RuneCountInString text in to_int64 (fceil (fdiv (of_int n) (of_int 4))).

(** A [Tokenizer], or nil. *)
Definition Tokenizer : Type := option (string -> Z).

Definition countText (tok : Tokenizer) (text : string) : Z :=
  match tok with Some count => count text | None => EstimateTokens text end.

Definition HeuristicTokenizer : Tokenizer := Some EstimateTokens.

Record ChatEstimate := mkChatEstimate {
  ceInputTokens : Z;
  ceOutputReserve : Z;
  ceTotalTokens : Z
}.

(** Into a [[]map[string]any]. *)
Definition decode_parts (text : string) : option (list (list (string * string))) :=
  match parse text with
  | Some (JArr vs) =>
      mapM (fun v => match parse v with
                     | Some (JObj kvs) => if forallb (fun kv => decode_any_ok kv.2) kvs then Some kvs else None
                     | Some JNull => Some []
                     | _ => None
                     end) vs
  | Some JNull => Some []
  | _ => None
  end.

(** [p["text"].(string)] *)
Definition part_text (p : list (string * string)) : option string :=
  match find_key "text" p with
  | Some v => match parse v with Some (JStr t) => Some t | _ => None end
  | None => None
  end.

Definition contentTokens (raw : string) (tok : Tokenizer) : Z :=
  if decide (raw = "") then 0
  else match decode_string raw with
       | Some s => countText tok s
       | None =>
           match decode_parts raw with
           | Some parts =>
               fold_left (fun n p => match part_text p with
                                     | Some t => wrap64 (n + countText tok t)
                                     | None => n
                                     end) parts 0
           | None => countText tok raw
           end
       end.

(** Into a slice of structs with the field [content]: the texts of the contents. *)
Definition decode_messages (text : string) : option (list string) :=
  match parse text with
  | Some (JArr vs) =>
      mapM (fun v => match parse v with
                     | Some (JObj kvs) => Some (default "" (last (fields "content" kvs)))
                     | Some JNull => Some ""
                     | _ => None
                     end) vs
  | Some JNull => Some []
  | _ => None
  end.

(** [raw[key]] decoded as an [int64], when larger than the reserve so far. *)
Definition reserve (raw : list (string * string)) (outReserve : Z) (key : string) : Z :=
  match find_key key raw with
  | Some v => match decode_int64 v with
              | Some n => if outReserve <? n then n else outReserve
              | None => outReserve
              end
  | None => outReserve
  end.

(** The error is that of [json.Unmarshal]. *)
Definition EstimateChatRequest (body : string) (tok : Tokenizer) : option ChatEstimate :=
  match decode_raw_map body with
  | None => None
  | Some raw =>
      match (match find_key "messages" raw with
             | Some msgs => match decode_messages msgs with
                            | Some messages =>
                                Some (fold_left (fun input m => wrap64 (input + contentTokens m tok)) messages 0)
                            | None => None
                            end
             | None => Some 0
             end) with
      | None => None
      | Some input =>
          let input := match find_key "prompt" raw with
                       | Some prompt => wrap64 (input + contentTokens prompt tok)
                       | None => input
                       end in
          let input := if (input =? 0) && (0 <? Z.of_nat (String.length body)) then countText tok body else input in
          let outReserve := fold_left (reserve raw) ["max_tokens"; "max_completion_tokens"] 0 in
          let total := wrap64 (input + outReserve) in
          let total := if total <? 1 then 1 else total in
          Some (mkChatEstimate input outReserve total)
      end
  end.

(** ** usage.go *)

Record Usage := mkUsage { uInputTokens : Z; uOutputTokens : Z }.

Definition Total (u : Usage) : Z := wrap64 (uInputTokens u + uOutputTokens u).

Fixpoint firstInt (m : list (string * Z)) (keys : list string) : Z :=
  match keys with
  | [] => 0
  | k :: keys => match find_key k m with Some v => v | None => firstInt m keys end
  end.

(** [(Usage, bool)] as an option: the usage beside false is zero. *)
Definition ParseUsageJSON (body : string) : option Usage :=
  match decode_raw_map body with
  | None => None
  | Some root =>
      match find_key "usage" root with
      | None => None
      | Some raw =>
          match decode_int_map raw with
          | None => None
          | Some u =>
              let in_ := firstInt u ["prompt_tokens"; "input_tokens"] in
              let out := firstInt u ["completion_tokens"; "output_tokens"] in
              if (in_ =? 0) && (out =? 0) then
                match find_key "total_tokens" u with
                | Some t => if 0 <? t then Some (mkUsage t 0) else None
                | None => None
                end
              else Some (mkUsage in_ out)
          end
      end
  end.

Definition parseUsageFromChunk (data : string) : option Usage :=
  match ParseUsageJSON data with
  | Some u => Some u
  | None =>
      match decode_raw_map data with
      | None => None
      | Some root =>
          match find_key "usage" root with
          | Some raw =>
              if decide (raw = "null") then None
              else match decode_int_map raw with
                   | Some u =>
                       let in_ := firstInt u ["prompt_tokens"; "input_tokens"] in
                       let out := firstInt u ["completion_tokens"; "output_tokens"] in
                       if negb (in_ =? 0) || negb (out =? 0) then Some (mkUsage in_ out) else None
                   | None => None
                   end
          | None => None
          end
      end
  end.

(** *** bufio.Scanner with ScanLines and a buffer of 1 MiB *)

Definition maxLine : nat := Z.to_nat (1024 * 1024).

(** The text up to the first line feed, and what follows it if there is one. *)
Fixpoint cut_line (s : string) : string * option string :=
  match s with
  | EmptyString => ("", None)
  | String.String c s =>
      if Ascii.eqb c (ascii_of_nat 10) then ("", Some s)
      else let '(l, r) := cut_line s in (String.String c l, r)
  end.

(** A trailing carriage return is dropped. *)
Fixpoint drop_cr (l : string) : string :=
  match l with
  | String.String c EmptyString => if Ascii.eqb c (ascii_of_nat 13) then "" else l
  | String.String c l => String.String c (drop_cr l)
  | EmptyString => ""
  end.

(** The lines a scanner yields over a stream that ends, and whether it stopped with
    [ErrTooLong]: a line and its line feed must fit into the buffer of [max] bytes.
    The fuel is the length of the stream. *)
Fixpoint scan_lines (max : nat) (fuel : nat) (s : string) : list string * bool :=
  match fuel, s with
  | S fuel, String.String _ _ =>
      let '(l, rest) := cut_line s in
      if (max <=? String.length l)%nat then ([], true)
      else match rest with
           | None => ([drop_cr l], false)
           | Some rest => let '(ls, long) := scan_lines max fuel rest in (drop_cr l :: ls, long)
           end
  | _, _ => ([], false)
  end.

Definition Lines (max : nat) (s : string) : list string * bool := scan_lines max (String.length s) s.

(** The bytes of the stream behind the point where the scanner stopped with
    [ErrTooLong]: it has read a full buffer from the start of the overlong line. *)
Fixpoint scan_unread (max : nat) (fuel : nat) (s : string) : string :=
  match fuel, s with
  | S fuel, String.String _ _ =>
      let '(l, rest) := cut_line s in
      if (max <=? String.length l)%nat then drop max s
      else match rest with Some rest => scan_unread max fuel rest | None => "" end
  | _, _ => ""
  end.

Definition Unread (max : nat) (s : string) : string := scan_unread max (String.length s) s.

(** The usage a line reports. *)
Definition line_usage (line : string) : option Usage :=
  if HasPrefix line "data:" then
    let data := TrimSpace (TrimPrefix line "data:") in
    if decide (data = "[DONE]") then None
    else if decide (data = "") then None
    else parseUsageFromChunk data
  else None.

(** The loop over the lines: the last usage found. *)
Definition last_usage (lines : list string) : option Usage :=
  fold_left (fun found line => match line_usage line with Some u => Some u | None => found end) lines None.

(** The usage of a stream; the reader's error, if it has one, ends it like EOF. *)
Definition ParseUsageSSE (stream : string) : option Usage := last_usage (Lines maxLine stream).1.

(** ** gate.go *)

Record Gate := mkGate { MaxInputTokens : Z; MaxRequestBytes : Z }.

Definition ErrTooLarge : error := ErrOther "valve/llm: request too large".

Definition CheckBytes (g : Gate) (n : Z) : option error :=
  if (0 <? MaxRequestBytes g) && (MaxRequestBytes g <? n) then Some ErrTooLarge else None.

Definition CheckInput (g : Gate) (inputTokens : Z) : option error :=
  if (0 <? MaxInputTokens g) && (MaxInputTokens g <? inputTokens) then Some ErrTooLarge else None.

(** ** metrics.go *)

(** The five atomic counters; a snapshot reads them. *)
Record Metrics := mkMetrics {
  EstimateTotal : Z;
  ActualTotal : Z;
  OverEstimate : Z;
  UnderEstimate : Z;
  Exact : Z
}.

#[export] Instance eta_Metrics : Eta Metrics :=
  fun m => mkMetrics (EstimateTotal m) (ActualTotal m) (OverEstimate m) (UnderEstimate m) (Exact m).

Definition zeroMetrics : Metrics := mkMetrics 0 0 0 0 0.

Definition RecordSettle (m : Metrics) (estimated actual : Z) : Metrics :=
  let m := m <| EstimateTotal := wrap64 (EstimateTotal m + estimated) |> in
  let m := m <| ActualTotal := wrap64 (ActualTotal m + actual) |> in
  if actual <? estimated then m <| OverEstimate := wrap64 (OverEstimate m + 1) |>
  else if estimated <? actual then m <| UnderEstimate := wrap64 (UnderEstimate m + 1) |>
  else m <| Exact := wrap64 (Exact m + 1) |>.
