(* ===== verification/LlmSpec.v ===== *)
(** * LlmSpec: what pkg/llm computes *)

From stdpp Require Import base tactics numbers strings list.
From Stdlib Require Import ZArith Lia Ascii.
From S2P Require Import Prelude GoFloat GoString GoJson GoJsonSpec Api Llm.

(** ** Counting runes *)

Lemma first_rune_size s : s <> "" -> (1 <= (first_rune s).1)%nat.
Proof.
  destruct s as [|c s]; [congruence|]. intros _. unfold first_rune.
  repeat case_match; cbn; lia.
Qed.

Lemma rune_count_bounds fuel s : 0 <= rune_count fuel s <= Z.of_nat (String.length s).
Proof.
  revert s. induction fuel as [|fuel IH]; intros s; cbn [rune_count]; [lia|].
  destruct s as [|c s]; [cbn; lia|]. specialize (IH (drop (first_rune (String.String c s)).1 (String.String c s))).
  rewrite drop_length in IH. pose proof (first_rune_size (String.String c s) ltac:(congruence)).
  cbn [String.length] in *. lia.
Qed.

(** More fuel counts the same runes. *)
Lemma rune_count_fuel n m s :
  (String.length s <= n)%nat -> (String.length s <= m)%nat -> rune_count n s = rune_count m s.
Proof.
  revert m s. induction n as [|n IH]; intros [|m] [|c s] Hn Hm; cbn [String.length] in *; try lia; try reflexivity.
  cbn [rune_count]. f_equal. pose proof (first_rune_size (String.String c s) ltac:(congruence)).
  apply IH; rewrite drop_length; cbn [String.length]; lia.
Qed.

(** The heuristic rounds a quarter of the runes up. *)
Lemma EstimateTokens_spec text :
  Z.of_nat (String.length text) <= 2 ^ 53 -> EstimateTokens text = (RuneCountInString text + 3) / 4.
Proof.
  intros L. unfold EstimateTokens. destruct (decide (text = "")) as [->|N]; [reflexivity|].
  cbv zeta. unfold RuneCountInString. pose proof (rune_count_bounds (String.length text) text) as B.
  set (n := rune_count _ _) in *. pose proof one_pos. rewrite (of_int_exact 4), of_int_exact by lia.
  rewrite fdiv_spec by lia. replace (n * one * one) with (n * one * one) by ring.
  rewrite rnd_scale by lia.
  assert (E : exists q, one = 4 * q /\ 0 < q) by (exists (2 ^ 1072); rewrite one_ulp; split; [reflexivity|apply pow2_pos; lia]).
  destruct E as (q & Eq & Q). replace (n * one) with (n * q * 4) by lia.
  assert (F : is_float (n * q)).
  { exists n, 1072. split; [lia|]. split; [lia|]. f_equal.
    apply (Z.mul_cancel_l _ _ 4); [lia|]. rewrite <- Eq, one_ulp. reflexivity. }
  rewrite rnd_exact by (lia || exact F).
  assert (C : ceilZ (n * q) = (n + 3) / 4).
  { pose proof (ceilZ_bounds (n * q)) as Cb. rewrite Eq in Cb.
    pose proof (Z.div_mod (n + 3) 4 ltac:(lia)). pose proof (Z.mod_pos_bound (n + 3) 4 ltac:(lia)). nia. }
  rewrite to_int64_ceil; rewrite C; [reflexivity|].
  pose proof (Z.div_le_upper_bound (n + 3) 4 (2 ^ 53) ltac:(lia) ltac:(lia)).
  pose proof (Z.div_pos (n + 3) 4 ltac:(lia) ltac:(lia)). unfold in_int64, int64_min, int64_max. lia.
Qed.

(** ** The estimate of a request *)

Lemma ParseInt_range s n : ParseInt s = (n, None) -> in_int64 n.
Proof.
  unfold ParseInt. set (nd := match s with EmptyString => _ | _ => _ end). destruct nd as [neg d].
  unfold digits. destruct (DecimalString.NilZero.uint_of_string d) as [u|]; [|discriminate].
  cbn [fmap option_fmap option_map].
  assert (U : 0 <= Z.of_uint u) by (unfold Z.of_uint; lia).
  destruct (negb neg && _) eqn:E1; [discriminate|]. destruct (neg && _) eqn:E2; [discriminate|].
  intros [= <-]. destruct neg; cbn in E1, E2; bool_to_prop; unfold in_int64, int64_min, int64_max in *; lia.
Qed.

Lemma decode_int64_range text n : decode_int64 text = Some n -> in_int64 n.
Proof.
  unfold decode_int64. destruct (parse text) as [[| |lit| | |]|]; try discriminate.
  - intros [= <-]. unfold in_int64, int64_min, int64_max. lia.
  - destruct (ParseInt lit) as [k [e|]] eqn:E; [discriminate|]. intros [= <-]. eapply ParseInt_range, E.
Qed.

(** The value a member of the request asks for. *)
Definition asked (raw : list (string * string)) (key : string) : Z :=
  match find_key key raw with Some v => default 0 (decode_int64 v) | None => 0 end.

Lemma reserve_max raw r key : 0 <= r -> reserve raw r key = Z.max r (asked raw key).
Proof.
  intros H. unfold reserve, asked. destruct (find_key key raw) as [v|]; [|lia].
  destruct (decode_int64 v) as [n|]; cbn; [destruct (Z.ltb_spec r n)|]; lia.
Qed.

Lemma asked_range raw key : asked raw key <= int64_max.
Proof.
  unfold asked. destruct (find_key key raw) as [v|]; [|unfold int64_max; lia].
  destruct (decode_int64 v) as [n|] eqn:E; cbn; [apply decode_int64_range in E; apply E|unfold int64_max; lia].
Qed.

(** C21: the estimate of a chat request.  The output reserve is the larger of
    [max_tokens] and [max_completion_tokens], never negative; the total charged is
    at least one token, and input and reserve together as long as their sum is an
    [int64].  Beyond that the sum wraps around and the request is charged a single
    token, whatever it asks for. *)
Theorem estimate_total body tok e :
  EstimateChatRequest body tok = Some e -> 0 <= ceInputTokens e <= int64_max ->
  exists raw, decode_raw_map body = Some raw /\
  ceOutputReserve e = Z.max 0 (Z.max (asked raw "max_tokens") (asked raw "max_completion_tokens")) /\
  ceTotalTokens e =
    if ceInputTokens e + ceOutputReserve e <=? int64_max
    then Z.max 1 (ceInputTokens e + ceOutputReserve e) else 1.
Proof.
  unfold EstimateChatRequest. destruct (decode_raw_map body) as [raw|]; [|discriminate].
  destruct (match find_key "messages" raw with Some _ => _ | None => _ end) as [input|]; [|discriminate].
  cbv zeta. set (inp := if _ && _ then countText tok body else _). intros [= <-]. cbn. intros Hi.
  exists raw. split; [reflexivity|]. rewrite (reserve_max raw 0) by lia. rewrite reserve_max by lia.
  split; [lia|]. pose proof (asked_range raw "max_tokens"). pose proof (asked_range raw "max_completion_tokens").
  set (res := Z.max _ _) in *. assert (R : 0 <= res <= int64_max) by (unfold res, int64_max in *; lia).
  destruct (Z.leb_spec (inp + res) int64_max) as [L|G].
  - rewrite wrap64_id by (unfold in_int64, int64_min, int64_max in *; lia).
    destruct (Z.ltb_spec (inp + res) 1); lia.
  - assert (Wr : wrap64 (inp + res) = inp + res - int64_modulus).
    { unfold wrap64, int64_modulus, int64_min, int64_max in *.
      rewrite <- (Z.mod_unique _ 18446744073709551616 1 (inp + res - -9223372036854775808 - 18446744073709551616)); lia. }
    rewrite Wr. destruct (Z.ltb_spec (inp + res - int64_modulus) 1); [reflexivity|].
    unfold int64_modulus, int64_max in *. lia.
Qed.

(** A request that asks for every token an [int64] can count is charged one. *)
Lemma estimate_total_witness :
  exists raw e, EstimateChatRequest (obj [("prompt", quote +:+ "hello" +:+ quote); ("max_tokens", FormatInt int64_max)])
                  (Some (fun _ => 2)) = Some e /\
  ceOutputReserve e = Z.max 0 (Z.max (asked raw "max_tokens") (asked raw "max_completion_tokens")) /\
  ceTotalTokens e = (if ceInputTokens e + ceOutputReserve e <=? int64_max
                     then Z.max 1 (ceInputTokens e + ceOutputReserve e) else 1) /\
  ceTotalTokens e = 1.
Proof.
  set (body := obj _).
  assert (E : EstimateChatRequest body (Some (fun _ => 2)) = Some (mkChatEstimate 2 int64_max 1)) by (vm_compute; reflexivity).
  destruct (estimate_total body _ _ E) as (raw & _ & H1 & H2); [cbn; unfold int64_max; lia|].
  exists raw, (mkChatEstimate 2 int64_max 1). split; [exact E|]. split; [exact H1|]. split; [exact H2|reflexivity].
Defined.

(** ** The usage of a response *)

(** A response body: members before and after the usage, which is an object. *)
Definition response (pre post usage : list (string * string)) : string :=
  obj (pre ++ ("usage", obj usage) :: post).

Lemma response_usage pre post usage :
  printable 1 pre -> printable 1 post -> printable 2 usage -> usage <> [] ->
  Forall (fun kv => kv.1 <> "usage") post ->
  exists root, decode_raw_map (response pre post usage) = Some root /\ find_key "usage" root = Some (obj usage).
Proof.
  intros Pr Po Pu N F. exists (pre ++ ("usage", obj usage) :: post). unfold decode_raw_map, response.
  rewrite parse_obj.
  - split; [reflexivity|]. rewrite find_key_app. cbn. rewrite find_key_none by exact F. reflexivity.
  - destruct pre; discriminate.
  - apply Forall_app. split; [exact Pr|]. constructor; [|exact Po]. split; [reflexivity|].
    apply value_obj; [exact N|unfold maxNestingDepth; lia|exact Pu].
Qed.

(** The two dialects of usage objects. *)
Definition chat_usage (i o t : Z) : list (string * Z) :=
  [("prompt_tokens", i); ("completion_tokens", o); ("total_tokens", t)].
Definition messages_usage (i o : Z) : list (string * Z) := [("input_tokens", i); ("output_tokens", o)].

(** C22: a usage object printed in either dialect, anywhere among the other members
    of a response, is read back: the input and output tokens are the numbers printed,
    and where both are zero a positive total counts as input. *)
Theorem usage_roundtrip pre post i o t :
  printable 1 pre -> printable 1 post -> Forall (fun kv => kv.1 <> "usage") post ->
  in_int64 i -> in_int64 o -> in_int64 t ->
  ParseUsageJSON (response pre post (int_members (chat_usage i o t))) =
    (if (i =? 0) && (o =? 0) then if 0 <? t then Some (mkUsage t 0) else None else Some (mkUsage i o)) /\
  ParseUsageJSON (response pre post (int_members (messages_usage i o))) =
    (if (i =? 0) && (o =? 0) then None else Some (mkUsage i o)).
Proof.
  intros Pr Po F Ri Ro Rt.
  assert (G : forall ints, ints <> [] -> Forall (fun kn => plain kn.1 = true) ints ->
    exists root, decode_raw_map (response pre post (int_members ints)) = Some root /\
      find_key "usage" root = Some (obj (int_members ints))).
  { intros ints N P. apply response_usage; auto using printable_ints. destruct ints; discriminate || congruence. }
  split; unfold ParseUsageJSON.
  - destruct (G (chat_usage i o t)) as (root & -> & ->); [discriminate|repeat constructor|].
    rewrite decode_int_map_obj; [|discriminate|repeat constructor|unfold chat_usage, messages_usage; auto]. cbn. reflexivity.
  - destruct (G (messages_usage i o)) as (root & -> & ->); [discriminate|repeat constructor|].
    rewrite decode_int_map_obj; [|discriminate|repeat constructor|unfold chat_usage, messages_usage; auto]. cbn.
    destruct (_ && _); reflexivity.
Qed.

Lemma usage_roundtrip_witness :
  let pre := [("id", FormatInt 7)] in
  ParseUsageJSON (response pre [] (int_members (chat_usage 12 30 42))) = Some (mkUsage 12 30) /\
  ParseUsageJSON (response pre [] (int_members (messages_usage 12 30))) = Some (mkUsage 12 30).
Proof.
  cbv zeta. apply (usage_roundtrip [("id", FormatInt 7)] [] 12 30 42); try (unfold in_int64, int64_min, int64_max; lia).
  - exact (printable_ints 1 [("id", 7)] ltac:(repeat constructor)).
  - constructor.
  - constructor.
Defined.

Lemma forallb_exists_false {A} (f : A -> bool) l : forallb f l = false -> exists x, In x l /\ f x = false.
Proof.
  induction l as [|x l IH]; cbn [forallb]; [discriminate|]. destruct (f x) eqn:E; cbn [andb].
  - intros H. destruct (IH H) as (y & I & F). exists y. split; [right; exact I|exact F].
  - intros _. exists x. split; [left; reflexivity|exact E].
Qed.

(** A JSON value that is an [int64] or null, which reads as zero. *)
Definition integer_or_null (v : string) : bool :=
  match parse v with
  | Some (JNum lit) => match (ParseInt lit).2 with None => true | Some _ => false end
  | Some JNull => true
  | _ => false
  end.

(** The numbers of a usage object. *)
Definition counts_of (usage : list (string * string)) : list (string * Z) :=
  map (fun kv => (kv.1, match parse kv.2 with Some (JNum lit) => (ParseInt lit).1 | _ => 0 end)) usage.

Lemma integer_or_null_read v :
  decode_int64 v =
    if integer_or_null v then Some (match parse v with Some (JNum lit) => (ParseInt lit).1 | _ => 0 end) else None.
Proof.
  unfold decode_int64, integer_or_null. destruct (parse v) as [[| |lit| | |]|]; try reflexivity.
  destruct (ParseInt lit) as [n [e|]]; reflexivity.
Qed.

Lemma decode_int_map_counts usage :
  usage <> [] -> printable 1 usage -> forallb (fun kv => integer_or_null kv.2) usage = true ->
  decode_int_map (obj usage) = Some (counts_of usage).
Proof.
  intros N P F. unfold decode_int_map. rewrite parse_obj by assumption. clear N P.
  induction usage as [|[k v] usage IH]; [reflexivity|]. cbn [forallb mapM counts_of map fst snd] in *.
  apply andb_prop in F as [Fv F]. rewrite integer_or_null_read, Fv. specialize (IH F). unfold counts_of in IH.
  cbn [mret option_ret mbind option_bind] in *. rewrite IH. reflexivity.
Qed.

(** C23: a usage object is read when each of its members is an [int64] or null, and then
    its counts are the first of the names of each dialect that it has, null being zero.
    With one other member, like the token details current OpenAI responses carry, it is
    not read at all: neither a response nor a chunk of a stream that holds it reports
    any usage. *)
Theorem usage_needs_integers pre post usage :
  printable 1 pre -> printable 1 post -> Forall (fun kv => kv.1 <> "usage") post ->
  printable 2 usage -> printable 1 usage -> usage <> [] ->
  let body := response pre post usage in
  if forallb (fun kv => integer_or_null kv.2) usage then
    let in_ := firstInt (counts_of usage) ["prompt_tokens"; "input_tokens"] in
    let out := firstInt (counts_of usage) ["completion_tokens"; "output_tokens"] in
    in_ <> 0 \/ out <> 0 ->
    ParseUsageJSON body = Some (mkUsage in_ out) /\ parseUsageFromChunk body = Some (mkUsage in_ out)
  else ParseUsageJSON body = None /\ parseUsageFromChunk body = None.
Proof.
  intros Pr Po F P2 P1 N body.
  destruct (response_usage pre post usage Pr Po P2 N F) as (root & Er & Eu). fold body in Er.
  destruct (forallb _ usage) eqn:All.
  - intros in_ out Nz. assert (E : ParseUsageJSON body = Some (mkUsage in_ out)).
    { unfold ParseUsageJSON. rewrite Er, Eu, decode_int_map_counts by assumption. fold in_ out.
      destruct (Z.eqb_spec in_ 0), (Z.eqb_spec out 0); try reflexivity. destruct Nz; contradiction. }
    split; [exact E|]. unfold parseUsageFromChunk. rewrite E. reflexivity.
  - assert (D : decode_int_map (obj usage) = None).
    { destruct (forallb_exists_false _ _ All) as ([k v] & I & V). apply (decode_int_map_none usage k v P1 I).
      rewrite integer_or_null_read. cbn [snd] in V. rewrite V. reflexivity. }
    assert (E : ParseUsageJSON body = None) by (unfold ParseUsageJSON; rewrite Er, Eu, D; reflexivity).
    split; [exact E|]. unfold parseUsageFromChunk. rewrite E, Er, Eu, D. destruct (decide _); reflexivity.
Qed.

(** The usage of a response that counts cached tokens. *)
Lemma usage_needs_integers_witness :
  let usage := [("prompt_tokens", FormatInt 12); ("completion_tokens", FormatInt 30);
                ("prompt_tokens_details", obj [("cached_tokens", FormatInt 0)])] in
  ParseUsageJSON (response [] [] usage) = None /\ parseUsageFromChunk (response [] [] usage) = None.
Proof.
  cbv zeta.
  assert (P : forall d, d <= 2 -> printable d [("prompt_tokens", FormatInt 12); ("completion_tokens", FormatInt 30);
                ("prompt_tokens_details", obj [("cached_tokens", FormatInt 0)])]).
  { intros d Hd. apply (Forall_app _ (int_members [("prompt_tokens", 12); ("completion_tokens", 30)]) [_]).
    split; [apply printable_ints; repeat constructor|]. apply Forall_singleton. split; [reflexivity|].
    apply value_obj; [discriminate|unfold maxNestingDepth; lia|].
    apply (printable_ints _ [("cached_tokens", 0)]). repeat constructor. }
  apply (usage_needs_integers [] [] [("prompt_tokens", FormatInt 12); ("completion_tokens", FormatInt 30);
                ("prompt_tokens_details", obj [("cached_tokens", FormatInt 0)])]).
  - constructor.
  - constructor.
  - constructor.
  - apply P. lia.
  - apply P. lia.
  - discriminate.
Defined.

(** ** The usage of a stream *)

Definition LF : ascii := ascii_of_nat 10.

Fixpoint no_lf (s : string) : bool :=
  match s with String.String c s => negb (Ascii.eqb c LF) && no_lf s | EmptyString => true end.

(** What a scanner yields over a stream: its lines, up to one that does not fit into
    the buffer. *)
Inductive Scanned (max : nat) : string -> list string -> bool -> Prop :=
| Scanned_end : Scanned max "" [] false
| Scanned_long l rest :
    no_lf l = true -> (max <= String.length l)%nat -> l <> "" -> Scanned max (l +:+ rest) [] true
| Scanned_last l :
    no_lf l = true -> l <> "" -> (String.length l < max)%nat -> Scanned max l [drop_cr l] false
| Scanned_line l rest ls long :
    no_lf l = true -> (String.length l < max)%nat -> Scanned max rest ls long ->
    Scanned max (l +:+ String.String LF rest) (drop_cr l :: ls) long.

Lemma cut_line_spec s l r :
  cut_line s = (l, r) ->
  no_lf l = true /\ s = match r with Some t => l +:+ String.String LF t | None => l end.
Proof.
  revert l r. induction s as [|c s IH]; intros l r; cbn [cut_line]; [intros [= <- <-]; auto|].
  fold LF. destruct (Ascii.eqb_spec c LF) as [->|N]; [intros [= <- <-]; auto|].
  destruct (cut_line s) as [l' r']. intros [= <- <-]. destruct (IH _ _ eq_refl) as [H1 H2].
  cbn. destruct (Ascii.eqb_spec c LF); [congruence|]. cbn. split; [exact H1|].
  rewrite H2 at 1. destruct r'; reflexivity.
Qed.

Lemma cut_line_app l rest : no_lf l = true -> cut_line (l +:+ String.String LF rest) = (l, Some rest).
Proof.
  induction l as [|c l IH]; cbn [no_lf]; intros N; [reflexivity|].
  apply andb_true_iff in N as [Nc N]. apply negb_true_iff in Nc. rewrite app_String. cbn [cut_line]. fold LF.
  rewrite Nc, IH by exact N. reflexivity.
Qed.

Lemma cut_line_long l rest :
  no_lf l = true -> (String.length l <= String.length (cut_line (l +:+ rest)).1)%nat.
Proof.
  induction l as [|c l IH]; cbn [no_lf String.length]; intros N; [lia|].
  apply andb_true_iff in N as [Nc N]. apply negb_true_iff in Nc. rewrite app_String. cbn [cut_line]. fold LF.
  rewrite Nc. specialize (IH N). destruct (cut_line (l +:+ rest)) as [l' r]. cbn in *. lia.
Qed.

Lemma cut_line_all l : no_lf l = true -> cut_line l = (l, None).
Proof.
  intros N. pose proof (cut_line_long l "" N) as L. rewrite str_app_nil in L.
  destruct (cut_line l) as [l' [r|]] eqn:E; apply cut_line_spec in E as [_ E]; subst; cbn in L; [|reflexivity].
  rewrite length_app in L. cbn in L. lia.
Qed.

(** The scanner as it runs, with any fuel that covers the stream. *)
Lemma Scanned_run max fuel s :
  (0 < max)%nat -> (String.length s <= fuel)%nat ->
  Scanned max s (scan_lines max fuel s).1 (scan_lines max fuel s).2.
Proof.
  intros M. revert s. induction fuel as [|fuel IH]; intros s L; (destruct s as [|c s]; [constructor|]); [cbn in L; lia|].
  cbn [scan_lines]. set (t := String.String c s) in *. assert (T : t <> "") by discriminate. clearbody t. clear c s.
  destruct (cut_line t) as [l r] eqn:E. apply cut_line_spec in E as [N E].
  destruct (Nat.leb_spec max (String.length l)) as [Long|Fits].
  - assert (l <> "") by (intros ->; cbn in Long; lia). cbn. destruct r as [r|]; subst t.
    + apply Scanned_long; assumption.
    + rewrite <- (str_app_nil l). apply Scanned_long; assumption.
  - destruct r as [r|]; subst t; [|apply Scanned_last; assumption].
    rewrite length_app in L. cbn [String.length] in L. specialize (IH r ltac:(lia)).
    destruct (scan_lines max fuel r) as [ls long]. cbn in *. apply Scanned_line; assumption.
Qed.

Lemma Scanned_unique max s ls long :
  Scanned max s ls long -> forall fuel, (String.length s <= fuel)%nat -> scan_lines max fuel s = (ls, long).
Proof.
  induction 1 as [|l rest N L E|l N E L|l rest ls long N L S IH]; intros fuel F.
  - destruct fuel; reflexivity.
  - pose proof (cut_line_long l rest N) as C. destruct l as [|c l]; [congruence|]. rewrite app_String in *.
    destruct fuel as [|fuel]; [cbn in F; lia|]. cbn [scan_lines].
    destruct (cut_line _) as [l' r]. cbn [fst] in C. destruct (Nat.leb_spec max (String.length l')); [reflexivity|lia].
  - pose proof (cut_line_all l N) as C. destruct l as [|c l]; [congruence|].
    destruct fuel as [|fuel]; [cbn in F; lia|]. cbn [scan_lines]. rewrite C.
    destruct (Nat.leb_spec max (String.length (String.String c l))); [lia|reflexivity].
  - pose proof (cut_line_app l rest N) as C. rewrite length_app in F. cbn [String.length] in F.
    destruct fuel as [|fuel]; [lia|]. specialize (IH fuel ltac:(lia)).
    destruct (l +:+ String.String LF rest) as [|c t] eqn:T; [destruct l; discriminate|]. cbn [scan_lines]. rewrite C, IH.
    destruct (Nat.leb_spec max (String.length l)); [lia|reflexivity].
Qed.

Lemma maxLine_pos : (0 < maxLine)%nat.
Proof. unfold maxLine. lia. Qed.

Lemma rev_case {A} (l : list A) : l = [] \/ exists x l', l = l' ++ [x].
Proof. induction l as [|x l' _] using rev_ind; [left; reflexivity|right; eauto]. Qed.

(** The loop over the lines keeps the last usage a line reports. *)
Lemma last_usage_spec ls u :
  last_usage ls = Some u <->
  exists before l after, ls = before ++ l :: after /\ line_usage l = Some u /\ Forall (fun l => line_usage l = None) after.
Proof.
  unfold last_usage. induction ls as [|y ls IH] using rev_ind.
  - split; [discriminate|]. intros (before & l & after & Eq & _). destruct before; discriminate.
  - rewrite fold_left_app. cbn [fold_left]. destruct (line_usage y) as [v|] eqn:E.
    + split.
      * intros [= ->]. exists ls, y, []. auto.
      * intros (before & l' & after & Eq & El & N). destruct (rev_case after) as [->|(x & after' & ->)].
        -- apply app_inj_tail in Eq as [_ <-]. congruence.
        -- rewrite app_comm_cons, app_assoc in Eq. apply app_inj_tail in Eq as [_ <-].
           apply Forall_app in N as [_ N]. apply Forall_cons in N as [N _]. congruence.
    + rewrite IH. split; intros (before & l' & after & Eq & El & N).
      * exists before, l', (after ++ [y]). rewrite Eq, <- app_assoc. split; [reflexivity|]. split; [exact El|].
        apply Forall_app. auto.
      * destruct (rev_case after) as [->|(x & after' & ->)].
        -- apply app_inj_tail in Eq as [_ <-]. congruence.
        -- rewrite app_comm_cons, app_assoc in Eq. apply app_inj_tail in Eq as [Eq <-].
           apply Forall_app in N as [N _]. exists before, l', after'. auto.
Qed.

(** C24: reading the usage of a stream ends on every stream, whatever it holds.  It looks
    at exactly the lines that fit into a buffer of a mebibyte, up to the first that does
    not, and reports the usage of the last of them that reports one, or none if none of
    them does; what follows an overlong line is never looked at. *)
Theorem sse_scan_terminates stream :
  exists ls long,
    Scanned (Z.to_nat (2 ^ 20)) stream ls long /\
    (forall ls' long', Scanned (Z.to_nat (2 ^ 20)) stream ls' long' -> ls' = ls /\ long' = long) /\
    (forall fuel, (String.length stream <= fuel)%nat -> scan_lines maxLine fuel stream = (ls, long)) /\
    match ParseUsageSSE stream with
    | Some u => exists before l after,
        ls = before ++ l :: after /\ line_usage l = Some u /\ Forall (fun l => line_usage l = None) after
    | None => Forall (fun l => line_usage l = None) ls
    end.
Proof.
  pose proof (Scanned_run maxLine (String.length stream) stream) as R.
  specialize (R maxLine_pos (le_n _)).
  replace (Z.to_nat (2 ^ 20)) with maxLine by (unfold maxLine; apply (f_equal Z.to_nat); reflexivity).
  exists (Lines maxLine stream).1, (Lines maxLine stream).2. unfold Lines, ParseUsageSSE.
  pose proof (Scanned_unique _ _ _ _ R) as U. split; [exact R|]. split; [|split; [exact U|]].
  - intros ls' long' S. rewrite (Scanned_unique _ _ _ _ S (String.length stream) (le_n _)). auto.
  - fold (Lines maxLine stream). destruct (last_usage (Lines maxLine stream).1) as [u|] eqn:E; [apply last_usage_spec, E|].
    apply Forall_forall. intros l I. apply list_elem_of_In, in_split in I as (before & after & Eq).
    destruct (line_usage l) as [u|] eqn:El; [|reflexivity]. exfalso. rewrite Eq in E. unfold last_usage in E.
    rewrite fold_left_app in E. cbn [fold_left] in E. rewrite El in E. revert E. clear. generalize u.
    induction after as [|x after IH]; intros u'; cbn [fold_left]; [discriminate|]. destruct (line_usage x); apply IH.
Qed.

(** ** Bytes the scanner leaves behind *)

Lemma drop_nonempty n s : drop n s <> "" <-> (n < String.length s)%nat.
Proof.
  pose proof (drop_length n s) as L. destruct (drop n s) as [|c r]; cbn in L; split; intros; try congruence; lia.
Qed.

(** Once the scanner has left bytes behind, more of the stream only adds to them. *)
Lemma unread_app max n m s t :
  (String.length s <= n)%nat -> (String.length (s +:+ t) <= m)%nat ->
  scan_unread max n s <> "" -> scan_unread max m (s +:+ t) <> "".
Proof.
  revert m s. induction n as [|n IH]; intros m [|c s] Ln Lm U; cbn [String.length] in Ln; try lia; try (exfalso; auto; fail).
  cbn [scan_unread] in U. set (s0 := String.String c s) in *. assert (N0 : s0 <> "") by discriminate.
  assert (L0 : (String.length s0 <= S n)%nat) by (cbn; lia). clearbody s0. clear c s Ln.
  destruct m as [|m]; [rewrite length_app in Lm; destruct s0; cbn in Lm; [congruence|lia]|].
  assert (U' : scan_unread max (S m) (s0 +:+ t) =
    let '(l, rest) := cut_line (s0 +:+ t) in
    if (max <=? String.length l)%nat then drop max (s0 +:+ t)
    else match rest with Some rest => scan_unread max m rest | None => "" end).
  { destruct s0 as [|c s]; [congruence|]. rewrite app_String. reflexivity. }
  rewrite U'. clear U'. rewrite length_app in Lm. destruct (cut_line s0) as [l r] eqn:E. apply cut_line_spec in E as [Nl E].
  destruct r as [r|]; subst s0.
  - rewrite app_app, app_String, cut_line_app by exact Nl.
    rewrite length_app in L0, Lm. cbn [String.length] in L0, Lm.
    destruct (Nat.leb_spec max (String.length l)) as [Lg|Lg].
    + apply drop_nonempty. rewrite length_app. cbn [String.length]. lia.
    + apply IH; [lia|rewrite length_app; lia|exact U].
  - destruct (Nat.leb_spec max (String.length l)) as [Lg|Lg]; [|congruence].
    apply drop_nonempty in U. pose proof (cut_line_long l t Nl) as C. destruct (cut_line (l +:+ t)) as [l' r'].
    cbn [fst] in C. destruct (Nat.leb_spec max (String.length l')); [|lia].
    apply drop_nonempty. rewrite length_app. lia.
Qed.

Lemma Unread_app max s t : Unread max s <> "" -> Unread max (s +:+ t) <> "".
Proof. unfold Unread. apply unread_app; lia. Qed.

(** A line that does not fit, with anything behind it. *)
Lemma Unread_overlong max l rest :
  no_lf l = true -> (max <= String.length l)%nat -> (max < String.length (l +:+ rest))%nat -> l <> "" ->
  Unread max (l +:+ rest) <> "".
Proof.
  intros N L G E. pose proof (cut_line_long l rest N) as C. unfold Unread.
  destruct (l +:+ rest) as [|c t] eqn:T; [cbn in G; lia|]. cbn [String.length scan_unread] in *.
  destruct (cut_line (String.String c t)) as [l' r]. cbn [fst] in C.
  destruct (Nat.leb_spec max (String.length l')); [|lia]. apply drop_nonempty. cbn. lia.
Qed.

(** Such a line hides all usage behind it. *)
Lemma overlong_hides_usage l rest :
  no_lf l = true -> (maxLine <= String.length l)%nat -> l <> "" -> ParseUsageSSE (l +:+ rest) = None.
Proof.
  intros N L E. unfold ParseUsageSSE, Lines.
  rewrite (Scanned_unique _ _ _ _ (Scanned_long maxLine l rest N L E) _ (le_n _)). reflexivity.
Qed.
