(* ===== verification/Bucket.v ===== *)
(** * Bucket: the token bucket of pkg/bucket/bucket.go *)

From stdpp Require Import base tactics numbers.
From Stdlib Require Import ZArith Lia.
From S2P Require Import Prelude GoFloat Api.

(** A single token-bucket snapshot. *)
Record State := mkState { stTokens : float64; LastMs : Z; Capacity : Z }.

#[export] Instance eta_State : Eta State :=
  fun s => mkState (stTokens s) (LastMs s) (Capacity s).

(** The outcome of trying to consume. *)
Record Result := mkResult {
  rAllowed : bool;
  rTokens : float64;
  rRemaining : Z;
  rRetryAfter : Duration;
  rResetAt : Time
}.

Definition RefillPerSec (capacity : Z) : float64 :=
  if capacity <=? 0 then 0 else fdiv (of_int capacity) (of_int 60).

(** Tokens earned in [nowMs - lastMs] milliseconds. *)
Definition Refill (s : State) (nowMs : Z) : State :=
  if Capacity s <=? 0 then mkState 0 nowMs (Capacity s)
  else if LastMs s =? 0 then mkState (of_int (Capacity s)) nowMs (Capacity s)
  else if nowMs <? LastMs s then s <| LastMs := nowMs |>
  else
    let elapsed := fdiv (of_int (wrap64 (nowMs - LastMs s))) (of_int 1000) in
    let rate := RefillPerSec (Capacity s) in
    mkState (fmin (of_int (Capacity s)) (fadd (stTokens s) (fmul elapsed rate)))
      nowMs (Capacity s).

Definition retryAfter (s : State) (need : float64) : Duration :=
  let rate := RefillPerSec (Capacity s) in
  if rate <=? 0 then Hour
  else
    let deficit := fsub need (stTokens s) in
    if deficit <=? 0 then 0
    else
      let secs := fceil (fdiv deficit rate) in
      wrap64 (to_int64 secs * Second).

Definition ResetAt (s : State) (nowMs : Z) : Time :=
  let rate := RefillPerSec (Capacity s) in
  let now := UnixMilli nowMs in
  if rate <=? 0 then now
  else
    let need := fsub (of_int (Capacity s)) (stTokens s) in
    if need <=? 0 then now
    else
      let secs := fdiv need rate in
      Add now (to_int64 (fmul secs (of_int Second))).

Definition RemainingInt (tokens : float64) : Z := to_int64 (ffloor tokens).

(** The constant [1e-9]. *)
Definition eps : float64 := of_ratio 1 1000000000.

Definition TryConsume (s : State) (nowMs cost : Z) : State * Result :=
  let s := Refill s nowMs in
  let remaining := to_int64 (ffloor (stTokens s)) in
  let resetAt := ResetAt s nowMs in
  let cost := if cost <? 0 then 0 else cost in
  if Capacity s <? cost then
    (s, mkResult false (stTokens s) remaining (retryAfter s (of_int cost)) resetAt)
  else if fadd (stTokens s) eps <? of_int cost then
    (s, mkResult false (stTokens s) remaining (retryAfter s (of_int cost)) resetAt)
  else
    let s := s <| stTokens := fsub (stTokens s) (of_int cost) |> in
    let rem := to_int64 (ffloor (stTokens s)) in
    (s, mkResult true (stTokens s) rem 0 (ResetAt s nowMs)).

(** Adds tokens capped at capacity. *)
Definition Credit (s : State) (nowMs amount : Z) : State :=
  let s := Refill s nowMs in
  if amount <=? 0 then s
  else s <| stTokens := fmin (of_int (Capacity s)) (fadd (stTokens s) (of_int amount)) |>.

(** Debits up to the available tokens: new state, debited, overshoot. *)
Definition DebitFloor (s : State) (nowMs amount : Z) : State * Z * Z :=
  let s := Refill s nowMs in
  if amount <=? 0 then (s, 0, 0)
  else
    let avail := to_int64 (ffloor (stTokens s)) in
    if amount <=? avail then
      (s <| stTokens := fsub (stTokens s) (of_int amount) |>, amount, 0)
    else
      let overshoot := wrap64 (amount - avail) in
      let s := s <| stTokens := fsub (stTokens s) (of_int avail) |> in
      let s := if stTokens s <? 0 then s <| stTokens := 0 |> else s in
      (s, avail, overshoot).

(** ** Well-formed snapshots *)

(** The balance a snapshot may be below zero: twice the comparison slack. *)
Definition slack : Z := 2 * eps.

(** The largest capacity whose integers are all [float64] values. *)
Definition max_capacity : Z := 2 ^ 53.

(** The balance is a binary64 value between the slack and the capacity. *)
Record wf (s : State) : Prop := {
  wf_float : is_float (stTokens s);
  wf_lower : - slack <= stTokens s;
  wf_upper : stTokens s <= Z.max 0 (of_int (Capacity s))
}.

Lemma eps_float : is_float eps.
Proof. apply of_ratio_float. lia. Qed.

Lemma eps_pos : 0 < eps.
Proof. vm_compute. reflexivity. Qed.

(** [1e-9] as a [float64] is below [2^-29]. *)
Lemma eps_small : 2 ^ 29 * eps < one.
Proof. vm_compute. reflexivity. Qed.

Lemma eps_large : one <= 2 ^ 30 * eps.
Proof. vm_compute. discriminate. Qed.

Lemma slack_float : is_float slack.
Proof.
  destruct eps_float as (m & e & He & Hm & E). exists m, (e + 1).
  split; [lia|]. split; [assumption|]. unfold slack. rewrite E, Z.pow_add_r by lia.
  change (2 ^ 1) with 2. ring.
Qed.

Lemma slack_pos : 0 < slack.
Proof. vm_compute. reflexivity. Qed.

Lemma slack_small : 2 * slack < one.
Proof. vm_compute. reflexivity. Qed.

#[global] Opaque eps slack.
#[export] Hint Resolve eps_float slack_float eps_pos slack_pos slack_small : valve.

Lemma of_int_cap c : c <= max_capacity -> 0 <= c -> of_int c = c * one.
Proof. unfold max_capacity. intros. apply of_int_exact. lia. Qed.

(** ** Refill *)

Lemma RefillPerSec_pos c : 0 < c -> 0 < RefillPerSec c.
Proof.
  intros. unfold RefillPerSec. destruct (Z.leb_spec c 0); [lia|].
  pose proof (of_int_ge_one c ltac:(lia)). pose proof one_pos.
  assert (E : of_int 60 = 60 * one) by (apply of_int_exact; lia).
  rewrite fdiv_spec, E, (rnd_scale (of_int c) 60 one) by lia.
  enough (2 ^ 52 <= rnd (of_int c) 60) by lia.
  apply rnd_ge; [lia|exists 1, 52; lia|].
  transitivity one; [discriminate|assumption].
Qed.

Lemma RefillPerSec_nonneg c : 0 <= RefillPerSec c.
Proof.
  destruct (Z.le_gt_cases c 0) as [H|H].
  - unfold RefillPerSec. apply Z.leb_le in H. rewrite H. lia.
  - pose proof (RefillPerSec_pos c H). lia.
Qed.

(** The four ways through [Refill]. *)
Variant refill_case (s : State) (nowMs : Z) : State -> Prop :=
| refill_none : Capacity s <= 0 -> refill_case s nowMs (mkState 0 nowMs (Capacity s))
| refill_cold : 0 < Capacity s -> LastMs s = 0 ->
    refill_case s nowMs (mkState (of_int (Capacity s)) nowMs (Capacity s))
| refill_back : 0 < Capacity s -> LastMs s <> 0 -> nowMs < LastMs s ->
    refill_case s nowMs (mkState (stTokens s) nowMs (Capacity s))
| refill_earn earned : 0 < Capacity s -> LastMs s <> 0 -> LastMs s <= nowMs ->
    earned = fmul (fdiv (of_int (wrap64 (nowMs - LastMs s))) (of_int 1000))
                  (RefillPerSec (Capacity s)) ->
    refill_case s nowMs
      (mkState (Z.min (of_int (Capacity s)) (fadd (stTokens s) earned))
         nowMs (Capacity s)).

Lemma Refill_cases s nowMs : refill_case s nowMs (Refill s nowMs).
Proof.
  unfold Refill. destruct (Z.leb_spec (Capacity s) 0); [constructor; assumption|].
  destruct (Z.eqb_spec (LastMs s) 0); [constructor; assumption|].
  destruct (Z.ltb_spec nowMs (LastMs s)); [constructor; assumption|].
  rewrite fmin_eq. constructor; auto.
Qed.

Lemma Refill_Capacity s nowMs : Capacity (Refill s nowMs) = Capacity s.
Proof. destruct (Refill_cases s nowMs); reflexivity. Qed.

Lemma Refill_LastMs s nowMs : LastMs (Refill s nowMs) = nowMs.
Proof. destruct (Refill_cases s nowMs); reflexivity. Qed.

#[export] Hint Rewrite Refill_Capacity Refill_LastMs : valve.

(** Tokens earned are not negative unless the elapsed milliseconds wrap. *)
Lemma earned_nonneg dt c :
  0 <= dt -> 0 <= fmul (fdiv (of_int dt) (of_int 1000)) (RefillPerSec c).
Proof.
  intros. apply fmul_nonneg; [|apply RefillPerSec_nonneg].
  apply fdiv_nonneg; [apply of_int_nonneg; assumption|apply of_int_pos; lia].
Qed.

Lemma wf_cap_nonneg s : 0 < Capacity s -> Z.max 0 (of_int (Capacity s)) = of_int (Capacity s).
Proof. intros. pose proof (of_int_pos _ H). lia. Qed.

(** Timestamps of the program are nonnegative [int64] numbers. *)
Definition time_ok (t : Z) : Prop := 0 <= t <= int64_max.

Lemma time_ok_elapsed t u : time_ok t -> time_ok u -> u <= t -> wrap64 (t - u) = t - u.
Proof.
  unfold time_ok. intros. apply wrap64_id. unfold in_int64, int64_min, int64_max in *. lia.
Qed.

(** Refilling forward in time caps the balance, whatever the capacity was before. *)
Lemma Refill_wf_forward s nowMs :
  is_float (stTokens s) -> - slack <= stTokens s -> time_ok (LastMs s) -> time_ok nowMs ->
  LastMs s <= nowMs -> wf (Refill s nowMs).
Proof.
  intros F L T1 T2 Hl. pose proof slack_pos as S.
  destruct (Refill_cases s nowMs) as [|Hc _|Hc _ ?|earned Hc _ _ ->];
    split; cbn [stTokens LastMs Capacity]; try assumption; try lia.
  - apply is_float_0.
  - apply of_int_float.
  - pose proof (of_int_pos _ Hc). lia.
  - rewrite <- fmin_eq. auto with valve.
  - rewrite time_ok_elapsed by assumption.
    pose proof (earned_nonneg (nowMs - LastMs s) (Capacity s) ltac:(lia)) as E.
    pose proof (fadd_ge _ _ F E). pose proof (of_int_pos _ Hc). lia.
Qed.

Lemma Refill_wf s nowMs :
  time_ok (LastMs s) -> time_ok nowMs -> wf s -> wf (Refill s nowMs).
Proof.
  intros T1 T2 [F L U].
  destruct (Z.le_gt_cases (LastMs s) nowMs); [apply Refill_wf_forward; assumption|].
  pose proof slack_pos.
  destruct (Refill_cases s nowMs) as [|Hc ?|Hc _ _|earned Hc _ ? ->];
    split; cbn [stTokens LastMs Capacity]; try assumption; try lia;
    unfold time_ok in *; try lia.
  apply is_float_0.
Qed.

(** Refilling never takes tokens away while time does not go back. *)
Lemma Refill_grows s nowMs :
  time_ok (LastMs s) -> time_ok nowMs -> LastMs s <= nowMs -> 0 < Capacity s -> wf s ->
  stTokens s <= stTokens (Refill s nowMs).
Proof.
  intros T1 T2 Hl Hc [F L U]. rewrite wf_cap_nonneg in U by assumption.
  destruct (Refill_cases s nowMs) as [|_ _|_ _|earned _ _ _ ->];
    cbn [stTokens]; try lia.
  rewrite time_ok_elapsed by assumption.
  pose proof (earned_nonneg (nowMs - LastMs s) (Capacity s) ltac:(lia)) as E.
  pose proof (fadd_ge _ _ F E). lia.
Qed.

(** ** TryConsume *)

(** Negative costs count as zero. *)
Lemma clamp_max c : (if c <? 0 then 0 else c) = Z.max 0 c.
Proof. destruct (Z.ltb_spec c 0); lia. Qed.

(** Balances of capacities up to [2^53] have an exact [int64] floor. *)
Lemma RemainingInt_floor t :
  - slack <= t <= 2 ^ 53 * one -> RemainingInt t = floorZ t.
Proof.
  intros H. unfold RemainingInt. apply to_int64_floor.
  pose proof (floorZ_bounds t). pose proof one_pos. pose proof slack_small.
  unfold in_int64, int64_min, int64_max. nia.
Qed.

Lemma wf_bounds s :
  Capacity s <= max_capacity -> wf s -> - slack <= stTokens s <= 2 ^ 53 * one.
Proof.
  intros Hc [_ L U]. split; [assumption|]. pose proof one_pos.
  destruct (Z.le_gt_cases 0 (Capacity s)).
  - rewrite of_int_cap in U by assumption. unfold max_capacity in Hc. nia.
  - pose proof (of_int_mono (Capacity s) 0 ltac:(lia)). rewrite of_int_0 in *. lia.
Qed.

(** Exact debit of an integer the balance covers up to the slack. *)
Lemma debit_exact t c :
  is_float t -> - slack <= t <= 2 ^ 53 * one -> 0 <= c <= max_capacity ->
  c * one <= t + slack ->
  fsub t (of_int c) = t - c * one.
Proof.
  intros F B Hc L. pose proof one_pos. pose proof slack_small. pose proof slack_pos.
  rewrite of_int_cap by lia. unfold max_capacity in Hc.
  destruct (Z.eq_dec c 0) as [->|N].
  - rewrite Z.mul_0_l. apply fsub_exact. rewrite Z.sub_0_r. assumption.
  - apply fsub_int_exact; [assumption|lia|]. nia.
Qed.

Variant consume_case (s : State) (nowMs cost : Z) : State * Result -> Prop :=
| consume_deny :
    (Capacity s < Z.max 0 cost \/
     stTokens (Refill s nowMs) < Z.max 0 cost * one) ->
    consume_case s nowMs cost
      (Refill s nowMs,
       mkResult false (stTokens (Refill s nowMs))
         (RemainingInt (stTokens (Refill s nowMs)))
         (retryAfter (Refill s nowMs) (of_int (Z.max 0 cost)))
         (ResetAt (Refill s nowMs) nowMs))
| consume_ok t :
    Z.max 0 cost <= Capacity s ->
    t = stTokens (Refill s nowMs) - Z.max 0 cost * one ->
    - slack <= t ->
    consume_case s nowMs cost
      (mkState t nowMs (Capacity s),
       mkResult true t (RemainingInt t) 0 (ResetAt (mkState t nowMs (Capacity s)) nowMs)).

(** What an attempt to consume does, in exact arithmetic: it debits the integer
    cost without rounding, or leaves the refilled snapshot alone. *)
Lemma TryConsume_cases s nowMs cost :
  wf (Refill s nowMs) -> Capacity s <= max_capacity -> cost <= int64_max ->
  consume_case s nowMs cost (TryConsume s nowMs cost).
Proof.
  intros W Hc Hx. pose proof (wf_bounds _ ltac:(rewrite Refill_Capacity; exact Hc) W) as B.
  destruct W as [F L U]. unfold TryConsume.
  rewrite clamp_max, Refill_Capacity. set (c := Z.max 0 cost) in *.
  destruct (Z.ltb_spec (Capacity s) c); [apply consume_deny; left; assumption|].
  destruct (Z.ltb_spec (fadd (stTokens (Refill s nowMs)) eps) (of_int c)) as [D|A].
  - apply consume_deny. right. fold c. rewrite of_int_cap in D by lia.
    pose proof (fadd_ge _ _ F (Z.lt_le_incl _ _ eps_pos)). lia.
  - assert (S : c * one <= stTokens (Refill s nowMs) + slack).
    { rewrite of_int_cap in A by lia. rewrite Z.add_comm.
      pose proof (fadd_reach _ _ _ F (Z.lt_le_incl _ _ eps_pos) A).
      change slack with (2 * eps). lia. }
    rewrite debit_exact by (auto; lia). rewrite Refill_LastMs.
    apply consume_ok; fold c; [assumption|reflexivity|lia].
Qed.

(** A debited balance is again well formed. *)
Lemma wf_debit s t c u :
  wf s -> Capacity s <= max_capacity -> 0 <= c -> t = stTokens s - c * one ->
  - slack <= t -> wf (mkState t u (Capacity s)).
Proof.
  intros W Hc H0 -> L. pose proof (wf_bounds s Hc W) as B. destruct W as [F Lo Up].
  pose proof one_pos. pose proof slack_small. pose proof slack_pos.
  split; cbn [stTokens Capacity]; [|assumption|nia].
  destruct (Z.eq_dec c 0) as [->|]; [rewrite Z.sub_0_r; assumption|].
  apply is_float_sub_int; [assumption|lia|nia].
Qed.

Section Operations.
Context (s : State) (nowMs : Z).
Context (T1 : time_ok (LastMs s)) (T2 : time_ok nowMs).
Context (Hc : Capacity s <= max_capacity) (W : wf s).

Lemma TryConsume_wf cost s' r :
  cost <= int64_max -> TryConsume s nowMs cost = (s', r) ->
  wf s' /\ LastMs s' = nowMs /\ Capacity s' = Capacity s.
Proof.
  intros Hx E. pose proof (Refill_wf s nowMs T1 T2 W) as W'.
  pose proof (TryConsume_cases s nowMs cost W' Hc Hx) as C. rewrite E in C.
  inversion C as [D|t Hcap Ht Hl]; subst.
  - rewrite Refill_LastMs, Refill_Capacity. auto.
  - split; [|auto]. rewrite <- (Refill_Capacity s nowMs).
    eapply wf_debit with (c := Z.max 0 cost); eauto; rewrite ?Refill_Capacity; lia.
Qed.

Lemma Credit_wf amount :
  0 <= Capacity s -> amount <= int64_max ->
  wf (Credit s nowMs amount) /\ LastMs (Credit s nowMs amount) = nowMs /\
  Capacity (Credit s nowMs amount) = Capacity s.
Proof.
  intros Hp Hx. pose proof (Refill_wf s nowMs T1 T2 W) as W'. unfold Credit.
  destruct (Z.leb_spec amount 0); rewrite ?Refill_LastMs, ?Refill_Capacity; auto.
  cbn [LastMs Capacity]. rewrite fmin_eq. split; [|auto].
  destruct W' as [F L U]. pose proof slack_pos.
  pose proof (of_int_nonneg (Capacity s) Hp).
  pose proof (fadd_ge _ _ F (of_int_nonneg amount ltac:(lia))).
  split; cbn [stTokens Capacity]; [rewrite <- fmin_eq; auto with valve|lia|lia].
Qed.

Lemma floor_le_cap x : wf x -> 0 <= Capacity x <= max_capacity ->
  floorZ (stTokens x) <= Capacity x.
Proof.
  intros [_ _ U] H. apply floorZ_le_int. rewrite of_int_cap in U by lia.
  pose proof one_pos. nia.
Qed.

Lemma floor_ge_m1 x : wf x -> -1 <= floorZ (stTokens x).
Proof.
  intros [_ L _]. apply floorZ_ge_int. pose proof slack_small. pose proof slack_pos. lia.
Qed.

(** [DebitFloor] splits the amount into a debited part and an overshoot.  A
    nonnegative balance gives exactly what it has; a balance the slack left
    below zero gives minus one: it is credited instead. *)
Lemma DebitFloor_spec amount :
  0 < amount <= int64_max - 1 ->
  0 <= Capacity s ->
  let t := stTokens (Refill s nowMs) in
  let avail := floorZ t in
  DebitFloor s nowMs amount =
    if amount <=? avail
    then (mkState (t - amount * one) nowMs (Capacity s), amount, 0)
    else (mkState (fsub t (of_int avail)) nowMs (Capacity s), avail, amount - avail).
Proof.
  intros Ha Hp t avail. pose proof (Refill_wf s nowMs T1 T2 W) as W'.
  pose proof (wf_bounds _ ltac:(rewrite Refill_Capacity; exact Hc) W') as B.
  pose proof (floor_le_cap _ W' ltac:(rewrite Refill_Capacity; lia)) as Fc.
  pose proof (floor_ge_m1 _ W') as Fm. rewrite Refill_Capacity in Fc.
  fold t in B, Fc, Fm. fold avail in Fc, Fm.
  unfold DebitFloor. cbv zeta. destruct (Z.leb_spec amount 0); [lia|].
  change (to_int64 (ffloor (stTokens (Refill s nowMs)))) with (RemainingInt t).
  rewrite RemainingInt_floor by assumption. fold avail. fold t.
  cbn [stTokens LastMs Capacity].
  rewrite Refill_LastMs, Refill_Capacity.
  pose proof (floorZ_bounds t) as Fb. fold avail in Fb. pose proof slack_pos.
  destruct (Z.leb_spec amount avail).
  - rewrite debit_exact; [reflexivity|apply W'|assumption|lia|]. pose proof one_pos. nia.
  - rewrite wrap64_id by (unfold in_int64, int64_min, int64_max, max_capacity in *; lia).
    assert (N : (fsub t (of_int avail) <? 0) = false).
    { apply Z.ltb_ge, fsub_nonneg. unfold max_capacity in Hc.
      rewrite of_int_exact by lia. lia. }
    rewrite N. reflexivity.
Qed.
End Operations.

(** ** How much a refill earns *)

(** [n / k] of the source for integers, [k] a small constant. *)
Lemma fdiv_const n k :
  0 < k <= 2 ^ 53 -> Z.abs n <= 2 ^ 53 -> fdiv (of_int n) (of_int k) = rnd (n * one) k.
Proof.
  intros Hk Hn. pose proof one_pos. rewrite !of_int_exact by lia.
  rewrite fdiv_spec by nia. apply rnd_scale; lia.
Qed.

(** The quotient of two positive integers is within a relative [2^-53]. *)
Lemma fdiv_const_error n k :
  0 < k <= 2 ^ 53 -> 0 < n <= 2 ^ 53 ->
  let q := fdiv (of_int n) (of_int k) in
  (2 ^ 53 - 1) * (n * one) <= 2 ^ 53 * (q * k) <= (2 ^ 53 + 1) * (n * one).
Proof.
  intros Hk Hn q. unfold q. rewrite fdiv_const by lia.
  pose proof one_big. pose proof (rnd_error_rel (n * one) k ltac:(lia)) as E.
  assert (2 ^ 52 * k <= n * one) by nia. specialize (E H0). lia.
Qed.

Lemma fmul_error x y :
  2 ^ 52 * one <= x * y ->
  (2 ^ 53 - 1) * (x * y) <= 2 ^ 53 * (fmul x y * one) <= (2 ^ 53 + 1) * (x * y).
Proof.
  intros H. pose proof (rnd_error_rel (x * y) one one_pos H) as E.
  rewrite <- fmul_spec in E. lia.
Qed.

Lemma RefillPerSec_eq c : 0 < c -> RefillPerSec c = fdiv (of_int c) (of_int 60).
Proof. intros. unfold RefillPerSec. destruct (Z.leb_spec c 0); [lia|reflexivity]. Qed.

Lemma RefillPerSec_bounds c :
  0 < c <= max_capacity ->
  (2 ^ 53 - 1) * (c * one) <= 2 ^ 53 * (RefillPerSec c * 60) <= (2 ^ 53 + 1) * (c * one).
Proof.
  intros. rewrite RefillPerSec_eq by lia. apply fdiv_const_error; unfold max_capacity in *; lia.
Qed.

(** Tokens earned in [dt] milliseconds, against the exact [dt * c / 60000]. *)
Lemma earned_upper dt c :
  0 < dt <= 2 ^ 53 -> 0 < c <= max_capacity ->
  fmul (fdiv (of_int dt) (of_int 1000)) (RefillPerSec c) * 60000 * 2 ^ 159
  <= (2 ^ 53 + 1) ^ 3 * (dt * c * one).
Proof.
  intros Hd Hc. pose proof (fdiv_const_error dt 1000 ltac:(lia) Hd) as E.
  pose proof (RefillPerSec_bounds c Hc) as R. cbv zeta in E.
  set (e := fdiv (of_int dt) (of_int 1000)) in *. set (r := RefillPerSec c) in *.
  pose proof one_big as B. pose proof one_pos.
  assert (He : one <= 2000 * e) by nia. assert (Hr : one <= 120 * r) by nia.
  assert (Big : 2 ^ 52 * one <= e * r).
  { assert (one * one <= 2000 * e * (120 * r)) by (apply Z.mul_le_mono_nonneg; lia).
    assert (2 ^ 200 * one <= one * one) by (apply Z.mul_le_mono_nonneg_r; lia). lia. }
  destruct (fmul_error e r Big) as [_ P]. set (p := fmul e r) in *.
  assert (ER : 2 ^ 53 * (e * 1000) * (2 ^ 53 * (r * 60))
               <= (2 ^ 53 + 1) * (dt * one) * ((2 ^ 53 + 1) * (c * one)))
    by (apply Z.mul_le_mono_nonneg; lia).
  apply Z.mul_le_mono_pos_r with (p := one); [assumption|].
  replace (p * 60000 * 2 ^ 159 * one) with (2 ^ 53 * (p * one) * (60000 * 2 ^ 106)) by ring.
  transitivity ((2 ^ 53 + 1) * (e * r) * (60000 * 2 ^ 106)); [lia|].
  replace ((2 ^ 53 + 1) * (e * r) * (60000 * 2 ^ 106))
    with ((2 ^ 53 + 1) * (2 ^ 53 * (e * 1000) * (2 ^ 53 * (r * 60)))) by ring.
  replace ((2 ^ 53 + 1) ^ 3 * (dt * c * one) * one)
    with ((2 ^ 53 + 1) * ((2 ^ 53 + 1) * (dt * one) * ((2 ^ 53 + 1) * (c * one)))) by ring.
  apply Z.mul_le_mono_nonneg_l; [lia|exact ER].
Qed.

(** Refilling at the time of the last update changes nothing. *)
Lemma earned_0 c : fmul (fdiv (of_int 0) (of_int 1000)) (RefillPerSec c) = 0.
Proof.
  rewrite fdiv_const by lia. rewrite Z.mul_0_l, rnd_0 by lia.
  rewrite fmul_spec, Z.mul_0_l. apply rnd_0, one_pos.
Qed.

Lemma Refill_same s :
  0 < Capacity s -> LastMs s <> 0 -> wf s -> Refill s (LastMs s) = s.
Proof.
  intros Hc Hl [F L U]. rewrite wf_cap_nonneg in U by assumption.
  destruct s as [t l c]; cbn [stTokens LastMs Capacity] in *.
  destruct (Refill_cases (mkState t l c) l) as [| | |e _ _ _ ->];
    cbn [stTokens LastMs Capacity] in *; try lia.
  rewrite Z.sub_diag. change (wrap64 0) with 0. rewrite earned_0.
  rewrite fadd_exact; rewrite Z.add_0_r; [f_equal; lia|assumption].
Qed.

Lemma scaled_gain K E x p q : 0 <= K -> x <= p + q -> K * p <= E -> K * x <= E + K * q.
Proof. intros HK H P. transitivity (K * (p + q)); [apply Z.mul_le_mono_nonneg_l; assumption|lia]. Qed.

(** One refill earns at most the exact amount, up to the rounding of the
    multiplication and of one addition. *)
Lemma Refill_gain s nowMs :
  0 < Capacity s <= max_capacity -> LastMs s <> 0 -> time_ok (LastMs s) ->
  LastMs s <= nowMs <= 2 ^ 53 -> wf s ->
  60000 * 2 ^ 159 * (stTokens (Refill s nowMs) - stTokens s)
  <= (2 ^ 53 + 1) ^ 3 * ((nowMs - LastMs s) * Capacity s * one)
     + 60000 * 2 ^ 159 * (Capacity s * 2 ^ 1021).
Proof.
  intros Hc Hl T Hn W. pose proof (pow2_pos 1021 ltac:(lia)) as Hu.
  destruct (Z.eq_dec (LastMs s) nowMs) as [<-|N].
  { rewrite Refill_same, !Z.sub_diag by (assumption || lia). apply scaled_gain with (p := 0); [lia|nia|].
    rewrite !Z.mul_0_l, !Z.mul_0_r. reflexivity. }
  pose proof one_pos. pose proof one_ulp as OU. pose proof one_big. pose proof slack_small.
  destruct W as [F L U]. rewrite wf_cap_nonneg, of_int_cap in U by lia.
  destruct (Refill_cases s nowMs) as [| | |e _ _ _ ->];
    cbn [stTokens LastMs Capacity]; try lia.
  rewrite time_ok_elapsed by (unfold time_ok, int64_max in *; lia).
  unfold time_ok in T.
  pose proof (earned_upper (nowMs - LastMs s) (Capacity s) ltac:(lia) Hc) as P.
  pose proof (earned_nonneg (nowMs - LastMs s) (Capacity s) ltac:(lia)) as P0.
  set (p := fmul _ _) in *. rewrite of_int_cap by lia.
  set (c := Capacity s) in *. set (t := stTokens s) in *.
  apply scaled_gain with (p := p); [lia| |rewrite (Z.mul_comm _ p), Z.mul_assoc; exact P].
  destruct (Z.le_gt_cases (c * one) (t + p)); [nia|].
  pose proof (rnd_error (t + p) 1 ltac:(lia)) as E. rewrite <- fadd_spec in E.
  assert (1 * one <= c * one) by (apply Z.mul_le_mono_nonneg_r; lia).
  assert (M : Z.max (2 ^ 52 * 1) (Z.abs (t + p)) <= c * one) by lia.
  rewrite OU in M. clear OU. generalize dependent (2 ^ 1021). intros. lia.
Qed.

(** ** Histories of one bucket *)

(** Runs a list of attempts [(nowMs, cost)] and sums the admitted costs. *)
Fixpoint admit_all (s : State) (calls : list (Z * Z)) : State * Z :=
  match calls with
  | [] => (s, 0)
  | (nowMs, cost) :: calls =>
      let '(s', r) := TryConsume s nowMs cost in
      let '(s'', n) := admit_all s' calls in
      (s'', (if rAllowed r then Z.max 0 cost else 0) + n)
  end.

(** The calls happen in order, from [t] on, and end at [u]; costs are [int64]. *)
Fixpoint timeline (t : Z) (calls : list (Z * Z)) (u : Z) : Prop :=
  match calls with
  | [] => t <= u
  | (nowMs, cost) :: calls => t <= nowMs /\ cost <= int64_max /\ timeline nowMs calls u
  end.

#[export] Instance timeline_dec t calls u : base.Decision (timeline t calls u).
Proof. revert t. induction calls as [|[n c] l IH]; intros t; simpl; apply _. Defined.

Lemma timeline_le t calls u : timeline t calls u -> t <= u.
Proof.
  revert t. induction calls as [|[n c] l IH]; simpl; intros t H; [assumption|].
  destruct H as (H1 & _ & H2). apply IH in H2. lia.
Qed.

Lemma admit_all_bound s calls u :
  0 < Capacity s <= max_capacity -> 0 < LastMs s -> u <= 2 ^ 53 ->
  timeline (LastMs s) calls u -> wf s ->
  60000 * 2 ^ 159 * (snd (admit_all s calls) * one)
  <= 60000 * 2 ^ 159 * (stTokens s + slack)
     + (2 ^ 53 + 1) ^ 3 * ((u - LastMs s) * Capacity s * one)
     + Z.of_nat (length calls) * (60000 * 2 ^ 159 * (Capacity s * 2 ^ 1021)).
Proof.
  revert s. induction calls as [|[n cost] l IH]; intros s Hc Hl Hu TL W.
  - cbn [admit_all snd length timeline] in *. rewrite Z.mul_0_l, Z.mul_0_r, Z.add_0_r.
    destruct W as [_ L _]. pose proof one_pos.
    apply Z.add_nonneg_nonneg; [nia|]. apply Z.mul_nonneg_nonneg; [lia|].
    apply Z.mul_nonneg_nonneg; [|lia]. apply Z.mul_nonneg_nonneg; lia.
  - destruct TL as (H1 & Hx & TL). pose proof (timeline_le _ _ _ TL) as Hn.
    assert (T1 : time_ok (LastMs s)) by (unfold time_ok, int64_max; lia).
    assert (T2 : time_ok n) by (unfold time_ok, int64_max; lia).
    pose proof (Refill_gain s n Hc ltac:(lia) T1 ltac:(lia) W) as G.
    pose proof (Refill_wf s n T1 T2 W) as W'.
    pose proof (TryConsume_cases s n cost W' ltac:(lia) Hx) as C.
    pose proof (TryConsume_wf s n T1 T2 ltac:(lia) W cost) as Wn.
    cbn [admit_all]. destruct (TryConsume s n cost) as [s' r].
    specialize (Wn s' r Hx eq_refl) as (Ws' & El & Ec).
    specialize (IH s'). rewrite El, Ec in IH. specialize (IH Hc ltac:(lia) Hu TL Ws').
    destruct (admit_all s' l) as [s'' total]. cbn [snd] in IH |- *.
    change (length ((n, cost) :: l)) with (S (length l)).
    rewrite Nat2Z.inj_succ, Z.mul_succ_l, Z.mul_add_distr_r.
    assert (D : stTokens s' + (if rAllowed r then Z.max 0 cost else 0) * one
                = stTokens (Refill s n)).
    { inversion C; subst; cbn [rAllowed stTokens]; lia. }
    replace (u - LastMs s) with ((u - n) + (n - LastMs s)) by ring.
    rewrite !Z.mul_add_distr_r in *. lia.
Qed.

(** The balance a burst can start from. *)
Lemma wf_full s : 0 < Capacity s <= max_capacity -> wf s -> stTokens s <= Capacity s * one.
Proof. intros H [_ _ U]. rewrite wf_cap_nonneg, of_int_cap in U by lia. exact U. Qed.

(** ** Waiting for [RetryAfter] *)

(** The wait is a whole number of seconds, at most eight minutes, and at the
    rounded rate it earns the deficit up to two roundings. *)
Lemma retryAfter_shape s c :
  0 < c <= Capacity s -> Capacity s <= 2 ^ 20 -> wf s ->
  eps < c * one - stTokens s ->
  exists secs,
    0 < secs <= 480 /\ retryAfter s (of_int c) = secs * Second /\
    (2 ^ 53 - 1) ^ 2 * (c * one - stTokens s)
      <= 2 ^ 106 * (secs * RefillPerSec (Capacity s)).
Proof.
  intros Hn Hc W D. pose proof one_pos. pose proof one_big. pose proof eps_large.
  pose proof slack_small. destruct W as [F L U].
  unfold retryAfter. pose proof (RefillPerSec_pos (Capacity s) ltac:(lia)) as R0.
  pose proof (RefillPerSec_bounds (Capacity s) ltac:(unfold max_capacity; lia)) as R.
  rewrite of_int_exact by lia. set (r := RefillPerSec (Capacity s)) in *.
  destruct (Z.leb_spec r 0) as [|_]; [lia|].
  rewrite fsub_spec. set (def := c * one - stTokens s) in *.
  pose proof (rnd_error_rel def 1 ltac:(lia) ltac:(lia)) as Ed.
  set (d := rnd def 1) in *.
  assert (Ed1 : (2 ^ 53 - 1) * def <= 2 ^ 53 * d) by lia. destruct (Z.leb_spec d 0) as [|_]; [lia|].
  pose proof (rnd_error_rel (d * one) r R0) as Eq. rewrite <- fdiv_spec in Eq by assumption.
  set (q := fdiv d r) in *.
  assert (Cc : c * one <= Capacity s * one) by (apply Z.mul_le_mono_nonneg_r; lia).
  assert (C1 : 1 * one <= Capacity s * one) by (apply Z.mul_le_mono_nonneg_r; lia). rewrite Z.mul_1_l in C1.
  assert (Cm : Capacity s * one <= 2 ^ 20 * one) by (apply Z.mul_le_mono_nonneg_r; lia).
  assert (Hd : d <= 2 * (Capacity s * one)) by lia.
  assert (Hr : Capacity s * one <= 120 * r) by lia.
  assert (Big : 2 ^ 52 * r <= d * one).
  { assert (2 ^ 100 * one <= d * one) by (apply Z.mul_le_mono_nonneg_r; lia). lia. }
  specialize (Eq Big). pose proof (ceilZ_bounds q) as Cq. set (n := ceilZ q) in *.
  assert (Q0 : 0 < q * r) by lia.
  assert (Qp : 0 < q) by (apply Z.mul_pos_cancel_r with r; assumption).
  assert (Qn : q * r <= n * one * r) by (apply Z.mul_le_mono_nonneg_r; lia).
  assert (Qu : q <= 480 * one).
  { assert (q * (Capacity s * one) <= q * (120 * r)) by (apply Z.mul_le_mono_nonneg_l; lia).
    assert (d * one <= 2 * (Capacity s * one) * one) by (apply Z.mul_le_mono_nonneg_r; lia).
    apply Z.mul_le_mono_pos_r with (p := Capacity s * one); lia. }
  assert (Hn' : 0 < n <= 480).
  { split; [apply (Z.mul_pos_cancel_r n one); lia|].
    enough (n - 1 < 480) by lia. apply (Z.mul_lt_mono_pos_r one); lia. }
  exists n. split; [assumption|]. split.
  - rewrite to_int64_ceil by (fold n; unfold in_int64, int64_min, int64_max; lia). fold n.
    apply wrap64_id. unfold in_int64, int64_min, int64_max, Second. lia.
  - apply Z.mul_le_mono_pos_r with (p := one); [assumption|].
    transitivity (2 ^ 53 * (2 ^ 53 - 1) * (d * one)).
    { apply Z.mul_le_mono_nonneg_r with (p := one) in Ed1; lia. }
    transitivity (2 ^ 53 * (2 ^ 53 * (q * r))); [lia|].
    replace (2 ^ 106 * (n * r) * one) with (2 ^ 53 * (2 ^ 53 * (n * one * r))) by ring. lia.
Qed.

Lemma elapsed_seconds n : 0 < n <= 480 -> fdiv (of_int (n * 1000)) (of_int 1000) = n * one.
Proof.
  intros. rewrite fdiv_const by lia.
  replace (n * 1000 * one) with (n * one * 1000) by ring.
  apply rnd_exact; [lia|]. apply int_is_float. lia.
Qed.

(** A balance that earned its deficit up to three roundings reaches the cost. *)
Lemma reach_after_wait t p c cap :
  is_float t -> - slack <= t < c * one -> 0 < c <= cap -> cap <= 2 ^ 20 -> 0 <= p ->
  (2 ^ 53 - 1) ^ 3 * (c * one - t) <= 2 ^ 159 * p ->
  of_int c <= fadd (Z.min (of_int cap) (fadd t p)) eps.
Proof.
  intros F Ht Hc Hcap Hp H. pose proof eps_large. pose proof eps_pos. pose proof one_pos.
  pose proof slack_small. rewrite !of_int_exact by lia. rewrite fadd_spec.
  assert (Fc : is_float (c * one)) by (apply int_is_float; lia).
  apply rnd_ge; [lia|assumption|]. rewrite Z.mul_1_r.
  destruct (Z.le_gt_cases (c * one) (t + p)) as [A|B].
  - assert (c * one <= fadd t p)
      by (rewrite fadd_spec; apply rnd_ge; [lia|assumption|lia]). nia.
  - pose proof (rnd_error (t + p) 1 ltac:(lia)) as E. rewrite <- fadd_spec in E.
    pose proof one_big. assert (1 * one <= c * one) by (apply Z.mul_le_mono_nonneg_r; lia).
    assert (M : Z.max (2 ^ 52 * 1) (Z.abs (t + p)) <= c * one) by lia.
    assert (c * one <= 2 ^ 20 * one) by (apply Z.mul_le_mono_nonneg_r; lia).
    assert (c * one <= cap * one) by (apply Z.mul_le_mono_nonneg_r; lia).
    lia.
Qed.

(** Whole balances are well formed. *)
Lemma wf_int n last c : 0 <= n <= c -> c <= max_capacity -> wf (mkState (n * one) last c).
Proof.
  intros Hn Hc. pose proof slack_pos. pose proof one_pos. unfold max_capacity in Hc.
  split; cbn [stTokens Capacity]; [apply int_is_float; lia|nia|].
  rewrite of_int_exact by lia. nia.
Qed.

Lemma wf_of_int n last c : 0 <= n <= c -> c <= max_capacity -> wf (mkState (of_int n) last c).
Proof.
  intros. rewrite of_int_exact by (unfold max_capacity in *; lia). apply wf_int; assumption.
Qed.

Lemma Refill_zero s nowMs : Capacity s = 0 -> Refill s nowMs = mkState 0 nowMs 0.
Proof. intros H. destruct (Refill_cases s nowMs); rewrite ?H; try reflexivity; lia. Qed.

Lemma DebitFloor_wf s nowMs amount :
  time_ok (LastMs s) -> time_ok nowMs -> 0 <= Capacity s <= max_capacity -> wf s ->
  amount < int64_max ->
  wf (DebitFloor s nowMs amount).1.1 /\ LastMs (DebitFloor s nowMs amount).1.1 = nowMs /\
  Capacity (DebitFloor s nowMs amount).1.1 = Capacity s.
Proof.
  intros T1 T2 Hc W Ha. pose proof (Refill_wf s nowMs T1 T2 W) as W'.
  destruct (Z.le_gt_cases amount 0) as [N|P].
  { unfold DebitFloor. apply Z.leb_le in N. rewrite N. cbn [fst].
    rewrite Refill_LastMs, Refill_Capacity. auto. }
  rewrite DebitFloor_spec by (assumption || lia || (unfold int64_max in *; lia)). cbv zeta.
  pose proof (wf_bounds (Refill s nowMs) ltac:(rewrite Refill_Capacity; lia) W') as B.
  pose proof (floorZ_bounds (stTokens (Refill s nowMs))) as Fb.
  pose proof (floor_ge_m1 _ W') as Fm.
  pose proof (floor_le_cap (Refill s nowMs) W' ltac:(rewrite Refill_Capacity; lia)) as Fc.
  rewrite Refill_Capacity in Fc. pose proof slack_pos. pose proof one_pos.
  destruct (Z.leb_spec amount (floorZ (stTokens (Refill s nowMs)))); cbn [fst LastMs Capacity].
  - split; [|auto]. rewrite <- (Refill_Capacity s nowMs).
    eapply wf_debit with (c := amount); eauto; rewrite ?Refill_Capacity; try lia. nia.
  - split; [|auto]. rewrite of_int_exact by (unfold max_capacity in *; lia).
    set (t := stTokens (Refill s nowMs)) in *. set (a := floorZ t) in *.
    split; cbn [stTokens Capacity]; [auto with valve| |].
    + pose proof (fsub_nonneg t (a * one)). lia.
    + destruct (Z.eq_dec (Capacity s) 0) as [E|N].
      * unfold a, t in *. rewrite Refill_zero in * by assumption. cbn [stTokens] in *.
        rewrite E. rewrite floorZ_spec, Zdiv_0_l, fsub_exact; [lia|apply is_float_0].
      * rewrite of_int_cap by lia. rewrite fsub_spec.
        apply Z.max_le_iff; right. apply rnd_le; [lia| |nia].
        apply int_is_float. unfold max_capacity in Hc. lia.
Qed.

(** ** Properties *)

(** C28: the rate limit.  Over any history of attempts at times
    [LastMs s <= t1 <= ... <= u] a bucket admits at most its capacity, what the
    per-minute rate earns in the elapsed time ([capacity / 60000] per
    millisecond), and one token for all the rounding: whatever the costs, and
    however the attempts interleave with time.  (Capacities up to [2^30], up to
    [2^20] attempts, up to [2^32] ms, about 49 days.) *)
Theorem bucket_rate_bound s calls u :
  0 < Capacity s <= 2 ^ 30 -> wf s -> 0 < LastMs s -> u <= 2 ^ 53 ->
  timeline (LastMs s) calls u -> u - LastMs s <= 2 ^ 32 ->
  Z.of_nat (length calls) <= 2 ^ 20 ->
  60000 * snd (admit_all s calls) <=
    60000 * (Capacity s + 1) + (u - LastMs s) * Capacity s.
Proof.
  intros Hc W Hl Hu TL Hd Hn. pose proof one_ulp as OU. pose proof slack_small.
  pose proof (admit_all_bound s calls u ltac:(unfold max_capacity; lia) Hl Hu TL W) as B.
  pose proof (wf_full s ltac:(unfold max_capacity; lia) W) as Full.
  pose proof (timeline_le _ _ _ TL). pose proof (pow2_pos 1021 ltac:(lia)).
  set (T := u - LastMs s) in *. set (c := Capacity s) in *. set (k := Z.of_nat _) in *.
  assert (Tc : T * c <= 2 ^ 32 * 2 ^ 30) by (apply Z.mul_le_mono_nonneg; lia).
  assert (Kc : k * c <= 2 ^ 20 * 2 ^ 30) by (apply Z.mul_le_mono_nonneg; lia).
  assert (0 <= T * c) by (apply Z.mul_nonneg_nonneg; lia).
  set (A := snd _) in *. clearbody A T k. rewrite OU in *. set (v := 2 ^ 1021) in *.
  apply Z.mul_le_mono_pos_r with (p := 2 ^ 159 * (2 ^ 53 * v)); [lia|].
  assert (T * c * (2 ^ 53 * v) <= 2 ^ 62 * (2 ^ 53 * v))
    by (apply Z.mul_le_mono_nonneg_r; lia).
  assert (k * c * v <= 2 ^ 50 * v) by (apply Z.mul_le_mono_nonneg_r; lia).
  lia.
Qed.

Lemma bucket_rate_bound_witness :
  60000 * snd (admit_all (mkState (10 * one) 1000 10) [(1000, 10); (2500, 1); (7000, 1)])
    <= 60000 * (10 + 1) + (7000 - 1000) * 10.
Proof.
  apply (bucket_rate_bound (mkState (10 * one) 1000 10) [(1000, 10); (2500, 1); (7000, 1)] 7000);
    cbn [Capacity LastMs]; try lia.
  - apply wf_int; unfold max_capacity; lia.
  - simpl. unfold int64_max. lia.
  - simpl. lia.
Defined.

(** C27: [RetryAfter] is enough.  When an attempt is denied for lack of tokens (and
    not because its cost exceeds the capacity), the same attempt made
    [RetryAfter] later, with no other use in between, is admitted: the [1e-9]
    of the comparison absorbs the rounding of the refill.  (For capacities up to
    [2^20] tokens a minute and positive costs; see [retry_after_short] beyond.) *)
Theorem retry_after_sufficient s nowMs cost s' r :
  0 < Capacity s <= 2 ^ 20 -> wf s -> time_ok (LastMs s) -> 0 < nowMs <= 2 ^ 53 ->
  0 < cost <= Capacity s ->
  TryConsume s nowMs cost = (s', r) -> rAllowed r = false ->
  exists secs, rRetryAfter r = secs * Second /\ 0 < secs <= 480 /\
    rAllowed (TryConsume s' (nowMs + secs * 1000) cost).2 = true.
Proof.
  intros Hc W T1 Hn Hcost E D. unfold TryConsume in E.
  assert (T2 : time_ok nowMs) by (unfold time_ok, int64_max; lia).
  pose proof (Refill_wf s nowMs T1 T2 W) as W'. set (s1 := Refill s nowMs) in *.
  assert (C1 : Capacity s1 = Capacity s) by apply Refill_Capacity.
  assert (L1 : LastMs s1 = nowMs) by apply Refill_LastMs.
  clearbody s1.
  rewrite clamp_max, C1, Z.max_r in E by lia.
  destruct (Z.ltb_spec (Capacity s) cost) as [|_]; [lia|].
  destruct (Z.ltb_spec (fadd (stTokens s1) eps) (of_int cost)) as [Lt|_];
    [|inversion E; subst; discriminate].
  inversion E; subst s' r; clear E. cbn [rRetryAfter].
  assert (Def : eps < cost * one - stTokens s1).
  { rewrite of_int_exact in Lt by lia. apply Z.lt_nge. intros N.
    rewrite fadd_spec in Lt. apply Z.lt_nge in Lt. apply Lt.
    apply rnd_ge; [lia|apply int_is_float; lia|lia]. }
  destruct (retryAfter_shape s1 cost ltac:(lia) ltac:(lia) W' Def) as (n & Hs & Er & G).
  exists n. split; [exact Er|]. split; [assumption|].
  pose proof (RefillPerSec_pos (Capacity s1) ltac:(lia)) as Rp.
  unfold TryConsume. rewrite clamp_max, Refill_Capacity, Z.max_r by lia.
  destruct (Z.ltb_spec (Capacity s1) cost) as [|_]; [lia|].
  destruct (Refill_cases s1 (nowMs + n * 1000)) as [| | |p _ _ _ ->]; try lia.
  rewrite L1, wrap64_id by (unfold in_int64, int64_min, int64_max; lia).
  replace (nowMs + n * 1000 - nowMs) with (n * 1000) by ring.
  rewrite elapsed_seconds by assumption. set (r := RefillPerSec (Capacity s1)) in *.
  cbn [stTokens]. pose proof one_pos. pose proof one_big. pose proof eps_pos.
  assert (Rl : one <= 120 * r).
  { pose proof (RefillPerSec_bounds (Capacity s1) ltac:(unfold max_capacity; lia)).
    fold r in H2. nia. }
  assert (n * one * r = (n * r) * one) by ring.
  destruct (fmul_error (n * one) r) as [P _]; [rewrite H2; apply Z.mul_le_mono_nonneg_r; nia|].
  rewrite H2 in P.
  assert (R : of_int cost <= fadd (Z.min (of_int (Capacity s1))
                (fadd (stTokens s1) (fmul (n * one) r))) eps).
  { destruct W' as [Fl Lo _].
    apply reach_after_wait with (c := cost); [assumption|lia|lia|lia|apply fmul_nonneg; nia|].
    assert ((2 ^ 53 - 1) * (n * r) <= 2 ^ 53 * fmul (n * one) r) by
      (apply Z.mul_le_mono_pos_r with (p := one); lia).
    lia. }
  destruct (Z.ltb_spec (fadd (Z.min (of_int (Capacity s1))
      (fadd (stTokens s1) (fmul (n * one) r))) eps) (of_int cost)); [lia|reflexivity].
Qed.

Lemma retry_after_sufficient_witness :
  exists secs, rRetryAfter (TryConsume (mkState (2 * one) 1000 10) 1000 5).2 = secs * Second
    /\ 0 < secs <= 480
    /\ rAllowed (TryConsume (TryConsume (mkState (2 * one) 1000 10) 1000 5).1
                   (1000 + secs * 1000) 5).2 = true.
Proof.
  apply (retry_after_sufficient (mkState (2 * one) 1000 10) 1000 5); cbn [Capacity LastMs];
    try lia.
  - apply wf_int; unfold max_capacity; lia.
  - unfold time_ok, int64_max. lia.
  - apply surjective_pairing.
  - vm_compute. reflexivity.
Defined.

(** Beyond those capacities a wait may be too short: the balance after the 56 s asked for
    is the last binary64 value below the cost, and the comparison slack is smaller than
    the distance between two values there. *)
Example retry_after_short :
  let s := (TryConsume (mkState (16845456 * one) 1000 16845456) 1000 16507892).1 in
  let '(s, r) := TryConsume s 3750 16832073 in
  rAllowed r = false /\ rRetryAfter r = 56 * Second /\ rAllowed (TryConsume s (3750 + 56000) 16832073).2 = false.
Proof. vm_compute. split_and!; reflexivity. Qed.

(** C40: every operation keeps a snapshot well formed: its balance stays a binary64
    value between minus the comparison slack (2e-9) and the capacity, its
    timestamp becomes the time of the call and its capacity does not change. *)
Theorem bucket_operations_preserve_wf s nowMs amount :
  time_ok (LastMs s) -> time_ok nowMs -> 0 <= Capacity s <= max_capacity ->
  amount < int64_max -> wf s ->
  Forall (fun s' => wf s' /\ LastMs s' = nowMs /\ Capacity s' = Capacity s)
    [Refill s nowMs; (TryConsume s nowMs amount).1; Credit s nowMs amount;
     (DebitFloor s nowMs amount).1.1].
Proof.
  intros T1 T2 Hc Ha W.
  constructor; [|constructor; [|constructor; [|constructor; [|constructor]]]].
  - split; [apply Refill_wf; assumption|]. split; [apply Refill_LastMs|apply Refill_Capacity].
  - apply (TryConsume_wf s nowMs T1 T2 ltac:(lia) W amount _ _ ltac:(lia)
             (surjective_pairing _)).
  - apply Credit_wf; auto; lia.
  - apply DebitFloor_wf; assumption.
Qed.

Lemma bucket_operations_preserve_wf_witness :
  Forall (fun s' => wf s' /\ LastMs s' = 2000 /\ Capacity s' = 10)
    [Refill (mkState (3 * one) 1000 10) 2000; (TryConsume (mkState (3 * one) 1000 10) 2000 2).1;
     Credit (mkState (3 * one) 1000 10) 2000 2; (DebitFloor (mkState (3 * one) 1000 10) 2000 2).1.1].
Proof.
  apply (bucket_operations_preserve_wf (mkState (3 * one) 1000 10) 2000 2);
    try (unfold time_ok, int64_max, max_capacity; cbn [LastMs Capacity]; lia).
  apply wf_int; unfold max_capacity; lia.
Defined.

(** Settling upwards.  From a nonnegative balance [DebitFloor] debits exactly what
    it reports, reports the rest of the amount as overshoot, and reports an
    overshoot only when less than one token is left. *)
Theorem debit_floor_accounts s nowMs amount s' debited overshoot :
  time_ok (LastMs s) -> time_ok nowMs -> 0 <= Capacity s <= max_capacity -> wf s ->
  0 < amount < int64_max -> 0 <= stTokens (Refill s nowMs) ->
  DebitFloor s nowMs amount = (s', debited, overshoot) ->
  debited + overshoot = amount /\ 0 <= debited /\ 0 <= overshoot /\
  stTokens s' = stTokens (Refill s nowMs) - debited * one /\
  (0 < overshoot -> 0 <= stTokens s' < one).
Proof.
  intros T1 T2 Hc W Ha H0 E. rewrite DebitFloor_spec in E by (auto; lia).
  pose proof (Refill_wf s nowMs T1 T2 W) as W'.
  pose proof (wf_bounds (Refill s nowMs) ltac:(rewrite Refill_Capacity; lia) W') as B.
  pose proof (floor_le_cap (Refill s nowMs) W' ltac:(rewrite Refill_Capacity; lia)) as Fc.
  rewrite Refill_Capacity in Fc. unfold max_capacity in Hc.
  cbv zeta in E. set (t := stTokens (Refill s nowMs)) in *.
  pose proof (floorZ_bounds t) as Fb. pose proof (floorZ_nonneg t H0) as Fn.
  pose proof one_pos.
  destruct (Z.leb_spec amount (floorZ t)); inversion E; subst; clear E; cbn [stTokens].
  - repeat split; lia.
  - rewrite of_int_exact by lia.
    rewrite fsub_int_exact; [|apply W'|lia|nia]. repeat split; lia.
Qed.

Lemma debit_floor_accounts_witness :
  3 + 2 = 5 /\ 0 <= 3 /\ 0 <= 2 /\
  stTokens (mkState 0 1000 10) = stTokens (Refill (mkState (3 * one) 1000 10) 1000) - 3 * one /\
  (0 < 2 -> 0 <= stTokens (mkState 0 1000 10) < one).
Proof.
  apply (debit_floor_accounts (mkState (3 * one) 1000 10) 1000 5);
    try (unfold time_ok, int64_max, max_capacity; cbn [LastMs Capacity]; lia).
  - apply wf_int; unfold max_capacity; lia.
  - vm_compute. discriminate.
  - vm_compute. reflexivity.
Defined.

(** *** Float range *)

Lemma of_int_range n : - 2 ^ 64 <= n <= 2 ^ 64 -> - (2 ^ 64 * one) <= of_int n <= 2 ^ 64 * one.
Proof.
  intros H. pose proof one_pos. rewrite of_int_spec.
  assert (F : is_float (2 ^ 64 * one)).
  { exists 1, (64 + 1074). split; [lia|]. split; [lia|].
    rewrite Z.pow_add_r by lia. Transparent one. unfold one. Opaque one. lia. }
  split.
  - apply rnd_ge; [lia|apply is_float_opp, F|nia].
  - apply rnd_le; [lia|exact F|nia].
Qed.

(** No overflow to infinity.  For any [int64] capacity and times, every value
    [Refill] computes on the way is below [2^140], far inside binary64's range:
    modelling finite values only loses nothing. *)
Theorem refill_stays_finite s nowMs :
  in_int64 (Capacity s) -> 0 <= stTokens s <= 2 ^ 64 * one ->
  LastMs s <= nowMs -> time_ok (LastMs s) -> time_ok nowMs ->
  let dt := of_int (wrap64 (nowMs - LastMs s)) in
  let elapsed := fdiv dt (of_int 1000) in
  let rate := RefillPerSec (Capacity s) in
  let earned := fmul elapsed rate in
  Forall (fun x => 0 <= x <= 2 ^ 140 * one)
    [dt; elapsed; rate; earned; fadd (stTokens s) earned].
Proof.
  intros Hc Ht Hl T1 T2 dt elapsed rate earned. pose proof one_pos.
  unfold in_int64, time_ok, int64_min, int64_max in *.
  assert (Fl : forall k, 0 <= k -> is_float (2 ^ k * one)).
  { intros k Hk. exists 1, (k + 1074). split; [lia|]. split; [lia|].
    rewrite Z.pow_add_r by lia. Transparent one. unfold one. Opaque one. lia. }
  assert (D : 0 <= dt <= 2 ^ 64 * one).
  { unfold dt. rewrite time_ok_elapsed by (unfold time_ok, int64_max; lia).
    pose proof (of_int_range (nowMs - LastMs s) ltac:(lia)).
    pose proof (of_int_nonneg (nowMs - LastMs s) ltac:(lia)). lia. }
  assert (K : forall n, 0 < n <= 2 ^ 53 -> of_int n = n * one)
    by (intros; apply of_int_exact; lia).
  assert (E : 0 <= elapsed <= 2 ^ 64 * one).
  { unfold elapsed. rewrite K by lia. split; [apply fdiv_nonneg; lia|].
    rewrite fdiv_spec by lia. apply rnd_le; [lia|apply Fl; lia|nia]. }
  assert (R : 0 <= rate <= 2 ^ 64 * one).
  { split; [apply RefillPerSec_nonneg|]. unfold rate, RefillPerSec.
    destruct (Z.leb_spec (Capacity s) 0); [nia|].
    pose proof (of_int_range (Capacity s) ltac:(lia)). rewrite (K 60), fdiv_spec by lia.
    apply rnd_le; [lia|apply Fl; lia|nia]. }
  assert (P : 0 <= earned <= 2 ^ 128 * one).
  { split; [apply fmul_nonneg; lia|]. unfold earned. rewrite fmul_spec.
    apply rnd_le; [lia|apply Fl; lia|].
    transitivity (2 ^ 64 * one * (2 ^ 64 * one)); [apply Z.mul_le_mono_nonneg; lia|lia]. }
  repeat constructor; try lia.
  - rewrite fadd_spec. apply rnd_ge; [lia|apply is_float_0|lia].
  - rewrite fadd_spec. apply rnd_le; [lia|apply Fl; lia|lia].
Qed.

Lemma refill_stays_finite_witness :
  Forall (fun x => 0 <= x <= 2 ^ 140 * one)
    [of_int (wrap64 (1005 - 1000)); fdiv (of_int (wrap64 (1005 - 1000))) (of_int 1000);
     RefillPerSec 60; fmul (fdiv (of_int (wrap64 (1005 - 1000))) (of_int 1000)) (RefillPerSec 60);
     fadd (3 * one) (fmul (fdiv (of_int (wrap64 (1005 - 1000))) (of_int 1000)) (RefillPerSec 60))].
Proof.
  apply (refill_stays_finite (mkState (3 * one) 1000 60) 1005);
    unfold in_int64, time_ok, int64_min, int64_max; cbn [LastMs Capacity stTokens]; try lia.
  pose proof one_pos. lia.
Defined.
