(* ===== verification/Budget.v ===== *)
(** * Budget: the per-minute budget of a metered bucket

    A store meters a bucket when each of its steps either leaves the bucket's
    balance alone or rewrites it to a well-formed snapshot worth what it held less
    the step's charge, up to one rounding, and refills it as [Bucket.Refill] does in
    between.  [metered_budget] bounds what any such store charges in a window of
    time; the in-process store and the Redis store are two of them. *)

From stdpp Require Import base tactics numbers list.
From Stdlib Require Import ZArith Lia.
From S2P Require Import Prelude GoFloat Api Bucket.

(** Capacities and amounts the arithmetic is exact for. *)
Definition limit_ok (n : Z) : Prop := 0 <= n <= max_capacity.

Definition cost_ok (n : Z) : Prop := 0 <= n < int64_max.

(** A snapshot taken at [nowMs] for a capacity. *)
Definition fresh (nowMs capacity : Z) (st : State) : Prop :=
  wf st /\ LastMs st = nowMs /\ Capacity st = capacity.

Lemma fresh_TryConsume st capacity nowMs cost :
  time_ok nowMs -> capacity <= max_capacity -> cost <= int64_max ->
  fresh nowMs capacity st -> fresh nowMs capacity (TryConsume st nowMs cost).1.
Proof.
  intros T Hc Hx (W & E1 & E2).
  destruct (TryConsume_wf st nowMs ltac:(rewrite E1; exact T) T ltac:(lia) W cost _ _ Hx
    (surjective_pairing _)) as (W' & L & C).
  split; [exact W'|]. split; [exact L|]. rewrite C. exact E2.
Qed.

Lemma fresh_Credit st capacity nowMs amount :
  time_ok nowMs -> limit_ok capacity -> amount <= int64_max ->
  fresh nowMs capacity st -> fresh nowMs capacity (Credit st nowMs amount).
Proof.
  intros T [Hc0 Hc] Hx (W & E1 & E2). unfold fresh. rewrite <- E2 in *.
  apply Credit_wf; auto. rewrite E1. exact T.
Qed.

(** ** What one step on a bucket charges *)

(** The snapshot [st'] is [st] less [q] tokens, up to one rounding. *)
Definition acts (c nowMs : Z) (st st' : State) (q : Z) : Prop :=
  fresh nowMs c st' /\ stTokens st' + q * one <= stTokens st + c * 2 ^ 1021.

(** The error of one rounded addition within the capacity. *)
Lemma round_within c x : 0 < c -> Z.abs x <= c * one -> rnd x 1 <= x + c * 2 ^ 1021.
Proof.
  intros Hc H. pose proof (rnd_error x 1 ltac:(lia)) as E. pose proof one_ulp as OU.
  pose proof one_big. pose proof (pow2_pos 1021 ltac:(lia)).
  assert (Z.max (2 ^ 52 * 1) (Z.abs x) <= c * one) by nia.
  rewrite OU in H2. set (u := 2 ^ 1021) in *. lia.
Qed.

(** ** Metered stores *)

(** The scale of [admit_all_bound]: everything times [60000 * 2^159]. *)
Definition scale : Z := 60000 * 2 ^ 159.

(** What [dt] milliseconds earn, scaled, with the rounding of the rate. *)
Definition earn (c dt : Z) : Z := (2 ^ 53 + 1) ^ 3 * (dt * c * one).

(** The rounding of one addition, scaled. *)
Definition round_err (c : Z) : Z := scale * (c * 2 ^ 1021).

Section Metered.
Context {S O : Type} (step : Time -> S -> O -> S) (charge : Time -> S -> O -> Z).
Context (balance : S -> Z -> float64) (inv : Z -> S -> Prop) (legal : O -> Prop).
Context (c u : Z) (Hc : 0 < c <= max_capacity) (Hu : u <= 2 ^ 53).

(** The sum of a history's charges; its calls happen in order from [t] on and end
    at [u] ms. *)
Fixpoint total (s : S) (h : list (Time * O)) : Z :=
  match h with
  | [] => 0
  | (now, o) :: h => charge now s o + total (step now s o) h
  end.

Fixpoint timed (t : Z) (h : list (Time * O)) : Prop :=
  match h with
  | [] => t <= u
  | (now, o) :: h => t <= toUnixMilli now /\ legal o /\ timed (toUnixMilli now) h
  end.

Lemma timed_le t h : timed t h -> t <= u.
Proof.
  revert t. induction h as [|[now o] h IH]; simpl; intros t H; [assumption|].
  destruct H as (H & _ & H'). apply IH in H'. lia.
Qed.

(** What a step at [n] that charges [q] does to the balance from then on. *)
Variant metered (n : Z) (s s' : S) (q : Z) : Prop :=
| meter_kept : q = 0 -> (forall m, n <= m <= u -> balance s' m = balance s m) -> metered n s s' q
| meter_rewritten st' : fresh n c st' ->
    (forall m, n <= m <= u -> balance s' m = stTokens (Refill st' m)) ->
    stTokens st' + q * one <= balance s n + c * 2 ^ 1021 -> metered n s s' q.

Context (Step : forall T s now o,
  inv T s -> 0 < T -> T <= toUnixMilli now <= u -> legal o ->
  inv (toUnixMilli now) (step now s o) /\
  metered (toUnixMilli now) s (step now s o) (charge now s o)).
Context (Full : forall T s n, inv T s -> 0 < T -> T <= n <= u -> balance s n <= c * one).

(** From [L] on the bucket holds at most [P] (scaled) and what the rate earns. *)
Definition holds (s : S) (T P L : Z) : Prop :=
  forall n, T <= n <= u -> scale * balance s n <= P + earn c (n - L).

Lemma earn_nonneg dt : 0 <= dt -> 0 <= earn c dt.
Proof.
  intros H. unfold earn. pose proof one_pos.
  apply Z.mul_nonneg_nonneg; [lia|]. apply Z.mul_nonneg_nonneg; [|lia].
  apply Z.mul_nonneg_nonneg; lia.
Qed.

Lemma round_err_nonneg : 0 <= round_err c.
Proof.
  unfold round_err, scale. pose proof (pow2_pos 1021 ltac:(lia)).
  apply Z.mul_nonneg_nonneg; [lia|]. apply Z.mul_nonneg_nonneg; lia.
Qed.

Lemma holds_full T s : inv T s -> 0 < T -> holds s T (scale * (c * one)) T.
Proof.
  intros I H0 n Hn. pose proof (earn_nonneg (n - T) ltac:(lia)).
  assert (scale * balance s n <= scale * (c * one)) by
    (apply Z.mul_le_mono_nonneg_l; [unfold scale; lia|exact (Full T s n I H0 Hn)]). lia.
Qed.

(** A bucket written at [n0] holds what was written and what the rate earns. *)
Lemma holds_rewritten s n0 st :
  fresh n0 c st -> 0 < n0 <= u -> (forall m, n0 <= m <= u -> balance s m = stTokens (Refill st m)) ->
  holds s n0 (scale * stTokens st + round_err c) n0.
Proof.
  intros (W & L & C) H0 E n Hn. rewrite E by exact Hn.
  pose proof (Refill_gain st n ltac:(rewrite C; exact Hc) ltac:(lia)
    ltac:(unfold time_ok, int64_max; lia) ltac:(lia) W) as G.
  rewrite L, C in G. unfold round_err, earn, scale in *. lia.
Qed.

(** The charges of a window are bounded by what the bucket holds. *)
Lemma total_bound h : forall T s P L,
  inv T s -> 0 < T -> timed T h -> L <= T -> - scale * slack <= P -> holds s T P L ->
  scale * (total s h * one)
    <= P + scale * slack + earn c (u - L) + Z.of_nat (length h) * (2 * round_err c).
Proof.
  induction h as [|[now o] h IH]; intros T s P L I HT W HL HP H.
  - cbn [total length timed] in *. pose proof (earn_nonneg (u - L) ltac:(lia)). lia.
  - destruct W as (H1 & Lg & W). pose proof (timed_le _ _ W) as Hn.
    destruct (Step T s now o I HT ltac:(lia) Lg) as [I' Tch].
    set (n := toUnixMilli now) in *. cbn [total]. pose proof round_err_nonneg as Re.
    change (length ((now, o) :: h)) with (Datatypes.S (length h)).
    rewrite Nat2Z.inj_succ, Z.mul_succ_l.
    specialize (IH n (step now s o)).
    destruct Tch as [Q E|st' F E D].
    + rewrite Q. specialize (IH P L I' ltac:(lia) W ltac:(lia) HP).
      assert (H' : holds (step now s o) n P L) by (intros m Hm; rewrite E by exact Hm; apply H; lia).
      specialize (IH H'). lia.
    + pose proof (holds_rewritten _ n st' F ltac:(lia) E) as H'.
      assert (Lo : - scale * slack <= scale * stTokens st' + round_err c).
      { destruct F as ([_ Lo _] & _). unfold scale in *. lia. }
      specialize (IH _ n I' ltac:(lia) W ltac:(lia) Lo H').
      specialize (H n ltac:(lia)).
      assert (Ea : earn c (u - L) = earn c (u - n) + earn c (n - L)) by (unfold earn; ring).
      assert (De : scale * (stTokens st' + charge now s o * one) <=
        scale * balance s n + round_err c).
      { unfold round_err. rewrite <- Z.mul_add_distr_l.
        apply Z.mul_le_mono_nonneg_l; [unfold scale; lia|exact D]. }
      rewrite !Z.mul_add_distr_r, !Z.mul_add_distr_l in *. lia.
Qed.

(** The budget of a window: the capacity, what the rate earns, and one token for
    all the rounding. *)
Lemma metered_budget T s h :
  inv T s -> 0 < T -> timed T h ->
  c <= 2 ^ 30 -> u - T <= 2 ^ 32 -> Z.of_nat (length h) <= 2 ^ 20 ->
  60000 * total s h <= 60000 * (c + 1) + (u - T) * c.
Proof.
  intros I T1 W Hc' Hd Hn. pose proof (timed_le _ _ W) as TL. pose proof slack_small. pose proof one_pos.
  pose proof (total_bound h T s (scale * (c * one)) T I T1 W ltac:(lia)
    ltac:(unfold scale; pose proof slack_pos; nia) (holds_full T s I T1)) as B.
  pose proof one_ulp as OU. unfold scale, earn, round_err, scale in B.
  set (d := u - T) in *. set (k := Z.of_nat _) in *.
  assert (Tc : d * c <= 2 ^ 62) by nia. assert (Kc : k * c <= 2 ^ 50) by nia.
  assert (0 <= d * c) by nia.
  set (A := total _ _) in *. clearbody A d k. rewrite OU in *.
  pose proof (pow2_pos 1021 ltac:(lia)). set (v := 2 ^ 1021) in *.
  apply Z.mul_le_mono_pos_r with (p := 2 ^ 159 * (2 ^ 53 * v)); [lia|].
  assert (d * c * (2 ^ 53 * v) <= 2 ^ 62 * (2 ^ 53 * v))
    by (apply Z.mul_le_mono_nonneg_r; lia).
  assert (k * c * v <= 2 ^ 50 * v) by (apply Z.mul_le_mono_nonneg_r; lia).
  lia.
Qed.
End Metered.
