(* ===== verification/Store.v ===== *)
(** * Store: the interface of pkg/store/store.go

    [Store] lists the methods of store.Store, each a step from the clock reading
    and the store's state to the state after it; [StoreLaws] states what the
    limiter relies on.  [Lifecycle] is the abstract specification of a
    reservation: what each call answers and how it moves the reservation. *)

From stdpp Require Import base tactics numbers strings gmap list.
From Stdlib Require Import ZArith Lia.
From S2P Require Import Prelude Api.

Class Store (S : Type) := {
  sCheck : Time -> S -> Key -> Limits -> Cost -> string -> S * res Decision;
  sSettle : Time -> S -> string -> Z -> S * res Decision;
  sSettleIO : Time -> S -> string -> Z -> Z -> S * res Decision;
  sRefund : Time -> S -> string -> S * res unit;
  sBorrow : Time -> S -> Key -> Limits -> BorrowSpec -> S * res BorrowResult;
  sReturn : Time -> S -> Key -> Limits -> Z -> Z -> Z -> Z -> S * res unit
}.

(** One axis of a loan: at least the minimum asked for, never negative, and at
    most the larger of the minimum and the chunk. *)
Definition loan (got min chunk : Z) : Prop :=
  Z.max 0 min <= got <= Z.max (Z.max 0 min) chunk.

(** What an allowed [Borrow] has granted, in the mode of the limits. *)
Definition grants (l : Limits) (spec : BorrowSpec) (b : BorrowResult) : Prop :=
  loan (GotRPM b) (MinRPM spec) (ChunkRPM spec) /\
  if Split l
  then loan (GotITPM b) (MinITPM spec) (ChunkITPM spec) /\
       loan (GotOTPM b) (MinOTPM spec) (ChunkOTPM spec) /\ GotTPM b = 0
  else loan (GotTPM b) (MinTPM spec) (ChunkTPM spec) /\ GotITPM b = 0 /\ GotOTPM b = 0.

(** Amounts of at most [2^53]: the [int64] numbers above it are not all [float64]
    values. *)
Definition exact_amount (n : Z) : Prop := int64_min <= n <= 2 ^ 53.

Definition exact_spec (spec : BorrowSpec) : Prop :=
  exact_amount (MinRPM spec) /\ exact_amount (MinTPM spec) /\
  exact_amount (MinITPM spec) /\ exact_amount (MinOTPM spec) /\
  exact_amount (ChunkRPM spec) /\ exact_amount (ChunkTPM spec) /\
  exact_amount (ChunkITPM spec) /\ exact_amount (ChunkOTPM spec).

Class StoreLaws (S : Type) `{Store S} : Prop := {
  (** An allowed loan covers what was asked for. *)
  borrow_grants t s k l spec s' b : exact_spec spec ->
    sBorrow t s k l spec = (s', Ok b) -> bAllowed b = true -> grants l spec b;
  (** A refused loan names the limit it ran into. *)
  borrow_denied t s k l spec s' b :
    sBorrow t s k l spec = (s', Ok b) -> bAllowed b = false ->
    bLimitType b <> LimitTypeNone;
  (** An allowed Check answers with the reservation's id. *)
  check_allowed t s k l c id s' d :
    sCheck t s k l c id = (s', Ok d) -> Allowed d = true ->
    ReservationID d = id /\ LimitType d = LimitTypeNone
}.

(** ** The life of a reservation *)

Module Lifecycle.

(** What a reservation is to its holder: unknown, or in split or classic mode and
    in one of the three states. *)
Abbreviation view := (option (bool * status)) (only parsing).

(** The answer to a settlement in classic ([io = false]) or split mode:
    [inl tt] settled or already settled, [inr e] the error. *)
Definition settle (io : bool) (v : view) : view * (unit + error) :=
  match v with
  | None => (v, inr ErrReservationNotFound)
  | Some (sp, st) =>
      if negb (Bool.eqb sp io) then (v, inr ErrWrongSettleMode)
      else match st with
           | pending => (Some (sp, settled), inl tt)
           | settled => (v, inl tt)
           | refunded => (v, inr ErrReservationRefunded)
           end
  end.

Definition refund (v : view) : view * (unit + error) :=
  match v with
  | None => (v, inr ErrReservationNotFound)
  | Some (sp, st) =>
      match st with
      | pending => (Some (sp, refunded), inl tt)
      | refunded => (v, inl tt)
      | settled => (v, inr ErrReservationSettled)
      end
  end.

(** A result of the implementation, without its payload. *)
Definition answer {A} (r : res A) : unit + error :=
  match r with Ok _ => inl tt | Err e => inr e end.

(** The state is final: no later call moves it. *)
Definition final (v : view) : bool :=
  match v with Some (_, settled) | Some (_, refunded) => true | _ => false end.

Lemma settle_final io v : final v = true -> (settle io v).1 = v.
Proof. destruct v as [[sp []]|]; simpl; try discriminate; intros; destruct (negb _); reflexivity. Qed.

Lemma refund_final v : final v = true -> (refund v).1 = v.
Proof. destruct v as [[sp []]|]; simpl; try discriminate; reflexivity. Qed.

End Lifecycle.
