(* ===== verification/Memory.v ===== *)
(** * Memory: the in-process store of pkg/store/memory/memory.go

    The store is a record of maps; its mutex makes every method one atomic step,
    so a method is a function from the clock reading [now] ([s.now()]) and the
    store to the store after it and the method's results. *)

From stdpp Require Import base tactics numbers strings gmap list.
From Stdlib Require Import ZArith Lia.
From S2P Require Import Prelude GoFloat Api Bucket Budget Store.

Record bucketState := mkBucketState { tokens : float64; lastMs : Z }.

Record reservation := mkReservation {
  subject : string;
  model : string;
  split : bool;
  rpmCost : Z;
  tpmReserved : Z;
  itpmReserved : Z;
  otpmReserved : Z;
  limitRPM : Z;
  limitTPM : Z;
  limitITPM : Z;
  limitOTPM : Z;
  rstatus : status;
  createdMs : Z;
  expiresAt : Time;
  lastDecision : Decision
}.

#[export] Instance eta_reservation : Eta reservation := fun r =>
  mkReservation (subject r) (model r) (split r) (rpmCost r)
    (tpmReserved r) (itpmReserved r) (otpmReserved r)
    (limitRPM r) (limitTPM r) (limitITPM r) (limitOTPM r)
    (rstatus r) (createdMs r) (expiresAt r) (lastDecision r).

Abbreviation buckets := (gmap string bucketState) (only parsing).

Record MemStore := mkMemStore {
  rpm : buckets;
  tpm : buckets;
  itpm : buckets;
  otpm : buckets;
  reservations : gmap string reservation
}.

#[export] Instance eta_MemStore : Eta MemStore := fun s =>
  mkMemStore (rpm s) (tpm s) (itpm s) (otpm s) (reservations s).

(** [New()] *)
Definition New : MemStore := mkMemStore ∅ ∅ ∅ ∅ ∅.

Definition modelOrDash (m : string) : string := if decide (m = "") then "-" else m.

Definition bucketKey (key : Key) : string :=
  Subject key +:+ NUL +:+ modelOrDash (Model key).

Definition purgeExpired (s : MemStore) (now : Time) : MemStore :=
  s <| reservations := filter (fun '(_, r) => After now (expiresAt r) = false) (reservations s) |>.

Definition loadBucket (m : buckets) (k : string) (capacity nowMs : Z) : State :=
  let st := match m !! k with
            | Some b => if lastMs b =? 0 then mkState 0 0 capacity
                        else mkState (tokens b) (lastMs b) capacity
            | None => mkState 0 0 capacity
            end in
  Refill st nowMs.

Definition saveBucket (m : buckets) (k : string) (st : State) : buckets :=
  <[k := mkBucketState (stTokens st) (LastMs st)]> m.

Definition clampCost (n : Z) : Z := if n <? 0 then 0 else n.

(** ** Check *)

Definition checkClassicLocked (s : MemStore) (key : Key) (limits : Limits) (cost : Cost)
    (reservationID : string) (now : Time) (nowMs : Z) : MemStore * Decision :=
  let bk := bucketKey key in
  let rpm_ := loadBucket (rpm s) bk (RequestsPerMinute limits) nowMs in
  let tpm_ := loadBucket (tpm s) bk (TokensPerMinute limits) nowMs in
  let dec := zeroDecision
    <| LimitRPM := RequestsPerMinute limits |>
    <| LimitTPM := TokensPerMinute limits |> in
  let '(rpm2, rpmRes) := TryConsume rpm_ nowMs (Requests cost) in
  if negb (rAllowed rpmRes) then
    (s, dec
      <| Allowed := false |>
      <| LimitType := LimitTypeRequests |>
      <| RemainingRPM := rRemaining rpmRes |>
      <| RemainingTPM := RemainingInt (stTokens tpm_) |>
      <| ResetRPM := rResetAt rpmRes |>
      <| ResetTPM := ResetAt tpm_ nowMs |>
      <| RetryAfter := rRetryAfter rpmRes |>)
  else
  let '(tpm2, tpmRes) := TryConsume tpm_ nowMs (Tokens cost) in
  if negb (rAllowed tpmRes) then
    (s, dec
      <| Allowed := false |>
      <| LimitType := LimitTypeTokens |>
      <| RemainingRPM := RemainingInt (stTokens rpm_) |>
      <| RemainingTPM := rRemaining tpmRes |>
      <| ResetRPM := ResetAt rpm_ nowMs |>
      <| ResetTPM := rResetAt tpmRes |>
      <| RetryAfter := rRetryAfter tpmRes |>)
  else
  let s := s <| rpm := saveBucket (rpm s) bk rpm2 |> in
  let s := s <| tpm := saveBucket (tpm s) bk tpm2 |> in
  let s := s <| reservations := <[reservationID := {|
      subject := Subject key;
      model := Model key;
      split := false;
      rpmCost := Requests cost;
      tpmReserved := Tokens cost;
      itpmReserved := 0;
      otpmReserved := 0;
      limitRPM := RequestsPerMinute limits;
      limitTPM := TokensPerMinute limits;
      limitITPM := 0;
      limitOTPM := 0;
      rstatus := pending;
      createdMs := nowMs;
      expiresAt := Add now ReservationTTL;
      lastDecision := zeroDecision
    |}]> (reservations s) |> in
  (s, dec
    <| Allowed := true |>
    <| RemainingRPM := rRemaining rpmRes |>
    <| RemainingTPM := rRemaining tpmRes |>
    <| ResetRPM := rResetAt rpmRes |>
    <| ResetTPM := rResetAt tpmRes |>
    <| ReservationID := reservationID |>).

Definition checkSplitLocked (s : MemStore) (key : Key) (limits : Limits) (cost : Cost)
    (reservationID : string) (now : Time) (nowMs : Z) : MemStore * Decision :=
  let bk := bucketKey key in
  let rpm_ := loadBucket (rpm s) bk (RequestsPerMinute limits) nowMs in
  let itpm_ := loadBucket (itpm s) bk (InputTokensPerMinute limits) nowMs in
  let otpm_ := loadBucket (otpm s) bk (OutputTokensPerMinute limits) nowMs in
  let dec := zeroDecision
    <| LimitRPM := RequestsPerMinute limits |>
    <| LimitITPM := InputTokensPerMinute limits |>
    <| LimitOTPM := OutputTokensPerMinute limits |>
    <| LimitTPM := OutputTokensPerMinute limits |> in
  let '(rpm2, rpmRes) := TryConsume rpm_ nowMs (Requests cost) in
  if negb (rAllowed rpmRes) then
    (s, dec
      <| Allowed := false |>
      <| LimitType := LimitTypeRequests |>
      <| RemainingRPM := rRemaining rpmRes |>
      <| RemainingITPM := RemainingInt (stTokens itpm_) |>
      <| RemainingOTPM := RemainingInt (stTokens otpm_) |>
      <| RemainingTPM := RemainingInt (stTokens otpm_) |>
      <| ResetRPM := rResetAt rpmRes |>
      <| ResetITPM := ResetAt itpm_ nowMs |>
      <| ResetOTPM := ResetAt otpm_ nowMs |>
      <| ResetTPM := ResetAt otpm_ nowMs |>
      <| RetryAfter := rRetryAfter rpmRes |>)
  else
  let '(itpm2, itpmRes) := TryConsume itpm_ nowMs (InputTokens cost) in
  if negb (rAllowed itpmRes) then
    (s, dec
      <| Allowed := false |>
      <| LimitType := LimitTypeInputTokens |>
      <| RemainingRPM := RemainingInt (stTokens rpm_) |>
      <| RemainingITPM := rRemaining itpmRes |>
      <| RemainingOTPM := RemainingInt (stTokens otpm_) |>
      <| RemainingTPM := RemainingInt (stTokens otpm_) |>
      <| ResetRPM := ResetAt rpm_ nowMs |>
      <| ResetITPM := rResetAt itpmRes |>
      <| ResetOTPM := ResetAt otpm_ nowMs |>
      <| ResetTPM := ResetAt otpm_ nowMs |>
      <| RetryAfter := rRetryAfter itpmRes |>)
  else
  let '(otpm2, otpmRes) := TryConsume otpm_ nowMs (OutputTokens cost) in
  if negb (rAllowed otpmRes) then
    (s, dec
      <| Allowed := false |>
      <| LimitType := LimitTypeOutputTokens |>
      <| RemainingRPM := RemainingInt (stTokens rpm_) |>
      <| RemainingITPM := RemainingInt (stTokens itpm_) |>
      <| RemainingOTPM := rRemaining otpmRes |>
      <| RemainingTPM := rRemaining otpmRes |>
      <| ResetRPM := ResetAt rpm_ nowMs |>
      <| ResetITPM := ResetAt itpm_ nowMs |>
      <| ResetOTPM := rResetAt otpmRes |>
      <| ResetTPM := rResetAt otpmRes |>
      <| RetryAfter := rRetryAfter otpmRes |>)
  else
  let s := s <| rpm := saveBucket (rpm s) bk rpm2 |> in
  let s := s <| itpm := saveBucket (itpm s) bk itpm2 |> in
  let s := s <| otpm := saveBucket (otpm s) bk otpm2 |> in
  let s := s <| reservations := <[reservationID := {|
      subject := Subject key;
      model := Model key;
      split := true;
      rpmCost := Requests cost;
      tpmReserved := 0;
      itpmReserved := InputTokens cost;
      otpmReserved := OutputTokens cost;
      limitRPM := RequestsPerMinute limits;
      limitTPM := 0;
      limitITPM := InputTokensPerMinute limits;
      limitOTPM := OutputTokensPerMinute limits;
      rstatus := pending;
      createdMs := nowMs;
      expiresAt := Add now ReservationTTL;
      lastDecision := zeroDecision
    |}]> (reservations s) |> in
  (s, dec
    <| Allowed := true |>
    <| RemainingRPM := rRemaining rpmRes |>
    <| RemainingITPM := rRemaining itpmRes |>
    <| RemainingOTPM := rRemaining otpmRes |>
    <| RemainingTPM := rRemaining otpmRes |>
    <| ResetRPM := rResetAt rpmRes |>
    <| ResetITPM := rResetAt itpmRes |>
    <| ResetOTPM := rResetAt otpmRes |>
    <| ResetTPM := rResetAt otpmRes |>
    <| ReservationID := reservationID |>).

Definition Check (now : Time) (s : MemStore) (key : Key) (limits : Limits) (cost : Cost)
    (reservationID : string) : MemStore * res Decision :=
  match Validate limits with
  | Some err => (s, Err err)
  | None =>
      let nowMs := toUnixMilli now in
      let s := purgeExpired s now in
      if decide (Subject key = "") then (s, Err (ErrInvalid "subject required"))
      else if decide (reservationID = "") then (s, Err (ErrInvalid "reservation id required"))
      else
        let cost := mkCost (clampCost (Requests cost)) (clampCost (Tokens cost))
                      (clampCost (InputTokens cost)) (clampCost (OutputTokens cost)) in
        let '(s, dec) :=
          if Split limits then checkSplitLocked s key limits cost reservationID now nowMs
          else checkClassicLocked s key limits cost reservationID now nowMs in
        (s, Ok dec)
  end.

(** ** Settle, SettleIO *)

(** The reconciliation of one axis: a refund of what was not used, or a debit of
    what was used beyond the reservation, and its overshoot. *)
Definition settleAxis (st : State) (nowMs reserved actual : Z) : State * Z :=
  let delta := wrap64 (reserved - actual) in
  if 0 <? delta then (Credit st nowMs delta, 0)
  else if delta <? 0 then
    let '(st, debited, overshoot) := DebitFloor st nowMs (wrap64 (- delta)) in
    (st, overshoot)
  else (st, 0).

Definition settleDone (r : reservation) (dec : Decision) (now : Time) : reservation :=
  r <| rstatus := settled |>
    <| lastDecision := dec |>
    <| expiresAt := Add now ReservationTTL |>.

Definition Settle (now : Time) (s : MemStore) (reservationID : string) (actualTokens : Z)
    : MemStore * res Decision :=
  let nowMs := toUnixMilli now in
  let s := purgeExpired s now in
  match reservations s !! reservationID with
  | None => (s, Err ErrReservationNotFound)
  | Some r =>
      if split r then (s, Err ErrWrongSettleMode)
      else match rstatus r with
      | settled => (s, Ok (lastDecision r))
      | refunded => (s, Err ErrReservationRefunded)
      | pending =>
          let actualTokens := clampCost actualTokens in
          let bk := bucketKey (mkKey (subject r) (model r)) in
          let tpm_ := loadBucket (tpm s) bk (limitTPM r) nowMs in
          let rpm_ := loadBucket (rpm s) bk (limitRPM r) nowMs in
          let '(tpm_, overshoot) := settleAxis tpm_ nowMs (tpmReserved r) actualTokens in
          let s := s <| tpm := saveBucket (tpm s) bk tpm_ |> in
          let dec := zeroDecision
            <| Allowed := true |>
            <| RemainingRPM := RemainingInt (stTokens rpm_) |>
            <| RemainingTPM := RemainingInt (stTokens tpm_) |>
            <| LimitRPM := limitRPM r |>
            <| LimitTPM := limitTPM r |>
            <| ResetRPM := ResetAt rpm_ nowMs |>
            <| ResetTPM := ResetAt tpm_ nowMs |>
            <| ReservationID := reservationID |>
            <| OvershootTPM := overshoot |> in
          let s := s <| reservations :=
                     <[reservationID := settleDone r dec now]> (reservations s) |> in
          (s, Ok dec)
      end
  end.

Definition SettleIO (now : Time) (s : MemStore) (reservationID : string)
    (actualInput actualOutput : Z) : MemStore * res Decision :=
  let nowMs := toUnixMilli now in
  let s := purgeExpired s now in
  match reservations s !! reservationID with
  | None => (s, Err ErrReservationNotFound)
  | Some r =>
      if negb (split r) then (s, Err ErrWrongSettleMode)
      else match rstatus r with
      | settled => (s, Ok (lastDecision r))
      | refunded => (s, Err ErrReservationRefunded)
      | pending =>
          let actualInput := clampCost actualInput in
          let actualOutput := clampCost actualOutput in
          let bk := bucketKey (mkKey (subject r) (model r)) in
          let rpm_ := loadBucket (rpm s) bk (limitRPM r) nowMs in
          let itpm_ := loadBucket (itpm s) bk (limitITPM r) nowMs in
          let otpm_ := loadBucket (otpm s) bk (limitOTPM r) nowMs in
          let '(itpm_, overIn) := settleAxis itpm_ nowMs (itpmReserved r) actualInput in
          let '(otpm_, overOut) := settleAxis otpm_ nowMs (otpmReserved r) actualOutput in
          let s := s <| itpm := saveBucket (itpm s) bk itpm_ |> in
          let s := s <| otpm := saveBucket (otpm s) bk otpm_ |> in
          let dec := zeroDecision
            <| Allowed := true |>
            <| RemainingRPM := RemainingInt (stTokens rpm_) |>
            <| RemainingITPM := RemainingInt (stTokens itpm_) |>
            <| RemainingOTPM := RemainingInt (stTokens otpm_) |>
            <| RemainingTPM := RemainingInt (stTokens otpm_) |>
            <| LimitRPM := limitRPM r |>
            <| LimitITPM := limitITPM r |>
            <| LimitOTPM := limitOTPM r |>
            <| LimitTPM := limitOTPM r |>
            <| ResetRPM := ResetAt rpm_ nowMs |>
            <| ResetITPM := ResetAt itpm_ nowMs |>
            <| ResetOTPM := ResetAt otpm_ nowMs |>
            <| ResetTPM := ResetAt otpm_ nowMs |>
            <| ReservationID := reservationID |>
            <| OvershootITPM := overIn |>
            <| OvershootOTPM := overOut |> in
          let s := s <| reservations :=
                     <[reservationID := settleDone r dec now]> (reservations s) |> in
          (s, Ok dec)
      end
  end.

(** ** Borrow, Return *)

Definition wantGot (avail min chunk : Z) : Z :=
  let want := min in
  let want := if want <? chunk then chunk else want in
  if avail <? want then avail else want.

Definition borrowClassicLocked (s : MemStore) (key : Key) (limits : Limits)
    (spec : BorrowSpec) (nowMs : Z) : MemStore * BorrowResult :=
  let bk := bucketKey key in
  let rpm_ := loadBucket (rpm s) bk (RequestsPerMinute limits) nowMs in
  let tpm_ := loadBucket (tpm s) bk (TokensPerMinute limits) nowMs in
  let availRPM := RemainingInt (stTokens rpm_) in
  let availTPM := RemainingInt (stTokens tpm_) in
  let out := zeroBorrowResult
    <| bLimitRPM := RequestsPerMinute limits |>
    <| bLimitTPM := TokensPerMinute limits |>
    <| bRemainingRPM := availRPM |>
    <| bRemainingTPM := availTPM |> in
  if availRPM <? MinRPM spec then
    let '(_, res) := TryConsume rpm_ nowMs (MinRPM spec) in
    (s, out <| bAllowed := false |> <| bLimitType := LimitTypeRequests |>
            <| bRetryAfter := rRetryAfter res |>)
  else if availTPM <? MinTPM spec then
    let '(_, res) := TryConsume tpm_ nowMs (MinTPM spec) in
    (s, out <| bAllowed := false |> <| bLimitType := LimitTypeTokens |>
            <| bRetryAfter := rRetryAfter res |>)
  else
  let gotRPM := wantGot availRPM (MinRPM spec) (ChunkRPM spec) in
  let gotTPM := wantGot availTPM (MinTPM spec) (ChunkTPM spec) in
  let '(rpm2, _) := TryConsume rpm_ nowMs gotRPM in
  let '(tpm2, _) := TryConsume tpm_ nowMs gotTPM in
  let s := s <| rpm := saveBucket (rpm s) bk rpm2 |> in
  let s := s <| tpm := saveBucket (tpm s) bk tpm2 |> in
  (s, out <| bAllowed := true |>
          <| GotRPM := gotRPM |>
          <| GotTPM := gotTPM |>
          <| bRemainingRPM := RemainingInt (stTokens rpm2) |>
          <| bRemainingTPM := RemainingInt (stTokens tpm2) |>).

Definition borrowSplitLocked (s : MemStore) (key : Key) (limits : Limits)
    (spec : BorrowSpec) (nowMs : Z) : MemStore * BorrowResult :=
  let bk := bucketKey key in
  let rpm_ := loadBucket (rpm s) bk (RequestsPerMinute limits) nowMs in
  let itpm_ := loadBucket (itpm s) bk (InputTokensPerMinute limits) nowMs in
  let otpm_ := loadBucket (otpm s) bk (OutputTokensPerMinute limits) nowMs in
  let availRPM := RemainingInt (stTokens rpm_) in
  let availITPM := RemainingInt (stTokens itpm_) in
  let availOTPM := RemainingInt (stTokens otpm_) in
  let out := zeroBorrowResult
    <| bLimitRPM := RequestsPerMinute limits |>
    <| bLimitITPM := InputTokensPerMinute limits |>
    <| bLimitOTPM := OutputTokensPerMinute limits |>
    <| bLimitTPM := OutputTokensPerMinute limits |>
    <| bRemainingRPM := availRPM |>
    <| bRemainingITPM := availITPM |>
    <| bRemainingOTPM := availOTPM |>
    <| bRemainingTPM := availOTPM |> in
  if availRPM <? MinRPM spec then
    let '(_, res) := TryConsume rpm_ nowMs (MinRPM spec) in
    (s, out <| bAllowed := false |> <| bLimitType := LimitTypeRequests |>
            <| bRetryAfter := rRetryAfter res |>)
  else if availITPM <? MinITPM spec then
    let '(_, res) := TryConsume itpm_ nowMs (MinITPM spec) in
    (s, out <| bAllowed := false |> <| bLimitType := LimitTypeInputTokens |>
            <| bRetryAfter := rRetryAfter res |>)
  else if availOTPM <? MinOTPM spec then
    let '(_, res) := TryConsume otpm_ nowMs (MinOTPM spec) in
    (s, out <| bAllowed := false |> <| bLimitType := LimitTypeOutputTokens |>
            <| bRetryAfter := rRetryAfter res |>)
  else
  let gotRPM := wantGot availRPM (MinRPM spec) (ChunkRPM spec) in
  let gotITPM := wantGot availITPM (MinITPM spec) (ChunkITPM spec) in
  let gotOTPM := wantGot availOTPM (MinOTPM spec) (ChunkOTPM spec) in
  let '(rpm2, _) := TryConsume rpm_ nowMs gotRPM in
  let '(itpm2, _) := TryConsume itpm_ nowMs gotITPM in
  let '(otpm2, _) := TryConsume otpm_ nowMs gotOTPM in
  let s := s <| rpm := saveBucket (rpm s) bk rpm2 |> in
  let s := s <| itpm := saveBucket (itpm s) bk itpm2 |> in
  let s := s <| otpm := saveBucket (otpm s) bk otpm2 |> in
  (s, out <| bAllowed := true |>
          <| GotRPM := gotRPM |>
          <| GotITPM := gotITPM |>
          <| GotOTPM := gotOTPM |>
          <| bRemainingRPM := RemainingInt (stTokens rpm2) |>
          <| bRemainingITPM := RemainingInt (stTokens itpm2) |>
          <| bRemainingOTPM := RemainingInt (stTokens otpm2) |>
          <| bRemainingTPM := RemainingInt (stTokens otpm2) |>).

Definition clampSpec (spec : BorrowSpec) : BorrowSpec :=
  mkBorrowSpec (clampCost (MinRPM spec)) (clampCost (MinTPM spec))
    (clampCost (MinITPM spec)) (clampCost (MinOTPM spec))
    (clampCost (ChunkRPM spec)) (clampCost (ChunkTPM spec))
    (clampCost (ChunkITPM spec)) (clampCost (ChunkOTPM spec)).

Definition Borrow (now : Time) (s : MemStore) (key : Key) (limits : Limits)
    (spec : BorrowSpec) : MemStore * res BorrowResult :=
  match Validate limits with
  | Some err => (s, Err err)
  | None =>
      let nowMs := toUnixMilli now in
      if decide (Subject key = "") then (s, Err (ErrInvalid "subject required"))
      else
        let spec := clampSpec spec in
        let '(s, out) :=
          if Split limits then borrowSplitLocked s key limits spec nowMs
          else borrowClassicLocked s key limits spec nowMs in
        (s, Ok out)
  end.

Definition Return (now : Time) (s : MemStore) (key : Key) (limits : Limits)
    (rpmAdd tpmAdd itpmAdd otpmAdd : Z) : MemStore * res unit :=
  if decide (Subject key = "") then (s, Err (ErrInvalid "subject required"))
  else if (rpmAdd <=? 0) && (tpmAdd <=? 0) && (itpmAdd <=? 0) && (otpmAdd <=? 0)
  then (s, Ok tt)
  else
  let nowMs := toUnixMilli now in
  let bk := bucketKey key in
  if Split limits then
    let rpm_ := loadBucket (rpm s) bk (RequestsPerMinute limits) nowMs in
    let itpm_ := loadBucket (itpm s) bk (InputTokensPerMinute limits) nowMs in
    let otpm_ := loadBucket (otpm s) bk (OutputTokensPerMinute limits) nowMs in
    let rpm_ := Credit rpm_ nowMs rpmAdd in
    let itpm_ := Credit itpm_ nowMs itpmAdd in
    let otpm_ := Credit otpm_ nowMs otpmAdd in
    let s := s <| rpm := saveBucket (rpm s) bk rpm_ |> in
    let s := s <| itpm := saveBucket (itpm s) bk itpm_ |> in
    let s := s <| otpm := saveBucket (otpm s) bk otpm_ |> in
    (s, Ok tt)
  else
  let rpm_ := loadBucket (rpm s) bk (RequestsPerMinute limits) nowMs in
  let tpm_ := loadBucket (tpm s) bk (TokensPerMinute limits) nowMs in
  let rpm_ := Credit rpm_ nowMs rpmAdd in
  let tpm_ := Credit tpm_ nowMs tpmAdd in
  let s := s <| rpm := saveBucket (rpm s) bk rpm_ |> in
  let s := s <| tpm := saveBucket (tpm s) bk tpm_ |> in
  (s, Ok tt).

(** ** Refund *)

Definition Refund (now : Time) (s : MemStore) (reservationID : string)
    : MemStore * res unit :=
  let nowMs := toUnixMilli now in
  let s := purgeExpired s now in
  match reservations s !! reservationID with
  | None => (s, Err ErrReservationNotFound)
  | Some r =>
      match rstatus r with
      | refunded => (s, Ok tt)
      | settled => (s, Err ErrReservationSettled)
      | pending =>
          let bk := bucketKey (mkKey (subject r) (model r)) in
          let rpm_ := loadBucket (rpm s) bk (limitRPM r) nowMs in
          let rpm_ := Credit rpm_ nowMs (rpmCost r) in
          let s := s <| rpm := saveBucket (rpm s) bk rpm_ |> in
          let s :=
            if split r then
              let itpm_ := loadBucket (itpm s) bk (limitITPM r) nowMs in
              let otpm_ := loadBucket (otpm s) bk (limitOTPM r) nowMs in
              let itpm_ := Credit itpm_ nowMs (itpmReserved r) in
              let otpm_ := Credit otpm_ nowMs (otpmReserved r) in
              let s := s <| itpm := saveBucket (itpm s) bk itpm_ |> in
              s <| otpm := saveBucket (otpm s) bk otpm_ |>
            else
              let tpm_ := loadBucket (tpm s) bk (limitTPM r) nowMs in
              let tpm_ := Credit tpm_ nowMs (tpmReserved r) in
              s <| tpm := saveBucket (tpm s) bk tpm_ |> in
          let r := r <| rstatus := refunded |>
                     <| expiresAt := Add now ReservationTTL |> in
          (s <| reservations := <[reservationID := r]> (reservations s) |>, Ok tt)
      end
  end.

#[export] Instance MemStore_Store : Store MemStore := {
  sCheck := Check;
  sSettle := Settle;
  sSettleIO := SettleIO;
  sRefund := Refund;
  sBorrow := Borrow;
  sReturn := Return
}.

(** Reduces the projections of the records above, and nothing else. *)
Ltac fields :=
  cbn [Allowed LimitType RemainingRPM RemainingTPM RemainingITPM RemainingOTPM
       LimitRPM LimitTPM LimitITPM LimitOTPM ResetRPM ResetTPM ResetITPM ResetOTPM
       RetryAfter ReservationID OvershootTPM OvershootITPM OvershootOTPM
       bAllowed bLimitType GotRPM GotTPM GotITPM GotOTPM bRemainingRPM bRemainingTPM
       bRemainingITPM bRemainingOTPM bRetryAfter bLimitRPM bLimitTPM bLimitITPM bLimitOTPM
       rpm tpm itpm otpm reservations
       subject model split rpmCost tpmReserved itpmReserved otpmReserved
       limitRPM limitTPM limitITPM limitOTPM rstatus createdMs expiresAt lastDecision
       zeroDecision zeroBorrowResult fst snd].

(** Splits the pair bound by [let '(_, _) := p in _] under [fst]. *)
Ltac destruct_fst :=
  lazymatch goal with |- context [(match ?p with pair _ _ => _ end).1] => destruct p; fields end.

(** ** Well-formed stores *)

(** A stored bucket, last written at or before millisecond [T]. *)
Definition bucket_ok (T : Z) (b : bucketState) : Prop :=
  is_float (tokens b) /\ - slack <= tokens b /\ 0 <= lastMs b <= T.

Definition map_ok (T : Z) (m : buckets) : Prop := map_Forall (fun _ => bucket_ok T) m.

(** A reservation's amounts are nonnegative and its limits representable. *)
Definition reservation_ok (r : reservation) : Prop :=
  cost_ok (rpmCost r) /\ cost_ok (tpmReserved r) /\ cost_ok (itpmReserved r) /\
  cost_ok (otpmReserved r) /\
  limit_ok (limitRPM r) /\ limit_ok (limitTPM r) /\ limit_ok (limitITPM r) /\
  limit_ok (limitOTPM r).

Record store_ok (T : Z) (s : MemStore) : Prop := {
  ok_rpm : map_ok T (rpm s);
  ok_tpm : map_ok T (tpm s);
  ok_itpm : map_ok T (itpm s);
  ok_otpm : map_ok T (otpm s);
  ok_res : map_Forall (fun _ => reservation_ok) (reservations s)
}.

(** Limits, and costs before clamping, that the arithmetic is exact for. *)
Definition limits_ok (l : Limits) : Prop :=
  limit_ok (RequestsPerMinute l) /\ limit_ok (TokensPerMinute l) /\
  limit_ok (InputTokensPerMinute l) /\ limit_ok (OutputTokensPerMinute l).

Definition costs_ok (c : Cost) : Prop :=
  Requests c < int64_max /\ Tokens c < int64_max /\
  InputTokens c < int64_max /\ OutputTokens c < int64_max.

Lemma New_ok T : store_ok T New.
Proof. split; apply map_Forall_empty. Qed.

Lemma map_ok_mono T T' m : T <= T' -> map_ok T m -> map_ok T' m.
Proof. intros H M k b E. destruct (M k b E) as (F & L & B). repeat split; (assumption || lia). Qed.

Lemma clampCost_max n : clampCost n = Z.max 0 n.
Proof. unfold clampCost. destruct (Z.ltb_spec n 0); lia. Qed.

Lemma clampCost_ok n : n < int64_max -> cost_ok (clampCost n).
Proof. rewrite clampCost_max. unfold cost_ok, int64_max. lia. Qed.

Lemma clampCost_id n : 0 <= n -> clampCost n = n.
Proof. rewrite clampCost_max. lia. Qed.

(** *** Loading and saving a bucket *)

Lemma loadBucket_fresh T m k capacity nowMs :
  map_ok T m -> T <= nowMs -> time_ok nowMs -> fresh nowMs capacity (loadBucket m k capacity nowMs).
Proof.
  intros M HT Hn. unfold loadBucket.
  assert (G : forall t l, is_float t -> - slack <= t -> 0 <= l <= nowMs ->
    fresh nowMs capacity (Refill (mkState t l capacity) nowMs)).
  { intros t l F L B. unfold time_ok in Hn.
    split; [apply Refill_wf_forward; cbn [stTokens LastMs]; unfold time_ok; (assumption || lia)|].
    rewrite Refill_LastMs, Refill_Capacity. auto. }
  pose proof slack_pos. unfold time_ok in Hn.
  destruct (m !! k) as [b|] eqn:E; [destruct (M k b E) as (F & L & B)|];
    [case_if|]; apply G; auto with valve; lia.
Qed.

Lemma fresh_settleAxis st capacity nowMs reserved actual :
  time_ok nowMs -> limit_ok capacity -> cost_ok reserved -> cost_ok actual ->
  fresh nowMs capacity st -> fresh nowMs capacity (settleAxis st nowMs reserved actual).1.
Proof.
  intros T Hc Hr Ha Hf. unfold settleAxis, cost_ok in *.
  assert (I : in_int64 (reserved - actual)) by (unfold in_int64, int64_min, int64_max in *; lia).
  rewrite wrap64_id by assumption.
  destruct (Z.ltb_spec 0 (reserved - actual)).
  { apply fresh_Credit; auto. unfold int64_max in *; lia. }
  destruct (Z.ltb_spec (reserved - actual) 0); [|exact Hf].
  rewrite wrap64_id by (unfold in_int64, int64_min, int64_max in *; lia).
  destruct Hf as (W & E1 & E2). destruct Hc as [Hc0 Hc].
  pose proof (DebitFloor_wf st nowMs (- (reserved - actual)) ltac:(rewrite E1; exact T) T
    ltac:(lia) W ltac:(lia)) as D.
  destruct (DebitFloor st nowMs (- (reserved - actual))) as [[st' d] o].
  cbn [fst] in D |- *. unfold fresh. rewrite <- E2. exact D.
Qed.

Lemma saveBucket_ok T m k st capacity nowMs :
  map_ok T m -> T <= nowMs -> 0 <= nowMs -> fresh nowMs capacity st ->
  map_ok nowMs (saveBucket m k st).
Proof.
  intros M HT Hn ([F L _] & E & _). unfold saveBucket.
  apply map_Forall_insert_2; [|exact (map_ok_mono T _ _ HT M)].
  split; [exact F|]. split; [exact L|]. cbn [lastMs]. lia.
Qed.

#[export] Hint Resolve fresh_TryConsume fresh_Credit fresh_settleAxis loadBucket_fresh
  clampCost_ok : valve.

(** *** Every operation keeps the store well formed *)

Lemma purge_ok T s now : store_ok T s -> store_ok T (purgeExpired s now).
Proof.
  intros []. split; auto. cbn [purgeExpired reservations].
  intros id r E. apply map_lookup_filter_Some in E as [E _]. eauto.
Qed.

Lemma store_ok_mono T T' s : T <= T' -> store_ok T s -> store_ok T' s.
Proof. intros H []. split; eauto using map_ok_mono. Qed.

Lemma insert_res_ok T s id r :
  reservation_ok r -> store_ok T s ->
  store_ok T (s <| reservations := <[id := r]> (reservations s) |>).
Proof.
  intros R []. split; auto. cbn [reservations]. apply map_Forall_insert_2; assumption.
Qed.

Section Preserve.
Context (T : Z) (s : MemStore) (now : Time).
Context (OK : store_ok T s) (HT : T <= toUnixMilli now) (Tok : time_ok (toUnixMilli now)).

Let nowMs := toUnixMilli now.

Lemma load_rpm k c : fresh nowMs c (loadBucket (rpm s) k c nowMs).
Proof. destruct OK. eapply loadBucket_fresh; eauto. Qed.

Lemma load_tpm k c : fresh nowMs c (loadBucket (tpm s) k c nowMs).
Proof. destruct OK. eapply loadBucket_fresh; eauto. Qed.

Lemma load_itpm k c : fresh nowMs c (loadBucket (itpm s) k c nowMs).
Proof. destruct OK. eapply loadBucket_fresh; eauto. Qed.

Lemma load_otpm k c : fresh nowMs c (loadBucket (otpm s) k c nowMs).
Proof. destruct OK. eapply loadBucket_fresh; eauto. Qed.

Lemma ok_now : store_ok nowMs s.
Proof. eapply store_ok_mono; eauto. Qed.

Lemma now_nonneg : 0 <= nowMs.
Proof. apply Tok. Qed.

(** A store with some maps saved and the reservations replaced. *)
Lemma store_ok_intro r' t' i' o' res' :
  map_ok nowMs r' -> map_ok nowMs t' -> map_ok nowMs i' -> map_ok nowMs o' ->
  map_Forall (fun _ => reservation_ok) res' ->
  store_ok nowMs (mkMemStore r' t' i' o' res').
Proof. split; assumption. Qed.

Lemma save_ok m k st c : map_ok nowMs m -> fresh nowMs c st -> map_ok nowMs (saveBucket m k st).
Proof. intros. eapply saveBucket_ok; eauto; [lia|apply now_nonneg]. Qed.


(** Closes [store_ok] of a store written field by field. *)
Ltac store_ok_fields :=
  cbn [rpm tpm itpm otpm reservations] in *;
  apply store_ok_intro;
  try (apply map_Forall_insert_2; [|apply (ok_res _ _ ok_now)]);
  first [ apply (ok_rpm _ _ ok_now) | apply (ok_tpm _ _ ok_now)
        | apply (ok_itpm _ _ ok_now) | apply (ok_otpm _ _ ok_now)
        | apply (ok_res _ _ ok_now)
        | eapply save_ok;
          [ first [ apply (ok_rpm _ _ ok_now) | apply (ok_tpm _ _ ok_now)
                  | apply (ok_itpm _ _ ok_now) | apply (ok_otpm _ _ ok_now) ]
          | ]
        | idtac ].

Lemma checkClassic_ok key limits cost id :
  limits_ok limits -> cost_ok (Requests cost) -> cost_ok (Tokens cost) ->
  store_ok nowMs (checkClassicLocked s key limits cost id now nowMs).1.
Proof.
  intros (L1 & L2 & _) C1 C2. unfold checkClassicLocked. cbv zeta.
  pose proof (fresh_TryConsume _ _ nowMs (Requests cost) Tok (proj2 L1)
    ltac:(unfold cost_ok in *; lia) (load_rpm (bucketKey key) (RequestsPerMinute limits))) as F1.
  pose proof (fresh_TryConsume _ _ nowMs (Tokens cost) Tok (proj2 L2)
    ltac:(unfold cost_ok in *; lia) (load_tpm (bucketKey key) (TokensPerMinute limits))) as F2.
  destruct (TryConsume (loadBucket (rpm s) _ _ _) _ _) as [rpm2 rr].
  destruct (rAllowed rr); cbn [negb fst]; [|apply ok_now].
  destruct (TryConsume (loadBucket (tpm s) _ _ _) _ _) as [tpm2 tr].
  destruct (rAllowed tr); cbn [negb fst]; [|apply ok_now].
  store_ok_fields; [exact F1|exact F2|].
  unfold reservation_ok, limit_ok, cost_ok, max_capacity, int64_max in *.
  cbn [rpmCost tpmReserved itpmReserved otpmReserved limitRPM limitTPM limitITPM limitOTPM].
  lia.
Qed.

Lemma checkSplit_ok key limits cost id :
  limits_ok limits -> cost_ok (Requests cost) -> cost_ok (InputTokens cost) ->
  cost_ok (OutputTokens cost) ->
  store_ok nowMs (checkSplitLocked s key limits cost id now nowMs).1.
Proof.
  intros (L1 & _ & L2 & L3) C1 C2 C3. unfold checkSplitLocked. cbv zeta.
  pose proof (fresh_TryConsume _ _ nowMs (Requests cost) Tok (proj2 L1)
    ltac:(unfold cost_ok in *; lia) (load_rpm (bucketKey key) (RequestsPerMinute limits))) as F1.
  pose proof (fresh_TryConsume _ _ nowMs (InputTokens cost) Tok (proj2 L2)
    ltac:(unfold cost_ok in *; lia) (load_itpm (bucketKey key) (InputTokensPerMinute limits))) as F2.
  pose proof (fresh_TryConsume _ _ nowMs (OutputTokens cost) Tok (proj2 L3)
    ltac:(unfold cost_ok in *; lia) (load_otpm (bucketKey key) (OutputTokensPerMinute limits))) as F3.
  destruct (TryConsume (loadBucket (rpm s) _ _ _) _ _) as [rpm2 rr].
  destruct (rAllowed rr); cbn [negb fst]; [|apply ok_now].
  destruct (TryConsume (loadBucket (itpm s) _ _ _) _ _) as [itpm2 ir].
  destruct (rAllowed ir); cbn [negb fst]; [|apply ok_now].
  destruct (TryConsume (loadBucket (otpm s) _ _ _) _ _) as [otpm2 or].
  destruct (rAllowed or); cbn [negb fst]; [|apply ok_now].
  store_ok_fields; [exact F1|exact F2|exact F3|].
  unfold reservation_ok, limit_ok, cost_ok, max_capacity, int64_max in *.
  cbn [rpmCost tpmReserved itpmReserved otpmReserved limitRPM limitTPM limitITPM limitOTPM].
  lia.
Qed.

Lemma reservation_found id r : reservations s !! id = Some r -> reservation_ok r.
Proof. intros E. exact (ok_res _ _ ok_now id r E). Qed.

Lemma settleDone_ok r dec : reservation_ok r -> reservation_ok (settleDone r dec now).
Proof. intros H. exact H. Qed.

(** What a loan leaves in a bucket. *)
Lemma fresh_loan st c min chunk :
  limit_ok c -> 0 <= min -> fresh nowMs c st ->
  fresh nowMs c (TryConsume st nowMs (wantGot (RemainingInt (stTokens st)) min chunk)).1.
Proof.
  intros [Hc0 Hc] Hm F. apply fresh_TryConsume; auto.
  destruct F as (W & E1 & E2). pose proof (wf_bounds st ltac:(lia) W) as B.
  pose proof (floor_le_cap st W ltac:(lia)) as Fl.
  rewrite RemainingInt_floor by exact B.
  unfold wantGot, max_capacity, int64_max in *. repeat case_if; lia.
Qed.

Lemma borrowClassic_ok key limits spec :
  limits_ok limits -> 0 <= MinRPM spec -> 0 <= MinTPM spec ->
  store_ok nowMs (borrowClassicLocked s key limits spec nowMs).1.
Proof.
  intros (L1 & L2 & _) M1 M2. unfold borrowClassicLocked. cbv zeta. fields.
  pose proof (fresh_loan _ _ _ (ChunkRPM spec) L1 M1
    (load_rpm (bucketKey key) (RequestsPerMinute limits))) as F1.
  pose proof (fresh_loan _ _ _ (ChunkTPM spec) L2 M2
    (load_tpm (bucketKey key) (TokensPerMinute limits))) as F2.
  case_if; [destruct_fst; apply ok_now|].
  case_if; [destruct_fst; apply ok_now|].
  destruct (TryConsume (loadBucket (rpm s) _ _ _) _ _) as [rpm2 rr].
  destruct (TryConsume (loadBucket (tpm s) _ _ _) _ _) as [tpm2 tr].
  cbn [fst] in *. store_ok_fields; [exact F1|exact F2].
Qed.

Lemma borrowSplit_ok key limits spec :
  limits_ok limits -> 0 <= MinRPM spec -> 0 <= MinITPM spec -> 0 <= MinOTPM spec ->
  store_ok nowMs (borrowSplitLocked s key limits spec nowMs).1.
Proof.
  intros (L1 & _ & L2 & L3) M1 M2 M3. unfold borrowSplitLocked. cbv zeta. fields.
  pose proof (fresh_loan _ _ _ (ChunkRPM spec) L1 M1
    (load_rpm (bucketKey key) (RequestsPerMinute limits))) as F1.
  pose proof (fresh_loan _ _ _ (ChunkITPM spec) L2 M2
    (load_itpm (bucketKey key) (InputTokensPerMinute limits))) as F2.
  pose proof (fresh_loan _ _ _ (ChunkOTPM spec) L3 M3
    (load_otpm (bucketKey key) (OutputTokensPerMinute limits))) as F3.
  case_if; [destruct_fst; apply ok_now|].
  case_if; [destruct_fst; apply ok_now|].
  case_if; [destruct_fst; apply ok_now|].
  destruct (TryConsume (loadBucket (rpm s) _ _ _) _ _) as [rpm2 rr].
  destruct (TryConsume (loadBucket (itpm s) _ _ _) _ _) as [itpm2 ir].
  destruct (TryConsume (loadBucket (otpm s) _ _ _) _ _) as [otpm2 or].
  cbn [fst] in *. store_ok_fields; [exact F1|exact F2|exact F3].
Qed.

Lemma Return_ok key limits r t i o :
  limits_ok limits -> r <= int64_max -> t <= int64_max -> i <= int64_max -> o <= int64_max ->
  store_ok nowMs (Return now s key limits r t i o).1.
Proof.
  intros (L1 & L2 & L3 & L4) H1 H2 H3 H4. unfold Return. fold nowMs. cbv zeta.
  case_decide; [apply ok_now|]. case_if; [apply ok_now|].
  case_if; cbn [fst]; store_ok_fields;
    (eapply fresh_Credit; cycle 3;
     [first [apply load_rpm | apply load_tpm | apply load_itpm | apply load_otpm]|..];
     assumption).
Qed.
End Preserve.

Lemma Check_ok T s now key limits cost id :
  store_ok T s -> T <= toUnixMilli now -> time_ok (toUnixMilli now) ->
  limits_ok limits -> costs_ok cost ->
  store_ok (toUnixMilli now) (Check now s key limits cost id).1.
Proof.
  intros OK HT Tok L (C1 & C2 & C3 & C4). unfold Check.
  pose proof (purge_ok T s now OK) as OK'. cbv zeta.
  destruct (Validate limits); [eapply store_ok_mono; eauto|].
  case_decide; [eapply store_ok_mono; eauto|]. case_decide; [eapply store_ok_mono; eauto|].
  destruct (Split limits).
  - pose proof (checkSplit_ok T _ now OK' HT Tok key limits
      (mkCost (clampCost (Requests cost)) (clampCost (Tokens cost))
         (clampCost (InputTokens cost)) (clampCost (OutputTokens cost))) id L) as P.
    destruct (checkSplitLocked _ _ _ _ _ _ _). apply P; apply clampCost_ok; assumption.
  - pose proof (checkClassic_ok T _ now OK' HT Tok key limits
      (mkCost (clampCost (Requests cost)) (clampCost (Tokens cost))
         (clampCost (InputTokens cost)) (clampCost (OutputTokens cost))) id L) as P.
    destruct (checkClassicLocked _ _ _ _ _ _ _). apply P; apply clampCost_ok; assumption.
Qed.

Lemma Borrow_ok T s now key limits spec :
  store_ok T s -> T <= toUnixMilli now -> time_ok (toUnixMilli now) -> limits_ok limits ->
  store_ok (toUnixMilli now) (Borrow now s key limits spec).1.
Proof.
  intros OK HT Tok L. unfold Borrow. cbv zeta.
  destruct (Validate limits); [eapply store_ok_mono; eauto|].
  case_decide; [eapply store_ok_mono; eauto|].
  assert (P : forall n, 0 <= clampCost n) by (intros; rewrite clampCost_max; lia).
  destruct (Split limits).
  - pose proof (borrowSplit_ok T s now OK HT Tok key limits (clampSpec spec) L) as B.
    destruct (borrowSplitLocked _ _ _ _ _). apply B; apply P.
  - pose proof (borrowClassic_ok T s now OK HT Tok key limits (clampSpec spec) L) as B.
    destruct (borrowClassicLocked _ _ _ _ _). apply B; apply P.
Qed.

Section PreserveReservations.
Context (T : Z) (s0 : MemStore) (now : Time).
Context (OK0 : store_ok T s0) (HT : T <= toUnixMilli now) (Tok : time_ok (toUnixMilli now)).

(** Names the purged store, which is well formed too. *)
Ltac purge s OK :=
  pose proof (purge_ok T s0 now OK0) as OK; set (s := purgeExpired s0 now) in *; clearbody s;
  cbv zeta.

Lemma Settle_ok id actual :
  actual < int64_max -> store_ok (toUnixMilli now) (Settle now s0 id actual).1.
Proof.
  intros A. unfold Settle. purge s OK.
  pose proof (ok_now T s now OK HT) as Now.
  destruct (reservations s !! id) as [r|] eqn:E; [|exact Now].
  destruct (split r); [exact Now|].
  destruct (rstatus r); try exact Now.
  pose proof (reservation_found T s now OK HT id r E) as (R1 & R2 & R3 & R4 & R5 & R6 & R7 & R8).
  pose proof (fresh_settleAxis _ _ _ (tpmReserved r) (clampCost actual) Tok R6 R2
    (clampCost_ok actual A)
    (load_tpm T s now OK HT Tok (bucketKey (mkKey (subject r) (model r))) (limitTPM r))) as F.
  destruct (settleAxis _ _ _ _) as [tpm2 over]. cbn [fst] in *.
  apply insert_res_ok; [repeat split; apply R1 || apply R2 || apply R3 || apply R4
    || apply R5 || apply R6 || apply R7 || apply R8|].
  destruct Now. split; try assumption. cbn [tpm].
  eapply saveBucket_ok; eauto; [reflexivity|apply Tok].
Qed.

Lemma SettleIO_ok id actualIn actualOut :
  actualIn < int64_max -> actualOut < int64_max ->
  store_ok (toUnixMilli now) (SettleIO now s0 id actualIn actualOut).1.
Proof.
  intros A B. unfold SettleIO. purge s OK.
  pose proof (ok_now T s now OK HT) as Now.
  destruct (reservations s !! id) as [r|] eqn:E; [|exact Now].
  destruct (split r); [|exact Now]. cbn [negb].
  destruct (rstatus r); try exact Now.
  pose proof (reservation_found T s now OK HT id r E) as (R1 & R2 & R3 & R4 & R5 & R6 & R7 & R8).
  pose proof (fresh_settleAxis _ _ _ (itpmReserved r) (clampCost actualIn) Tok R7 R3
    (clampCost_ok actualIn A)
    (load_itpm T s now OK HT Tok (bucketKey (mkKey (subject r) (model r))) (limitITPM r))) as F.
  pose proof (fresh_settleAxis _ _ _ (otpmReserved r) (clampCost actualOut) Tok R8 R4
    (clampCost_ok actualOut B)
    (load_otpm T s now OK HT Tok (bucketKey (mkKey (subject r) (model r))) (limitOTPM r))) as G.
  destruct (settleAxis (loadBucket (itpm s) _ _ _) _ _ _) as [itpm2 overIn].
  destruct (settleAxis (loadBucket (otpm s) _ _ _) _ _ _) as [otpm2 overOut].
  cbn [fst] in *.
  apply insert_res_ok; [repeat split; apply R1 || apply R2 || apply R3 || apply R4
    || apply R5 || apply R6 || apply R7 || apply R8|].
  destruct Now. split; try assumption; cbn [itpm otpm];
    (eapply saveBucket_ok; [eassumption|reflexivity|apply Tok|eassumption]).
Qed.

Lemma Refund_ok id : store_ok (toUnixMilli now) (Refund now s0 id).1.
Proof.
  unfold Refund. purge s OK.
  pose proof (ok_now T s now OK HT) as Now.
  destruct (reservations s !! id) as [r|] eqn:E; [|exact Now].
  destruct (rstatus r); try exact Now.
  pose proof (reservation_found T s now OK HT id r E) as (R1 & R2 & R3 & R4 & R5 & R6 & R7 & R8).
  set (bk := bucketKey (mkKey (subject r) (model r))).
  assert (I : forall n, cost_ok n -> n <= int64_max) by (unfold cost_ok; lia).
  pose proof (fresh_Credit _ _ _ _ Tok R5 (I _ R1) (load_rpm T s now OK HT Tok bk (limitRPM r))) as F1.
  pose proof (fresh_Credit _ _ _ _ Tok R6 (I _ R2) (load_tpm T s now OK HT Tok bk (limitTPM r))) as F2.
  pose proof (fresh_Credit _ _ _ _ Tok R7 (I _ R3) (load_itpm T s now OK HT Tok bk (limitITPM r))) as F3.
  pose proof (fresh_Credit _ _ _ _ Tok R8 (I _ R4) (load_otpm T s now OK HT Tok bk (limitOTPM r))) as F4.
  cbn [fst]. apply insert_res_ok; [repeat split; apply R1 || apply R2 || apply R3 || apply R4
    || apply R5 || apply R6 || apply R7 || apply R8|].
  destruct Now. destruct (split r); split; cbn [rpm tpm itpm otpm reservations];
    try assumption; (eapply saveBucket_ok; [eassumption|reflexivity|apply Tok|eassumption]).
Qed.
End PreserveReservations.
