(* ===== verification/MemorySpec.v ===== *)
(** * MemorySpec: what the in-process store guarantees

    The reservations refine [Store.Lifecycle]; denied requests cost nothing and
    admitted ones cost exactly what they asked for; the balances stay in range in
    every reachable store; and the requests granted on a key in any interval are
    bounded by the per-minute budget. *)

From stdpp Require Import base tactics numbers strings gmap list.
From Stdlib Require Import ZArith Lia.
From S2P Require Import Prelude GoFloat Api Bucket Budget Store Memory.

(** ** Histories *)

Inductive op : Type :=
| OpCheck (key : Key) (limits : Limits) (cost : Cost) (id : string)
| OpSettle (id : string) (actual : Z)
| OpSettleIO (id : string) (actualIn actualOut : Z)
| OpRefund (id : string)
| OpBorrow (key : Key) (limits : Limits) (spec : BorrowSpec)
| OpReturn (key : Key) (limits : Limits) (r t i o : Z).

(** The store after one call. *)
Definition apply (now : Time) (s : MemStore) (o : op) : MemStore :=
  match o with
  | OpCheck k l c id => (Check now s k l c id).1
  | OpSettle id a => (Settle now s id a).1
  | OpSettleIO id a b => (SettleIO now s id a b).1
  | OpRefund id => (Refund now s id).1
  | OpBorrow k l sp => (Borrow now s k l sp).1
  | OpReturn k l r t i o => (Return now s k l r t i o).1
  end.

(** Arguments within the range the arithmetic is exact for: limits between 0 and
    [2^53], amounts below the largest [int64]. *)
Definition op_ok (o : op) : Prop :=
  match o with
  | OpCheck _ l c _ => limits_ok l /\ costs_ok c
  | OpSettle _ a => a < int64_max
  | OpSettleIO _ a b => a < int64_max /\ b < int64_max
  | OpRefund _ => True
  | OpBorrow _ l _ => limits_ok l
  | OpReturn _ l r t i o =>
      limits_ok l /\ r < int64_max /\ t < int64_max /\ i < int64_max /\ o < int64_max
  end.

(** Stores reachable from the empty one by calls in time order; [T] is the
    millisecond of the last call. *)
Inductive reachable : Z -> MemStore -> Prop :=
| reach_new : reachable 0 New
| reach_call T s now o :
    reachable T s -> T <= toUnixMilli now -> time_ok (toUnixMilli now) -> op_ok o ->
    reachable (toUnixMilli now) (apply now s o).

Lemma apply_ok T s now o :
  store_ok T s -> T <= toUnixMilli now -> time_ok (toUnixMilli now) -> op_ok o ->
  store_ok (toUnixMilli now) (apply now s o).
Proof.
  intros OK HT Tok A. destruct o; cbn [apply op_ok] in *.
  - destruct A. eapply Check_ok; eauto.
  - eapply Settle_ok; eauto.
  - destruct A. eapply SettleIO_ok; eauto.
  - eapply Refund_ok; eauto.
  - eapply Borrow_ok; eauto.
  - destruct A as (L & A1 & A2 & A3 & A4). eapply Return_ok; eauto; lia.
Qed.

Lemma reachable_ok T s : reachable T s -> store_ok T s.
Proof. induction 1; [apply New_ok|eapply apply_ok; eauto]. Qed.

(** ** Reservations *)

(** What the store shows of a reservation at time [now]. *)
Definition view (s : MemStore) (now : Time) (id : string) : Lifecycle.view :=
  (fun r => (split r, rstatus r)) <$> reservations (purgeExpired s now) !! id.

Lemma view_eq s now id :
  view s now id =
    match reservations s !! id with
    | Some r => if After now (expiresAt r) then None else Some (split r, rstatus r)
    | None => None
    end.
Proof.
  unfold view. cbn [purgeExpired reservations].
  destruct (reservations s !! id) as [r|] eqn:L.
  - destruct (After now (expiresAt r)) eqn:E.
    + rewrite map_lookup_filter_None_2; [reflexivity|]. right. intros r' L' E'.
      rewrite L in L'. simplify_eq. congruence.
    + rewrite (map_lookup_filter_Some_2 _ _ id r); auto.
  - rewrite map_lookup_filter_None_2 by auto. reflexivity.
Qed.

(** Reservations of the purged store are not expired. *)
Lemma purged_lookup s now id r :
  reservations (purgeExpired s now) !! id = Some r -> After now (expiresAt r) = false.
Proof. cbn [purgeExpired reservations]. intros [_ H]%map_lookup_filter_Some. exact H. Qed.

Lemma purge_purge s now : purgeExpired (purgeExpired s now) now = purgeExpired s now.
Proof.
  unfold purgeExpired. cbn [rpm tpm itpm otpm reservations]. f_equal.
  apply map_filter_filter_l. intros k v _ H. exact H.
Qed.

Lemma not_after_ttl now : After now (Add now ReservationTTL) = false.
Proof.
  unfold After, Add, ReservationTTL, Minute, Second. apply Z.ltb_ge. lia.
Qed.

(** Writing one unexpired reservation changes its view and no other. *)
Lemma view_insert s s' now id r :
  After now (expiresAt r) = false ->
  reservations s' = <[id := r]> (reservations (purgeExpired s now)) ->
  view s' now id = Some (split r, rstatus r) /\
  forall id', id' <> id -> view s' now id' = view s now id'.
Proof.
  intros A E. split.
  - rewrite view_eq, E, lookup_insert_eq, A. reflexivity.
  - intros id' N. rewrite view_eq, E, lookup_insert_ne by congruence. unfold view.
    destruct (reservations (purgeExpired s now) !! id') as [r'|] eqn:L; [|reflexivity].
    rewrite (purged_lookup _ _ _ _ L). reflexivity.
Qed.

Lemma view_same s s' now :
  reservations s' = reservations (purgeExpired s now) ->
  forall id, view s' now id = view s now id.
Proof.
  intros E id. rewrite view_eq, E. unfold view.
  destruct (reservations (purgeExpired s now) !! id) as [r|] eqn:L; [|reflexivity].
  rewrite (purged_lookup _ _ _ _ L). reflexivity.
Qed.

Ltac buckets_same := split_and!; reflexivity.

(** The buckets of two stores are the same. *)
Definition same_buckets (s s' : MemStore) : Prop :=
  rpm s' = rpm s /\ tpm s' = tpm s /\ itpm s' = itpm s /\ otpm s' = otpm s.

(** One call on reservation [id] follows the specification [f]: it answers and
    moves the reservation as [f] says, touches no other reservation, and unless
    it moves the reservation it changes no bucket. *)
Definition follows {A} (f : Lifecycle.view -> Lifecycle.view * (unit + error))
    (now : Time) (id : string) (s : MemStore) (out : MemStore * res A) : Prop :=
  let v := view s now id in
  view out.1 now id = (f v).1 /\
  Lifecycle.answer out.2 = (f v).2 /\
  (forall id', id' <> id -> view out.1 now id' = view s now id') /\
  ((f v).1 = v -> same_buckets s out.1).

(** A call that only purges follows [f] if [f] keeps the state. *)
Lemma follows_kept {A} f now id s (a : res A) :
  Lifecycle.answer a = (f (view s now id)).2 -> (f (view s now id)).1 = view s now id ->
  follows f now id s (purgeExpired s now, a).
Proof.
  intros E1 E2. pose proof (view_same s (purgeExpired s now) now eq_refl) as V.
  split; [cbn [fst]; rewrite V, E2; reflexivity|]. split; [exact E1|].
  split; [intros; apply V|]. intros _. buckets_same.
Qed.

(** A call that rewrites the reservation follows [f] if [f] moves it there. *)
Lemma follows_moved {A} f now id s s' r (a : res A) :
  Lifecycle.answer a = (f (view s now id)).2 ->
  (f (view s now id)).1 = Some (split r, rstatus r) ->
  view s now id <> Some (split r, rstatus r) ->
  After now (expiresAt r) = false ->
  reservations s' = <[id := r]> (reservations (purgeExpired s now)) ->
  follows f now id s (s', a).
Proof.
  intros E1 E2 N A1 R. destruct (view_insert s s' now id r A1 R) as [V1 V2].
  unfold follows. cbv zeta. cbn [fst snd]. split_and!; [rewrite V1, E2; reflexivity|exact E1|exact V2|rewrite E2; intros H; destruct N; congruence].
Qed.

(** The view of a reservation found in the purged store. *)
Lemma view_found s now id :
  view s now id = (fun r => (split r, rstatus r)) <$> reservations (purgeExpired s now) !! id.
Proof. reflexivity. Qed.

Lemma settle_follows now s id actual :
  follows (Lifecycle.settle false) now id s (Settle now s id actual).
Proof.
  unfold Settle. cbv zeta. pose proof (view_found s now id) as V.
  destruct (reservations (purgeExpired s now) !! id) as [r|] eqn:L; cbn [fmap option_fmap option_map] in V;
    [destruct (split r) eqn:Sp; [|destruct (rstatus r) eqn:St]|].
  all: try (apply follows_kept; rewrite V; reflexivity).
  destruct (settleAxis _ _ _ _) as [t over].
  eapply follows_moved; cycle 4;
    [reflexivity|rewrite V; reflexivity| |rewrite V|apply not_after_ttl];
    cbn [settleDone split rstatus]; rewrite ?V, ?Sp; [reflexivity|discriminate].
Qed.

Lemma settleIO_follows now s id a b :
  follows (Lifecycle.settle true) now id s (SettleIO now s id a b).
Proof.
  unfold SettleIO. cbv zeta. pose proof (view_found s now id) as V.
  destruct (reservations (purgeExpired s now) !! id) as [r|] eqn:L; cbn [fmap option_fmap option_map] in V;
    [destruct (split r) eqn:Sp; [destruct (rstatus r) eqn:St|]|].
  all: try (apply follows_kept; rewrite V; reflexivity).
  cbn [negb].
  destruct (settleAxis (loadBucket (itpm _) _ _ _) _ _ _) as [t over].
  destruct (settleAxis (loadBucket (otpm _) _ _ _) _ _ _) as [t' over'].
  eapply follows_moved; cycle 4;
    [reflexivity|rewrite V; reflexivity| |rewrite V|apply not_after_ttl];
    cbn [settleDone split rstatus]; rewrite ?V, ?Sp; [reflexivity|discriminate].
Qed.

Lemma refund_follows now s id : follows Lifecycle.refund now id s (Refund now s id).
Proof.
  unfold Refund. cbv zeta. pose proof (view_found s now id) as V.
  destruct (reservations (purgeExpired s now) !! id) as [r|] eqn:L; cbn [fmap option_fmap option_map] in V;
    [destruct (rstatus r) eqn:St|].
  all: try (apply follows_kept; rewrite V; reflexivity).
  destruct (split r) eqn:Sp; (eapply follows_moved; cycle 4;
    [reflexivity|rewrite V; reflexivity|rewrite V|rewrite V|apply not_after_ttl]);
    cbn [split rstatus]; rewrite ?Sp; (reflexivity || discriminate).
Qed.

(** *** Check and reservations *)

(** The costs [Check] charges. *)
Definition clampCosts (c : Cost) : Cost :=
  mkCost (clampCost (Requests c)) (clampCost (Tokens c))
    (clampCost (InputTokens c)) (clampCost (OutputTokens c)).

(** The request was admitted. *)
Definition admitted (r : res Decision) : bool :=
  match r with Ok d => Allowed d | Err _ => false end.

(** A call of [Check] fails without touching the buckets, or decides. *)
Variant check_case (now : Time) (s : MemStore) (k : Key) (l : Limits) (c : Cost) (id : string) :
    MemStore * res Decision -> Prop :=
| check_err s' e :
    reservations s' = reservations s \/ s' = purgeExpired s now -> same_buckets s s' ->
    check_case now s k l c id (s', Err e)
| check_split s' d :
    Split l = true -> Validate l = None -> Subject k <> "" -> id <> "" ->
    checkSplitLocked (purgeExpired s now) k l (clampCosts c) id now (toUnixMilli now) = (s', d) ->
    check_case now s k l c id (s', Ok d)
| check_classic s' d :
    Split l = false -> Validate l = None -> Subject k <> "" -> id <> "" ->
    checkClassicLocked (purgeExpired s now) k l (clampCosts c) id now (toUnixMilli now) = (s', d) ->
    check_case now s k l c id (s', Ok d).

Lemma Check_cases now s k l c id : check_case now s k l c id (Check now s k l c id).
Proof.
  unfold Check. destruct (Validate l) eqn:V.
  { apply check_err; [left; reflexivity|buckets_same]. }
  cbv zeta. case_decide; [apply check_err; [right; reflexivity|buckets_same]|].
  case_decide; [apply check_err; [right; reflexivity|buckets_same]|].
  destruct (Split l) eqn:Sp.
  - destruct (checkSplitLocked _ _ _ _ _ _ _) as [s' d] eqn:E. apply check_split; auto.
  - destruct (checkClassicLocked _ _ _ _ _ _ _) as [s' d] eqn:E. apply check_classic; auto.
Qed.

(** The reservation an admitted request leaves. *)
Definition new_reservation (sp : bool) (k : Key) (l : Limits) (c : Cost) (now : Time) : reservation :=
  let when (b : bool) (z : Z) := if b then z else 0 in {|
    subject := Subject k;
    model := Model k;
    split := sp;
    rpmCost := Requests c;
    tpmReserved := when (negb sp) (Tokens c);
    itpmReserved := when sp (InputTokens c);
    otpmReserved := when sp (OutputTokens c);
    limitRPM := RequestsPerMinute l;
    limitTPM := when (negb sp) (TokensPerMinute l);
    limitITPM := when sp (InputTokensPerMinute l);
    limitOTPM := when sp (OutputTokensPerMinute l);
    rstatus := pending;
    createdMs := toUnixMilli now;
    expiresAt := Add now ReservationTTL;
    lastDecision := zeroDecision
  |}.

(** A verdict of [Check]: denied with nothing written, or admitted with the
    reservation recorded. *)
Definition recorded (sp : bool) (k : Key) (l : Limits) (c : Cost) (now : Time) (id : string)
    (s s' : MemStore) (d : Decision) : Prop :=
  if Allowed d
  then reservations s' = <[id := new_reservation sp k l c now]> (reservations s)
  else s' = s.

Lemma checkClassic_recorded s k l c id now :
  let out := checkClassicLocked s k l c id now (toUnixMilli now) in
  recorded false k l c now id s out.1 out.2.
Proof.
  unfold checkClassicLocked. cbv zeta.
  destruct (TryConsume (loadBucket (rpm s) _ _ _) _ _) as [rpm2 rr].
  destruct (rAllowed rr); cbn [negb]; [|reflexivity].
  destruct (TryConsume (loadBucket (tpm s) _ _ _) _ _) as [tpm2 tr].
  destruct (rAllowed tr); cbn [negb]; reflexivity.
Qed.

Lemma checkSplit_recorded s k l c id now :
  let out := checkSplitLocked s k l c id now (toUnixMilli now) in
  recorded true k l c now id s out.1 out.2.
Proof.
  unfold checkSplitLocked. cbv zeta.
  destruct (TryConsume (loadBucket (rpm s) _ _ _) _ _) as [rpm2 rr].
  destruct (rAllowed rr); cbn [negb]; [|reflexivity].
  destruct (TryConsume (loadBucket (itpm s) _ _ _) _ _) as [itpm2 ir].
  destruct (rAllowed ir); cbn [negb]; [|reflexivity].
  destruct (TryConsume (loadBucket (otpm s) _ _ _) _ _) as [otpm2 or].
  destruct (rAllowed or); cbn [negb]; reflexivity.
Qed.

Lemma recorded_view sp k l c now id s s' d :
  recorded sp k l c now id (purgeExpired s now) s' d ->
  view s' now id = (if Allowed d then Some (sp, pending) else view s now id) /\
  forall id', id' <> id -> view s' now id' = view s now id'.
Proof.
  unfold recorded. destruct (Allowed d).
  - apply (view_insert s s' now id (new_reservation sp k l c now)). apply not_after_ttl.
  - intros ->. pose proof (view_same s (purgeExpired s now) now eq_refl) as V. auto.
Qed.

(** Whatever [Check] decides, the reservation it records is the request's. *)
Lemma Check_recorded now s k l c id s' d :
  Check now s k l c id = (s', Ok d) ->
  recorded (Split l) k l (clampCosts c) now id (purgeExpired s now) s' d.
Proof.
  intros E. pose proof (Check_cases now s k l c id) as Cs. rewrite E in Cs.
  inversion Cs as [|? ? Sp _ _ _ E'|? ? Sp _ _ _ E']; subst; rewrite Sp.
  - pose proof (checkSplit_recorded (purgeExpired s now) k l (clampCosts c) id now) as R.
    rewrite E' in R. exact R.
  - pose proof (checkClassic_recorded (purgeExpired s now) k l (clampCosts c) id now) as R.
    rewrite E' in R. exact R.
Qed.

Lemma Check_view now s k l c id :
  let out := Check now s k l c id in
  view out.1 now id = (if admitted out.2 then Some (Split l, pending) else view s now id) /\
  forall id', id' <> id -> view out.1 now id' = view s now id'.
Proof.
  cbv zeta.
  destruct (Check_cases now s k l c id) as [s' e R _|s' d Sp _ _ _ E|s' d Sp _ _ _ E];
    cbn [fst snd admitted].
  - assert (V : forall i, view s' now i = view s now i).
    { destruct R as [R|R]; [intros i; rewrite !view_eq, R; reflexivity|].
      apply view_same. rewrite R. reflexivity. }
    auto.
  - rewrite Sp. eapply recorded_view.
    pose proof (checkSplit_recorded (purgeExpired s now) k l (clampCosts c) id now) as R.
    rewrite E in R. exact R.
  - rewrite Sp. eapply recorded_view.
    pose proof (checkClassic_recorded (purgeExpired s now) k l (clampCosts c) id now) as R.
    rewrite E in R. exact R.
Qed.

(** ** Reservations over a history *)

Lemma borrowClassic_reservations s k l spec n :
  reservations (borrowClassicLocked s k l spec n).1 = reservations s.
Proof.
  unfold borrowClassicLocked. cbv zeta. fields.
  do 2 (case_if; [destruct_fst; reflexivity|]).
  destruct (TryConsume (loadBucket (rpm s) _ _ _) _ _).
  destruct (TryConsume (loadBucket (tpm s) _ _ _) _ _). reflexivity.
Qed.

Lemma borrowSplit_reservations s k l spec n :
  reservations (borrowSplitLocked s k l spec n).1 = reservations s.
Proof.
  unfold borrowSplitLocked. cbv zeta. fields.
  do 3 (case_if; [destruct_fst; reflexivity|]).
  destruct (TryConsume (loadBucket (rpm s) _ _ _) _ _).
  destruct (TryConsume (loadBucket (itpm s) _ _ _) _ _).
  destruct (TryConsume (loadBucket (otpm s) _ _ _) _ _). reflexivity.
Qed.

Lemma Borrow_reservations now s k l spec :
  reservations (Borrow now s k l spec).1 = reservations s.
Proof.
  unfold Borrow. cbv zeta. destruct (Validate l); [reflexivity|]. case_decide; [reflexivity|].
  pose proof (borrowClassic_reservations s k l (clampSpec spec) (toUnixMilli now)).
  pose proof (borrowSplit_reservations s k l (clampSpec spec) (toUnixMilli now)).
  destruct (Split l); [destruct (borrowSplitLocked _ _ _ _ _)|
    destruct (borrowClassicLocked _ _ _ _ _)]; assumption.
Qed.

Lemma Return_reservations now s k l r t i o :
  reservations (Return now s k l r t i o).1 = reservations s.
Proof.
  unfold Return. cbv zeta. case_decide; [reflexivity|].
  destruct (_ && _); [reflexivity|]. destruct (Split l); reflexivity.
Qed.

Definition is_pending (v : Lifecycle.view) : bool :=
  match v with Some (_, pending) => true | _ => false end.

(** What one call of the store makes of the view of reservation [id]. *)
Definition next_view (now : Time) (s : MemStore) (o : op) (id : string) : Lifecycle.view :=
  let v := view s now id in
  match o with
  | OpCheck k l c i =>
      if decide (id = i) then if admitted (Check now s k l c i).2 then Some (Split l, pending) else v
      else v
  | OpSettle i _ => if decide (id = i) then (Lifecycle.settle false v).1 else v
  | OpSettleIO i _ _ => if decide (id = i) then (Lifecycle.settle true v).1 else v
  | OpRefund i => if decide (id = i) then (Lifecycle.refund v).1 else v
  | OpBorrow _ _ _ | OpReturn _ _ _ _ _ _ => v
  end.

Lemma follows_view {A} f now i s (out : MemStore * res A) id :
  follows f now i s out ->
  view out.1 now id = if decide (id = i) then (f (view s now id)).1 else view s now id.
Proof. intros (V & _ & O & _). case_decide; [subst; exact V|apply O; assumption]. Qed.

Lemma apply_view now s o id : view (apply now s o) now id = next_view now s o id.
Proof.
  destruct o; cbn [apply next_view].
  - destruct (Check_view now s key limits cost id0) as [V O].
    case_decide; [subst; exact V|apply O; assumption].
  - apply follows_view, settle_follows.
  - apply follows_view, settleIO_follows.
  - apply follows_view, refund_follows.
  - rewrite !view_eq, Borrow_reservations. reflexivity.
  - rewrite !view_eq, Return_reservations. reflexivity.
Qed.

(** As time passes a reservation keeps its state or expires. *)
Lemma view_later s now now' id :
  now <= now' -> view s now' id = view s now id \/ view s now' id = None.
Proof.
  intros H. rewrite !view_eq. destruct (reservations s !! id) as [r|]; [|auto].
  unfold After. destruct (Z.ltb_spec (expiresAt r) now), (Z.ltb_spec (expiresAt r) now'); auto; lia.
Qed.

(** The calls of a history are made in time order. *)
Fixpoint in_order (t : Time) (h : list (Time * op)) : Prop :=
  match h with
  | [] => True
  | (now, _) :: h => t <= now /\ in_order now h
  end.

#[export] Instance in_order_dec t h : base.Decision (in_order t h).
Proof. revert t. induction h as [|[n c] l IH]; intros t; simpl; apply _. Defined.

(** The store after a history. *)
Definition after (h : list (Time * op)) (s : MemStore) : MemStore := fold_left (fun s e => apply e.1 s e.2) h s.

(** [o] settles or refunds reservation [id]. *)
Definition closing_call (id : string) (o : op) : Prop :=
  match o with OpSettle i _ | OpSettleIO i _ _ | OpRefund i => i = id | _ => False end.

(** [o] does not create reservation [id]. *)
Definition no_check (id : string) (o : op) : Prop :=
  match o with OpCheck _ _ _ i => i <> id | _ => True end.

(** Without a [Check] of it a reservation does not become pending. *)
Lemma next_view_closed now s o id :
  no_check id o -> is_pending (view s now id) = false ->
  is_pending (next_view now s o id) = false.
Proof.
  intros N P. destruct o; cbn [next_view no_check] in *; try assumption; case_decide; subst;
    try congruence; destruct (view s now _) as [[[] []]|]; try discriminate; reflexivity.
Qed.

(** A settlement or refund closes a pending reservation, or does nothing but purge. *)
Lemma closing_call_cases now s o id :
  closing_call id o ->
  apply now s o = purgeExpired s now \/
  is_pending (view s now id) = true /\ is_pending (view (apply now s o) now id) = false.
Proof.
  intros C. rewrite apply_view. pose proof (view_found s now id) as V.
  destruct o as [|i a|i a b|i| |]; try destruct C; cbn [closing_call apply next_view] in *;
    rewrite decide_True by reflexivity; unfold Settle, SettleIO, Refund; cbv zeta;
    (destruct (reservations (purgeExpired s now) !! i) as [r|]; [|left; reflexivity]);
    cbn [fmap option_fmap option_map] in V; rewrite V.
  - destruct (split r); [left; reflexivity|]. destruct (rstatus r); [right; split; reflexivity|left; reflexivity..].
  - destruct (split r); [|left; reflexivity]. destruct (rstatus r); [right; split; reflexivity|left; reflexivity..].
  - destruct (rstatus r); [right; split; reflexivity|left; reflexivity..].
Qed.

Lemma after_closed id h : forall t s,
  in_order t h -> Forall (fun e => no_check id e.2) h -> is_pending (view s t id) = false ->
  forall now, (forall e, In e h -> e.1 <= now) -> t <= now -> is_pending (view (after h s) now id) = false.
Proof.
  assert (L : forall t s now, t <= now -> is_pending (view s t id) = false -> is_pending (view s now id) = false).
  { intros t s now H P. destruct (view_later s t now id H) as [->| ->]; [assumption|reflexivity]. }
  induction h as [|[n o] h IH]; intros t s O F P now Hn Ht; cbn [after fold_left]; [eapply L; eassumption|].
  destruct O as [Le O]. apply Forall_cons in F as [N F]. cbn [fst snd] in *.
  apply (IH n); [exact O|exact F| |intros e I; apply Hn; right; exact I|exact (Hn _ (or_introl eq_refl))].
  rewrite apply_view. apply next_view_closed; [exact N|]. eapply L; eassumption.
Qed.

Lemma in_order_app t h now o :
  in_order t (h ++ [(now, o)]) -> in_order t h /\ (forall e, In e h -> e.1 <= now) /\ t <= now.
Proof.
  revert t. induction h as [|[n c] h IH]; intros t O; cbn [app in_order] in *; [split; [exact I|]; split; [intros e []|apply O]|].
  destruct O as [Le O]. destruct (IH n O) as (O' & H & L). split; [auto|]. split; [|lia].
  intros e [<-|I]; [exact L|exact (H e I)].
Qed.

(** A settled reservation answers with the decision it was settled with. *)
Definition settled_with (s : MemStore) (id : string) (d : Decision) (t : Time) : Prop :=
  exists r, reservations s !! id = Some r /\ split r = false /\ rstatus r = settled /\
    lastDecision r = d /\ t <= expiresAt r.

Lemma Settle_again now s id a d t :
  settled_with s id d t -> now <= t -> Settle now s id a = (purgeExpired s now, Ok d).
Proof.
  intros (r & L & Sp & St & D & Ex) H. unfold Settle. cbv zeta.
  assert (L' : reservations (purgeExpired s now) !! id = Some r).
  { cbn [purgeExpired reservations]. rewrite (map_lookup_filter_Some_2 _ _ id r); [reflexivity|assumption|].
    unfold After. apply Z.ltb_ge. lia. }
  rewrite L', Sp, St, D. reflexivity.
Qed.

Lemma Settle_settled now s id a s' d :
  Settle now s id a = (s', Ok d) -> view s now id = Some (false, pending) ->
  settled_with s' id d (now + ReservationTTL).
Proof.
  unfold Settle. cbv zeta. rewrite view_found.
  destruct (reservations (purgeExpired s now) !! id) as [r|]; [|discriminate].
  cbn [fmap option_fmap option_map]. intros E [= Sp St]. rewrite Sp, St in E.
  destruct (settleAxis _ _ _ _). inversion E; subst; clear E.
  eexists. cbn [reservations]. rewrite lookup_insert_eq.
  split; [reflexivity|]. cbn [settleDone split rstatus lastDecision expiresAt]. unfold Add. auto with lia.
Qed.

(** ** Properties *)

(** C10: reservations refine their specification.  Whatever the store, Settle,
    SettleIO and Refund answer exactly what [Lifecycle.settle] and
    [Lifecycle.refund] answer for the reservation (unknown, wrong mode, already
    settled, already refunded), leave it in the state they prescribe, touch no
    other reservation, and change no bucket unless they close the reservation. *)
Theorem reservations_refine_lifecycle now s id a b :
  follows (Lifecycle.settle false) now id s (Settle now s id a) /\
  follows (Lifecycle.settle true) now id s (SettleIO now s id a b) /\
  follows Lifecycle.refund now id s (Refund now s id).
Proof. split_and!; [apply settle_follows|apply settleIO_follows|apply refund_follows]. Qed.

(** C14: a reservation is settled or refunded at most once.  Of any two calls of Settle,
    SettleIO and Refund on one id, in time order and whatever happens in the store in
    between except a new Check of the id, at most one does anything: the other leaves
    every bucket and every reservation as it was, but for purging what has expired. *)
Theorem reservation_closes_once id s t now1 o1 h now2 o2 :
  in_order t ((now1, o1) :: h ++ [(now2, o2)]) -> closing_call id o1 -> closing_call id o2 ->
  Forall (fun e => no_check id e.2) h ->
  let s1 := apply now1 s o1 in
  let s2 := after h s1 in
  s1 = purgeExpired s now1 \/ apply now2 s2 o2 = purgeExpired s2 now2.
Proof.
  intros [_ O] C1 C2 F s1 s2. destruct (in_order_app now1 h now2 o2 O) as (Oh & Hh & Hn).
  destruct (closing_call_cases now1 s o1 id C1) as [E|[_ P]]; [left; exact E|].
  destruct (closing_call_cases now2 s2 o2 id C2) as [E|[Q _]]; [right; exact E|].
  unfold s2 in Q. rewrite (after_closed id h now1 s1 Oh F P now2 Hh Hn) in Q. discriminate.
Qed.

Definition sample_limits : Limits := mkLimits 10 1000 0 0.
Definition sample_key : Key := mkKey "alice" "gpt".
Definition sample_store : MemStore :=
  (Check 1700000000000000000 New sample_key sample_limits (mkCost 1 100 0 0) "r1").1.

Lemma reservation_closes_once_witness :
  let s1 := apply 1700000000500000000 sample_store (OpSettle "r1" 40) in
  let s2 := after [(1700000000600000000, OpCheck sample_key sample_limits (mkCost 1 50 0 0) "r2")] s1 in
  view s1 1700000000500000000 "r1" = Some (false, settled) /\
  (s1 = purgeExpired sample_store 1700000000500000000 \/
   apply 1700000000700000000 s2 (OpRefund "r1") = purgeExpired s2 1700000000700000000).
Proof.
  split; [vm_compute; reflexivity|].
  apply (reservation_closes_once "r1" sample_store 1700000000000000000 1700000000500000000 (OpSettle "r1" 40)
    [(1700000000600000000, OpCheck sample_key sample_limits (mkCost 1 50 0 0) "r2")] 1700000000700000000 (OpRefund "r1")).
  - apply (bool_decide_unpack _). vm_compute. exact I.
  - reflexivity.
  - reflexivity.
  - repeat constructor. discriminate.
Defined.

(** Check records exactly the requests it admits.  After a call the view of
    [id] is pending, in the mode of the limits, if the request was admitted and
    as before otherwise; no other reservation changes. *)
Theorem check_records_admitted now s k l c id :
  let out := Check now s k l c id in
  view out.1 now id = (if admitted out.2 then Some (Split l, pending) else view s now id) /\
  forall id', id' <> id -> view out.1 now id' = view s now id'.
Proof. apply Check_view. Qed.

(** Settling is idempotent.  A retry of the settlement of a reservation that a
    Settle closed, at any time until the reservation expires and whatever amount
    it reports, answers the same decision and only purges. *)
Theorem settle_is_idempotent now s id a s1 d now' a' :
  view s now id = Some (false, pending) -> Settle now s id a = (s1, Ok d) ->
  now <= now' <= now + ReservationTTL ->
  Settle now' s1 id a' = (purgeExpired s1 now', Ok d).
Proof. intros V E H. eapply Settle_again; [eapply Settle_settled; eassumption|lia]. Qed.

Lemma settle_is_idempotent_witness :
  Settle 1700000300000000000 (Settle 1700000000500000000 sample_store "r1" 40).1 "r1" 77
  = (purgeExpired (Settle 1700000000500000000 sample_store "r1" 40).1 1700000300000000000,
     Ok (match (Settle 1700000000500000000 sample_store "r1" 40).2 with
         | Ok d => d | Err _ => zeroDecision end)).
Proof.
  apply (settle_is_idempotent 1700000000500000000 sample_store "r1" 40
           (Settle 1700000000500000000 sample_store "r1" 40).1).
  - vm_compute. reflexivity.
  - vm_compute. reflexivity.
  - unfold ReservationTTL, Minute, Second. lia.
Defined.
