(* ===== verification/MemoryBudget.v ===== *)
(** * MemoryBudget: what the in-process store charges

    Admitted requests are charged exactly what they asked for and denied ones
    nothing; loans grant what they debit; refunds and returns restore it; the
    balances stay in range; and over any window of time the amounts charged to a
    key stay within its per-minute budget. *)

From stdpp Require Import base tactics numbers strings gmap list sets.
From Stdlib Require Import ZArith Lia.
From S2P Require Import Prelude GoFloat Api Bucket Budget Store Memory MemorySpec.

(** ** The four axes *)

(** The buckets of an axis, and its part of a reservation. *)
Definition bmap (a : axis) (s : MemStore) : buckets :=
  match a with RPM => rpm s | TPM => tpm s | ITPM => itpm s | OTPM => otpm s end.

Definition reserved_of (a : axis) (r : reservation) : Z :=
  match a with
  | RPM => rpmCost r | TPM => tpmReserved r | ITPM => itpmReserved r | OTPM => otpmReserved r
  end.

Definition rlimit_of (a : axis) (r : reservation) : Z :=
  match a with RPM => limitRPM r | TPM => limitTPM r | ITPM => limitITPM r | OTPM => limitOTPM r end.

(** The balance of a key at a millisecond, for a capacity. *)
Definition balance (m : buckets) (bk : string) (capacity nowMs : Z) : float64 :=
  stTokens (loadBucket m bk capacity nowMs).

(** The axis admits a cost: within the capacity, and covered by the balance up to
    the comparison slack. *)
Definition admits (m : buckets) (bk : string) (capacity nowMs cost : Z) : bool :=
  (cost <=? capacity) && (of_int cost <=? fadd (balance m bk capacity nowMs) eps).

Lemma limits_ok_of a l : limits_ok l -> limit_ok (limit_of a l).
Proof. intros (?&?&?&?). destruct a; assumption. Qed.

Lemma costs_ok_of a c : costs_ok c -> cost_of a c < int64_max.
Proof. intros (?&?&?&?). destruct a; assumption. Qed.

Lemma store_ok_bmap T s a : store_ok T s -> map_ok T (bmap a s).
Proof. intros []. destruct a; assumption. Qed.

(** A loan is the larger of the minimum and the chunk, cut to what there is. *)
Lemma wantGot_eq avail min chunk : wantGot avail min chunk = Z.min avail (Z.max min chunk).
Proof.
  unfold wantGot. destruct (Z.ltb_spec min chunk);
    [destruct (Z.ltb_spec avail chunk)|destruct (Z.ltb_spec avail min)]; lia.
Qed.

(** ** One bucket of the store *)

Section OneBucket.
Context (T : Z) (m : buckets) (nowMs : Z).
Context (M : map_ok T m) (HT : T <= nowMs) (Tok : time_ok nowMs) (N0 : nowMs <> 0).

Lemma fresh_Refill c st :
  limit_ok c -> fresh nowMs c st -> (c = 0 -> stTokens st = 0) -> Refill st nowMs = st.
Proof.
  intros [C0 _] (W & L & C) Z0. destruct (Z.eq_dec c 0) as [E|N].
  - rewrite Refill_zero by lia. destruct st as [t l c']; cbn in *.
    rewrite (Z0 E). congruence.
  - pose proof (Refill_same st) as R. rewrite L in R. apply R; [lia|exact N0|exact W].
Qed.

Lemma load_zero k c : c = 0 -> stTokens (loadBucket m k c nowMs) = 0.
Proof.
  intros ->. unfold loadBucket. destruct (m !! k); [case_if|];
    rewrite Refill_zero by reflexivity; reflexivity.
Qed.

Lemma load_fresh k c : fresh nowMs c (loadBucket m k c nowMs).
Proof. eapply loadBucket_fresh; eauto. Qed.

Lemma Refill_load k c : limit_ok c -> Refill (loadBucket m k c nowMs) nowMs = loadBucket m k c nowMs.
Proof. intros H. apply (fresh_Refill c); [exact H|apply load_fresh|apply load_zero]. Qed.

(** What was saved at [nowMs] is loaded back at [nowMs]. *)
Lemma load_save m' k c st :
  limit_ok c -> fresh nowMs c st -> (c = 0 -> stTokens st = 0) ->
  loadBucket (saveBucket m' k st) k c nowMs = st.
Proof.
  intros H F Z0. pose proof (fresh_Refill c st H F Z0) as R. destruct F as (W & L & C).
  unfold loadBucket, saveBucket. rewrite lookup_insert_eq. cbn [lastMs tokens].
  rewrite L. destruct (Z.eqb_spec nowMs 0); [lia|].
  destruct st as [t l c']; cbn in *. subst. exact R.
Qed.

Lemma load_save_ne m' k k' c st :
  k <> k' -> loadBucket (saveBucket m' k st) k' c nowMs = loadBucket m' k' c nowMs.
Proof. intros H. unfold loadBucket, saveBucket. rewrite lookup_insert_ne by assumption. reflexivity. Qed.

(** An attempt on a loaded bucket is decided by [admits] and debits exactly. *)
Lemma consume_loaded k c cost :
  limit_ok c -> 0 <= cost <= int64_max ->
  let st := loadBucket m k c nowMs in
  let '(st', r) := TryConsume st nowMs cost in
  rAllowed r = admits m k c nowMs cost /\
  st' = mkState (stTokens st - (if rAllowed r then cost else 0) * one) nowMs c /\
  (c = 0 -> stTokens st' = 0) /\
  rRemaining r = RemainingInt (stTokens st') /\
  (if rAllowed r then cost <= c /\ cost * one <= stTokens st + slack
   else c < cost \/ stTokens st < cost * one).
Proof.
  intros Hc Hx. cbv zeta. set (st := loadBucket m k c nowMs).
  pose proof (load_fresh k c : fresh nowMs c st) as (W & L & C).
  pose proof (Refill_load k c Hc : Refill st nowMs = st) as R.
  pose proof (load_zero k c : c = 0 -> stTokens st = 0) as Z0.
  pose proof (TryConsume_cases st nowMs cost ltac:(rewrite R; exact W)
    ltac:(destruct Hc; lia) ltac:(lia)) as Cs.
  assert (A : rAllowed (TryConsume st nowMs cost).2 = admits m k c nowMs cost).
  { unfold TryConsume, admits, balance. fold st.
    rewrite R, clamp_max, C, Z.max_r by lia.
    rewrite (Z.leb_antisym _ (of_int cost)), (Z.leb_antisym _ cost).
    destruct (c <? cost); cbn; [|destruct (fadd _ _ <? _)]; reflexivity. }
  assert (Mx : Z.max 0 cost = cost) by lia.
  destruct Cs as [D|t D Ht Hl]; rewrite ?R, ?C, ?Mx in *;
    cbn [snd rAllowed rRemaining stTokens] in *.
  - split_and!; auto. rewrite Z.mul_0_l, Z.sub_0_r. destruct st; cbn in *; congruence.
  - split_and!; auto; [congruence| |lia]. intros Hz. rewrite Ht, Z0 by exact Hz. replace cost with 0 by lia. reflexivity.
Qed.
End OneBucket.

(** ** Check *)

(** The verdict of a request of cost [c] under limits [l] in mode [sp]: every axis
    that counts must admit its cost, and the first that does not is reported. *)
Definition admit_axis (s : MemStore) (bk : string) (l : Limits) (c : Cost) (n : Z) (a : axis) : bool :=
  admits (bmap a s) bk (limit_of a l) n (cost_of a c).

Definition verdict (sp : bool) (s : MemStore) (bk : string) (l : Limits) (c : Cost) (n : Z) : option axis :=
  find (fun a => negb (admit_axis s bk l c n a)) (axes sp).

(** The decision follows the verdict, and the buckets of [bk] lose exactly the
    cost if the request is admitted; nothing else changes. *)
Record charged (sp : bool) (l : Limits) (c : Cost) (bk : string) (n : Z)
    (s s' : MemStore) (d : Decision) : Prop := {
  charged_verdict :
    match verdict sp s bk l c n with
    | None => Allowed d = true /\ LimitType d = LimitTypeNone
    | Some a => Allowed d = false /\ LimitType d = axis_type a
    end;
  charged_axis a : counts a sp = true ->
    balance (bmap a s') bk (limit_of a l) n =
    balance (bmap a s) bk (limit_of a l) n - (if Allowed d then cost_of a c else 0) * one;
  charged_other a bk' :
    Allowed d = false \/ bk' <> bk \/ counts a sp = false -> bmap a s' !! bk' = bmap a s !! bk'
}.

Section ChargeOne.
Context (T : Z) (s : MemStore) (now : Time).
Context (OK : store_ok T s) (HT : T <= toUnixMilli now) (Tok : time_ok (toUnixMilli now)).
Context (N0 : toUnixMilli now <> 0).
Let n := toUnixMilli now.

(** An attempt on the bucket of one axis. *)
Lemma consume_axis a bk c cost :
  limit_ok c -> 0 <= cost <= int64_max ->
  let st := loadBucket (bmap a s) bk c n in
  let '(st', r) := TryConsume st n cost in
  rAllowed r = admits (bmap a s) bk c n cost /\
  forall m', rAllowed r = true ->
    balance (saveBucket m' bk st') bk c n = balance (bmap a s) bk c n - cost * one.
Proof.
  intros Hc Hx. pose proof (store_ok_bmap T s a OK) as M.
  pose proof (consume_loaded T (bmap a s) n M HT Tok N0 bk c cost Hc Hx) as P. cbv zeta in *.
  pose proof (fresh_TryConsume _ c n cost Tok (proj2 Hc) (proj2 Hx)
    (load_fresh T (bmap a s) n M HT Tok bk c)) as F.
  destruct (TryConsume _ _ _) as [st' r]. destruct P as (A & E & Z0 & _). cbn [fst] in F.
  split; [exact A|]. intros m' Al. unfold balance at 1.
  rewrite (load_save n N0) by assumption. rewrite E, Al. reflexivity.
Qed.

(** What a loan takes is there: the attempt behind it succeeds. *)
Lemma loan_admitted a k c min chunk :
  limit_ok c -> 0 <= min ->
  min <= RemainingInt (stTokens (loadBucket (bmap a s) k c n)) ->
  let got := wantGot (RemainingInt (stTokens (loadBucket (bmap a s) k c n))) min chunk in
  0 <= got <= int64_max /\ rAllowed (TryConsume (loadBucket (bmap a s) k c n) n got).2 = true.
Proof.
  intros Hc Hm Hav got.
  pose proof (load_fresh T (bmap a s) n (store_ok_bmap T s a OK) HT Tok k c) as F.
  set (st := loadBucket (bmap a s) k c n) in *.
  assert (Got : 0 <= got <= RemainingInt (stTokens st)) by (unfold got; rewrite wantGot_eq; lia).
  destruct F as (W & L & C). unfold limit_ok in Hc. pose proof (wf_bounds st ltac:(lia) W) as B.
  pose proof (floor_le_cap st W ltac:(lia)) as Fl.
  rewrite RemainingInt_floor in Got by exact B. rewrite C in Fl.
  assert (Gmax : 0 <= got <= int64_max) by (clear Hav; unfold max_capacity, int64_max in *; lia).
  split; [exact Gmax|].
  pose proof (consume_loaded T (bmap a s) n (store_ok_bmap T s a OK) HT Tok N0 k c got
    Hc Gmax) as P. cbv zeta in P. fold st in P.
  destruct (TryConsume st n got) as [st' r]. cbn [fst snd] in *.
  destruct (rAllowed r); [reflexivity|]. destruct P as (_ & _ & _ & _ & [P|P]); [lia|].
  pose proof (floorZ_bounds (stTokens st)). pose proof one_pos.
  pose proof (Z.mul_le_mono_nonneg_r got (floorZ (stTokens st)) one). lia.
Qed.

Lemma checkClassic_charged key l c id :
  limits_ok l -> (forall a, 0 <= cost_of a c <= int64_max) ->
  let out := checkClassicLocked s key l c id now n in
  charged false l c (bucketKey key) n s out.1 out.2.
Proof.
  intros L C. unfold checkClassicLocked. cbv zeta. fold n.
  pose proof (consume_axis RPM (bucketKey key) _ _ (limits_ok_of RPM l L) (C RPM)) as P1.
  pose proof (consume_axis TPM (bucketKey key) _ _ (limits_ok_of TPM l L) (C TPM)) as P2.
  cbv zeta in P1, P2. cbn [bmap limit_of cost_of] in P1, P2.
  assert (V : forall r1 r2,
    r1 = admit_axis s (bucketKey key) l c n RPM -> r2 = admit_axis s (bucketKey key) l c n TPM ->
    verdict false s (bucketKey key) l c n =
      if negb r1 then Some RPM else if negb r2 then Some TPM else None) by
    (intros ? ? -> ->; reflexivity).
  destruct (TryConsume (loadBucket (rpm s) _ _ _) _ _) as [rpm2 rr].
  destruct (TryConsume (loadBucket (tpm s) _ _ _) _ _) as [tpm2 tr].
  destruct P1 as [A1 B1], P2 as [A2 B2]. specialize (V _ _ A1 A2).
  destruct (rAllowed rr); [destruct (rAllowed tr)|]; cbn [negb] in *;
    (split; cbn [fst snd]; [rewrite V; split; reflexivity| |]).
  - intros [] Ct; try discriminate; cbn [Allowed bmap limit_of cost_of rpm tpm]; auto.
  - cbn [Allowed]. intros [] bk' [Ct|[Ct|Ct]]; try discriminate; cbn [bmap rpm tpm itpm otpm];
      try reflexivity; unfold saveBucket; rewrite lookup_insert_ne by congruence; reflexivity.
  - intros; cbn [Allowed]; lia.
  - reflexivity.
  - intros; cbn [Allowed]; lia.
  - reflexivity.
Qed.

Lemma checkSplit_charged key l c id :
  limits_ok l -> (forall a, 0 <= cost_of a c <= int64_max) ->
  let out := checkSplitLocked s key l c id now n in
  charged true l c (bucketKey key) n s out.1 out.2.
Proof.
  intros L C. unfold checkSplitLocked. cbv zeta. fold n.
  pose proof (consume_axis RPM (bucketKey key) _ _ (limits_ok_of RPM l L) (C RPM)) as P1.
  pose proof (consume_axis ITPM (bucketKey key) _ _ (limits_ok_of ITPM l L) (C ITPM)) as P2.
  pose proof (consume_axis OTPM (bucketKey key) _ _ (limits_ok_of OTPM l L) (C OTPM)) as P3.
  cbv zeta in P1, P2, P3. cbn [bmap limit_of cost_of] in P1, P2, P3.
  assert (V : forall r1 r2 r3,
    r1 = admit_axis s (bucketKey key) l c n RPM -> r2 = admit_axis s (bucketKey key) l c n ITPM ->
    r3 = admit_axis s (bucketKey key) l c n OTPM ->
    verdict true s (bucketKey key) l c n =
      if negb r1 then Some RPM else if negb r2 then Some ITPM else
      if negb r3 then Some OTPM else None) by
    (intros ? ? ? -> -> ->; reflexivity).
  destruct (TryConsume (loadBucket (rpm s) _ _ _) _ _) as [rpm2 rr].
  destruct (TryConsume (loadBucket (itpm s) _ _ _) _ _) as [itpm2 ir].
  destruct (TryConsume (loadBucket (otpm s) _ _ _) _ _) as [otpm2 or].
  destruct P1 as [A1 B1], P2 as [A2 B2], P3 as [A3 B3]. specialize (V _ _ _ A1 A2 A3).
  destruct (rAllowed rr); [destruct (rAllowed ir); [destruct (rAllowed or)|]|]; cbn [negb] in *;
    (split; cbn [fst snd]; [rewrite V; split; reflexivity| |]).
  all: try (intros; cbn [Allowed]; lia). all: try reflexivity.
  - intros [] Ct; try discriminate; cbn [Allowed bmap limit_of cost_of rpm tpm itpm otpm]; auto.
  - cbn [Allowed]. intros [] bk' [Ct|[Ct|Ct]]; try discriminate; cbn [bmap rpm tpm itpm otpm];
      try reflexivity; unfold saveBucket; rewrite lookup_insert_ne by congruence; reflexivity.
Qed.
End ChargeOne.

Lemma cost_of_clamp a c : cost_of a (clampCosts c) = clampCost (cost_of a c).
Proof. destruct a; reflexivity. Qed.

Lemma bmap_purge a s now : bmap a (purgeExpired s now) = bmap a s.
Proof. destruct a; reflexivity. Qed.

Lemma charged_purge sp l c bk n s now s' d :
  charged sp l c bk n (purgeExpired s now) s' d -> charged sp l c bk n s s' d.
Proof.
  intros [V A O]. split.
  - exact V.
  - intros a H. rewrite A, bmap_purge by assumption. reflexivity.
  - intros a bk' H. rewrite O, bmap_purge by assumption. reflexivity.
Qed.

Lemma Check_charged T s now k l c id s' d :
  store_ok T s -> T <= toUnixMilli now -> time_ok (toUnixMilli now) -> toUnixMilli now <> 0 ->
  limits_ok l -> costs_ok c ->
  Check now s k l c id = (s', Ok d) ->
  charged (Split l) l (clampCosts c) (bucketKey k) (toUnixMilli now) s s' d.
Proof.
  intros OK HT Tok N0 L C E. pose proof (purge_ok T s now OK) as OK'.
  assert (C' : forall a, 0 <= cost_of a (clampCosts c) <= int64_max).
  { intros a. rewrite cost_of_clamp, clampCost_max. pose proof (costs_ok_of a c C).
    unfold int64_max in *. lia. }
  pose proof (Check_cases now s k l c id) as Cs. rewrite E in Cs.
  inversion Cs as [|? ? Sp _ _ _ E'|? ? Sp _ _ _ E']; subst; rewrite Sp; apply (charged_purge _ _ _ _ _ _ now).
  - pose proof (checkSplit_charged T _ now OK' HT Tok N0 k l _ id L C') as P.
    cbv zeta in P. rewrite E' in P. exact P.
  - pose proof (checkClassic_charged T _ now OK' HT Tok N0 k l _ id L C') as P.
    cbv zeta in P. rewrite E' in P. exact P.
Qed.

(** ** What one step on a bucket charges *)

Section Acts.
Context (c nowMs : Z) (st : State).
Context (Hc : 0 < c <= max_capacity) (Tok : time_ok nowMs) (N0 : nowMs <> 0).
Context (F : fresh nowMs c st).

Let ulp_nonneg : 0 <= c * 2 ^ 1021.
Proof. pose proof (pow2_pos 1021 ltac:(lia)). nia. Qed.

Let Refill_st : Refill st nowMs = st.
Proof. apply (fresh_Refill nowMs N0 c); [unfold limit_ok; lia|exact F|lia]. Qed.

Lemma acts_same : acts c nowMs st st 0.
Proof. split; [exact F|lia]. Qed.

Lemma acts_TryConsume cost :
  0 <= cost <= int64_max ->
  acts c nowMs st (TryConsume st nowMs cost).1
    (if rAllowed (TryConsume st nowMs cost).2 then cost else 0).
Proof.
  intros Hx. split; [apply fresh_TryConsume; auto; lia|].
  destruct F as (W & L & C). pose proof Refill_st as R. pose proof ulp_nonneg.
  pose proof (TryConsume_cases st nowMs cost ltac:(rewrite R; exact W) ltac:(lia) ltac:(lia)) as Cs.
  assert (Mx : Z.max 0 cost = cost) by lia.
  destruct Cs as [D|t D Ht Hl]; cbn [fst snd rAllowed stTokens]; rewrite ?R, ?Mx in *; lia.
Qed.

Lemma acts_Credit amount :
  amount <= int64_max -> acts c nowMs st (Credit st nowMs amount) (- clampCost amount).
Proof.
  intros Hx. split; [apply fresh_Credit; auto; unfold limit_ok; lia|].
  rewrite clampCost_max. pose proof Refill_st as R. pose proof ulp_nonneg.
  unfold Credit. rewrite R. destruct (Z.leb_spec amount 0); [lia|].
  destruct F as (W & L & C). pose proof (wf_full st ltac:(lia) W) as Full. destruct W as [Fl Lo Up].
  cbn [stTokens]. rewrite fmin_eq, C, of_int_cap by lia. rewrite C in *.
  pose proof slack_small. pose proof one_pos. rewrite Z.max_r by lia.
  destruct (Z.le_gt_cases (c * one) (stTokens st + amount * one)) as [B|B]; [nia|].
  assert (amount <= 2 ^ 53) by (unfold max_capacity in *; nia).
  rewrite of_int_exact by lia. rewrite fadd_spec.
  pose proof (round_within c (stTokens st + amount * one) ltac:(lia) ltac:(nia)). lia.
Qed.

Lemma acts_settleAxis reserved actual :
  cost_ok reserved -> cost_ok actual ->
  let '(st', over) := settleAxis st nowMs reserved actual in
  acts c nowMs st st' (actual - reserved - over).
Proof.
  intros Hr Ha. unfold cost_ok, int64_max in *. unfold settleAxis. cbv zeta.
  rewrite (wrap64_id (reserved - actual)) by (unfold in_int64, int64_min, int64_max; lia).
  destruct (Z.ltb_spec 0 (reserved - actual)).
  { pose proof (acts_Credit (reserved - actual) ltac:(unfold int64_max; lia)) as A.
    rewrite clampCost_id in A by lia.
    replace (actual - reserved - 0) with (- (reserved - actual)) by ring. exact A. }
  destruct (Z.ltb_spec (reserved - actual) 0).
  2:{ replace (actual - reserved - 0) with 0 by lia. apply acts_same. }
  rewrite wrap64_id by (unfold in_int64, int64_min, int64_max; lia).
  destruct F as (W & L & C). pose proof one_pos. pose proof ulp_nonneg.
  pose proof (DebitFloor_wf st nowMs (- (reserved - actual))) as Wf.
  rewrite L, C in Wf. specialize (Wf Tok Tok ltac:(lia) W ltac:(unfold int64_max; lia)).
  rewrite DebitFloor_spec in *; rewrite ?L, ?C, ?Refill_st in *;
    try (assumption || unfold int64_max; lia).
  pose proof (floorZ_bounds (stTokens st)) as Fb. pose proof (wf_full st ltac:(lia) W) as Full.
  pose proof (floor_ge_m1 st W). rewrite C in Full.
  pose proof (floorZ_le_int _ _ Full). unfold max_capacity in *.
  destruct (Z.leb_spec (- (reserved - actual)) (floorZ (stTokens st)));
    cbn [fst] in Wf; (split; [exact Wf|cbn [stTokens]]); [lia|].
  rewrite fsub_spec, of_int_exact by lia.
  pose proof (round_within c (stTokens st - floorZ (stTokens st) * one) ltac:(lia) ltac:(nia)). lia.
Qed.
End Acts.

(** ** What one call charges to a bucket *)

(** The call concerns bucket [bk] of axis [a]: its key and its mode match. *)
Definition concerns (a : axis) (bk : string) (key : Key) (sp : bool) : bool :=
  bool_decide (bucketKey key = bk) && counts a sp.

Definition rkey (r : reservation) : Key := mkKey (subject r) (model r).

(** The pending reservation a settlement or a refund at [now] finds. *)
Definition closing_res (s : MemStore) (now : Time) (id : string) : option reservation :=
  match reservations (purgeExpired s now) !! id with
  | Some r => match rstatus r with pending => Some r | _ => None end
  | None => None
  end.

(** The overshoot the settlement reports on an axis. *)
Definition overshoot_of (a : axis) (d : Decision) : Z :=
  match a with RPM => 0 | TPM => OvershootTPM d | ITPM => OvershootITPM d | OTPM => OvershootOTPM d end.

Definition settle_charge (a : axis) (bk : string) (sp : bool) (s : MemStore) (now : Time)
    (id : string) (actual : Z) (out : res Decision) : Z :=
  match a, closing_res s now id, out with
  | RPM, _, _ => 0
  | _, Some r, Ok d =>
      if concerns a bk (rkey r) (split r) && Bool.eqb sp (split r)
      then clampCost actual - reserved_of a r - overshoot_of a d else 0
  | _, _, _ => 0
  end.

(** The tokens a call takes from bucket [bk] of axis [a], negative when it gives
    tokens back: what an admitted request costs, what a loan got, what a
    settlement debits beyond the reservation or refunds, what is returned. *)
Definition charge (a : axis) (bk : string) (now : Time) (s : MemStore) (o : op) : Z :=
  match o with
  | OpCheck k l c id =>
      if admitted (Check now s k l c id).2 && concerns a bk k (Split l)
      then clampCost (cost_of a c) else 0
  | OpBorrow k l sp =>
      match (Borrow now s k l sp).2 with
      | Ok b => if bAllowed b && concerns a bk k (Split l) then got_of a b else 0
      | Err _ => 0
      end
  | OpReturn k l r t i o =>
      if is_ok (Return now s k l r t i o).2 && concerns a bk k (Split l)
      then - clampCost (match a with RPM => r | TPM => t | ITPM => i | OTPM => o end) else 0
  | OpRefund id =>
      match closing_res s now id with
      | Some r => if concerns a bk (rkey r) (split r) then - reserved_of a r else 0
      | None => 0
      end
  | OpSettle id n => settle_charge a bk false s now id n (Settle now s id n).2
  | OpSettleIO id i o =>
      settle_charge a bk true s now id (match a with ITPM => i | _ => o end) (SettleIO now s id i o).2
  end.

(** Sum of the charges of a history. *)
Fixpoint charges (a : axis) (bk : string) (s : MemStore) (h : list (Time * op)) : Z :=
  match h with
  | [] => 0
  | (now, o) :: h => charge a bk now s o + charges a bk (apply now s o) h
  end.

(** *** One map before and after a call *)

Variant touched (c nowMs : Z) (bk : string) (m m' : buckets) (q : Z) : Prop :=
| untouched : m' !! bk = m !! bk -> q = 0 -> touched c nowMs bk m m' q
| touched_at st' :
    m' !! bk = Some (mkBucketState (stTokens st') nowMs) ->
    acts c nowMs (loadBucket m bk c nowMs) st' q -> touched c nowMs bk m m' q.

Lemma touched_refl c n bk m : touched c n bk m m 0.
Proof. apply untouched; reflexivity. Qed.

(** Saving one bucket touches its own key and no other. *)
Lemma touched_save c c' n bk k m st' q :
  (k = bk -> c' = c) -> (k = bk -> acts c' n (loadBucket m k c' n) st' q) ->
  touched c n bk m (saveBucket m k st') (if bool_decide (k = bk) then q else 0).
Proof.
  intros Hc A. unfold saveBucket. case_bool_decide as D.
  - subst k. specialize (A eq_refl). rewrite (Hc eq_refl) in A.
    apply (touched_at _ _ _ _ _ _ st'); [|exact A].
    destruct A as ((_ & L & _) & _). rewrite lookup_insert_eq, L. reflexivity.
  - apply untouched; [apply lookup_insert_ne; congruence|reflexivity].
Qed.

(** Limits and reservations that agree on the capacity of bucket [bk] of axis [a]. *)
Definition op_uses (a : axis) (bk : string) (c : Z) (o : op) : Prop :=
  match o with
  | OpCheck k l _ _ | OpBorrow k l _ | OpReturn k l _ _ _ _ =>
      concerns a bk k (Split l) = true -> limit_of a l = c
  | _ => True
  end.

Definition res_uses (a : axis) (bk : string) (c : Z) (r : reservation) : Prop :=
  concerns a bk (rkey r) (split r) = true -> rlimit_of a r = c.

Definition uniform (a : axis) (bk : string) (c : Z) (s : MemStore) : Prop :=
  map_Forall (fun _ => res_uses a bk c) (reservations s).

Section Touch.
Context (T : Z) (s : MemStore) (now : Time).
Context (OK : store_ok T s) (HT : T <= toUnixMilli now) (Tok : time_ok (toUnixMilli now)).
Context (N0 : toUnixMilli now <> 0).
Context (a : axis) (bk : string) (c : Z) (Hc : 0 < c <= max_capacity).
Let n := toUnixMilli now.

Lemma load_axis a' k c' : fresh n c' (loadBucket (bmap a' s) k c' n).
Proof. apply (load_fresh T); [apply store_ok_bmap; exact OK|exact HT|exact Tok]. Qed.

Lemma touched_consume a' k c' cost :
  (k = bk -> c' = c) -> 0 <= cost <= int64_max ->
  let '(st', r) := TryConsume (loadBucket (bmap a' s) k c' n) n cost in
  touched c n bk (bmap a' s) (saveBucket (bmap a' s) k st')
    (if bool_decide (k = bk) then if rAllowed r then cost else 0 else 0).
Proof.
  intros E Hx.
  pose proof (fun H => acts_TryConsume c' n _ H Tok N0 (load_axis a' k c') cost Hx) as A.
  destruct (TryConsume _ _ _) as [st' r]. cbn [fst snd] in A.
  apply touched_save with (c' := c'); [exact E|]. intros D. apply A. rewrite (E D). exact Hc.
Qed.

Lemma touched_credit a' k c' amount :
  (k = bk -> c' = c) -> amount <= int64_max ->
  touched c n bk (bmap a' s)
    (saveBucket (bmap a' s) k (Credit (loadBucket (bmap a' s) k c' n) n amount))
    (if bool_decide (k = bk) then - clampCost amount else 0).
Proof.
  intros E Hx. apply touched_save with (c' := c'); [exact E|]. intros D.
  apply acts_Credit; auto using load_axis. rewrite (E D). exact Hc.
Qed.

Lemma touched_settle a' k c' reserved actual :
  (k = bk -> c' = c) -> cost_ok reserved -> cost_ok actual ->
  let '(st', over) := settleAxis (loadBucket (bmap a' s) k c' n) n reserved actual in
  touched c n bk (bmap a' s) (saveBucket (bmap a' s) k st')
    (if bool_decide (k = bk) then actual - reserved - over else 0).
Proof.
  intros E Hr Ha.
  pose proof (fun H => acts_settleAxis c' n _ H Tok N0 (load_axis a' k c') _ _ Hr Ha) as A.
  destruct (settleAxis _ _ _ _) as [st' over].
  apply touched_save with (c' := c'); [exact E|]. intros D. apply A. rewrite (E D). exact Hc.
Qed.

(** The limit of [bk] on an axis that counts, in [touched]'s form. *)
Lemma uses_key k sp x :
  (concerns a bk k sp = true -> x = c) -> counts a sp = true -> bucketKey k = bk -> x = c.
Proof.
  intros H C E. apply H. unfold concerns. rewrite C, andb_true_r.
  apply bool_decide_eq_true_2. exact E.
Qed.

Lemma checkClassic_touched k l cost id :
  (forall b, 0 <= cost_of b cost <= int64_max) ->
  (concerns a bk k false = true -> limit_of a l = c) ->
  let out := checkClassicLocked s k l cost id now n in
  touched c n bk (bmap a s) (bmap a out.1)
    (if Allowed out.2 && concerns a bk k false then cost_of a cost else 0).
Proof.
  intros Cost U. pose proof (uses_key k false _ U) as Uk.
  unfold checkClassicLocked, concerns. cbv zeta. fold n.
  pose proof (touched_consume RPM (bucketKey k) (limit_of RPM l) (cost_of RPM cost)) as P1.
  pose proof (touched_consume TPM (bucketKey k) (limit_of TPM l) (cost_of TPM cost)) as P2.
  cbn [bmap limit_of cost_of] in P1, P2.
  destruct (TryConsume (loadBucket (rpm s) _ _ _) _ _) as [rpm2 rr].
  destruct (TryConsume (loadBucket (tpm s) _ _ _) _ _) as [tpm2 tr].
  destruct (rAllowed rr); [destruct (rAllowed tr)|]; cbn [negb fst snd Allowed andb];
    try apply touched_refl.
  destruct a; cbn [counts negb bmap rpm tpm itpm otpm cost_of limit_of] in *;
    rewrite ?andb_true_r, ?andb_false_r; try apply touched_refl;
    [apply P1 | apply P2]; auto; [apply (Cost RPM)|apply (Cost TPM)].
Qed.

Lemma checkSplit_touched k l cost id :
  (forall b, 0 <= cost_of b cost <= int64_max) ->
  (concerns a bk k true = true -> limit_of a l = c) ->
  let out := checkSplitLocked s k l cost id now n in
  touched c n bk (bmap a s) (bmap a out.1)
    (if Allowed out.2 && concerns a bk k true then cost_of a cost else 0).
Proof.
  intros Cost U. pose proof (uses_key k true _ U) as Uk.
  unfold checkSplitLocked, concerns. cbv zeta. fold n.
  pose proof (touched_consume RPM (bucketKey k) (limit_of RPM l) (cost_of RPM cost)) as P1.
  pose proof (touched_consume ITPM (bucketKey k) (limit_of ITPM l) (cost_of ITPM cost)) as P2.
  pose proof (touched_consume OTPM (bucketKey k) (limit_of OTPM l) (cost_of OTPM cost)) as P3.
  cbn [bmap limit_of cost_of] in P1, P2, P3.
  destruct (TryConsume (loadBucket (rpm s) _ _ _) _ _) as [rpm2 rr].
  destruct (TryConsume (loadBucket (itpm s) _ _ _) _ _) as [itpm2 ir].
  destruct (TryConsume (loadBucket (otpm s) _ _ _) _ _) as [otpm2 or].
  destruct (rAllowed rr); [destruct (rAllowed ir); [destruct (rAllowed or)|]|];
    cbn [negb fst snd Allowed andb]; try apply touched_refl.
  destruct a; cbn [counts negb bmap rpm tpm itpm otpm cost_of limit_of] in *;
    rewrite ?andb_true_r, ?andb_false_r; try apply touched_refl;
    [apply P1 | apply P2 | apply P3]; auto;
    [apply (Cost RPM)|apply (Cost ITPM)|apply (Cost OTPM)].
Qed.

Lemma touched_loan a' k c' min chunk :
  (k = bk -> c' = c) -> 0 <= min ->
  min <= RemainingInt (stTokens (loadBucket (bmap a' s) k c' n)) ->
  let got := wantGot (RemainingInt (stTokens (loadBucket (bmap a' s) k c' n))) min chunk in
  touched c n bk (bmap a' s)
    (saveBucket (bmap a' s) k (TryConsume (loadBucket (bmap a' s) k c' n) n got).1)
    (if bool_decide (k = bk) then got else 0).
Proof.
  intros E Hm Hav got.
  apply touched_save with (c' := c'); [exact E|]. intros D. specialize (E D). subst c'.
  destruct (loan_admitted T s now OK HT Tok N0 a' k c min chunk) as [G A];
    [unfold limit_ok; lia|assumption|assumption|]. fold n got in G, A.
  pose proof (acts_TryConsume c n _ Hc Tok N0 (load_axis a' k c) got G) as P.
  rewrite A in P. exact P.
Qed.

(** The two shapes of a loan. *)
Lemma borrowClassic_touched k l spec :
  0 <= MinRPM spec -> 0 <= MinTPM spec ->
  (concerns a bk k false = true -> limit_of a l = c) ->
  let out := borrowClassicLocked s k l spec n in
  touched c n bk (bmap a s) (bmap a out.1)
    (if bAllowed out.2 && concerns a bk k false then got_of a out.2 else 0).
Proof.
  intros M1 M2 U. pose proof (uses_key k false _ U) as Uk.
  unfold borrowClassicLocked, concerns. cbv zeta. fields.
  pose proof (touched_loan RPM (bucketKey k) (limit_of RPM l) (MinRPM spec) (ChunkRPM spec)) as P1.
  pose proof (touched_loan TPM (bucketKey k) (limit_of TPM l) (MinTPM spec) (ChunkTPM spec)) as P2.
  cbn [bmap limit_of] in P1, P2. cbv zeta in P1, P2.
  destruct (Z.ltb_spec (RemainingInt (stTokens (loadBucket (rpm s) (bucketKey k)
    (RequestsPerMinute l) n))) (MinRPM spec)).
  { destruct (TryConsume _ _ (MinRPM spec)). fields. cbn [andb]. apply touched_refl. }
  destruct (Z.ltb_spec (RemainingInt (stTokens (loadBucket (tpm s) (bucketKey k)
    (TokensPerMinute l) n))) (MinTPM spec)).
  { destruct (TryConsume _ _ (MinTPM spec)). fields. cbn [andb]. apply touched_refl. }
  destruct (TryConsume (loadBucket (rpm s) _ _ _) _ _) as [rpm2 rr].
  destruct (TryConsume (loadBucket (tpm s) _ _ _) _ _) as [tpm2 tr].
  destruct a; cbn [counts negb bmap limit_of got_of fst] in *; fields;
    rewrite ?andb_true_r, ?andb_false_r; cbn [andb]; try apply touched_refl;
    [apply P1 | apply P2]; auto.
Qed.

Lemma borrowSplit_touched k l spec :
  0 <= MinRPM spec -> 0 <= MinITPM spec -> 0 <= MinOTPM spec ->
  (concerns a bk k true = true -> limit_of a l = c) ->
  let out := borrowSplitLocked s k l spec n in
  touched c n bk (bmap a s) (bmap a out.1)
    (if bAllowed out.2 && concerns a bk k true then got_of a out.2 else 0).
Proof.
  intros M1 M2 M3 U. pose proof (uses_key k true _ U) as Uk.
  unfold borrowSplitLocked, concerns. cbv zeta. fields.
  pose proof (touched_loan RPM (bucketKey k) (limit_of RPM l) (MinRPM spec) (ChunkRPM spec)) as P1.
  pose proof (touched_loan ITPM (bucketKey k) (limit_of ITPM l) (MinITPM spec) (ChunkITPM spec)) as P2.
  pose proof (touched_loan OTPM (bucketKey k) (limit_of OTPM l) (MinOTPM spec) (ChunkOTPM spec)) as P3.
  cbn [bmap limit_of] in P1, P2, P3. cbv zeta in P1, P2, P3.
  destruct (Z.ltb_spec (RemainingInt (stTokens (loadBucket (rpm s) (bucketKey k)
    (RequestsPerMinute l) n))) (MinRPM spec)).
  { destruct (TryConsume _ _ (MinRPM spec)). fields. cbn [andb]. apply touched_refl. }
  destruct (Z.ltb_spec (RemainingInt (stTokens (loadBucket (itpm s) (bucketKey k)
    (InputTokensPerMinute l) n))) (MinITPM spec)).
  { destruct (TryConsume _ _ (MinITPM spec)). fields. cbn [andb]. apply touched_refl. }
  destruct (Z.ltb_spec (RemainingInt (stTokens (loadBucket (otpm s) (bucketKey k)
    (OutputTokensPerMinute l) n))) (MinOTPM spec)).
  { destruct (TryConsume _ _ (MinOTPM spec)). fields. cbn [andb]. apply touched_refl. }
  destruct (TryConsume (loadBucket (rpm s) _ _ _) _ _) as [rpm2 rr].
  destruct (TryConsume (loadBucket (itpm s) _ _ _) _ _) as [itpm2 ir].
  destruct (TryConsume (loadBucket (otpm s) _ _ _) _ _) as [otpm2 or].
  destruct a; cbn [counts negb bmap limit_of got_of fst] in *; fields;
    rewrite ?andb_true_r, ?andb_false_r; cbn [andb]; try apply touched_refl;
    [apply P1 | apply P2 | apply P3]; auto.
Qed.

Lemma Return_touched k l r t i o :
  r <= int64_max -> t <= int64_max -> i <= int64_max -> o <= int64_max ->
  (concerns a bk k (Split l) = true -> limit_of a l = c) ->
  let out := Return now s k l r t i o in
  touched c n bk (bmap a s) (bmap a out.1)
    (if is_ok out.2 && concerns a bk k (Split l)
     then - clampCost (match a with RPM => r | TPM => t | ITPM => i | OTPM => o end) else 0).
Proof.
  intros R1 R2 R3 R4 U. pose proof (uses_key k (Split l) _ U) as Uk.
  unfold Return, concerns. cbv zeta. fold n.
  case_decide; [apply touched_refl|].
  destruct ((r <=? 0) && (t <=? 0) && (i <=? 0) && (o <=? 0)) eqn:Neg.
  { cbn [fst snd is_ok andb]. apply untouched; [reflexivity|]. bool_to_prop.
    rewrite clampCost_max. destruct (bool_decide _ && _); [|reflexivity]. destruct a; lia. }
  pose proof (touched_credit RPM (bucketKey k) (limit_of RPM l) r) as P1.
  pose proof (touched_credit TPM (bucketKey k) (limit_of TPM l) t) as P2.
  pose proof (touched_credit ITPM (bucketKey k) (limit_of ITPM l) i) as P3.
  pose proof (touched_credit OTPM (bucketKey k) (limit_of OTPM l) o) as P4.
  cbn [bmap limit_of] in *. fold n in P1, P2, P3, P4.
  destruct (Split l); cbn [fst snd is_ok andb]; destruct a;
    cbn [counts negb bmap limit_of rpm tpm itpm otpm] in *; rewrite ?andb_true_r, ?andb_false_r;
    try apply touched_refl; auto.
Qed.

Lemma Refund_touched id :
  map_Forall (fun _ => res_uses a bk c) (reservations s) ->
  touched c n bk (bmap a s) (bmap a (Refund now s id).1) (charge a bk now s (OpRefund id)).
Proof.
  intros U. cbn [charge]. unfold Refund, closing_res. cbv zeta. fold n.
  destruct (reservations (purgeExpired s now) !! id) as [r|] eqn:L;
    [|destruct a; apply touched_refl].
  destruct (rstatus r); try (destruct a; apply touched_refl).
  apply map_lookup_filter_Some in L as [L _].
  pose proof (uses_key (rkey r) (split r) _ (U id r L)) as Uk.
  pose proof (ok_res _ _ OK id r L) as (R1 & R2 & R3 & R4 & _).
  unfold cost_ok in R1, R2, R3, R4.
  pose proof (touched_credit RPM (bucketKey (rkey r)) (limitRPM r) (rpmCost r)) as P1.
  pose proof (touched_credit TPM (bucketKey (rkey r)) (limitTPM r) (tpmReserved r)) as P2.
  pose proof (touched_credit ITPM (bucketKey (rkey r)) (limitITPM r) (itpmReserved r)) as P3.
  pose proof (touched_credit OTPM (bucketKey (rkey r)) (limitOTPM r) (otpmReserved r)) as P4.
  rewrite clampCost_id in P1, P2, P3, P4 by lia. unfold concerns, rkey in *.
  cbn [bmap purgeExpired rpm tpm itpm otpm fst] in *. fold n in P1, P2, P3, P4.
  destruct (split r); destruct a;
    cbn [counts negb bmap rlimit_of reserved_of rpm tpm itpm otpm] in *;
    rewrite ?andb_true_r, ?andb_false_r; try apply touched_refl;
    [apply P1|apply P3|apply P4|apply P1|apply P2]; (auto || lia).
Qed.

Lemma Settle_touched id actual :
  actual < int64_max -> map_Forall (fun _ => res_uses a bk c) (reservations s) ->
  touched c n bk (bmap a s) (bmap a (Settle now s id actual).1)
    (charge a bk now s (OpSettle id actual)).
Proof.
  intros Ha U. cbn [charge]. unfold settle_charge, Settle, closing_res. cbv zeta. fold n.
  destruct (reservations (purgeExpired s now) !! id) as [r|] eqn:L;
    [|destruct a; apply touched_refl].
  apply map_lookup_filter_Some in L as [L _].
  destruct (split r) eqn:Sp; [destruct a, (rstatus r); apply touched_refl|].
  destruct (rstatus r) eqn:St; try (destruct a; apply touched_refl).
  pose proof (uses_key (rkey r) (split r) _ (U id r L)) as Uk. rewrite Sp in Uk.
  pose proof (ok_res _ _ OK id r L) as (_ & R2 & _).
  pose proof (touched_settle TPM (bucketKey (rkey r)) (limitTPM r)
    (tpmReserved r) (clampCost actual)) as P2.
  fold n in P2. unfold rkey, concerns in *.
  cbn [bmap purgeExpired rpm tpm itpm otpm fst] in *.
  destruct (settleAxis _ _ _ _) as [tpm2 over].
  destruct a; cbn [counts negb bmap rlimit_of reserved_of rpm tpm itpm otpm] in *;
    rewrite ?Sp; cbn [negb Bool.eqb snd overshoot_of OvershootTPM];
    rewrite ?andb_true_r, ?andb_false_r; try apply touched_refl.
  apply P2; auto using clampCost_ok.
Qed.

Lemma SettleIO_touched id ai ao :
  ai < int64_max -> ao < int64_max -> map_Forall (fun _ => res_uses a bk c) (reservations s) ->
  touched c n bk (bmap a s) (bmap a (SettleIO now s id ai ao).1)
    (charge a bk now s (OpSettleIO id ai ao)).
Proof.
  intros Ha Hb U. cbn [charge]. unfold settle_charge, SettleIO, closing_res. cbv zeta. fold n.
  destruct (reservations (purgeExpired s now) !! id) as [r|] eqn:L;
    [|destruct a; apply touched_refl].
  apply map_lookup_filter_Some in L as [L _].
  destruct (split r) eqn:Sp; [|destruct a, (rstatus r); cbn [Bool.eqb];
    rewrite ?andb_false_r; apply touched_refl].
  destruct (rstatus r) eqn:St; try (destruct a; apply touched_refl).
  pose proof (uses_key (rkey r) (split r) _ (U id r L)) as Uk. rewrite Sp in Uk.
  pose proof (ok_res _ _ OK id r L) as (_ & _ & R3 & R4 & _).
  pose proof (touched_settle ITPM (bucketKey (rkey r)) (limitITPM r)
    (itpmReserved r) (clampCost ai)) as P3.
  pose proof (touched_settle OTPM (bucketKey (rkey r)) (limitOTPM r)
    (otpmReserved r) (clampCost ao)) as P4.
  fold n in P3, P4. unfold rkey, concerns in *. cbn [negb].
  cbn [bmap purgeExpired rpm tpm itpm otpm fst] in *.
  destruct (settleAxis (loadBucket (itpm _) _ _ _) _ _ _) as [itpm2 over].
  destruct (settleAxis (loadBucket (otpm _) _ _ _) _ _ _) as [otpm2 over'].
  destruct a; cbn [counts negb bmap rlimit_of reserved_of rpm tpm itpm otpm] in *;
    rewrite ?Sp; cbn [Bool.eqb snd overshoot_of OvershootITPM OvershootOTPM];
    rewrite ?andb_true_r, ?andb_false_r; try apply touched_refl;
    [apply P3|apply P4]; auto using clampCost_ok.
Qed.

Lemma Borrow_touched k l spec :
  limits_ok l -> (concerns a bk k (Split l) = true -> limit_of a l = c) ->
  touched c n bk (bmap a s) (bmap a (Borrow now s k l spec).1)
    (charge a bk now s (OpBorrow k l spec)).
Proof.
  intros L U. cbn [charge]. unfold Borrow. cbv zeta. fold n.
  destruct (Validate l); [apply touched_refl|]. case_decide; [apply touched_refl|].
  assert (P : forall z, 0 <= clampCost z) by (intros; rewrite clampCost_max; lia).
  pose proof (borrowClassic_touched k l (clampSpec spec) (P _) (P _)) as C1.
  pose proof (borrowSplit_touched k l (clampSpec spec) (P _) (P _) (P _)) as C2.
  cbv zeta in C1, C2. destruct (Split l);
    [destruct (borrowSplitLocked _ _ _ _ _)|destruct (borrowClassicLocked _ _ _ _ _)]; auto.
Qed.

Lemma touched_same_buckets s' : same_buckets s s' -> touched c n bk (bmap a s) (bmap a s') 0.
Proof.
  intros (E1 & E2 & E3 & E4). apply untouched; [|reflexivity].
  destruct a; cbn [bmap]; congruence.
Qed.
End Touch.

Section Step.
Context (T : Z) (s : MemStore) (now : Time).
Context (OK : store_ok T s) (HT : T <= toUnixMilli now) (Tok : time_ok (toUnixMilli now)).
Context (N0 : toUnixMilli now <> 0).
Context (a : axis) (bk : string) (c : Z) (Hc : 0 < c <= max_capacity).
Let n := toUnixMilli now.

Lemma Check_touched k l cost id :
  costs_ok cost -> (concerns a bk k (Split l) = true -> limit_of a l = c) ->
  touched c n bk (bmap a s) (bmap a (Check now s k l cost id).1)
    (charge a bk now s (OpCheck k l cost id)).
Proof.
  intros C U. cbn [charge]. rewrite <- (bmap_purge a s now), <- cost_of_clamp.
  pose proof (purge_ok T s now OK) as OK'.
  assert (C' : forall b, 0 <= cost_of b (clampCosts cost) <= int64_max).
  { intros b. rewrite cost_of_clamp. pose proof (clampCost_ok _ (costs_ok_of b cost C)) as [? ?]. lia. }
  destruct (Check_cases now s k l cost id) as [s' e _ E|s' d Sp _ _ _ E|s' d Sp _ _ _ E];
    cbn [fst snd admitted andb]; try rewrite Sp in *.
  - rewrite bmap_purge. apply (touched_same_buckets s now). exact E.
  - pose proof (checkSplit_touched T _ now OK' HT Tok N0 a bk c Hc k l _ id C' U) as P.
    cbv zeta in P. rewrite E in P. exact P.
  - pose proof (checkClassic_touched T _ now OK' HT Tok N0 a bk c Hc k l _ id C' U) as P.
    cbv zeta in P. rewrite E in P. exact P.
Qed.

(** Every call either leaves a bucket alone and charges it nothing, or rewrites it
    to what it held less the charge. *)
Lemma apply_touched o :
  op_ok o -> op_uses a bk c o -> uniform a bk c s ->
  touched c n bk (bmap a s) (bmap a (apply now s o)) (charge a bk now s o).
Proof.
  intros A U V. destruct o; cbn [apply op_ok op_uses] in *.
  - destruct A. apply Check_touched; assumption.
  - eapply Settle_touched; eassumption.
  - destruct A. eapply SettleIO_touched; eassumption.
  - eapply Refund_touched; eassumption.
  - eapply Borrow_touched; eassumption.
  - destruct A as (_ & A1 & A2 & A3 & A4). eapply Return_touched; (eassumption || lia).
Qed.
End Step.

(** *** Reservations keep the limits they were made with *)

Section Uniform.
Context (a : axis) (bk : string) (c : Z).

Lemma uniform_purge s now : uniform a bk c s -> uniform a bk c (purgeExpired s now).
Proof. intros U id r [L _]%map_lookup_filter_Some. exact (U id r L). Qed.

(** Rewriting a reservation without its key, mode and limits. *)
Lemma uniform_insert s s' id r :
  uniform a bk c s -> res_uses a bk c r ->
  reservations s' = <[id := r]> (reservations s) -> uniform a bk c s'.
Proof. intros U R E. unfold uniform. rewrite E. apply map_Forall_insert_2; assumption. Qed.

Lemma uniform_new sp k l cost now :
  (concerns a bk k sp = true -> limit_of a l = c) -> res_uses a bk c (new_reservation sp k l cost now).
Proof.
  intros U C. unfold rkey in C. cbn [new_reservation split subject model] in C. destruct k; cbn in C.
  specialize (U C). unfold concerns in C. apply andb_prop in C as [_ C].
  destruct a, sp; try discriminate; exact U.
Qed.

Lemma uniform_step s now o :
  uniform a bk c s -> op_uses a bk c o -> uniform a bk c (apply now s o).
Proof.
  intros U V. pose proof (uniform_purge s now U) as P. destruct o; cbn [apply op_uses] in *.
  - destruct (Check now s key limits cost id) as [s' [d|e]] eqn:E; cbn [fst].
    + pose proof (Check_recorded now s key limits cost id s' d E) as R. unfold recorded in R.
      destruct (Allowed d); [|subst; exact P].
      eapply uniform_insert; [exact P| |exact R]. apply uniform_new. exact V.
    + pose proof (Check_cases now s key limits cost id) as Cs. rewrite E in Cs.
      inversion Cs as [? ? [R| ->] _| |]; subst; [|exact P]. unfold uniform. rewrite R. exact U.
  - unfold Settle. cbv zeta. destruct (reservations (purgeExpired s now) !! id) as [r|] eqn:L; [|exact P].
    destruct (split r); [exact P|]. destruct (rstatus r); try exact P.
    destruct (settleAxis _ _ _ _). eapply uniform_insert; [exact P| |reflexivity].
    exact (P id r L).
  - unfold SettleIO. cbv zeta. destruct (reservations (purgeExpired s now) !! id) as [r|] eqn:L; [|exact P].
    destruct (split r) eqn:Sp; [|exact P]. destruct (rstatus r); try exact P. cbn [negb].
    destruct (settleAxis (loadBucket (itpm _) _ _ _) _ _ _).
    destruct (settleAxis (loadBucket (otpm _) _ _ _) _ _ _).
    eapply uniform_insert; [exact P| |reflexivity]. exact (P id r L).
  - unfold Refund. cbv zeta. destruct (reservations (purgeExpired s now) !! id) as [r|] eqn:L; [|exact P].
    pose proof (P id r L) as R. destruct (rstatus r); try exact P.
    destruct (split r) eqn:Sp; (eapply uniform_insert; [exact P| |reflexivity]);
      unfold res_uses in *; cbn [split]; rewrite ?Sp in *; exact R.
  - unfold uniform. rewrite Borrow_reservations. exact U.
  - unfold uniform. rewrite Return_reservations. exact U.
Qed.
End Uniform.

(** ** The budget of a window of time *)

(** The calls of a history are in time order between [t] and [u] ms, within the
    range the arithmetic is exact for, and use capacity [c] on bucket [bk]. *)
Fixpoint window (a : axis) (bk : string) (c : Z) (t : Z) (h : list (Time * op)) (u : Z) : Prop :=
  match h with
  | [] => t <= u
  | (now, o) :: h =>
      t <= toUnixMilli now /\ op_ok o /\ op_uses a bk c o /\ window a bk c (toUnixMilli now) h u
  end.

Lemma window_le a bk c t h u : window a bk c t h u -> t <= u.
Proof.
  revert t. induction h as [|[now o] h IH]; simpl; intros t H; [assumption|].
  destruct H as (H & _ & _ & H'). apply IH in H'. lia.
Qed.

(** The generic sum and window of [Budget] are those of this store. *)
Lemma charges_total a bk h s : charges a bk s h = total apply (charge a bk) s h.
Proof. revert s. induction h as [|[now o] h IH]; intros s; cbn; [reflexivity|]. rewrite IH. reflexivity. Qed.

Lemma window_timed a bk c t h u :
  window a bk c t h u -> timed (fun o => op_ok o /\ op_uses a bk c o) u t h.
Proof.
  revert t. induction h as [|[now o] h IH]; cbn; intros t W; [exact W|].
  destruct W as (H1 & H2 & H3 & H4). auto.
Qed.

(** The in-process store meters every bucket. *)
Lemma apply_metered a bk c u T s now o :
  0 < c <= max_capacity -> u <= 2 ^ 53 ->
  store_ok T s /\ uniform a bk c s -> 0 < T -> T <= toUnixMilli now <= u ->
  op_ok o /\ op_uses a bk c o ->
  (store_ok (toUnixMilli now) (apply now s o) /\ uniform a bk c (apply now s o)) /\
  metered (fun s => balance (bmap a s) bk c) c u (toUnixMilli now) s (apply now s o) (charge a bk now s o).
Proof.
  intros Hc Hu [OK U] HT Hn [Ao Uo]. set (n := toUnixMilli now) in *.
  assert (Tok : time_ok n) by (unfold time_ok, int64_max; lia).
  split.
  { split; [apply (apply_ok T); auto; fold n; lia|apply uniform_step; assumption]. }
  pose proof (apply_touched T s now OK ltac:(fold n; lia) Tok ltac:(fold n; lia) a bk c Hc o Ao Uo U) as Tch.
  destruct Tch as [E Q|st' E [F D]].
  - apply meter_kept; [exact Q|]. intros m Hm. unfold balance, loadBucket. rewrite E. reflexivity.
  - apply meter_rewritten with st'; [exact F| |exact D]. intros m Hm.
    unfold balance, loadBucket. rewrite E. cbn [lastMs tokens]. fold n.
    destruct (Z.eqb_spec n 0); [lia|]. destruct F as (_ & L & C). fold n in L.
    replace (mkState (stTokens st') n c) with st' by (destruct st'; cbn in *; congruence).
    reflexivity.
Qed.

(** The budget of a window, for any well-formed store. *)
Lemma budget_bound a bk c T0 T s h u :
  store_ok T0 s -> T0 <= T -> 0 < T -> uniform a bk c s -> window a bk c T h u ->
  0 < c <= 2 ^ 30 -> u <= 2 ^ 53 -> u - T <= 2 ^ 32 -> Z.of_nat (length h) <= 2 ^ 20 ->
  60000 * charges a bk s h <= 60000 * (c + 1) + (u - T) * c.
Proof.
  intros OK HT T1 U W Hc Hu Hd Hn. assert (Cm : 0 < c <= max_capacity) by (unfold max_capacity; lia).
  rewrite charges_total.
  eapply (metered_budget _ _ (fun s => balance (bmap a s) bk c)
    (fun T s => store_ok T s /\ uniform a bk c s) (fun o => op_ok o /\ op_uses a bk c o) c u Cm Hu);
    try lia; [| |split; [exact (store_ok_mono _ _ _ HT OK)|exact U]|apply window_timed; exact W].
  - intros. eapply apply_metered; eauto.
  - intros T' s' n [OK' _] T0' Hn'.
    destruct (loadBucket_fresh T' (bmap a s') bk c n (store_ok_bmap T' s' a OK') ltac:(lia)) as (W' & _ & C);
      [unfold time_ok, int64_max; lia|].
    pose proof (wf_full _ ltac:(rewrite C; exact Cm) W') as F. rewrite C in F. exact F.
Qed.

(** ** Properties *)

(** C1: the per-minute budget of a key.  On any axis (requests, total, input or
    output tokens) and for any key, over any history of calls of the store in any
    order between [T] and [u] milliseconds, the tokens taken from the key's bucket
    (by admitted requests, loans and settlements above the reservation, less
    what settlements, refunds and returns gave back) are at most its per-minute
    limit, what the limit earns in the elapsed time, and one token for all the
    rounding.  The history may start at any reachable store, warm or cold, and
    calls on other keys, modes and reservations are unrestricted.  (Limits up to
    [2^30], up to [2^20] calls, up to [2^32] ms, about 49 days.) *)
Theorem key_budget a bk c T0 T s h u :
  reachable T0 s -> T0 <= T -> 0 < T -> uniform a bk c s -> window a bk c T h u ->
  0 < c <= 2 ^ 30 -> u <= 2 ^ 53 -> u - T <= 2 ^ 32 -> Z.of_nat (length h) <= 2 ^ 20 ->
  60000 * charges a bk s h <= 60000 * (c + 1) + (u - T) * c.
Proof. intros Re. apply budget_bound, reachable_ok, Re. Qed.

Definition sample_history : list (Time * op) :=
  [(1700000000500000000, OpCheck sample_key sample_limits (mkCost 4 100 0 0) "r2");
   (1700000000600000000, OpBorrow sample_key sample_limits (mkBorrowSpec 1 10 0 0 2 500 0 0));
   (1700000003600000000, OpSettle "r2" 140);
   (1700000003700000000, OpCheck sample_key sample_limits (mkCost 8 100 0 0) "r3");
   (1700000004700000000, OpRefund "r1")].

Lemma sample_reachable : reachable 1700000000000 sample_store.
Proof.
  apply (reach_call 0 New 1700000000000000000
    (OpCheck sample_key sample_limits (mkCost 1 100 0 0) "r1")).
  - apply reach_new.
  - vm_compute. discriminate.
  - vm_compute. split; discriminate.
  - apply (bool_decide_unpack _). vm_compute. exact I.
Qed.

Lemma key_budget_witness :
  60000 * charges RPM (bucketKey sample_key) sample_store sample_history
    <= 60000 * (10 + 1) + (1700000005000 - 1700000000000) * 10.
Proof.
  apply (key_budget RPM (bucketKey sample_key) 10 1700000000000 1700000000000 sample_store
           sample_history 1700000005000); try (vm_compute; congruence).
  - apply sample_reachable.
  - apply (bool_decide_unpack _). vm_compute. exact I.
  - vm_compute. split_and!; (exact I || congruence).
  - lia.
Defined.
