(* ===== verification/MemoryProps.v ===== *)
(** * MemoryProps: the in-process store, call by call

    The laws [Store.StoreLaws] asks for, and what each call does to the balances
    it touches: admission, loans, settlements, refunds and returns, isolation of
    keys and expiry of reservations. *)

From stdpp Require Import base tactics numbers strings gmap list.
From Stdlib Require Import ZArith Lia.
From S2P Require Import Prelude GoFloat Api Bucket Budget Store Memory MemorySpec MemoryBudget.

(** ** The interface laws *)

Lemma loan_got avail min chunk :
  0 <= min -> min <= avail -> loan (wantGot avail min chunk) min chunk.
Proof. intros. unfold loan. rewrite wantGot_eq. lia. Qed.

Lemma loan_clamp avail min chunk :
  clampCost min <= avail -> loan (wantGot avail (clampCost min) (clampCost chunk)) min chunk.
Proof. unfold loan. rewrite wantGot_eq, !clampCost_max. lia. Qed.

(** A loan of the store: refused with a limit type and nothing written, or granted. *)
Lemma borrowClassic_grants s k l spec n :
  Split l = false ->
  let out := (borrowClassicLocked s k l (clampSpec spec) n).2 in
  if bAllowed out then grants l spec out else bLimitType out <> LimitTypeNone.
Proof.
  intros Sp. unfold borrowClassicLocked, grants. rewrite Sp. cbv zeta. fields.
  destruct (Z.ltb_spec (RemainingInt (stTokens (loadBucket (rpm s) (bucketKey k)
      (RequestsPerMinute l) n))) (MinRPM (clampSpec spec))).
  { destruct (TryConsume _ _ (MinRPM _)). fields. discriminate. }
  destruct (Z.ltb_spec (RemainingInt (stTokens (loadBucket (tpm s) (bucketKey k)
      (TokensPerMinute l) n))) (MinTPM (clampSpec spec))).
  { destruct (TryConsume _ _ (MinTPM _)). fields. discriminate. }
  destruct (TryConsume (loadBucket (rpm s) _ _ _) _ _) as [rpm2 rr].
  destruct (TryConsume (loadBucket (tpm s) _ _ _) _ _) as [tpm2 tr]. fields.
  split; [|split; [|split; reflexivity]]; apply loan_clamp; assumption.
Qed.

Lemma borrowSplit_grants s k l spec n :
  Split l = true ->
  let out := (borrowSplitLocked s k l (clampSpec spec) n).2 in
  if bAllowed out then grants l spec out else bLimitType out <> LimitTypeNone.
Proof.
  intros Sp. unfold borrowSplitLocked, grants. rewrite Sp. cbv zeta. fields.
  destruct (Z.ltb_spec (RemainingInt (stTokens (loadBucket (rpm s) (bucketKey k)
      (RequestsPerMinute l) n))) (MinRPM (clampSpec spec))).
  { destruct (TryConsume _ _ (MinRPM _)). fields. discriminate. }
  destruct (Z.ltb_spec (RemainingInt (stTokens (loadBucket (itpm s) (bucketKey k)
      (InputTokensPerMinute l) n))) (MinITPM (clampSpec spec))).
  { destruct (TryConsume _ _ (MinITPM _)). fields. discriminate. }
  destruct (Z.ltb_spec (RemainingInt (stTokens (loadBucket (otpm s) (bucketKey k)
      (OutputTokensPerMinute l) n))) (MinOTPM (clampSpec spec))).
  { destruct (TryConsume _ _ (MinOTPM _)). fields. discriminate. }
  destruct (TryConsume (loadBucket (rpm s) _ _ _) _ _) as [rpm2 rr].
  destruct (TryConsume (loadBucket (itpm s) _ _ _) _ _) as [itpm2 ir].
  destruct (TryConsume (loadBucket (otpm s) _ _ _) _ _) as [otpm2 or]. fields.
  split; [|split; [|split; [|reflexivity]]]; apply loan_clamp; assumption.
Qed.

Lemma Borrow_grants now s k l spec s' b :
  Borrow now s k l spec = (s', Ok b) ->
  if bAllowed b then grants l spec b else bLimitType b <> LimitTypeNone.
Proof.
  unfold Borrow. destruct (Validate l); [discriminate|]. cbv zeta. case_decide; [discriminate|].
  pose proof (borrowClassic_grants s k l spec (toUnixMilli now)) as C.
  pose proof (borrowSplit_grants s k l spec (toUnixMilli now)) as S.
  destruct (Split l); [destruct (borrowSplitLocked _ _ _ _ _)|destruct (borrowClassicLocked _ _ _ _ _)];
    intros [= <- <-]; [apply S|apply C]; reflexivity.
Qed.

(** An admitted request is answered with its id and no limit type. *)
Definition answered (id : string) (d : Decision) : Prop :=
  if Allowed d then ReservationID d = id /\ LimitType d = LimitTypeNone
  else ReservationID d = "" /\ LimitType d <> LimitTypeNone.

Lemma checkClassic_answered s k l c id now n :
  answered id (checkClassicLocked s k l c id now n).2.
Proof.
  unfold checkClassicLocked. cbv zeta.
  destruct (TryConsume (loadBucket (rpm s) _ _ _) _ _) as [rpm2 rr].
  destruct (rAllowed rr); cbn [negb]; [|split; [reflexivity|discriminate]].
  destruct (TryConsume (loadBucket (tpm s) _ _ _) _ _) as [tpm2 tr].
  destruct (rAllowed tr); cbn [negb]; (split; [reflexivity|(reflexivity || discriminate)]).
Qed.

Lemma checkSplit_answered s k l c id now n :
  answered id (checkSplitLocked s k l c id now n).2.
Proof.
  unfold checkSplitLocked. cbv zeta.
  destruct (TryConsume (loadBucket (rpm s) _ _ _) _ _) as [rpm2 rr].
  destruct (rAllowed rr); cbn [negb]; [|split; [reflexivity|discriminate]].
  destruct (TryConsume (loadBucket (itpm s) _ _ _) _ _) as [itpm2 ir].
  destruct (rAllowed ir); cbn [negb]; [|split; [reflexivity|discriminate]].
  destruct (TryConsume (loadBucket (otpm s) _ _ _) _ _) as [otpm2 or].
  destruct (rAllowed or); cbn [negb]; (split; [reflexivity|(reflexivity || discriminate)]).
Qed.

Lemma Check_answered now s k l c id s' d : Check now s k l c id = (s', Ok d) -> answered id d.
Proof.
  intros E. pose proof (Check_cases now s k l c id) as Cs. rewrite E in Cs.
  inversion Cs as [|? ? _ _ _ _ E'|? ? _ _ _ _ E']; subst;
    [pose proof (checkSplit_answered (purgeExpired s now) k l (clampCosts c) id now (toUnixMilli now)) as A
    |pose proof (checkClassic_answered (purgeExpired s now) k l (clampCosts c) id now (toUnixMilli now)) as A];
    rewrite E' in A; exact A.
Qed.

#[export] Instance MemStore_laws : StoreLaws MemStore.
Proof.
  split; cbn [sCheck sBorrow MemStore_Store].
  - intros t s k l spec s' b _ E A. apply Borrow_grants in E. rewrite A in E. exact E.
  - intros t s k l spec s' b E A. apply Borrow_grants in E. rewrite A in E. exact E.
  - intros t s k l c id s' d E A. apply Check_answered in E. unfold answered in E.
    rewrite A in E. exact E.
Qed.

(** ** What each call does to one axis *)

Section Axis.
Context (T : Z) (s : MemStore) (now : Time).
Context (OK : store_ok T s) (HT : T <= toUnixMilli now) (Tok : time_ok (toUnixMilli now)).
Context (N0 : toUnixMilli now <> 0).
Let n := toUnixMilli now.

(** The snapshot of a key, rebuilt from its balance. *)
Lemma load_balance a bk c :
  loadBucket (bmap a s) bk c n = mkState (balance (bmap a s) bk c n) n c.
Proof.
  destruct (load_fresh T (bmap a s) n (store_ok_bmap T s a OK) HT Tok bk c) as (_ & L & C).
  unfold balance. destruct (loadBucket _ _ _ _); cbn in *. congruence.
Qed.

Lemma balance_range a bk c : limit_ok c ->
  is_float (balance (bmap a s) bk c n) /\ - slack <= balance (bmap a s) bk c n <= c * one.
Proof.
  intros [C0 Cm].
  destruct (load_fresh T (bmap a s) n (store_ok_bmap T s a OK) HT Tok bk c) as ([F L U] & _ & C).
  unfold balance. rewrite C, of_int_cap in U by lia. pose proof one_pos. split; [exact F|nia].
Qed.

(** A credit that stays within the capacity and in float range is exact. *)
Lemma credit_exact a bk c q m' :
  limit_ok c -> 0 <= q <= c -> is_float (balance (bmap a s) bk c n + q * one) ->
  balance (bmap a s) bk c n + q * one <= c * one ->
  balance (saveBucket m' bk (Credit (loadBucket (bmap a s) bk c n) n q)) bk c n
    = balance (bmap a s) bk c n + q * one.
Proof.
  intros Hc Hq Fl Le.
  pose proof (load_fresh T (bmap a s) n (store_ok_bmap T s a OK) HT Tok bk c) as F.
  pose proof (load_zero (bmap a s) n bk c) as Z0.
  pose proof (Refill_load T (bmap a s) n (store_ok_bmap T s a OK) HT Tok N0 bk c Hc) as R.
  assert (E : stTokens (Credit (loadBucket (bmap a s) bk c n) n q)
    = balance (bmap a s) bk c n + q * one).
  { unfold Credit. rewrite R. unfold balance in *. destruct (Z.leb_spec q 0).
    - replace q with 0 by lia. lia.
    - destruct F as (_ & _ & C). unfold limit_ok, max_capacity in Hc. cbn [stTokens]. rewrite C, !of_int_exact by lia.
      rewrite fadd_exact, fmin_eq by exact Fl. lia. }
  unfold balance at 1. rewrite (load_save n N0); [exact E|exact Hc| |].
  - apply fresh_Credit; auto. unfold limit_ok, max_capacity, int64_max in *. lia.
  - intros Hz. rewrite E. unfold balance. rewrite Z0 by exact Hz. replace q with 0 by lia. reflexivity.
Qed.

Lemma Refund_axis id r a :
  closing_res s now id = Some r ->
  bmap a (Refund now s id).1 =
    if counts a (split r)
    then saveBucket (bmap a s) (bucketKey (rkey r))
           (Credit (loadBucket (bmap a s) (bucketKey (rkey r)) (rlimit_of a r) n) n (reserved_of a r))
    else bmap a s.
Proof.
  unfold closing_res, Refund. cbv zeta. fold n.
  destruct (reservations (purgeExpired s now) !! id) as [r'|]; [|discriminate].
  destruct (rstatus r'); try discriminate. intros [= ->].
  destruct a, (split r); reflexivity.
Qed.

Lemma Refund_answer id r : closing_res s now id = Some r -> (Refund now s id).2 = Ok tt.
Proof.
  unfold closing_res, Refund. cbv zeta.
  destruct (reservations (purgeExpired s now) !! id) as [r'|]; [|discriminate].
  destruct (rstatus r'); try discriminate. reflexivity.
Qed.

Lemma Return_axis k l r t i o a :
  Subject k <> "" -> (r <=? 0) && (t <=? 0) && (i <=? 0) && (o <=? 0) = false ->
  bmap a (Return now s k l r t i o).1 =
    if counts a (Split l)
    then saveBucket (bmap a s) (bucketKey k)
           (Credit (loadBucket (bmap a s) (bucketKey k) (limit_of a l) n) n
              (match a with RPM => r | TPM => t | ITPM => i | OTPM => o end))
    else bmap a s.
Proof.
  intros Sk Neg. unfold Return. cbv zeta. fold n. rewrite decide_False by exact Sk.
  rewrite Neg. destruct a, (Split l); reflexivity.
Qed.

(** A granted loan debits exactly what it got; a refused one nothing. *)
Record lent (sp : bool) (l : Limits) (bk : string) (s' : MemStore) (b : BorrowResult) : Prop := {
  lent_axis a : counts a sp = true ->
    balance (bmap a s') bk (limit_of a l) n =
    balance (bmap a s) bk (limit_of a l) n - (if bAllowed b then got_of a b else 0) * one;
  lent_other a bk' :
    bAllowed b = false \/ bk' <> bk \/ counts a sp = false -> bmap a s' !! bk' = bmap a s !! bk'
}.

Lemma lent_refused sp l bk b : bAllowed b = false -> lent sp l bk s b.
Proof. intros E. split; [intros; rewrite E; lia|reflexivity]. Qed.

(** The attempt behind a loan, on one axis. *)
Lemma loan_axis a bk c min chunk :
  limit_ok c -> 0 <= min -> min <= RemainingInt (stTokens (loadBucket (bmap a s) bk c n)) ->
  let got := wantGot (RemainingInt (stTokens (loadBucket (bmap a s) bk c n))) min chunk in
  let '(st', _) := TryConsume (loadBucket (bmap a s) bk c n) n got in
  balance (saveBucket (bmap a s) bk st') bk c n = balance (bmap a s) bk c n - got * one.
Proof.
  intros Hc Hm Hav got. destruct (loan_admitted T s now OK HT Tok N0 a bk c min chunk Hc Hm Hav) as [G A].
  fold n got in G, A.
  pose proof (consume_axis T s now OK HT Tok N0 a bk c got Hc G) as P. cbv zeta in P. fold n in P.
  destruct (TryConsume _ _ _) as [st' r]. apply P. exact A.
Qed.

Lemma borrowClassic_lent k l spec :
  limits_ok l -> 0 <= MinRPM spec -> 0 <= MinTPM spec ->
  let out := borrowClassicLocked s k l spec n in lent false l (bucketKey k) out.1 out.2.
Proof.
  intros L M1 M2. unfold borrowClassicLocked. cbv zeta. fields.
  pose proof (loan_axis RPM (bucketKey k) _ (MinRPM spec) (ChunkRPM spec) (limits_ok_of RPM l L) M1) as P1.
  pose proof (loan_axis TPM (bucketKey k) _ (MinTPM spec) (ChunkTPM spec) (limits_ok_of TPM l L) M2) as P2.
  cbn [bmap limit_of] in P1, P2. cbv zeta in P1, P2.
  destruct (Z.ltb_spec (RemainingInt (stTokens (loadBucket (rpm s) (bucketKey k)
    (RequestsPerMinute l) n))) (MinRPM spec)).
  { destruct (TryConsume _ _ (MinRPM spec)). fields. apply lent_refused. reflexivity. }
  destruct (Z.ltb_spec (RemainingInt (stTokens (loadBucket (tpm s) (bucketKey k)
    (TokensPerMinute l) n))) (MinTPM spec)).
  { destruct (TryConsume _ _ (MinTPM spec)). fields. apply lent_refused. reflexivity. }
  destruct (TryConsume (loadBucket (rpm s) _ _ _) _ _) as [rpm2 rr].
  destruct (TryConsume (loadBucket (tpm s) _ _ _) _ _) as [tpm2 tr].
  split; fields.
  - intros [] Ct; try discriminate; cbn [bmap limit_of got_of]; fields; auto.
  - intros [] bk' [Ct|[Ct|Ct]]; try discriminate; cbn [bmap]; fields;
      try reflexivity; unfold saveBucket; rewrite lookup_insert_ne by congruence; reflexivity.
Qed.

Lemma borrowSplit_lent k l spec :
  limits_ok l -> 0 <= MinRPM spec -> 0 <= MinITPM spec -> 0 <= MinOTPM spec ->
  let out := borrowSplitLocked s k l spec n in lent true l (bucketKey k) out.1 out.2.
Proof.
  intros L M1 M2 M3. unfold borrowSplitLocked. cbv zeta. fields.
  pose proof (loan_axis RPM (bucketKey k) _ (MinRPM spec) (ChunkRPM spec) (limits_ok_of RPM l L) M1) as P1.
  pose proof (loan_axis ITPM (bucketKey k) _ (MinITPM spec) (ChunkITPM spec) (limits_ok_of ITPM l L) M2) as P2.
  pose proof (loan_axis OTPM (bucketKey k) _ (MinOTPM spec) (ChunkOTPM spec) (limits_ok_of OTPM l L) M3) as P3.
  cbn [bmap limit_of] in P1, P2, P3. cbv zeta in P1, P2, P3.
  destruct (Z.ltb_spec (RemainingInt (stTokens (loadBucket (rpm s) (bucketKey k)
    (RequestsPerMinute l) n))) (MinRPM spec)).
  { destruct (TryConsume _ _ (MinRPM spec)). fields. apply lent_refused. reflexivity. }
  destruct (Z.ltb_spec (RemainingInt (stTokens (loadBucket (itpm s) (bucketKey k)
    (InputTokensPerMinute l) n))) (MinITPM spec)).
  { destruct (TryConsume _ _ (MinITPM spec)). fields. apply lent_refused. reflexivity. }
  destruct (Z.ltb_spec (RemainingInt (stTokens (loadBucket (otpm s) (bucketKey k)
    (OutputTokensPerMinute l) n))) (MinOTPM spec)).
  { destruct (TryConsume _ _ (MinOTPM spec)). fields. apply lent_refused. reflexivity. }
  destruct (TryConsume (loadBucket (rpm s) _ _ _) _ _) as [rpm2 rr].
  destruct (TryConsume (loadBucket (itpm s) _ _ _) _ _) as [itpm2 ir].
  destruct (TryConsume (loadBucket (otpm s) _ _ _) _ _) as [otpm2 or].
  split; fields.
  - intros [] Ct; try discriminate; cbn [bmap limit_of got_of]; fields; auto.
  - intros [] bk' [Ct|[Ct|Ct]]; try discriminate; cbn [bmap]; fields;
      try reflexivity; unfold saveBucket; rewrite lookup_insert_ne by congruence; reflexivity.
Qed.

Lemma Borrow_lent k l spec s' b :
  limits_ok l -> Borrow now s k l spec = (s', Ok b) -> lent (Split l) l (bucketKey k) s' b.
Proof.
  intros L. unfold Borrow. cbv zeta. fold n.
  destruct (Validate l); [discriminate|]. case_decide; [discriminate|].
  assert (P : forall z, 0 <= clampCost z) by (intros; rewrite clampCost_max; lia).
  pose proof (borrowClassic_lent k l (clampSpec spec) L (P _) (P _)) as C1.
  pose proof (borrowSplit_lent k l (clampSpec spec) L (P _) (P _) (P _)) as C2.
  cbv zeta in C1, C2. destruct (Split l);
    [destruct (borrowSplitLocked _ _ _ _ _)|destruct (borrowClassicLocked _ _ _ _ _)];
    intros [= <- <-]; assumption.
Qed.
End Axis.

(** ** Round trips *)

Lemma limit_amount_range b c q :
  limit_ok c -> 0 <= q -> - slack <= b - q * one -> b <= c * one -> 0 <= q <= c.
Proof.
  intros Hc Hq L U. split; [exact Hq|]. pose proof slack_small. pose proof one_pos.
  enough (q < c + 1) by lia. apply (Z.mul_lt_mono_pos_r one); lia.
Qed.

(** A debit at [now] undone by a credit in the same millisecond, one axis. *)
Lemma debit_credit T s s1 now now' a bk c q m' :
  store_ok T s -> store_ok (toUnixMilli now) s1 -> T <= toUnixMilli now ->
  time_ok (toUnixMilli now) -> toUnixMilli now <> 0 -> toUnixMilli now' = toUnixMilli now ->
  limit_ok c -> 0 <= q ->
  balance (bmap a s1) bk c (toUnixMilli now) = balance (bmap a s) bk c (toUnixMilli now) - q * one ->
  balance (saveBucket m' bk (Credit (loadBucket (bmap a s1) bk c (toUnixMilli now'))
                                    (toUnixMilli now') q)) bk c (toUnixMilli now)
  = balance (bmap a s) bk c (toUnixMilli now).
Proof.
  intros OK OK1 HT Tok N0 E Hc Hq B. rewrite E.
  destruct (balance_range T s now OK HT Tok N0 a bk c Hc) as [F [_ U]].
  destruct (balance_range (toUnixMilli now) s1 now OK1 ltac:(lia) Tok N0 a bk c Hc) as [_ [L _]].
  rewrite B in L.
  assert (B' : balance (bmap a s1) bk c (toUnixMilli now) + q * one
    = balance (bmap a s) bk c (toUnixMilli now)) by lia.
  rewrite (credit_exact (toUnixMilli now) s1 now OK1 ltac:(lia) Tok N0 a bk c q m' Hc).
  - exact B'.
  - exact (limit_amount_range _ c q Hc Hq L U).
  - rewrite B'. exact F.
  - rewrite B'. exact U.
Qed.

(** The reservation an admitted request leaves is found until it expires. *)
Lemma closing_new now now' s k l c id s1 d :
  Check now s k l c id = (s1, Ok d) -> Allowed d = true -> now' <= now + ReservationTTL ->
  closing_res s1 now' id = Some (new_reservation (Split l) k l (clampCosts c) now).
Proof.
  intros E A H. pose proof (Check_recorded now s k l c id s1 d E) as R.
  unfold recorded in R. rewrite A in R. unfold closing_res.
  assert (L : reservations (purgeExpired s1 now') !! id
    = Some (new_reservation (Split l) k l (clampCosts c) now)).
  { cbn [purgeExpired reservations]. apply map_lookup_filter_Some_2.
    - rewrite R. apply lookup_insert_eq.
    - cbn [new_reservation expiresAt]. unfold After, Add. apply Z.ltb_ge. exact H. }
  rewrite L. reflexivity.
Qed.

Lemma new_reservation_axis a k l c now : counts a (Split l) = true ->
  rlimit_of a (new_reservation (Split l) k l c now) = limit_of a l /\
  reserved_of a (new_reservation (Split l) k l c now) = cost_of a c.
Proof.
  intros C. unfold new_reservation. cbv zeta. set (sp := Split l) in *. clearbody sp.
  destruct a, sp; try discriminate; split; reflexivity.
Qed.

Lemma same_ms_ttl now now' : toUnixMilli now' = toUnixMilli now -> now' <= now + ReservationTTL.
Proof.
  unfold toUnixMilli, ReservationTTL, Minute, Second, Millisecond. intros E.
  pose proof (Z.mod_pos_bound now 1000000 ltac:(lia)).
  pose proof (Z.mod_pos_bound now' 1000000 ltac:(lia)).
  pose proof (Z.div_mod now 1000000 ltac:(lia)). pose proof (Z.div_mod now' 1000000 ltac:(lia)). lia.
Qed.

(** ** Isolation *)

(** The key whose buckets a call may touch. *)
Definition op_key (s : MemStore) (now : Time) (o : op) : option Key :=
  match o with
  | OpCheck k _ _ _ | OpBorrow k _ _ | OpReturn k _ _ _ _ _ => Some k
  | OpSettle id _ | OpSettleIO id _ _ | OpRefund id => rkey <$> closing_res s now id
  end.

Lemma save_other (m : buckets) k st bk : bk <> k -> saveBucket m k st !! bk = m !! bk.
Proof. intros H. unfold saveBucket. apply lookup_insert_ne. congruence. Qed.

(** A history-free reading of the frame: calls touch the buckets of their key only. *)
Lemma Check_frame now s k l c id a bk :
  bk <> bucketKey k -> bmap a (Check now s k l c id).1 !! bk = bmap a s !! bk.
Proof.
  intros N. destruct (Check_cases now s k l c id) as [s' e _ (E1&E2&E3&E4)|s' d _ _ _ _ E|s' d _ _ _ _ E];
    cbn [fst]; [destruct a; cbn [bmap]; congruence| |].
  - unfold checkSplitLocked in E. cbv zeta in E. rewrite <- (bmap_purge a s now).
    destruct (TryConsume (loadBucket (rpm _) _ _ _) _ _) as [rpm2 rr].
    destruct (rAllowed rr); cbn [negb] in E; [|injection E as <- _; reflexivity].
    destruct (TryConsume (loadBucket (itpm _) _ _ _) _ _) as [itpm2 ir].
    destruct (rAllowed ir); cbn [negb] in E; [|injection E as <- _; reflexivity].
    destruct (TryConsume (loadBucket (otpm _) _ _ _) _ _) as [otpm2 or].
    destruct (rAllowed or); cbn [negb] in E; injection E as <- _; [|reflexivity].
    destruct a; cbn [bmap rpm tpm itpm otpm]; auto using save_other.
  - unfold checkClassicLocked in E. cbv zeta in E. rewrite <- (bmap_purge a s now).
    destruct (TryConsume (loadBucket (rpm _) _ _ _) _ _) as [rpm2 rr].
    destruct (rAllowed rr); cbn [negb] in E; [|injection E as <- _; reflexivity].
    destruct (TryConsume (loadBucket (tpm _) _ _ _) _ _) as [tpm2 tr].
    destruct (rAllowed tr); cbn [negb] in E; injection E as <- _; [|reflexivity].
    destruct a; cbn [bmap rpm tpm itpm otpm]; auto using save_other.
Qed.

Lemma Borrow_frame now s k l spec a bk :
  bk <> bucketKey k -> bmap a (Borrow now s k l spec).1 !! bk = bmap a s !! bk.
Proof.
  intros N. unfold Borrow. cbv zeta. destruct (Validate l); [reflexivity|].
  case_decide; [reflexivity|]. set (sp := clampSpec spec). set (n := toUnixMilli now).
  destruct (Split l).
  - enough (F : bmap a (borrowSplitLocked s k l sp n).1 !! bk = bmap a s !! bk) by
      (destruct (borrowSplitLocked _ _ _ _ _); exact F).
    unfold borrowSplitLocked. cbv zeta. fields.
    do 3 (case_if; [destruct_fst; reflexivity|]).
    destruct (TryConsume (loadBucket (rpm _) _ _ _) _ _) as [rpm2 rr].
    destruct (TryConsume (loadBucket (itpm _) _ _ _) _ _) as [itpm2 ir].
    destruct (TryConsume (loadBucket (otpm _) _ _ _) _ _) as [otpm2 or].
    destruct a; cbn [bmap]; fields; auto using save_other.
  - enough (F : bmap a (borrowClassicLocked s k l sp n).1 !! bk = bmap a s !! bk) by
      (destruct (borrowClassicLocked _ _ _ _ _); exact F).
    unfold borrowClassicLocked. cbv zeta. fields.
    do 2 (case_if; [destruct_fst; reflexivity|]).
    destruct (TryConsume (loadBucket (rpm _) _ _ _) _ _) as [rpm2 rr].
    destruct (TryConsume (loadBucket (tpm _) _ _ _) _ _) as [tpm2 tr].
    destruct a; cbn [bmap]; fields; auto using save_other.
Qed.

Lemma Return_frame now s k l r t i o a bk :
  bk <> bucketKey k -> bmap a (Return now s k l r t i o).1 !! bk = bmap a s !! bk.
Proof.
  intros N. unfold Return. cbv zeta. case_decide; [reflexivity|].
  destruct (_ && _); [reflexivity|].
  destruct (Split l), a; cbn [bmap fst rpm tpm itpm otpm]; auto using save_other.
Qed.

(** Calls on a reservation touch the buckets of its key. *)
Lemma reservation_frame now s o a bk :
  match o with OpSettle _ _ | OpSettleIO _ _ _ | OpRefund _ => True | _ => False end ->
  (forall k, op_key s now o = Some k -> bk <> bucketKey k) ->
  bmap a (apply now s o) !! bk = bmap a s !! bk.
Proof.
  intros R N.
  destruct o as [|id n|id n m|id| |]; try contradiction;
    cbn [apply op_key] in *; unfold closing_res, Settle, SettleIO, Refund in *; cbv zeta in *;
    rewrite <- (bmap_purge a s now);
    (destruct (reservations (purgeExpired s now) !! id) as [r|]; [|reflexivity]).
  - destruct (split r); [reflexivity|]. destruct (rstatus r); try reflexivity.
    specialize (N _ eq_refl). destruct (settleAxis _ _ _ _).
    destruct a; cbn [bmap fst rpm tpm itpm otpm]; auto using save_other.
  - destruct (split r); [|reflexivity]. destruct (rstatus r); try reflexivity. cbn [negb].
    specialize (N _ eq_refl). destruct (settleAxis (loadBucket (itpm _) _ _ _) _ _ _).
    destruct (settleAxis (loadBucket (otpm _) _ _ _) _ _ _).
    destruct a; cbn [bmap fst rpm tpm itpm otpm]; auto using save_other.
  - destruct (rstatus r); try reflexivity. specialize (N _ eq_refl).
    destruct (split r), a; cbn [bmap fst rpm tpm itpm otpm]; auto using save_other.
Qed.

Lemma apply_frame now s o a bk :
  (forall k, op_key s now o = Some k -> bk <> bucketKey k) ->
  bmap a (apply now s o) !! bk = bmap a s !! bk.
Proof.
  intros N. destruct o; try (apply reservation_frame; [exact I|exact N]);
    cbn [apply op_key] in *; specialize (N _ eq_refl).
  - apply Check_frame. exact N.
  - apply Borrow_frame. exact N.
  - apply Return_frame. exact N.
Qed.

(** ** Settlement *)

(** What settling an axis makes of its balance: unused tokens come back, up to the
    capacity; what was used beyond the reservation is taken, and the overshoot is
    what was not there to take.  A balance the comparison slack left below zero has
    floor minus one: it is credited a token, and the overshoot is one too many. *)
Definition reconciled (c bal bal' reserved actual over : Z) : Prop :=
  if actual <=? reserved
  then over = 0 /\ bal' = Z.min (c * one) (fadd bal (of_int (reserved - actual)))
  else if 0 <=? bal
  then 0 <= over /\ bal' = bal - (actual - reserved - over) * one /\ (0 < over -> 0 <= bal' < one)
  else over = actual - reserved + 1 /\ bal' = fsub bal (of_int (-1)).

Section SettleAxis.
Context (T : Z) (s : MemStore) (now : Time).
Context (OK : store_ok T s) (HT : T <= toUnixMilli now) (Tok : time_ok (toUnixMilli now)).
Context (N0 : toUnixMilli now <> 0).
Let n := toUnixMilli now.

(** [DebitFloor] on a nonnegative balance. *)
Lemma debit_balance a bk c amount :
  limit_ok c -> 0 < amount < int64_max -> 0 <= balance (bmap a s) bk c n ->
  let '(st', _, over) := DebitFloor (loadBucket (bmap a s) bk c n) n amount in
  0 <= over /\ stTokens st' = balance (bmap a s) bk c n - (amount - over) * one /\
  (0 < over -> 0 <= stTokens st' < one) /\ 0 <= stTokens st'.
Proof.
  intros Hc Ha H0.
  pose proof (load_fresh T (bmap a s) n (store_ok_bmap T s a OK) HT Tok bk c) as (W & L & C).
  pose proof (Refill_load T (bmap a s) n (store_ok_bmap T s a OK) HT Tok N0 bk c Hc) as R.
  unfold balance in *. set (st := loadBucket (bmap a s) bk c n) in *.
  pose proof (wf_bounds st ltac:(rewrite C; apply Hc) W) as B. pose proof slack_small.
  unfold limit_ok, max_capacity in Hc.
  rewrite DebitFloor_spec; rewrite ?L, ?C, ?R; try assumption; unfold max_capacity; try lia.
  pose proof (floorZ_bounds (stTokens st)) as Fb. pose proof (floorZ_nonneg _ H0) as Fn.
  pose proof (floor_le_cap st W ltac:(rewrite C; unfold max_capacity; lia)) as Fl. rewrite C in Fl.
  pose proof one_pos. cbv zeta.
  destruct (Z.leb_spec amount (floorZ (stTokens st))); cbn [stTokens].
  - assert (amount * one <= floorZ (stTokens st) * one) by (apply Z.mul_le_mono_nonneg_r; lia).
    split_and!; lia.
  - rewrite of_int_exact by lia. rewrite fsub_int_exact; [split_and!; lia|apply W|lia|nia].
Qed.

(** [DebitFloor] on a balance below zero. *)
Lemma debit_negative a bk c amount :
  limit_ok c -> 0 < amount < int64_max -> balance (bmap a s) bk c n < 0 ->
  let '(st', _, over) := DebitFloor (loadBucket (bmap a s) bk c n) n amount in
  over = amount + 1 /\ stTokens st' = fsub (balance (bmap a s) bk c n) (of_int (-1)).
Proof.
  intros Hc Ha H0.
  pose proof (load_fresh T (bmap a s) n (store_ok_bmap T s a OK) HT Tok bk c) as (W & L & C).
  pose proof (Refill_load T (bmap a s) n (store_ok_bmap T s a OK) HT Tok N0 bk c Hc) as R.
  unfold balance in *. set (st := loadBucket (bmap a s) bk c n) in *.
  pose proof (floor_ge_m1 st W) as Fm. pose proof (floorZ_bounds (stTokens st)) as Fb. pose proof one_pos as P1.
  assert (Fl : floorZ (stTokens st) = -1).
  { apply Z.le_antisymm; [|exact Fm]. apply Z.lt_succ_r. apply (Z.mul_lt_mono_pos_r one); lia. }
  unfold limit_ok in Hc. rewrite DebitFloor_spec; rewrite ?L, ?C, ?R; try assumption; try lia.
  rewrite Fl. destruct (Z.leb_spec amount (-1)); [lia|]. cbn [stTokens]. split; [lia|reflexivity].
Qed.

Lemma settleAxis_reconciled a bk c reserved actual m' :
  limit_ok c -> cost_ok reserved -> cost_ok actual ->
  let '(st', over) := settleAxis (loadBucket (bmap a s) bk c n) n reserved actual in
  balance (saveBucket m' bk st') bk c n = stTokens st' /\
  reconciled c (balance (bmap a s) bk c n) (stTokens st') reserved actual over.
Proof.
  intros Hc Hr Ha. unfold cost_ok, int64_max in Hr, Ha.
  pose proof (load_fresh T (bmap a s) n (store_ok_bmap T s a OK) HT Tok bk c) as F.
  pose proof (Refill_load T (bmap a s) n (store_ok_bmap T s a OK) HT Tok N0 bk c Hc) as R.
  pose proof (load_zero (bmap a s) n bk c) as Z0.
  pose proof (fresh_settleAxis _ c n reserved actual Tok Hc ltac:(unfold cost_ok, int64_max; lia)
    ltac:(unfold cost_ok, int64_max; lia) F) as F'.
  assert (Sv : forall st', fresh n c st' -> (c = 0 -> stTokens st' = 0) ->
    balance (saveBucket m' bk st') bk c n = stTokens st').
  { intros st' Fs Zs. unfold balance. rewrite (load_save n N0) by assumption. reflexivity. }
  assert (C0 : forall st', fresh n c st' -> (c = 0 -> 0 <= stTokens st') -> c = 0 -> stTokens st' = 0).
  { intros st' ([_ _ U] & _ & C) P E. rewrite C, E, of_int_0 in U. lia. }
  unfold settleAxis in *. cbv zeta in *. assert (B0 : c = 0 -> balance (bmap a s) bk c n = 0) by exact Z0.
  rewrite (wrap64_id (reserved - actual)) in * by (unfold in_int64, int64_min, int64_max; lia).
  unfold reconciled. pose proof (balance_range T s now OK HT Tok N0 a bk c Hc) as [Fb [_ U]]. fold n in Fb, U.
  destruct (Z.ltb_spec 0 (reserved - actual)).
  { destruct (Z.leb_spec actual reserved); [|lia]. cbn [fst] in F'.
    assert (E : stTokens (Credit (loadBucket (bmap a s) bk c n) n (reserved - actual))
      = Z.min (c * one) (fadd (balance (bmap a s) bk c n) (of_int (reserved - actual)))).
    { unfold Credit. rewrite R. destruct (Z.leb_spec (reserved - actual) 0); [lia|].
      cbn [stTokens]. destruct F as (_ & _ & ->). rewrite fmin_eq, of_int_cap by apply Hc. reflexivity. }
    split; [|auto]. apply Sv; [exact F'|]. apply C0; [exact F'|]. intros Ec. specialize (B0 Ec). rewrite E.
    pose proof (fadd_ge _ (of_int (reserved - actual)) Fb (of_int_nonneg (reserved - actual) ltac:(lia))).
    lia. }
  destruct (Z.ltb_spec (reserved - actual) 0).
  - rewrite wrap64_id in * by (unfold in_int64, int64_min, int64_max; lia).
    destruct (Z.leb_spec actual reserved); [lia|].
    pose proof (debit_balance a bk c (- (reserved - actual)) Hc ltac:(unfold int64_max; lia)) as D.
    pose proof (debit_negative a bk c (- (reserved - actual)) Hc ltac:(unfold int64_max; lia)) as Dn.
    destruct (DebitFloor _ _ _) as [[st' deb] over]. cbn [fst] in F'.
    destruct (Z.leb_spec 0 (balance (bmap a s) bk c n)) as [Hb|Hb].
    + destruct (D Hb) as (D1 & D2 & D3 & D4). split; [|split_and!; [exact D1|rewrite D2; lia|exact D3]].
      apply Sv; [exact F'|]. apply C0; [exact F'|]. intros _. exact D4.
    + destruct (Dn Hb) as [D1 D2]. split; [|split; [lia|exact D2]].
      apply Sv; [exact F'|]. intros Ec. rewrite (B0 Ec) in Hb. lia.
  - destruct (Z.leb_spec actual reserved); [|lia]. replace (reserved - actual) with 0 by lia.
    rewrite of_int_0, fadd_exact, Z.add_0_r by (rewrite Z.add_0_r; exact Fb).
    split; [apply Sv; [exact F|exact Z0]|]. unfold balance in *. split; [reflexivity|lia].
Qed.
End SettleAxis.

Lemma reachable_time T s : reachable T s -> 0 <= T.
Proof. induction 1 as [|? ? ? ? _ _ _ [H _] _]; [lia|exact H]. Qed.

(** A clock reading the store's arithmetic is exact for, after all earlier calls. *)
Definition clock_ok (T : Z) (now : Time) : Prop :=
  T <= toUnixMilli now /\ time_ok (toUnixMilli now) /\ toUnixMilli now <> 0.

(** The settlement of one axis, read off the stores. *)
Definition settles_axis (a : axis) (n : Z) (s s' : MemStore) (r : reservation) (actual : Z)
    (d : Decision) : Prop :=
  let bk := bucketKey (rkey r) in
  let c := rlimit_of a r in
  reconciled c (balance (bmap a s) bk c n) (balance (bmap a s') bk c n)
    (reserved_of a r) (clampCost actual) (overshoot_of a d).

Lemma closing_ok T s now id r :
  store_ok T s -> closing_res s now id = Some r ->
  reservations (purgeExpired s now) !! id = Some r /\ rstatus r = pending /\ reservation_ok r.
Proof.
  intros OK. unfold closing_res.
  destruct (reservations (purgeExpired s now) !! id) as [r'|] eqn:L; [|discriminate].
  destruct (rstatus r') eqn:St; try discriminate. intros [= ->]. split_and!; auto.
  apply (ok_res _ _ (purge_ok T s now OK) id r L).
Qed.

Lemma Settle_settles T s now id r actual s' d :
  store_ok T s -> clock_ok T now -> actual < int64_max ->
  closing_res s now id = Some r -> Settle now s id actual = (s', Ok d) ->
  settles_axis TPM (toUnixMilli now) s s' r actual d /\
  rpm s' = rpm s /\ itpm s' = itpm s /\ otpm s' = otpm s.
Proof.
  intros OK (HT & Tok & N0) Ha Cl E.
  destruct (closing_ok T s now id r OK Cl) as (L & St & R1 & R2 & R3 & R4 & R5 & R6 & R7 & R8).
  unfold Settle in E. cbv zeta in E. rewrite L, St in E. destruct (split r); [discriminate|].
  unfold settles_axis. cbv zeta. cbn [bmap rlimit_of reserved_of overshoot_of].
  pose proof (settleAxis_reconciled T s now OK HT Tok N0 TPM (bucketKey (rkey r)) (limitTPM r)
    (tpmReserved r) (clampCost actual) (tpm s) R6 R2 (clampCost_ok _ Ha)) as P.
  cbn [bmap] in P. change (tpm (purgeExpired s now)) with (tpm s) in E.
  change (mkKey (subject r) (model r)) with (rkey r) in E.
  destruct (settleAxis _ _ _ _) as [st' over]. injection E as <- <-. cbn [tpm rpm itpm otpm OvershootTPM].
  split; [|auto]. destruct P as [-> Rec]. exact Rec.
Qed.

Lemma SettleIO_settles T s now id r ai ao s' d :
  store_ok T s -> clock_ok T now -> ai < int64_max -> ao < int64_max ->
  closing_res s now id = Some r -> SettleIO now s id ai ao = (s', Ok d) ->
  settles_axis ITPM (toUnixMilli now) s s' r ai d /\
  settles_axis OTPM (toUnixMilli now) s s' r ao d /\
  rpm s' = rpm s /\ tpm s' = tpm s.
Proof.
  intros OK (HT & Tok & N0) Hi Ho Cl E.
  destruct (closing_ok T s now id r OK Cl) as (L & St & R1 & R2 & R3 & R4 & R5 & R6 & R7 & R8).
  unfold SettleIO in E. cbv zeta in E. rewrite L, St in E.
  destruct (split r); [cbn [negb] in E|discriminate].
  unfold settles_axis. cbv zeta. cbn [bmap rlimit_of reserved_of overshoot_of].
  pose proof (settleAxis_reconciled T s now OK HT Tok N0 ITPM (bucketKey (rkey r)) (limitITPM r)
    (itpmReserved r) (clampCost ai) (itpm s) R7 R3 (clampCost_ok _ Hi)) as P.
  pose proof (settleAxis_reconciled T s now OK HT Tok N0 OTPM (bucketKey (rkey r)) (limitOTPM r)
    (otpmReserved r) (clampCost ao) (otpm s) R8 R4 (clampCost_ok _ Ho)) as Q.
  cbn [bmap] in P, Q.
  change (itpm (purgeExpired s now)) with (itpm s) in E.
  change (otpm (purgeExpired s now)) with (otpm s) in E.
  change (mkKey (subject r) (model r)) with (rkey r) in E.
  destruct (settleAxis (loadBucket (itpm s) _ _ _) _ _ _) as [si oi].
  destruct (settleAxis (loadBucket (otpm s) _ _ _) _ _ _) as [so oo].
  injection E as <- <-. cbn [tpm rpm itpm otpm OvershootITPM OvershootOTPM].
  destruct P as [-> P], Q as [-> Q]. auto.
Qed.

(** ** Properties *)

(** C9: Check charges exactly what it admits.  In every reachable store a request
    is admitted if and only if every axis of its mode admits its cost (within the
    limit, and covered by the balance up to the comparison slack); otherwise the
    first axis that does not is the decision's limit type.  An admitted request
    lowers each balance of its key by exactly its cost, a denied one changes
    nothing, and no other key or axis is touched. *)
Theorem check_charges_exactly T s now k l c id s' d :
  reachable T s -> clock_ok T now -> limits_ok l -> costs_ok c ->
  Check now s k l c id = (s', Ok d) ->
  charged (Split l) l (clampCosts c) (bucketKey k) (toUnixMilli now) s s' d.
Proof.
  intros Re (HT & Tok & N0) L C E.
  exact (Check_charged T s now k l c id s' d (reachable_ok T s Re) HT Tok N0 L C E).
Qed.

(** The decision of a call that did not fail. *)
Definition decision_of (r : res Decision) : Decision :=
  match r with Ok d => d | Err _ => zeroDecision end.

Definition sample_check : MemStore * res Decision :=
  Check 1700000001000000000 sample_store sample_key sample_limits (mkCost 3 50 0 0) "r2".

Lemma check_charges_exactly_witness :
  charged false sample_limits (mkCost 3 50 0 0) (bucketKey sample_key) 1700000001000
    sample_store sample_check.1 (decision_of sample_check.2).
Proof.
  apply (check_charges_exactly 1700000000000 sample_store 1700000001000000000 sample_key sample_limits
           (mkCost 3 50 0 0) "r2").
  - apply sample_reachable.
  - vm_compute. split_and!; congruence.
  - vm_compute. split_and!; congruence.
  - vm_compute. split_and!; congruence.
  - vm_compute. reflexivity.
Defined.

(** C32: balances stay in range.  In every reachable store, for every axis, key and
    limit, the balance seen at any later time is a binary64 value between minus
    the comparison slack (2e-9) and the limit. *)
Theorem balances_in_range T s now a bk c :
  reachable T s -> clock_ok T now -> limit_ok c ->
  is_float (balance (bmap a s) bk c (toUnixMilli now)) /\
  - slack <= balance (bmap a s) bk c (toUnixMilli now) <= c * one.
Proof.
  intros Re (HT & Tok & N0) L.
  exact (balance_range T s now (reachable_ok T s Re) HT Tok N0 a bk c L).
Qed.

Lemma balances_in_range_witness :
  is_float (balance (rpm sample_store) (bucketKey sample_key) 10 1700000001000) /\
  - slack <= balance (rpm sample_store) (bucketKey sample_key) 10 1700000001000 <= 10 * one.
Proof.
  apply (balances_in_range 1700000000000 sample_store 1700000001000000000 RPM (bucketKey sample_key) 10).
  - apply sample_reachable.
  - vm_compute. split_and!; congruence.
  - vm_compute. split; congruence.
Defined.

(** C30: a refund undoes a request.  When a request is admitted and refunded within
    the same millisecond, the refund succeeds and every balance it was charged on
    is restored exactly, with no rounding; every other bucket is as before. *)
Theorem check_refund_roundtrip T s now now' k l c id s1 d :
  reachable T s -> clock_ok T now -> toUnixMilli now' = toUnixMilli now ->
  limits_ok l -> costs_ok c ->
  Check now s k l c id = (s1, Ok d) -> Allowed d = true ->
  let s2 := (Refund now' s1 id).1 in
  (Refund now' s1 id).2 = Ok tt /\
  (forall a, counts a (Split l) = true ->
    balance (bmap a s2) (bucketKey k) (limit_of a l) (toUnixMilli now)
    = balance (bmap a s) (bucketKey k) (limit_of a l) (toUnixMilli now)) /\
  (forall a bk, bk <> bucketKey k \/ counts a (Split l) = false ->
    bmap a s2 !! bk = bmap a s !! bk).
Proof.
  intros Re (HT & Tok & N0) Ms L C E A. pose proof (reachable_ok T s Re) as OK. cbv zeta.
  pose proof (Check_ok T s now k l c id OK HT Tok L C) as OK1. rewrite E in OK1. cbn [fst] in OK1.
  destruct (Check_charged T s now k l c id s1 d OK HT Tok N0 L C E) as [_ Ax Ot].
  pose proof (closing_new now now' s k l c id s1 d E A (same_ms_ttl now now' Ms)) as Cl.
  split; [eapply Refund_answer; exact Cl|]. split.
  - intros a Ct. rewrite (Refund_axis s1 now' id _ a Cl).
    destruct (new_reservation_axis a k l (clampCosts c) now Ct) as [-> ->].
    replace (bucketKey (rkey (new_reservation (Split l) k l (clampCosts c) now)))
      with (bucketKey k) by (destruct k; reflexivity).
    cbn [split new_reservation]. rewrite Ct.
    apply (debit_credit T); auto using limits_ok_of.
    + rewrite cost_of_clamp, clampCost_max. lia.
    + rewrite (Ax a Ct), A. reflexivity.
  - intros a bk H. rewrite (Refund_axis s1 now' id _ a Cl), <- (Ot a bk) by (right; exact H).
    cbn [split new_reservation]. destruct (counts a (Split l)) eqn:Ct; [|reflexivity].
    destruct H as [H|H]; [|congruence].
    apply save_other. destruct k; exact H.
Qed.

Lemma check_refund_roundtrip_witness :
  let s2 := (Refund 1700000001000400000 sample_check.1 "r2").1 in
  (Refund 1700000001000400000 sample_check.1 "r2").2 = Ok tt /\
  (forall a, counts a false = true ->
    balance (bmap a s2) (bucketKey sample_key) (limit_of a sample_limits) 1700000001000
    = balance (bmap a sample_store) (bucketKey sample_key) (limit_of a sample_limits) 1700000001000) /\
  (forall a bk, bk <> bucketKey sample_key \/ counts a false = false ->
    bmap a s2 !! bk = bmap a sample_store !! bk).
Proof.
  apply (check_refund_roundtrip 1700000000000 sample_store 1700000001000000000 1700000001000400000
           sample_key sample_limits (mkCost 3 50 0 0) "r2" sample_check.1 (decision_of sample_check.2)).
  - apply sample_reachable.
  - vm_compute. split_and!; congruence.
  - reflexivity.
  - vm_compute. split_and!; congruence.
  - vm_compute. split_and!; congruence.
  - vm_compute. reflexivity.
  - vm_compute. reflexivity.
Defined.

(** A loan is debited exactly, and is worth what was asked.  Borrow takes from
    each balance of its key exactly what it reports as got, between the minimum
    and the larger of minimum and chunk, and only if every minimum is there; a
    refused loan names a limit and changes nothing; other keys are untouched. *)
Theorem borrow_debits_what_it_grants T s now k l spec s' b :
  reachable T s -> clock_ok T now -> limits_ok l ->
  Borrow now s k l spec = (s', Ok b) ->
  lent s now (Split l) l (bucketKey k) s' b /\
  if bAllowed b then grants l spec b else bLimitType b <> LimitTypeNone.
Proof.
  intros Re (HT & Tok & N0) L E. split; [|eapply Borrow_grants; exact E].
  exact (Borrow_lent T s now (reachable_ok T s Re) HT Tok N0 k l spec s' b L E).
Qed.

Definition sample_spec : BorrowSpec := mkBorrowSpec 1 10 0 0 4 500 0 0.
Definition sample_borrow : MemStore * res BorrowResult :=
  Borrow 1700000001000000000 sample_store sample_key sample_limits sample_spec.

(** The loan of a call that did not fail. *)
Definition loan_of (r : res BorrowResult) : BorrowResult :=
  match r with Ok b => b | Err _ => zeroBorrowResult end.

Lemma borrow_debits_what_it_grants_witness :
  lent sample_store 1700000001000000000 false sample_limits (bucketKey sample_key)
    sample_borrow.1 (loan_of sample_borrow.2) /\
  if bAllowed (loan_of sample_borrow.2)
  then grants sample_limits sample_spec (loan_of sample_borrow.2)
  else bLimitType (loan_of sample_borrow.2) <> LimitTypeNone.
Proof.
  apply (borrow_debits_what_it_grants 1700000000000 sample_store 1700000001000000000
           sample_key sample_limits sample_spec).
  - apply sample_reachable.
  - vm_compute. split_and!; congruence.
  - vm_compute. split_and!; congruence.
  - vm_compute. reflexivity.
Defined.

(** Returning a loan undoes it.  A loan returned in full within the same
    millisecond restores every balance exactly. *)
Theorem borrow_return_roundtrip T s now now' k l spec s1 b a :
  reachable T s -> clock_ok T now -> toUnixMilli now' = toUnixMilli now -> limits_ok l ->
  Borrow now s k l spec = (s1, Ok b) -> bAllowed b = true -> counts a (Split l) = true ->
  let s2 := (Return now' s1 k l (GotRPM b) (GotTPM b) (GotITPM b) (GotOTPM b)).1 in
  balance (bmap a s2) (bucketKey k) (limit_of a l) (toUnixMilli now)
  = balance (bmap a s) (bucketKey k) (limit_of a l) (toUnixMilli now).
Proof.
  intros Re (HT & Tok & N0) Ms L E A Ct. pose proof (reachable_ok T s Re) as OK. cbv zeta.
  pose proof (Borrow_ok T s now k l spec OK HT Tok L) as OK1. rewrite E in OK1. cbn [fst] in OK1.
  destruct (Borrow_lent T s now OK HT Tok N0 k l spec s1 b L E) as [Ax _].
  specialize (Ax a Ct). rewrite A in Ax.
  assert (Sk : Subject k <> "").
  { unfold Borrow in E. destruct (Validate l); [discriminate|]. cbv zeta in E.
    case_decide; [discriminate|assumption]. }
  pose proof (Borrow_grants now s k l spec s1 b E) as G. rewrite A in G.
  assert (Pos : 0 <= GotRPM b /\ 0 <= GotTPM b /\ 0 <= GotITPM b /\ 0 <= GotOTPM b).
  { unfold grants, loan in G. destruct (Split l); lia. }
  destruct ((GotRPM b <=? 0) && (GotTPM b <=? 0) && (GotITPM b <=? 0) && (GotOTPM b <=? 0)) eqn:Z0.
  - replace (Return now' s1 k l (GotRPM b) (GotTPM b) (GotITPM b) (GotOTPM b)) with (s1, Ok (E := error) tt)
      by (unfold Return; rewrite decide_False, Z0 by exact Sk; reflexivity).
    cbn [fst]. rewrite Ax. bool_to_prop. replace (got_of a b) with 0 by (destruct a; cbn [got_of]; lia). lia.
  - rewrite (Return_axis s1 now' k l _ _ _ _ a Sk Z0), Ct.
    change (match a with RPM => GotRPM b | TPM => GotTPM b | ITPM => GotITPM b | OTPM => GotOTPM b end)
      with (got_of a b).
    apply (debit_credit T); auto using limits_ok_of. destruct a; cbn [got_of]; lia.
Qed.

Lemma borrow_return_roundtrip_witness :
  let b := loan_of sample_borrow.2 in
  let s2 := (Return 1700000001000000000 sample_borrow.1 sample_key sample_limits
               (GotRPM b) (GotTPM b) (GotITPM b) (GotOTPM b)).1 in
  balance (tpm s2) (bucketKey sample_key) 1000 1700000001000
  = balance (tpm sample_store) (bucketKey sample_key) 1000 1700000001000.
Proof.
  apply (borrow_return_roundtrip 1700000000000 sample_store 1700000001000000000 1700000001000000000
           sample_key sample_limits sample_spec sample_borrow.1 (loan_of sample_borrow.2) TPM).
  - apply sample_reachable.
  - vm_compute. split_and!; congruence.
  - reflexivity.
  - vm_compute. split_and!; congruence.
  - vm_compute. reflexivity.
  - vm_compute. reflexivity.
  - reflexivity.
Defined.

(** C29: settlement reconciles the estimate with the use.  When a pending classic
    reservation is settled, its token balance gets back what was not used, up to the
    capacity, or loses what was used beyond the reservation down to the last whole
    token, the rest being reported as overshoot; an overshoot means less than one token
    is left.  (A balance that the slack of an earlier comparison left below zero is
    different when more was used than reserved: it gains one token, and the overshoot
    is one token too many.)  The request stays charged and the split balances are not
    touched. *)
Theorem settle_reconciles T s now id r actual s' d :
  reachable T s -> clock_ok T now -> actual < int64_max ->
  closing_res s now id = Some r -> Settle now s id actual = (s', Ok d) ->
  settles_axis TPM (toUnixMilli now) s s' r actual d /\
  rpm s' = rpm s /\ itpm s' = itpm s /\ otpm s' = otpm s.
Proof. intros Re. apply Settle_settles, reachable_ok, Re. Qed.

Definition sample_settle : MemStore * res Decision := Settle 1700000001000000000 sample_store "r1" 140.

Lemma settle_reconciles_witness :
  settles_axis TPM 1700000001000 sample_store sample_settle.1
    (new_reservation false sample_key sample_limits (mkCost 1 100 0 0) 1700000000000000000) 140
    (decision_of sample_settle.2) /\
  rpm sample_settle.1 = rpm sample_store /\ itpm sample_settle.1 = itpm sample_store /\
  otpm sample_settle.1 = otpm sample_store.
Proof.
  apply (settle_reconciles 1700000000000 sample_store 1700000001000000000 "r1").
  - apply sample_reachable.
  - vm_compute. split_and!; congruence.
  - reflexivity.
  - vm_compute. reflexivity.
  - vm_compute. reflexivity.
Defined.

(** The same for split reservations, on input and output tokens separately. *)
Theorem settleIO_reconciles T s now id r ai ao s' d :
  reachable T s -> clock_ok T now -> ai < int64_max -> ao < int64_max ->
  closing_res s now id = Some r -> SettleIO now s id ai ao = (s', Ok d) ->
  settles_axis ITPM (toUnixMilli now) s s' r ai d /\
  settles_axis OTPM (toUnixMilli now) s s' r ao d /\
  rpm s' = rpm s /\ tpm s' = tpm s.
Proof. intros Re. apply SettleIO_settles, reachable_ok, Re. Qed.

Definition split_limits : Limits := mkLimits 10 0 1000 500.
Definition split_store : MemStore :=
  (Check 1700000000000000000 New sample_key split_limits (mkCost 1 0 300 200) "q1").1.
Definition sample_settleIO : MemStore * res Decision :=
  SettleIO 1700000001000000000 split_store "q1" 250 900.

Lemma split_reachable : reachable 1700000000000 split_store.
Proof.
  apply (reach_call 0 New 1700000000000000000
    (OpCheck sample_key split_limits (mkCost 1 0 300 200) "q1")).
  - apply reach_new.
  - vm_compute. discriminate.
  - vm_compute. split; discriminate.
  - vm_compute. split_and!; congruence.
Qed.

Lemma settleIO_reconciles_witness :
  let r := new_reservation true sample_key split_limits (mkCost 1 0 300 200) 1700000000000000000 in
  settles_axis ITPM 1700000001000 split_store sample_settleIO.1 r 250 (decision_of sample_settleIO.2) /\
  settles_axis OTPM 1700000001000 split_store sample_settleIO.1 r 900 (decision_of sample_settleIO.2) /\
  rpm sample_settleIO.1 = rpm split_store /\ tpm sample_settleIO.1 = tpm split_store.
Proof.
  apply (settleIO_reconciles 1700000000000 split_store 1700000001000000000 "q1").
  - apply split_reachable.
  - vm_compute. split_and!; congruence.
  - reflexivity.
  - reflexivity.
  - vm_compute. reflexivity.
  - vm_compute. reflexivity.
Defined.

(** Keys are isolated.  A call made for one subject and model, or on one of
    their reservations, leaves the buckets of every other subject and model as
    they were: bucket keys of subjects without the NUL separator are distinct
    unless subject and model (an empty model counting as a dash) agree. *)
Theorem keys_are_isolated s now o a subj mdl :
  nul_free subj = true ->
  (forall k, op_key s now o = Some k ->
    nul_free (Subject k) = true /\ (Subject k, modelOrDash (Model k)) <> (subj, modelOrDash mdl)) ->
  bmap a (apply now s o) !! bucketKey (mkKey subj mdl) = bmap a s !! bucketKey (mkKey subj mdl).
Proof.
  intros Nf H. apply apply_frame. intros k Ek E. destruct (H k Ek) as [Nk D]. apply D.
  unfold bucketKey in E. cbn [Subject Model] in E.
  destruct (nul_free_prefix subj (Subject k) _ _ Nf Nk E) as [-> ->]. reflexivity.
Qed.

Lemma keys_are_isolated_witness :
  bmap TPM (apply 1700000001000000000 sample_store (OpSettle "r1" 40)) !! bucketKey (mkKey "bob" "")
  = tpm sample_store !! bucketKey (mkKey "bob" "").
Proof.
  apply (keys_are_isolated sample_store 1700000001000000000 (OpSettle "r1" 40) TPM "bob" "").
  - reflexivity.
  - intros k E.
    assert (F : op_key sample_store 1700000001000000000 (OpSettle "r1" 40) = Some sample_key)
      by (vm_compute; reflexivity).
    rewrite F in E. injection E as <-. split; [reflexivity|discriminate].
Defined.

(** *** Expiry *)

(** [o] is no call on reservation [id]. *)
Definition untouched (id : string) (o : op) : Prop := ~ closing_call id o /\ no_check id o.

Lemma untouched_lookup now s o id :
  untouched id o ->
  reservations (apply now s o) !! id = reservations s !! id \/
  reservations (apply now s o) !! id = reservations (purgeExpired s now) !! id.
Proof.
  intros [C N]. destruct o as [k l c i|i a|i a b|i|k l sp|k l x1 x2 x3 x4]; cbn [apply closing_call no_check] in *.
  - destruct (Check_cases now s k l c i) as [s' e [R|R] _|s' d _ _ _ _ E|s' d _ _ _ _ E]; cbn [fst];
      [rewrite R; auto|rewrite R; auto|..]; right.
    + pose proof (checkSplit_recorded (purgeExpired s now) k l (clampCosts c) i now) as R. rewrite E in R.
      unfold recorded in R. cbn [fst snd] in R. destruct (Allowed d); rewrite R; [apply lookup_insert_ne, N|reflexivity].
    + pose proof (checkClassic_recorded (purgeExpired s now) k l (clampCosts c) i now) as R. rewrite E in R.
      unfold recorded in R. cbn [fst snd] in R. destruct (Allowed d); rewrite R; [apply lookup_insert_ne, N|reflexivity].
  - right. unfold Settle. cbv zeta. destruct (reservations (purgeExpired s now) !! i) as [r|]; [|reflexivity].
    destruct (split r); [reflexivity|]. destruct (rstatus r); try reflexivity.
    destruct (settleAxis _ _ _ _). apply lookup_insert_ne, C.
  - right. unfold SettleIO. cbv zeta. destruct (reservations (purgeExpired s now) !! i) as [r|]; [|reflexivity].
    destruct (split r); [|reflexivity]. destruct (rstatus r); try reflexivity. cbn [negb].
    destruct (settleAxis (loadBucket (itpm _) _ _ _) _ _ _), (settleAxis (loadBucket (otpm _) _ _ _) _ _ _).
    apply lookup_insert_ne, C.
  - right. unfold Refund. cbv zeta. destruct (reservations (purgeExpired s now) !! i) as [r|]; [|reflexivity].
    destruct (rstatus r); try reflexivity. destruct (split r); apply lookup_insert_ne, C.
  - left. rewrite Borrow_reservations. reflexivity.
  - left. rewrite Return_reservations. reflexivity.
Qed.

(** At time [t] reservation [id] is there as [r], or was purged after its expiry. *)
Definition keeps (id : string) (r : reservation) (t : Time) (s : MemStore) : Prop :=
  reservations s !! id = Some r \/ (reservations s !! id = None /\ expiresAt r < t).

Lemma keeps_view id r t s :
  keeps id r t s -> view s t id = if After t (expiresAt r) then None else Some (split r, rstatus r).
Proof.
  intros [E|[E L]]; rewrite view_eq, E; [reflexivity|]. unfold After. destruct (Z.ltb_spec (expiresAt r) t); [reflexivity|lia].
Qed.

Lemma keeps_after id r h : forall t s now,
  in_order t (h ++ [now]) -> Forall (fun e => untouched id e.2) h -> keeps id r t s -> keeps id r now.1 (after h s).
Proof.
  assert (L : forall t s now, t <= now -> keeps id r t s -> keeps id r now s) by (intros t s now H [E|[E X]]; [left|right; split]; (assumption || lia)).
  induction h as [|[n o] h IH]; intros t s [now x] O F K; cbn [app in_order after fold_left fst] in *; destruct O as [Le O].
  - exact (L t s now Le K).
  - apply Forall_cons in F as [U F]. apply (IH n _ (now, x) O F). apply (L t s n Le) in K. cbn [fst snd] in *.
    unfold keeps. cbn [fst snd]. destruct (untouched_lookup n s o id U) as [E|E].
    + rewrite E. exact K.
    + destruct (After n (expiresAt r)) eqn:A.
      * right. unfold After in A. apply Z.ltb_lt in A. split; [|exact A]. rewrite E. cbn [purgeExpired reservations].
        apply map_lookup_filter_None_2. destruct K as [K|[K _]]; [right|left; exact K].
        intros r' K' X. rewrite K in K'. injection K' as <-. unfold After in X. apply Z.ltb_ge in X. lia.
      * left. rewrite E. cbn [purgeExpired reservations]. apply map_lookup_filter_Some_2; [|exact A].
        destruct K as [K|[_ X]]; [exact K|]. unfold After in A. apply Z.ltb_ge in A. lia.
Qed.

(** A call that admits or closes a reservation starts its time to live. *)
Lemma changed_expires t s o id :
  view (apply t s o) t id <> view s t id ->
  exists r, reservations (apply t s o) !! id = Some r /\ expiresAt r = t + ReservationTTL.
Proof.
  assert (P : forall s', (reservations s' = reservations s \/ reservations s' = reservations (purgeExpired s t)) ->
    view s' t id = view s t id).
  { intros s' [E|E]; [rewrite !view_eq, E; reflexivity|apply view_same, E]. }
  assert (I : forall s' i r, reservations s' = <[i := r]> (reservations (purgeExpired s t)) ->
    expiresAt r = t + ReservationTTL -> view s' t id <> view s t id ->
    exists r, reservations s' !! id = Some r /\ expiresAt r = t + ReservationTTL).
  { intros s' i r E Ex V. destruct (decide (id = i)) as [->|N].
    - exists r. rewrite E, lookup_insert_eq. auto.
    - destruct V. apply (view_insert s s' t i r); [rewrite Ex; apply not_after_ttl|exact E|exact N]. }
  intros V. destruct o as [k l c i|i a|i a b|i|k l sp|k l x1 x2 x3 x4]; cbn [apply] in *.
  - destruct (Check_cases t s k l c i) as [s' e R _|s' d _ _ _ _ E|s' d _ _ _ _ E]; cbn [fst] in *.
    + destruct V. apply P. destruct R as [R|R]; rewrite R; auto.
    + pose proof (checkSplit_recorded (purgeExpired s t) k l (clampCosts c) i t) as R. rewrite E in R.
      unfold recorded in R. cbn [fst snd] in R. destruct (Allowed d); [exact (I s' i _ R eq_refl V)|].
      destruct V. apply P. rewrite R. auto.
    + pose proof (checkClassic_recorded (purgeExpired s t) k l (clampCosts c) i t) as R. rewrite E in R.
      unfold recorded in R. cbn [fst snd] in R. destruct (Allowed d); [exact (I s' i _ R eq_refl V)|].
      destruct V. apply P. rewrite R. auto.
  - unfold Settle in *. cbv zeta in *. destruct (reservations (purgeExpired s t) !! i) as [r|]; [|destruct V; apply P; auto].
    destruct (split r); [destruct V; apply P; auto|]. destruct (rstatus r); try (destruct V; apply P; auto; fail).
    destruct (settleAxis _ _ _ _). eapply I; [reflexivity|reflexivity|exact V].
  - unfold SettleIO in *. cbv zeta in *. destruct (reservations (purgeExpired s t) !! i) as [r|]; [|destruct V; apply P; auto].
    destruct (split r); [|destruct V; apply P; auto]. destruct (rstatus r); try (destruct V; apply P; auto; fail). cbn [negb] in *.
    destruct (settleAxis (loadBucket (itpm _) _ _ _) _ _ _), (settleAxis (loadBucket (otpm _) _ _ _) _ _ _).
    eapply I; [reflexivity|reflexivity|exact V].
  - unfold Refund in *. cbv zeta in *. destruct (reservations (purgeExpired s t) !! i) as [r|]; [|destruct V; apply P; auto].
    destruct (rstatus r); try (destruct V; apply P; auto; fail).
    destruct (split r); (eapply I; [reflexivity|reflexivity|exact V]).
  - destruct V. apply P. left. apply Borrow_reservations.
  - destruct V. apply P. left. apply Return_reservations.
Qed.

(** The calls on an id that is not known. *)
Lemma unknown_id s now id n m :
  view s now id = None ->
  Forall (fun out => out.2 = inr ErrReservationNotFound /\ same_buckets s out.1)
    [((Settle now s id n).1, Lifecycle.answer (Settle now s id n).2);
     ((SettleIO now s id n m).1, Lifecycle.answer (SettleIO now s id n m).2);
     ((Refund now s id).1, Lifecycle.answer (Refund now s id).2)].
Proof.
  intros V.
  assert (G : forall A f (out : MemStore * res A), (f None) = (None, inr ErrReservationNotFound) ->
    follows f now id s out -> Lifecycle.answer out.2 = inr ErrReservationNotFound /\ same_buckets s out.1).
  { intros A f out E (_ & An & _ & Sb). rewrite V, E in *. auto. }
  repeat constructor; cbn [fst snd];
    (eapply G; [|first [apply settle_follows|apply settleIO_follows|apply refund_follows]]); reflexivity.
Qed.

(** C39: reservations live for fifteen minutes.  From the call that admits it, or the one
    that settles or refunds it, and while no other call is made on its id, a reservation
    is as that call left it for exactly the time to live, whatever else happens in the
    store; at any later time its id is unknown: settling and refunding it answer that it
    is not found and change no bucket, so what it reserved stays spent. *)
Theorem reservations_expire s t o id h now n m :
  let s1 := apply t s o in
  view s1 t id <> view s t id ->
  in_order t (h ++ [(now, OpRefund id)]) -> Forall (fun e => untouched id e.2) h ->
  let s2 := after h s1 in
  (now <= t + ReservationTTL -> view s2 now id = view s1 t id) /\
  (t + ReservationTTL < now ->
   Forall (fun out => out.2 = inr ErrReservationNotFound /\ same_buckets s2 out.1)
    [((Settle now s2 id n).1, Lifecycle.answer (Settle now s2 id n).2);
     ((SettleIO now s2 id n m).1, Lifecycle.answer (SettleIO now s2 id n m).2);
     ((Refund now s2 id).1, Lifecycle.answer (Refund now s2 id).2)]).
Proof.
  intros s1 V O F s2. destruct (changed_expires t s o id V) as (r & L & Ex).
  pose proof (keeps_after id r h t s1 (now, OpRefund id) O F (or_introl L)) as K. cbn [fst] in K. fold s2 in K.
  apply keeps_view in K. rewrite Ex in K. unfold After in K. split; intros H.
  - rewrite K, view_eq. unfold s1. rewrite L, Ex. change (t + ReservationTTL) with (Add t ReservationTTL) at 2.
    rewrite not_after_ttl. destruct (Z.ltb_spec (t + ReservationTTL) now); [lia|reflexivity].
  - apply unknown_id. rewrite K. destruct (Z.ltb_spec (t + ReservationTTL) now); [reflexivity|lia].
Qed.

Lemma reservations_expire_witness :
  let s2 := after [(1700000100000000000, OpCheck sample_key sample_limits (mkCost 1 50 0 0) "r2")]
              (apply 1700000000000000000 New (OpCheck sample_key sample_limits (mkCost 1 100 0 0) "r1")) in
  view s2 1700000900000000000 "r1" = Some (false, pending) /\
  Lifecycle.answer (Settle 1700000900000000001 s2 "r1" 40).2 = inr ErrReservationNotFound.
Proof.
  pose proof (fun now => reservations_expire New 1700000000000000000
    (OpCheck sample_key sample_limits (mkCost 1 100 0 0) "r1") "r1"
    [(1700000100000000000, OpCheck sample_key sample_limits (mkCost 1 50 0 0) "r2")] now 40 2) as P.
  cbv zeta in *. split.
  - destruct (P 1700000900000000000) as [Q _].
    + vm_compute. discriminate.
    + apply (bool_decide_unpack _). vm_compute. exact I.
    + repeat constructor; [intros []|discriminate].
    + rewrite Q by (unfold ReservationTTL, Minute, Second; lia). vm_compute. reflexivity.
  - destruct (P 1700000900000000001) as [_ Q].
    + vm_compute. discriminate.
    + apply (bool_decide_unpack _). vm_compute. exact I.
    + repeat constructor; [intros []|discriminate].
    + specialize (Q ltac:(unfold ReservationTTL, Minute, Second; lia)). apply Forall_cons in Q as [[Q _] _]. exact Q.
Defined.
