(* ===== verification/Lease.v ===== *)
(** * Lease: local leases and the deny cache of pkg/lease

    [Pool] keeps the credits borrowed per key, the reservations made from them and
    the deny cache.  Every method holds the pool's mutex (the deny cache its own),
    so each is one step from the clock reading [now] and the pool to the pool after
    it and the results.  The [*localBucket] and [*Reservation] the maps hold are
    not shared between entries, so updating one in place is an update of the map. *)

From stdpp Require Import base tactics numbers strings gmap list.
From Stdlib Require Import ZArith Lia.
From S2P Require Import Prelude GoFloat Api Store.

(** ** config.go *)

Record Config := mkConfig {
  RPMChunk : Z; TPMChunk : Z; ITPMChunk : Z; OTPMChunk : Z; LeaseTTL : Duration
}.

#[export] Instance eta_Config : Eta Config := fun c =>
  mkConfig (RPMChunk c) (TPMChunk c) (ITPMChunk c) (OTPMChunk c) (LeaseTTL c).

Definition DefaultConfig : Config := mkConfig 5 500 500 500 (2 * Second).

Definition normalized (c : Config) : Config :=
  let c := if RPMChunk c <=? 0 then c <| RPMChunk := 5 |> else c in
  let c := if TPMChunk c <=? 0 then c <| TPMChunk := 500 |> else c in
  let c := if ITPMChunk c <=? 0 then c <| ITPMChunk := 500 |> else c in
  let c := if OTPMChunk c <=? 0 then c <| OTPMChunk := 500 |> else c in
  let c := if LeaseTTL c <=? 0 then c <| LeaseTTL := 2 * Second |> else c in
  c.

(** ** denycache.go *)

Record denyEntry := mkDenyEntry { until : Time; dlimitType : LimitType_t }.

Abbreviation DenyCache := (gmap string denyEntry) (only parsing).

Definition cacheKey (key : Key) : string :=
  let m := if decide (Model key = "") then "-" else Model key in
  Subject key +:+ NUL +:+ m.

(** [Get]: the limit type and the remaining wait, if the entry is still live. *)
Definition denyGet (now : Time) (c : DenyCache) (key : Key) : DenyCache * option (LimitType_t * Duration) :=
  match c !! cacheKey key with
  | None => (c, None)
  | Some e =>
      if negb (Before now (until e)) then (delete (cacheKey key) c, None)
      else (c, Some (dlimitType e, Sub (until e) now))
  end.

Definition denySet (now : Time) (c : DenyCache) (key : Key) (limitType : LimitType_t)
    (retryAfter : Duration) : DenyCache :=
  let retryAfter := if retryAfter <=? 0 then Second else retryAfter in
  <[cacheKey key := mkDenyEntry (Add now retryAfter) limitType]> c.

Definition denyClear (c : DenyCache) (key : Key) : DenyCache := delete (cacheKey key) c.

(** ** lease.go *)

Record localBucket := mkLocalBucket {
  lrpm : Z; ltpm : Z; litpm : Z; lotpm : Z; lexpiresAt : Time; llimits : Limits
}.

#[export] Instance eta_localBucket : Eta localBucket := fun b =>
  mkLocalBucket (lrpm b) (ltpm b) (litpm b) (lotpm b) (lexpiresAt b) (llimits b).

Record Reservation := mkReservation {
  RKey : Key;
  RLimits : Limits;
  RPMCost : Z;
  TPMReserved : Z;
  ITPMReserved : Z;
  OTPMReserved : Z;
  Status : status;
  LastDecision : Decision;
  ExpiresAt : Time
}.

#[export] Instance eta_Reservation : Eta Reservation := fun r =>
  mkReservation (RKey r) (RLimits r) (RPMCost r) (TPMReserved r) (ITPMReserved r)
    (OTPMReserved r) (Status r) (LastDecision r) (ExpiresAt r).

Record Pool := mkPool {
  cfg : Config;
  deny : DenyCache;
  lease : gmap string localBucket;
  pres : gmap string Reservation;
  hits : Z;
  miss : Z;
  borrows : Z
}.

#[export] Instance eta_Pool : Eta Pool := fun p =>
  mkPool (cfg p) (deny p) (lease p) (pres p) (hits p) (miss p) (borrows p).

Definition NewPool (c : Config) : Pool := mkPool (normalized c) ∅ ∅ ∅ 0 0 0.

Definition purgeResLocked (now : Time) (p : Pool) : Pool :=
  p <| pres := filter (fun '(_, r) => After now (ExpiresAt r) = false) (pres p) |>.

Definition getLeaseLocked (p : Pool) (key : Key) (now : Time) : Pool * option localBucket :=
  let k := cacheKey key in
  match lease p !! k with
  | None => (p, None)
  | Some b =>
      if negb (Before now (lexpiresAt b)) then (p <| lease := delete k (lease p) |>, None)
      else (p, Some b)
  end.

Definition covers (b : option localBucket) (cost : Cost) (split : bool) : bool :=
  match b with
  | None => false
  | Some b =>
      if lrpm b <? Requests cost then false
      else if split then (InputTokens cost <=? litpm b) && (OutputTokens cost <=? lotpm b)
      else Tokens cost <=? ltpm b
  end.

Definition Has (now : Time) (p : Pool) (key : Key) (cost : Cost) (limits : Limits) : Pool * bool :=
  let '(p, b) := getLeaseLocked p key now in (p, covers b cost (Split limits)).

(** [p.lease[k] = b] *)
Definition setLease (p : Pool) (key : Key) (b : localBucket) : Pool :=
  p <| lease := <[cacheKey key := b]> (lease p) |>.

(** [&localBucket{}] *)
Definition zeroBucket : localBucket := mkLocalBucket 0 0 0 0 zeroTime (mkLimits 0 0 0 0).

Definition CreditLease (now : Time) (p : Pool) (key : Key) (limits : Limits)
    (rpm tpm itpm otpm : Z) : Pool :=
  let b := match lease p !! cacheKey key with
           | Some b => if negb (Before now (lexpiresAt b)) then zeroBucket else b
           | None => zeroBucket
           end in
  setLease p key {|
    lrpm := wrap64 (lrpm b + rpm);
    ltpm := wrap64 (ltpm b + tpm);
    litpm := wrap64 (litpm b + itpm);
    lotpm := wrap64 (lotpm b + otpm);
    lexpiresAt := Add now (LeaseTTL (cfg p));
    llimits := limits
  |}.

Definition TryDebit (now : Time) (p : Pool) (key : Key) (limits : Limits) (cost : Cost)
    (reservationID : string) : Pool * option Decision :=
  let p := purgeResLocked now p in
  let '(p, ob) := getLeaseLocked p key now in
  let split := Split limits in
  match ob with
  | Some b =>
      if covers (Some b) cost split then
        let b := b <| lrpm := wrap64 (lrpm b - Requests cost) |> in
        let b := if split
                 then b <| litpm := wrap64 (litpm b - InputTokens cost) |>
                        <| lotpm := wrap64 (lotpm b - OutputTokens cost) |>
                 else b <| ltpm := wrap64 (ltpm b - Tokens cost) |> in
        let b := b <| lexpiresAt := Add now (LeaseTTL (cfg p)) |> in
        let p := setLease p key b in
        let p := p <| hits := wrap64 (hits p + 1) |> in
        let p := p <| pres := <[reservationID := {|
            RKey := key;
            RLimits := limits;
            RPMCost := Requests cost;
            TPMReserved := Tokens cost;
            ITPMReserved := InputTokens cost;
            OTPMReserved := OutputTokens cost;
            Status := pending;
            LastDecision := zeroDecision;
            ExpiresAt := Add now ReservationTTL
          |}]> (pres p) |> in
        let dec := zeroDecision
          <| Allowed := true |>
          <| RemainingRPM := lrpm b |>
          <| LimitRPM := RequestsPerMinute limits |>
          <| ReservationID := reservationID |> in
        let dec := if split
          then dec <| RemainingITPM := litpm b |>
                   <| RemainingOTPM := lotpm b |>
                   <| RemainingTPM := lotpm b |>
                   <| LimitITPM := InputTokensPerMinute limits |>
                   <| LimitOTPM := OutputTokensPerMinute limits |>
                   <| LimitTPM := OutputTokensPerMinute limits |>
          else dec <| RemainingTPM := ltpm b |>
                   <| LimitTPM := TokensPerMinute limits |> in
        (p, Some dec)
      else (p <| miss := wrap64 (miss p + 1) |>, None)
  | None => (p <| miss := wrap64 (miss p + 1) |>, None)
  end.

Definition NoteBorrow (p : Pool) : Pool := p <| borrows := wrap64 (borrows p + 1) |>.

Definition GetReservation (now : Time) (p : Pool) (id : string) : Pool * option Reservation :=
  let p := purgeResLocked now p in (p, pres p !! id).

(** The live lease of a reservation, or a new empty one. *)
Definition leaseFor (p : Pool) (r : Reservation) (now : Time) : Pool * localBucket :=
  let '(p, ob) := getLeaseLocked p (RKey r) now in
  match ob with
  | Some b => (p, b)
  | None =>
      let b := zeroBucket <| llimits := RLimits r |>
                          <| lexpiresAt := Add now (LeaseTTL (cfg p)) |> in
      (setLease p (RKey r) b, b)
  end.

(** New balance, overshoot, and whether credits came back. *)
Definition applyLocalDelta (bal reserved actual : Z) : Z * Z * bool :=
  let delta := wrap64 (reserved - actual) in
  if 0 <? delta then (wrap64 (bal + delta), 0, true)
  else if delta <? 0 then
    let need := wrap64 (- delta) in
    if need <=? bal then (wrap64 (bal - need), 0, false)
    else (0, wrap64 (need - bal), false)
  else (bal, 0, false).

Definition settledRes (r : Reservation) (dec : Decision) (now : Time) : Reservation :=
  r <| Status := settled |> <| LastDecision := dec |> <| ExpiresAt := Add now ReservationTTL |>.

(** [p.deny.Clear(key)] if credits came back. *)
Definition clearIf (restored : bool) (p : Pool) (key : Key) : Pool :=
  if restored then p <| deny := denyClear (deny p) key |> else p.

Definition nonneg (n : Z) : Z := if n <? 0 then 0 else n.

Definition SettleLocal (now : Time) (p : Pool) (id : string) (actualTokens : Z) : Pool * res Decision :=
  let p := purgeResLocked now p in
  match pres p !! id with
  | None => (p, Err ErrReservationNotFound)
  | Some r =>
      if Split (RLimits r) then (p, Err ErrWrongSettleMode)
      else match Status r with
      | settled => (p, Ok (LastDecision r))
      | refunded => (p, Err ErrReservationRefunded)
      | pending =>
          let actualTokens := nonneg actualTokens in
          let '(p, b) := leaseFor p r now in
          let delta := wrap64 (TPMReserved r - actualTokens) in
          let '(tpm, overshoot, restored) :=
            if 0 <? delta then (wrap64 (ltpm b + delta), 0, true)
            else if delta <? 0 then
              let need := wrap64 (- delta) in
              if need <=? ltpm b then (wrap64 (ltpm b - need), 0, false)
              else (0, wrap64 (need - ltpm b), false)
            else (ltpm b, 0, false) in
          let b := b <| ltpm := tpm |> <| lexpiresAt := Add now (LeaseTTL (cfg p)) |> in
          let p := setLease p (RKey r) b in
          let dec := zeroDecision
            <| Allowed := true |>
            <| RemainingRPM := lrpm b |>
            <| RemainingTPM := ltpm b |>
            <| LimitRPM := RequestsPerMinute (RLimits r) |>
            <| LimitTPM := TokensPerMinute (RLimits r) |>
            <| ReservationID := id |>
            <| OvershootTPM := overshoot |> in
          let p := p <| pres := <[id := settledRes r dec now]> (pres p) |> in
          (clearIf restored p (RKey r), Ok dec)
      end
  end.

Definition SettleLocalIO (now : Time) (p : Pool) (id : string) (actualInput actualOutput : Z)
    : Pool * res Decision :=
  let p := purgeResLocked now p in
  match pres p !! id with
  | None => (p, Err ErrReservationNotFound)
  | Some r =>
      if negb (Split (RLimits r)) then (p, Err ErrWrongSettleMode)
      else match Status r with
      | settled => (p, Ok (LastDecision r))
      | refunded => (p, Err ErrReservationRefunded)
      | pending =>
          let actualInput := nonneg actualInput in
          let actualOutput := nonneg actualOutput in
          let '(p, b) := leaseFor p r now in
          let '(itpm, overIn, restIn) := applyLocalDelta (litpm b) (ITPMReserved r) actualInput in
          let '(otpm, overOut, restOut) := applyLocalDelta (lotpm b) (OTPMReserved r) actualOutput in
          let b := b <| litpm := itpm |> <| lotpm := otpm |>
                     <| lexpiresAt := Add now (LeaseTTL (cfg p)) |> in
          let p := setLease p (RKey r) b in
          let dec := zeroDecision
            <| Allowed := true |>
            <| RemainingRPM := lrpm b |>
            <| RemainingITPM := litpm b |>
            <| RemainingOTPM := lotpm b |>
            <| RemainingTPM := lotpm b |>
            <| LimitRPM := RequestsPerMinute (RLimits r) |>
            <| LimitITPM := InputTokensPerMinute (RLimits r) |>
            <| LimitOTPM := OutputTokensPerMinute (RLimits r) |>
            <| LimitTPM := OutputTokensPerMinute (RLimits r) |>
            <| ReservationID := id |>
            <| OvershootITPM := overIn |>
            <| OvershootOTPM := overOut |> in
          let p := p <| pres := <[id := settledRes r dec now]> (pres p) |> in
          (clearIf (restIn || restOut) p (RKey r), Ok dec)
      end
  end.

(** Pays [over] from the balance: the balance left and the overshoot left. *)
Definition payOvershoot (bal over : Z) : Z * Z :=
  if 0 <? over then
    if over <=? bal then (wrap64 (bal - over), 0) else (0, wrap64 (over - bal))
  else (bal, over).

(** The lease is written back at the reservation's key. *)
Definition ApplyBorrowedDeficit (now : Time) (p : Pool) (id : string) (gotTPM : Z) : Pool :=
  match pres p !! id with
  | None => p
  | Some r =>
      let '(p, ob) := getLeaseLocked p (RKey r) now in
      match ob with
      | None => p
      | Some b =>
          let over := OvershootTPM (LastDecision r) in
          let '(tpm, left_) := payOvershoot (wrap64 (ltpm b + gotTPM)) over in
          let b := b <| ltpm := tpm |> in
          let d := LastDecision r in
          let d := d <| OvershootTPM := left_ |>
                     <| RemainingTPM := ltpm b |>
                     <| RemainingRPM := lrpm b |> in
          let p := setLease p (RKey r) b in
          let r := r <| LastDecision := d |> in
          p <| pres := <[id := r]> (pres p) |>
      end
  end.

Definition ApplyBorrowedDeficitIO (now : Time) (p : Pool) (id : string) (gotITPM gotOTPM : Z) : Pool :=
  match pres p !! id with
  | None => p
  | Some r =>
      let '(p, ob) := getLeaseLocked p (RKey r) now in
      match ob with
      | None => p
      | Some b =>
          let d := LastDecision r in
          let '(itpm, leftIn) := payOvershoot (wrap64 (litpm b + gotITPM)) (OvershootITPM d) in
          let '(otpm, leftOut) := payOvershoot (wrap64 (lotpm b + gotOTPM)) (OvershootOTPM d) in
          let b := b <| litpm := itpm |> <| lotpm := otpm |> in
          let d := d <| OvershootITPM := leftIn |>
                     <| OvershootOTPM := leftOut |>
                     <| RemainingITPM := litpm b |>
                     <| RemainingOTPM := lotpm b |>
                     <| RemainingTPM := lotpm b |>
                     <| RemainingRPM := lrpm b |> in
          let p := setLease p (RKey r) b in
          let r := r <| LastDecision := d |> in
          p <| pres := <[id := r]> (pres p) |>
      end
  end.

Definition RefundLocal (now : Time) (p : Pool) (id : string) : Pool * res unit :=
  let p := purgeResLocked now p in
  match pres p !! id with
  | None => (p, Err ErrReservationNotFound)
  | Some r =>
      match Status r with
      | refunded => (p, Ok tt)
      | settled => (p, Err ErrReservationSettled)
      | pending =>
          let '(p, b) := leaseFor p r now in
          let b := b <| lrpm := wrap64 (lrpm b + RPMCost r) |> in
          let b := if Split (RLimits r)
                   then b <| litpm := wrap64 (litpm b + ITPMReserved r) |>
                          <| lotpm := wrap64 (lotpm b + OTPMReserved r) |>
                   else b <| ltpm := wrap64 (ltpm b + TPMReserved r) |> in
          let b := b <| lexpiresAt := Add now (LeaseTTL (cfg p)) |> in
          let p := setLease p (RKey r) b in
          let r := r <| Status := refunded |> <| ExpiresAt := Add now ReservationTTL |> in
          let p := p <| pres := <[id := r]> (pres p) |> in
          (p <| deny := denyClear (deny p) (RKey r) |>, Ok tt)
      end
  end.

(** *** SnapshotLeases *)

Record LeaseSnap := mkLeaseSnap {
  SKey : Key; SLimits : Limits; SRPM : Z; STPM : Z; SITPM : Z; SOTPM : Z
}.

(** Cuts at the first NUL byte. *)
Fixpoint splitKey (k : string) : string * string :=
  match k with
  | EmptyString => ("", "-")
  | String.String c k' =>
      if Ascii.eqb c Ascii.zero then ("", k')
      else let '(a, b) := splitKey k' in (String.String c a, b)
  end.

(** The lease has credits to give back. *)
Definition returnable (now : Time) (b : localBucket) : bool :=
  Before now (lexpiresAt b) &&
  negb ((lrpm b <=? 0) && (ltpm b <=? 0) && (litpm b <=? 0) && (lotpm b <=? 0)).

Definition snap (k : string) (b : localBucket) : LeaseSnap :=
  let parts := splitKey k in
  mkLeaseSnap (mkKey parts.1 parts.2) (llimits b) (lrpm b) (ltpm b) (litpm b) (lotpm b).

Definition emptied (b : localBucket) : localBucket :=
  b <| lrpm := 0 |> <| ltpm := 0 |> <| litpm := 0 |> <| lotpm := 0 |>.

(** [order] is the order in which the range over the map visits its entries. *)
Definition SnapshotLeases (now : Time) (order : list (string * localBucket)) (p : Pool)
    : Pool * list LeaseSnap :=
  let live := filter (fun '(_, b) => returnable now b = true) order in
  (p <| lease := (fun b => if returnable now b then emptied b else b) <$> lease p |>,
   map (fun '(k, b) => snap k b) live).

(** ** Statistics *)

Definition HitRatio (p : Pool) : float64 :=
  let total := wrap64 (hits p + miss p) in
  if total =? 0 then 0 else fdiv (of_int (hits p)) (of_int total).

(** ** Facts *)

Lemma normalized_spec c :
  0 < RPMChunk (normalized c) /\ 0 < TPMChunk (normalized c) /\ 0 < ITPMChunk (normalized c) /\
  0 < OTPMChunk (normalized c) /\ 0 < LeaseTTL (normalized c).
Proof.
  unfold normalized. cbv zeta.
  destruct (Z.leb_spec (RPMChunk c) 0); cbn [RPMChunk TPMChunk ITPMChunk OTPMChunk LeaseTTL];
  destruct (Z.leb_spec (TPMChunk c) 0); cbn [RPMChunk TPMChunk ITPMChunk OTPMChunk LeaseTTL];
  destruct (Z.leb_spec (ITPMChunk c) 0); cbn [RPMChunk TPMChunk ITPMChunk OTPMChunk LeaseTTL];
  destruct (Z.leb_spec (OTPMChunk c) 0); cbn [RPMChunk TPMChunk ITPMChunk OTPMChunk LeaseTTL];
  destruct (Z.leb_spec (LeaseTTL c) 0); cbn [RPMChunk TPMChunk ITPMChunk OTPMChunk LeaseTTL];
  unfold Second; lia.
Qed.

Lemma nonneg_max n : nonneg n = Z.max 0 n.
Proof. unfold nonneg. destruct (Z.ltb_spec n 0); lia. Qed.

(** *** Live credits *)

Definition lbal (a : axis) (b : localBucket) : Z :=
  match a with RPM => lrpm b | TPM => ltpm b | ITPM => litpm b | OTPM => lotpm b end.

Definition rres_of (a : axis) (r : Reservation) : Z :=
  match a with
  | RPM => RPMCost r | TPM => TPMReserved r | ITPM => ITPMReserved r | OTPM => OTPMReserved r
  end.

(** The credits of an axis a key can still spend at [now]. *)
Definition live (a : axis) (k : string) (now : Time) (p : Pool) : Z :=
  match lease p !! k with
  | Some b => if Before now (lexpiresAt b) then lbal a b else 0
  | None => 0
  end.

(** Balances within [K], reservations and their overshoots within [A]. *)
Definition bucket_in (K : Z) (b : localBucket) : Prop := forall a, 0 <= lbal a b <= K.

Definition over_of (a : axis) (d : Decision) : Z :=
  match a with RPM => 0 | TPM => OvershootTPM d | ITPM => OvershootITPM d | OTPM => OvershootOTPM d end.

Definition res_in (A : Z) (r : Reservation) : Prop :=
  forall a, 0 <= rres_of a r <= A /\ 0 <= over_of a (LastDecision r) <= A.

Record pool_ok (A K : Z) (p : Pool) : Prop := {
  ok_ttl : 0 < LeaseTTL (cfg p);
  ok_lease : map_Forall (fun _ => bucket_in K) (lease p);
  ok_pres : map_Forall (fun _ => res_in A) (pres p)
}.

Lemma NewPool_ok c A K : pool_ok A K (NewPool c).
Proof.
  split; [apply normalized_spec|apply map_Forall_empty|apply map_Forall_empty].
Qed.

Lemma pool_ok_mono A K K' p : K <= K' -> pool_ok A K p -> pool_ok A K' p.
Proof.
  intros H [T L R]. split; auto. intros k b E a. specialize (L k b E a). cbn in L. lia.
Qed.

Lemma purgeRes_ok A K now p : pool_ok A K p -> pool_ok A K (purgeResLocked now p).
Proof.
  intros [T L R]. split; auto. intros id r [E _]%map_lookup_filter_Some. exact (R id r E).
Qed.

Lemma live_purgeRes a k now t p : live a k t (purgeResLocked now p) = live a k t p.
Proof. reflexivity. Qed.

(** Time only takes live credits away. *)
Lemma live_later A K a k now now' p :
  pool_ok A K p -> now <= now' -> live a k now' p <= live a k now p.
Proof.
  intros [_ L _] H. unfold live, Before. destruct (lease p !! k) as [b|] eqn:E; [|lia].
  specialize (L k b E a). cbn in L.
  destruct (Z.ltb_spec now (lexpiresAt b)), (Z.ltb_spec now' (lexpiresAt b)); lia.
Qed.

Lemma live_range A K a k now p : 0 <= K -> pool_ok A K p -> 0 <= live a k now p <= K.
Proof.
  intros H0 [_ L _]. unfold live. destruct (lease p !! k) as [b|] eqn:E; [|lia].
  specialize (L k b E a). cbn in L. destruct (Before now (lexpiresAt b)); lia.
Qed.

(** Reading a lease drops it if it expired, which loses nothing live. *)
Lemma getLease_spec A K p key now :
  pool_ok A K p ->
  let '(p', ob) := getLeaseLocked p key now in
  pool_ok A K p' /\ cfg p' = cfg p /\ pres p' = pres p /\
  (forall a k, live a k now p' = live a k now p) /\
  match ob with
  | Some b => p' = p /\ bucket_in K b /\ (forall a, live a (cacheKey key) now p = lbal a b) /\
              Before now (lexpiresAt b) = true
  | None => forall a, live a (cacheKey key) now p = 0
  end.
Proof.
  intros OK. unfold getLeaseLocked. cbv zeta.
  destruct (lease p !! cacheKey key) as [b|] eqn:E.
  - destruct (Before now (lexpiresAt b)) eqn:B; cbn [negb].
    + split_and!; auto; [apply (ok_lease _ _ _ OK _ _ E)|].
      intros a. unfold live. rewrite E, B. reflexivity.
    + split_and!; auto.
      * destruct OK as [T L R]. split; auto. apply map_Forall_delete. exact L.
      * intros a k. unfold live. cbn [lease]. destruct (decide (k = cacheKey key)) as [->|N].
        -- rewrite lookup_delete_eq, E, B. reflexivity.
        -- rewrite lookup_delete_ne by congruence. reflexivity.
      * intros a. unfold live. rewrite E, B. reflexivity.
  - split_and!; auto. intros a. unfold live. rewrite E. reflexivity.
Qed.

Lemma setLease_ok A K p key b : pool_ok A K p -> bucket_in K b -> pool_ok A K (setLease p key b).
Proof. intros [T L R] B. split; auto. apply map_Forall_insert_2; assumption. Qed.

(** Writing a live lease. *)
Lemma live_setLease a k p key b now :
  Before now (lexpiresAt b) = true ->
  live a k now (setLease p key b) = if decide (k = cacheKey key) then lbal a b else live a k now p.
Proof.
  intros B. unfold live, setLease. cbn [lease]. case_decide as D.
  - subst. rewrite lookup_insert_eq, B. reflexivity.
  - rewrite lookup_insert_ne by congruence. reflexivity.
Qed.

Lemma ttl_live now d : 0 < d -> Before now (Add now d) = true.
Proof. intros. unfold Before, Add. apply Z.ltb_lt. lia. Qed.

Lemma zero_lbal a : lbal a zeroBucket = 0.
Proof. destruct a; reflexivity. Qed.

(** The lease of a reservation holds its live credits. *)
Lemma leaseFor_spec A K p r now :
  0 <= K -> pool_ok A K p ->
  let '(p', b) := leaseFor p r now in
  pool_ok A K p' /\ cfg p' = cfg p /\ pres p' = pres p /\
  (forall a k, live a k now p' = live a k now p) /\
  bucket_in K b /\ (forall a, live a (cacheKey (RKey r)) now p = lbal a b).
Proof.
  intros HK OK. unfold leaseFor. pose proof (getLease_spec A K p (RKey r) now OK) as G.
  destruct (getLeaseLocked p (RKey r) now) as [p' [b|]]; destruct G as (G1 & G2 & G3 & G4 & G5).
  - destruct G5 as (-> & B & L & _). split_and!; auto.
  - cbv zeta.
    assert (B : forall b, b = mkLocalBucket 0 0 0 0 (Add now (LeaseTTL (cfg p'))) (RLimits r) ->
      bucket_in K b /\ forall a, lbal a b = 0) by
      (intros b ->; split; intros []; cbn; lia).
    destruct (B _ eq_refl) as [B1 B2]. fold (setLease p') in *. split_and!; auto.
    + apply setLease_ok; assumption.
    + intros a k. rewrite live_setLease by (cbn [lexpiresAt]; apply ttl_live; rewrite G2; apply OK).
      case_decide as D; [subst; rewrite B2, G5; reflexivity|apply G4].
    + intros a. rewrite B2. apply G5.
Qed.
