(* ===== verification/LeaseSpec.v ===== *)
(** * LeaseSpec: what the local leases guarantee

    A lease never spends credits it was not given: over any history of the pool's
    methods, in any order, what was debited from a key's lease (net of refunds
    and downward settlements) is at most what was credited to it.  Reservations
    of the fast path follow [Store.Lifecycle] like those of the store. *)

From stdpp Require Import base tactics numbers strings gmap list.
From Stdlib Require Import ZArith Lia.
From S2P Require Import Prelude GoFloat Api Store Lease.

(** ** Histories of the pool *)

Inductive pop : Type :=
| PCredit (key : Key) (l : Limits) (rpm tpm itpm otpm : Z)
| PDebit (key : Key) (l : Limits) (cost : Cost) (id : string)
| PSettle (id : string) (actual : Z)
| PSettleIO (id : string) (ai ao : Z)
| PDeficit (id : string) (got : Z)
| PDeficitIO (id : string) (gi go : Z)
| PRefund (id : string)
| PHas (key : Key) (cost : Cost) (l : Limits)
| PGet (id : string)
| PSnapshot (order : list (string * localBucket)).

(** The pool after one call. *)
Definition papply (now : Time) (p : Pool) (o : pop) : Pool :=
  match o with
  | PCredit k l r t i o => CreditLease now p k l r t i o
  | PDebit k l c id => (TryDebit now p k l c id).1
  | PSettle id n => (SettleLocal now p id n).1
  | PSettleIO id i o => (SettleLocalIO now p id i o).1
  | PDeficit id g => ApplyBorrowedDeficit now p id g
  | PDeficitIO id gi go => ApplyBorrowedDeficitIO now p id gi go
  | PRefund id => (RefundLocal now p id).1
  | PHas k c l => (Has now p k c l).1
  | PGet id => (GetReservation now p id).1
  | PSnapshot order => (SnapshotLeases now order p).1
  end.

(** Amounts between 0 and [A]; settled amounts may also be negative (they count as
    zero). *)
Definition pop_ok (A : Z) (o : pop) : Prop :=
  match o with
  | PCredit _ _ r t i o => 0 <= r <= A /\ 0 <= t <= A /\ 0 <= i <= A /\ 0 <= o <= A
  | PDebit _ _ c _ => forall a, 0 <= cost_of a c <= A
  | PSettle _ n => n <= A
  | PSettleIO _ i o => i <= A /\ o <= A
  | PDeficit _ g => 0 <= g <= A
  | PDeficitIO _ i o => 0 <= i <= A /\ 0 <= o <= A
  | _ => True
  end.

(** The pending reservation a settlement or a refund at [now] finds. *)
Definition pending_res (p : Pool) (now : Time) (id : string) : option Reservation :=
  match pres (purgeResLocked now p) !! id with
  | Some r => match Status r with pending => Some r | _ => None end
  | None => None
  end.

(** Credits a call gives to the lease of key [k] on axis [a]. *)
Definition given (a : axis) (k : string) (now : Time) (p : Pool) (o : pop) : Z :=
  let deficit id (g : Z) :=
    match pres p !! id with
    | Some r => if bool_decide (cacheKey (RKey r) = k) then
        match (getLeaseLocked p (RKey r) now).2 with Some _ => g | None => 0 end else 0
    | None => 0
    end in
  match o with
  | PCredit key _ r t i o =>
      if bool_decide (cacheKey key = k)
      then match a with RPM => r | TPM => t | ITPM => i | OTPM => o end else 0
  | PDeficit id g => match a with TPM => deficit id g | _ => 0 end
  | PDeficitIO id gi go => match a with ITPM => deficit id gi | OTPM => deficit id go | _ => 0 end
  | _ => 0
  end.

(** What one call spends of them, negative when it gives some back: the cost of a
    debit, the use beyond the reservation a settlement pays, the overshoot a
    later loan pays. *)
Definition settle_spent (a : axis) (k : string) (sp : bool) (p : Pool) (now : Time) (id : string)
    (actual : Z) (out : res Decision) : Z :=
  match pending_res p now id, out with
  | Some r, Ok d =>
      if bool_decide (cacheKey (RKey r) = k) && Bool.eqb sp (Split (RLimits r))
      then nonneg actual - rres_of a r - over_of a d else 0
  | _, _ => 0
  end.

(** The overshoot on record for a reservation. *)
Definition owed (a : axis) (p : Pool) (id : string) : Z :=
  match pres p !! id with Some r => over_of a (LastDecision r) | None => 0 end.

Definition deficit_paid (a : axis) (k : string) (p p' : Pool) (id : string) : Z :=
  match pres p !! id with
  | Some r => if bool_decide (cacheKey (RKey r) = k) then owed a p id - owed a p' id else 0
  | None => 0
  end.

Definition spent (a : axis) (k : string) (now : Time) (p : Pool) (o : pop) : Z :=
  match o with
  | PDebit key l c id =>
      match (TryDebit now p key l c id).2 with
      | Some _ => if bool_decide (cacheKey key = k) && counts a (Split l) then cost_of a c else 0
      | None => 0
      end
  | PSettle id n =>
      match a with TPM => settle_spent a k false p now id n (SettleLocal now p id n).2 | _ => 0 end
  | PSettleIO id i o =>
      match a with
      | ITPM => settle_spent a k true p now id i (SettleLocalIO now p id i o).2
      | OTPM => settle_spent a k true p now id o (SettleLocalIO now p id i o).2
      | _ => 0
      end
  | PDeficit id _ => match a with TPM => deficit_paid a k p (papply now p o) id | _ => 0 end
  | PDeficitIO id _ _ =>
      match a with ITPM | OTPM => deficit_paid a k p (papply now p o) id | _ => 0 end
  | PRefund id =>
      match pending_res p now id with
      | Some r => if bool_decide (cacheKey (RKey r) = k) && counts a (Split (RLimits r))
                  then - rres_of a r else 0
      | None => 0
      end
  | _ => 0
  end.

(** ** One call *)

(** The call keeps the pool well formed and the live credits of [k] pay for it. *)
Definition accounts (a : axis) (k : string) (now : Time) (A K : Z) (p p' : Pool) (g q : Z) : Prop :=
  pool_ok A (K + A) p' /\ cfg p' = cfg p /\ live a k now p' + q <= live a k now p + g.

Ltac lbals := unfold bucket_in in *; cbn [lbal lrpm ltpm litpm lotpm lexpiresAt llimits] in *.

Lemma wrap_small z : int64_min <= z <= int64_max -> wrap64 z = z.
Proof. apply wrap64_id. Qed.

(** Settling one balance. *)
Lemma applyLocalDelta_spec A K bal reserved actual :
  0 <= bal <= K -> 0 <= reserved <= A -> 0 <= actual <= A -> 0 <= A -> K + A <= int64_max ->
  let '(bal', over, restored) := applyLocalDelta bal reserved actual in
  0 <= bal' <= K + A /\ 0 <= over <= A /\ bal' = bal + reserved - actual + over /\
  (0 < over -> bal' = 0) /\ restored = (actual <? reserved).
Proof.
  intros Hb Hr Ha HA HK. unfold applyLocalDelta. cbv zeta. unfold int64_max in HK.
  rewrite (wrap_small (reserved - actual)) by (unfold int64_min, int64_max; lia).
  destruct (Z.ltb_spec 0 (reserved - actual)).
  { rewrite wrap_small by (unfold int64_min, int64_max; lia).
    split_and!; lia. }
  assert (N : (actual <? reserved) = false) by (apply Z.ltb_ge; lia). rewrite N.
  destruct (Z.ltb_spec (reserved - actual) 0).
  - rewrite (wrap_small (- (reserved - actual))) by (unfold int64_min, int64_max; lia).
    destruct (Z.leb_spec (- (reserved - actual)) bal);
      rewrite wrap_small by (unfold int64_min, int64_max; lia); split_and!; lia.
  - split_and!; lia.
Qed.

Lemma pres_clearIf b p key : pres (clearIf b p key) = pres p.
Proof. destruct b; reflexivity. Qed.

Lemma lease_clearIf b p key : lease (clearIf b p key) = lease p.
Proof. destruct b; reflexivity. Qed.

Lemma payOvershoot_spec A K bal over :
  0 <= bal <= K -> 0 <= over <= A -> K <= int64_max -> A <= int64_max ->
  let '(bal', left_) := payOvershoot bal over in
  0 <= bal' <= K /\ 0 <= left_ <= over /\ bal' + (over - left_) = bal.
Proof.
  intros. unfold payOvershoot. destruct (Z.ltb_spec 0 over); [|split_and!; lia].
  destruct (Z.leb_spec over bal); rewrite wrap_small by (unfold int64_min, int64_max in *; lia);
    split_and!; lia.
Qed.

Section OneCall.
Context (A K : Z) (p : Pool) (now : Time) (a : axis) (k : string).
Context (OK : pool_ok A K p) (HA : 0 <= A) (HK : 0 <= K) (KA : K + A <= int64_max).

Let OKA : pool_ok A (K + A) p.
Proof. apply (pool_ok_mono A K); [lia|exact OK]. Qed.

Lemma accounts_same p' :
  pool_ok A K p' -> cfg p' = cfg p -> (forall a k, live a k now p' = live a k now p) ->
  accounts a k now A K p p' 0 0.
Proof.
  intros O C L. split_and!; [apply (pool_ok_mono A K); [lia|exact O]|exact C|].
  rewrite L. lia.
Qed.

Lemma accounts_refl : accounts a k now A K p p 0 0.
Proof. apply accounts_same; auto. Qed.

(** Writing the lease of [key], whose live credits were [b0]'s. *)
Lemma accounts_set p0 p' key b0 b g q :
  lease p' = <[cacheKey key := b]> (lease p0) -> cfg p' = cfg p0 ->
  pool_ok A K p0 -> cfg p0 = cfg p -> (forall a k, live a k now p0 = live a k now p) ->
  (forall a, live a (cacheKey key) now p = lbal a b0) ->
  bucket_in (K + A) b -> Before now (lexpiresAt b) = true ->
  map_Forall (fun _ => res_in A) (pres p') ->
  (if bool_decide (cacheKey key = k) then lbal a b + q <= lbal a b0 + g else q <= g) ->
  accounts a k now A K p p' g q.
Proof.
  intros E E' O C L B0 B Bl R Q.
  assert (Lv : live a k now p' = if decide (k = cacheKey key) then lbal a b else live a k now p0).
  { rewrite <- live_setLease by exact Bl. unfold live at 1. rewrite E. reflexivity. }
  split_and!; [split; [| |exact R]|congruence|].
  - rewrite E'. apply O.
  - rewrite E. apply map_Forall_insert_2; [exact B|].
    apply (pool_ok_mono A K); [lia|exact O].
  - rewrite Lv. destruct (decide (cacheKey key = k)) as [D|D].
    + rewrite bool_decide_eq_true_2 in Q by exact D. rewrite decide_True by congruence.
      rewrite <- D, B0. exact Q.
    + rewrite bool_decide_eq_false_2 in Q by exact D. rewrite decide_False by congruence.
      rewrite L. lia.
Qed.

Lemma CreditLease_accounts key l r t i o :
  0 <= r <= A /\ 0 <= t <= A /\ 0 <= i <= A /\ 0 <= o <= A ->
  accounts a k now A K p (CreditLease now p key l r t i o)
    (given a k now p (PCredit key l r t i o)) 0.
Proof.
  intros (R1 & R2 & R3 & R4). unfold CreditLease. cbv zeta. cbn [given].
  set (b0 := match lease p !! cacheKey key with
             | Some b => if negb (Before now (lexpiresAt b)) then zeroBucket else b
             | None => zeroBucket end).
  assert (B0 : forall a, live a (cacheKey key) now p = lbal a b0 /\ 0 <= lbal a b0 <= K).
  { intros x. pose proof (live_range A K x (cacheKey key) now p HK OK) as Rg. revert Rg.
    unfold live, b0. destruct (lease p !! cacheKey key) as [b|]; [destruct (Before now (lexpiresAt b))|];
      cbn [negb]; rewrite ?zero_lbal; auto. }
  pose proof (proj2 (B0 RPM)) as I1. pose proof (proj2 (B0 TPM)) as I2.
  pose proof (proj2 (B0 ITPM)) as I3. pose proof (proj2 (B0 OTPM)) as I4. cbn [lbal] in *.
  unfold int64_max in KA.
  rewrite !wrap_small by (unfold int64_min, int64_max; lia).
  eapply (accounts_set p _ key b0); eauto; try apply B0.
  - intros x; destruct x; cbn [lbal lrpm ltpm litpm lotpm]; lia.
  - apply ttl_live, OK.
  - apply OK.
  - case_bool_decide; [|reflexivity].
    destruct a; cbn [lbal lrpm ltpm litpm lotpm]; lia.
Qed.

Lemma TryDebit_accounts key l c id :
  (forall a, 0 <= cost_of a c <= A) ->
  accounts a k now A K p (TryDebit now p key l c id).1 0 (spent a k now p (PDebit key l c id)).
Proof.
  intros C. cbn [spent]. unfold TryDebit. cbv zeta.
  pose proof (purgeRes_ok A K now p OK) as OK'.
  pose proof (getLease_spec A K (purgeResLocked now p) key now OK') as G.
  destruct (getLeaseLocked (purgeResLocked now p) key now) as [p0 ob].
  destruct G as (O & Cf & Pr & L & G).
  destruct ob as [b|]; [|apply accounts_same; [destruct O; split; assumption|exact Cf|exact L]].
  destruct G as (-> & B & Lb & Bl).
  destruct (covers (Some b) c (Split l)) eqn:Cov; [|apply accounts_same; [destruct O; split; assumption|exact Cf|exact L]].
  pose proof (B RPM) as I1. pose proof (B TPM) as I2. pose proof (B ITPM) as I3. pose proof (B OTPM) as I4.
  pose proof (C RPM) as C1. pose proof (C TPM) as C2. pose proof (C ITPM) as C3. pose proof (C OTPM) as C4.
  cbn [lbal cost_of] in *. unfold int64_max in KA. cbn [covers] in Cov.
  cbn [lrpm ltpm litpm lotpm lexpiresAt llimits].
  assert (R : res_in A (mkReservation key l (Requests c) (Tokens c) (InputTokens c) (OutputTokens c)
                pending zeroDecision (Add now ReservationTTL))).
  { intros x; destruct x; cbn [rres_of over_of RPMCost TPMReserved ITPMReserved OTPMReserved
      LastDecision zeroDecision OvershootTPM OvershootITPM OvershootOTPM]; lia. }
  destruct (Z.ltb_spec (lrpm b) (Requests c)) as [|Cr]; [discriminate|].
  destruct (Split l); bool_to_prop; cbn [fst snd];
    (rewrite !wrap_small by (unfold int64_min, int64_max; lia));
    (eapply (accounts_set (purgeResLocked now p) _ key b); [reflexivity|reflexivity|exact O|exact Cf|exact L|exact Lb| | | |]).
  all: try (apply map_Forall_insert_2; [exact R|apply O]).
  all: try (cbn [lexpiresAt]; apply ttl_live; apply O).
  all: try (intros x; destruct x; cbn [lbal lrpm ltpm litpm lotpm]; lia).
  all: case_bool_decide; cbn [andb]; destruct a; cbn [counts negb lbal lrpm ltpm litpm lotpm cost_of]; lia.
Qed.

Lemma res_in_settled r d : res_in A r -> (forall a, 0 <= over_of a d <= A) ->
  res_in A (settledRes r d now).
Proof. intros R D x. split; [|apply D]. specialize (R x). destruct x; apply R. Qed.

(** [SettleLocal] is [applyLocalDelta] on the token balance. *)
Lemma SettleLocal_accounts id n :
  n <= A ->
  accounts a k now A K p (SettleLocal now p id n).1 0 (spent a k now p (PSettle id n)).
Proof.
  intros Hn. cbn [spent]. unfold settle_spent, SettleLocal, pending_res. cbv zeta.
  pose proof (purgeRes_ok A K now p OK) as OK'.
  assert (Same : accounts a k now A K p (purgeResLocked now p) 0 0)
    by (apply accounts_same; auto).
  destruct (pres (purgeResLocked now p) !! id) as [r|] eqn:E; [|destruct a; exact Same].
  pose proof (ok_pres _ _ _ OK' id r E) as R.
  destruct (Split (RLimits r)) eqn:Sp;
    [destruct (Status r); destruct a; cbn [Bool.eqb fst snd]; rewrite ?andb_false_r; exact Same|].
  destruct (Status r) eqn:St; try (destruct a; exact Same).
  pose proof (leaseFor_spec A K (purgeResLocked now p) r now HK OK') as G.
  destruct (leaseFor (purgeResLocked now p) r now) as [p0 b].
  destruct G as (O & Cf & Pr & L & B & Lb).
  pose proof (applyLocalDelta_spec A K (ltpm b) (TPMReserved r) (nonneg n) (B TPM)
    (proj1 (R TPM)) ltac:(rewrite nonneg_max; lia) HA KA) as D.
  unfold applyLocalDelta in D. cbv zeta in D.
  destruct (if 0 <? wrap64 (TPMReserved r - nonneg n) then _ else _) as [[tpm' over] restored].
  destruct D as (D1 & D2 & D3 & _).
  pose proof (B RPM) as I1. pose proof (B TPM) as I2. pose proof (B ITPM) as I3. pose proof (B OTPM) as I4.
  cbn [lbal fst snd] in *.
  eapply (accounts_set p0 _ (RKey r) b);
    [destruct restored; reflexivity|destruct restored; reflexivity
    |exact O|exact Cf|exact L|exact Lb| | | |].
  - intros x; destruct x; cbn [lbal lrpm ltpm litpm lotpm]; lia.
  - cbn [lexpiresAt]. apply ttl_live, O.
  - rewrite pres_clearIf. cbn [pres setLease].
    apply map_Forall_insert_2; [|apply O].
    apply res_in_settled; [exact R|]. intros x; destruct x; cbn [over_of OvershootTPM OvershootITPM OvershootOTPM]; lia.
  - rewrite ?Sp. case_bool_decide; destruct a;
      cbn [andb Bool.eqb over_of OvershootTPM rres_of lbal lrpm ltpm litpm lotpm]; lia.
Qed.

Lemma SettleLocalIO_accounts id i o :
  i <= A -> o <= A ->
  accounts a k now A K p (SettleLocalIO now p id i o).1 0 (spent a k now p (PSettleIO id i o)).
Proof.
  intros Hi Ho. cbn [spent]. unfold settle_spent, SettleLocalIO, pending_res. cbv zeta.
  pose proof (purgeRes_ok A K now p OK) as OK'.
  assert (Same : accounts a k now A K p (purgeResLocked now p) 0 0)
    by (apply accounts_same; auto).
  destruct (pres (purgeResLocked now p) !! id) as [r|] eqn:E; [|destruct a; exact Same].
  pose proof (ok_pres _ _ _ OK' id r E) as R.
  destruct (Split (RLimits r)) eqn:Sp; cbn [negb];
    [|destruct (Status r); destruct a; cbn [Bool.eqb fst snd]; rewrite ?andb_false_r; exact Same].
  destruct (Status r) eqn:St; try (destruct a; exact Same).
  pose proof (leaseFor_spec A K (purgeResLocked now p) r now HK OK') as G.
  destruct (leaseFor (purgeResLocked now p) r now) as [p0 b].
  destruct G as (O & Cf & Pr & L & B & Lb).
  pose proof (applyLocalDelta_spec A K (litpm b) (ITPMReserved r) (nonneg i) (B ITPM)
    (proj1 (R ITPM)) ltac:(rewrite nonneg_max; lia) HA KA) as Di.
  pose proof (applyLocalDelta_spec A K (lotpm b) (OTPMReserved r) (nonneg o) (B OTPM)
    (proj1 (R OTPM)) ltac:(rewrite nonneg_max; lia) HA KA) as Do.
  destruct (applyLocalDelta (litpm b) _ _) as [[itpm' overI] restI].
  destruct (applyLocalDelta (lotpm b) _ _) as [[otpm' overO] restO].
  destruct Di as (D1 & D2 & D3 & _), Do as (D4 & D5 & D6 & _).
  pose proof (B RPM) as I1. pose proof (B TPM) as I2.
  cbn [lbal fst snd] in *.
  eapply (accounts_set p0 _ (RKey r) b);
    [rewrite lease_clearIf; reflexivity|destruct (restI || restO); reflexivity
    |exact O|exact Cf|exact L|exact Lb| | | |].
  - intros x; destruct x; cbn [lbal lrpm ltpm litpm lotpm]; lia.
  - cbn [lexpiresAt]. apply ttl_live, O.
  - rewrite pres_clearIf. cbn [pres setLease].
    apply map_Forall_insert_2; [|apply O].
    apply res_in_settled; [exact R|]. intros x; destruct x; cbn [over_of OvershootTPM OvershootITPM OvershootOTPM]; lia.
  - rewrite ?Sp. case_bool_decide; destruct a;
      cbn [andb Bool.eqb over_of OvershootITPM OvershootOTPM rres_of lbal lrpm ltpm litpm lotpm]; lia.
Qed.

Lemma RefundLocal_accounts id :
  accounts a k now A K p (RefundLocal now p id).1 0 (spent a k now p (PRefund id)).
Proof.
  cbn [spent]. unfold RefundLocal, pending_res. cbv zeta.
  pose proof (purgeRes_ok A K now p OK) as OK'.
  assert (Same : accounts a k now A K p (purgeResLocked now p) 0 0)
    by (apply accounts_same; auto).
  destruct (pres (purgeResLocked now p) !! id) as [r|] eqn:E; [|exact Same].
  pose proof (ok_pres _ _ _ OK' id r E) as R.
  destruct (Status r) eqn:St; try exact Same.
  pose proof (leaseFor_spec A K (purgeResLocked now p) r now HK OK') as G.
  destruct (leaseFor (purgeResLocked now p) r now) as [p0 b].
  destruct G as (O & Cf & Pr & L & B & Lb).
  pose proof (B RPM) as I1. pose proof (B TPM) as I2. pose proof (B ITPM) as I3. pose proof (B OTPM) as I4.
  pose proof (R RPM) as [R1 _]. pose proof (R TPM) as [R2 _].
  pose proof (R ITPM) as [R3 _]. pose proof (R OTPM) as [R4 _].
  cbn [lbal rres_of fst snd lrpm ltpm litpm lotpm lexpiresAt llimits] in *.
  unfold int64_max in KA.
  destruct (Split (RLimits r));
    (rewrite !wrap_small by (unfold int64_min, int64_max; lia));
    (eapply (accounts_set p0 _ (RKey r) b); [reflexivity|reflexivity|exact O|exact Cf|exact L|exact Lb| | | |]).
  all: try (apply map_Forall_insert_2; [exact R|apply O]).
  all: try (cbn [lexpiresAt]; apply ttl_live; apply O).
  all: try (intros x; destruct x; cbn [lbal lrpm ltpm litpm lotpm]; lia).
  all: case_bool_decide; cbn [andb]; destruct a; cbn [counts negb lbal lrpm ltpm litpm lotpm rres_of]; lia.
Qed.

Lemma Deficit_accounts id g :
  0 <= g <= A ->
  accounts a k now A K p (ApplyBorrowedDeficit now p id g)
    (given a k now p (PDeficit id g)) (spent a k now p (PDeficit id g)).
Proof.
  intros Hg. cbn [given spent papply]. unfold deficit_paid, owed, ApplyBorrowedDeficit. cbv zeta.
  pose proof accounts_refl as Same.
  destruct (pres p !! id) as [r|] eqn:E; [|destruct a; exact Same].
  pose proof (ok_pres _ _ _ OK id r E) as R.
  pose proof (getLease_spec A K p (RKey r) now OK) as G.
  destruct (getLeaseLocked p (RKey r) now) as [p0 ob]. destruct G as (O & Cf & Pr & L & G).
  destruct ob as [b|]; cbn [snd].
  2:{ pose proof (accounts_same p0 O Cf L) as Same'. rewrite Pr, E.
      case_bool_decide; rewrite ?Z.sub_diag; destruct a; exact Same'. }
  destruct G as (-> & B & Lb & Bl).
  pose proof (B RPM) as I1. pose proof (B TPM) as I2. pose proof (B ITPM) as I3. pose proof (B OTPM) as I4.
  cbn [lbal] in *. unfold int64_max in KA.
  rewrite (wrap_small (ltpm b + g)) by (unfold int64_min, int64_max; lia).
  pose proof (R TPM) as [_ R2]. cbn [over_of] in R2.
  pose proof (payOvershoot_spec A (K + A) (ltpm b + g) (OvershootTPM (LastDecision r))
    ltac:(lia) R2 ltac:(unfold int64_max; lia) ltac:(unfold int64_max; lia)) as P.
  destruct (payOvershoot _ _) as [tpm' left_]. destruct P as (P1 & P2 & P3).
  eapply (accounts_set p _ (RKey r) b); [reflexivity|reflexivity|exact O|exact Cf|exact L|exact Lb| | | |].
  - intros x; destruct x; cbn [lbal lrpm ltpm litpm lotpm]; lia.
  - exact Bl.
  - cbn [pres setLease]. apply map_Forall_insert_2; [|apply O].
    intros x. pose proof (R x) as Rx. destruct x; cbn [rres_of over_of LastDecision RPMCost TPMReserved
      ITPMReserved OTPMReserved OvershootTPM OvershootITPM OvershootOTPM] in *; lia.
  - cbn [pres setLease]. rewrite lookup_insert_eq.
    case_bool_decide; destruct a; cbn [andb over_of LastDecision OvershootTPM lbal lrpm ltpm litpm lotpm]; lia.
Qed.

Lemma DeficitIO_accounts id gi go :
  0 <= gi <= A -> 0 <= go <= A ->
  accounts a k now A K p (ApplyBorrowedDeficitIO now p id gi go)
    (given a k now p (PDeficitIO id gi go)) (spent a k now p (PDeficitIO id gi go)).
Proof.
  intros Hi Ho. cbn [given spent papply]. unfold deficit_paid, owed, ApplyBorrowedDeficitIO. cbv zeta.
  pose proof accounts_refl as Same.
  destruct (pres p !! id) as [r|] eqn:E; [|destruct a; exact Same].
  pose proof (ok_pres _ _ _ OK id r E) as R.
  pose proof (getLease_spec A K p (RKey r) now OK) as G.
  destruct (getLeaseLocked p (RKey r) now) as [p0 ob]. destruct G as (O & Cf & Pr & L & G).
  destruct ob as [b|]; cbn [snd].
  2:{ pose proof (accounts_same p0 O Cf L) as Same'. rewrite Pr, E.
      case_bool_decide; rewrite ?Z.sub_diag; destruct a; exact Same'. }
  destruct G as (-> & B & Lb & Bl).
  pose proof (B RPM) as I1. pose proof (B TPM) as I2. pose proof (B ITPM) as I3. pose proof (B OTPM) as I4.
  cbn [lbal] in *. unfold int64_max in KA.
  rewrite (wrap_small (litpm b + gi)), (wrap_small (lotpm b + go)) by (unfold int64_min, int64_max; lia).
  pose proof (R ITPM) as [_ R3]. pose proof (R OTPM) as [_ R4]. cbn [over_of] in R3, R4.
  pose proof (payOvershoot_spec A (K + A) (litpm b + gi) (OvershootITPM (LastDecision r))
    ltac:(lia) R3 ltac:(unfold int64_max; lia) ltac:(unfold int64_max; lia)) as Pi.
  pose proof (payOvershoot_spec A (K + A) (lotpm b + go) (OvershootOTPM (LastDecision r))
    ltac:(lia) R4 ltac:(unfold int64_max; lia) ltac:(unfold int64_max; lia)) as Po.
  destruct (payOvershoot (litpm b + gi) _) as [itpm' lefti].
  destruct (payOvershoot (lotpm b + go) _) as [otpm' lefto].
  destruct Pi as (P1 & P2 & P3), Po as (P4 & P5 & P6).
  eapply (accounts_set p _ (RKey r) b); [reflexivity|reflexivity|exact O|exact Cf|exact L|exact Lb| | | |].
  - intros x; destruct x; cbn [lbal lrpm ltpm litpm lotpm]; lia.
  - exact Bl.
  - cbn [pres setLease]. apply map_Forall_insert_2; [|apply O].
    intros x. pose proof (R x) as Rx. destruct x; cbn [rres_of over_of LastDecision RPMCost TPMReserved
      ITPMReserved OTPMReserved OvershootTPM OvershootITPM OvershootOTPM] in *; lia.
  - cbn [pres setLease]. rewrite lookup_insert_eq.
    case_bool_decide; destruct a; cbn [andb over_of LastDecision OvershootITPM OvershootOTPM
      lbal lrpm ltpm litpm lotpm]; lia.
Qed.

Lemma Snapshot_accounts order :
  accounts a k now A K p (SnapshotLeases now order p).1 0 0.
Proof.
  unfold SnapshotLeases. cbn [fst].
  assert (E : forall b, bucket_in K b -> bucket_in K (if returnable now b then emptied b else b)).
  { intros b B. destruct (returnable now b); [|exact B]. intros []; cbn; lia. }
  split_and!; [split; [apply OK| |apply OK]|reflexivity|].
  - cbn [lease]. intros i b' H. apply lookup_fmap_Some in H as (b & <- & H).
    intros x. pose proof (E b (ok_lease _ _ _ OK i b H) x). lia.
  - unfold live. cbn [lease]. rewrite lookup_fmap. destruct (lease p !! k) as [b|] eqn:H; [|reflexivity].
    cbn [fmap option_fmap option_map]. pose proof (ok_lease _ _ _ OK k b H a) as B. cbn in B.
    destruct (returnable now b); [|reflexivity]. cbn [emptied lexpiresAt].
    destruct (Before now (lexpiresAt b)); [destruct a; cbn [lbal emptied lrpm ltpm litpm lotpm] in *; lia|lia].
Qed.

(** Every call of the pool, on every axis and key. *)
Lemma papply_accounts o :
  pop_ok A o ->
  accounts a k now A K p (papply now p o) (given a k now p o) (spent a k now p o).
Proof.
  intros H. destruct o; cbn [papply pop_ok] in *.
  - apply CreditLease_accounts. exact H.
  - apply TryDebit_accounts. exact H.
  - apply SettleLocal_accounts. exact H.
  - apply SettleLocalIO_accounts; apply H.
  - apply Deficit_accounts. exact H.
  - apply DeficitIO_accounts; apply H.
  - apply RefundLocal_accounts.
  - unfold Has. pose proof (getLease_spec A K p key now OK) as G.
    destruct (getLeaseLocked p key now) as [p0 ob]. destruct G as (O & Cf & _ & L & _).
    apply accounts_same; assumption.
  - apply accounts_same; [apply purgeRes_ok; exact OK|reflexivity|reflexivity].
  - apply Snapshot_accounts.
Qed.
End OneCall.

(** ** Histories *)

(** Sums of what a history gives to a lease and spends of it. *)
Fixpoint total (f : Time -> Pool -> pop -> Z) (p : Pool) (h : list (Time * pop)) : Z :=
  match h with
  | [] => 0
  | (now, o) :: h => f now p o + total f (papply now p o) h
  end.

(** The calls are made in time order from [t] to [u]. *)
Fixpoint ordered (t : Time) (h : list (Time * pop)) (u : Time) : Prop :=
  match h with
  | [] => t <= u
  | (now, _) :: h => t <= now /\ ordered now h u
  end.

(** The pool after a history. *)
Definition after (p : Pool) (h : list (Time * pop)) : Pool :=
  fold_left (fun p e => papply e.1 p e.2) h p.

Lemma lease_account A a k h : forall t u K p,
  0 <= A -> 0 <= K -> pool_ok A K p -> ordered t h u -> Forall (fun e => pop_ok A e.2) h ->
  K + Z.of_nat (length h) * A <= int64_max ->
  pool_ok A (K + Z.of_nat (length h) * A) (after p h) /\
  live a k u (after p h) + total (spent a k) p h <= live a k t p + total (given a k) p h.
Proof.
  induction h as [|[now o] h IH]; intros t u K p HA HK OK O F Bd.
  - cbn [after total fold_left length ordered] in *. rewrite Z.mul_0_l, !Z.add_0_r.
    split; [exact OK|]. exact (live_later A K a k t u p OK O).
  - destruct O as [Ht O]. apply Forall_cons in F as [Ho F].
    change (length ((now, o) :: h)) with (S (length h)) in *.
    rewrite Nat2Z.inj_succ, Z.mul_succ_l in *. cbn [snd] in Ho.
    destruct (papply_accounts A K p now a k OK HA HK ltac:(nia) o Ho) as (OK' & _ & Q).
    destruct (IH now u (K + A) (papply now p o) HA ltac:(lia) OK' O F ltac:(lia)) as [OK'' Q'].
    pose proof (live_later A K a k t now p OK Ht) as L.
    cbn [after fold_left fst snd total]. split.
    + apply (pool_ok_mono A (K + A + Z.of_nat (length h) * A)); [lia|exact OK''].
    + fold (after (papply now p o) h). lia.
Qed.

(** ** Reservations *)

(** What the pool shows of a reservation at [now]: its mode is its limits'. *)
Definition pview (p : Pool) (now : Time) (id : string) : Lifecycle.view :=
  (fun r => (Split (RLimits r), Status r)) <$> pres (purgeResLocked now p) !! id.

Lemma pres_leaseFor p r now : pres (leaseFor p r now).1 = pres p.
Proof.
  unfold leaseFor, getLeaseLocked. cbv zeta.
  destruct (lease p !! cacheKey (RKey r)) as [b|]; [destruct (negb _)|]; reflexivity.
Qed.

Lemma purge_idem now p : purgeResLocked now (purgeResLocked now p) = purgeResLocked now p.
Proof.
  unfold purgeResLocked. cbn [cfg deny lease pres hits miss borrows]. f_equal.
  apply map_filter_filter_l. intros i r _ H. exact H.
Qed.

Lemma pview_purged now p id : pview (purgeResLocked now p) now id = pview p now id.
Proof. unfold pview. rewrite purge_idem. reflexivity. Qed.

(** Rewriting an unexpired reservation changes its view and no other. *)
Lemma pview_insert p p' now id r :
  After now (ExpiresAt r) = false -> pres p' = <[id := r]> (pres (purgeResLocked now p)) ->
  pview p' now id = Some (Split (RLimits r), Status r) /\
  forall id', id' <> id -> pview p' now id' = pview p now id'.
Proof.
  intros A E. split.
  - unfold pview. cbn [purgeResLocked pres]. rewrite E.
    rewrite (map_lookup_filter_Some_2 _ _ id r); [reflexivity|apply lookup_insert_eq|exact A].
  - intros id' N. rewrite <- (pview_purged now p id'). unfold pview. cbn [purgeResLocked pres] in *.
    rewrite E. rewrite map_filter_insert_True by exact A.
    rewrite lookup_insert_ne by congruence. reflexivity.
Qed.

Lemma ttl_not_after (now : Time) : After now (Add now ReservationTTL) = false.
Proof. unfold After, Add, ReservationTTL, Minute, Second. apply Z.ltb_ge. lia. Qed.

(** One call on a reservation follows the specification [f] and touches no other;
    unless it moves the reservation it leaves the leases and deny cache alone. *)
Definition pfollows {A} (f : Lifecycle.view -> Lifecycle.view * (unit + error))
    (now : Time) (id : string) (p : Pool) (out : Pool * res A) : Prop :=
  let v := pview p now id in
  pview out.1 now id = (f v).1 /\
  Lifecycle.answer out.2 = (f v).2 /\
  (forall id', id' <> id -> pview out.1 now id' = pview p now id') /\
  ((f v).1 = v -> lease out.1 = lease p /\ deny out.1 = deny p).

Lemma pfollows_kept {A} f now id p (x : res A) :
  Lifecycle.answer x = (f (pview p now id)).2 -> (f (pview p now id)).1 = pview p now id ->
  pfollows f now id p (purgeResLocked now p, x).
Proof.
  intros E1 E2. unfold pfollows. cbv zeta. cbn [fst snd].
  split_and!; auto; [rewrite pview_purged; congruence|intros; apply pview_purged].
Qed.

Lemma pfollows_moved {A} f now id p p' r (x : res A) :
  pres p' = <[id := r]> (pres (purgeResLocked now p)) ->
  Lifecycle.answer x = (f (pview p now id)).2 ->
  (f (pview p now id)).1 = Some (Split (RLimits r), Status r) ->
  pview p now id <> Some (Split (RLimits r), Status r) ->
  After now (ExpiresAt r) = false ->
  pfollows f now id p (p', x).
Proof.
  intros R E1 E2 N A1. destruct (pview_insert p p' now id r A1 R) as [V1 V2].
  unfold pfollows. cbv zeta. cbn [fst snd]. rewrite E2.
  split_and!; auto. congruence.
Qed.

Lemma SettleLocal_follows now p id n : pfollows (Lifecycle.settle false) now id p (SettleLocal now p id n).
Proof.
  unfold SettleLocal. cbv zeta.
  assert (V : pview p now id = (fun r => (Split (RLimits r), Status r)) <$> pres (purgeResLocked now p) !! id)
    by reflexivity.
  destruct (pres (purgeResLocked now p) !! id) as [r|] eqn:L; cbn [fmap option_fmap option_map] in V;
    [destruct (Split (RLimits r)) eqn:Sp; [|destruct (Status r) eqn:St]|].
  all: try (apply pfollows_kept; rewrite V; reflexivity).
  pose proof (pres_leaseFor (purgeResLocked now p) r now) as Pl.
  destruct (leaseFor (purgeResLocked now p) r now) as [p0 b]. cbn [fst] in Pl.
  destruct (if 0 <? wrap64 (TPMReserved r - nonneg n) then _ else _) as [[tpm' over] restored].
  eapply pfollows_moved; [rewrite pres_clearIf; cbn [pres setLease]; rewrite Pl; reflexivity
    |rewrite V; reflexivity|rewrite V|rewrite V|apply ttl_not_after];
    cbn [settledRes RLimits Status]; rewrite Sp; (reflexivity || discriminate).
Qed.

Lemma SettleLocalIO_follows now p id i o :
  pfollows (Lifecycle.settle true) now id p (SettleLocalIO now p id i o).
Proof.
  unfold SettleLocalIO. cbv zeta.
  assert (V : pview p now id = (fun r => (Split (RLimits r), Status r)) <$> pres (purgeResLocked now p) !! id)
    by reflexivity.
  destruct (pres (purgeResLocked now p) !! id) as [r|] eqn:L; cbn [fmap option_fmap option_map] in V;
    [destruct (Split (RLimits r)) eqn:Sp; [destruct (Status r) eqn:St|]|]; cbn [negb].
  all: try (apply pfollows_kept; rewrite V; reflexivity).
  pose proof (pres_leaseFor (purgeResLocked now p) r now) as Pl.
  destruct (leaseFor (purgeResLocked now p) r now) as [p0 b]. cbn [fst] in Pl.
  destruct (applyLocalDelta (litpm b) _ _) as [[itpm' overI] restI].
  destruct (applyLocalDelta (lotpm b) _ _) as [[otpm' overO] restO].
  eapply pfollows_moved; [rewrite pres_clearIf; cbn [pres setLease]; rewrite Pl; reflexivity
    |rewrite V; reflexivity|rewrite V|rewrite V|apply ttl_not_after];
    cbn [settledRes RLimits Status]; rewrite Sp; (reflexivity || discriminate).
Qed.

Lemma RefundLocal_follows now p id : pfollows Lifecycle.refund now id p (RefundLocal now p id).
Proof.
  unfold RefundLocal. cbv zeta.
  assert (V : pview p now id = (fun r => (Split (RLimits r), Status r)) <$> pres (purgeResLocked now p) !! id)
    by reflexivity.
  destruct (pres (purgeResLocked now p) !! id) as [r|] eqn:L; cbn [fmap option_fmap option_map] in V;
    [destruct (Status r) eqn:St|].
  all: try (apply pfollows_kept; rewrite V; reflexivity).
  pose proof (pres_leaseFor (purgeResLocked now p) r now) as Pl.
  destruct (leaseFor (purgeResLocked now p) r now) as [p0 b]. cbn [fst] in Pl.
  eapply pfollows_moved; [cbn [pres setLease]; rewrite Pl; reflexivity
    |rewrite V; reflexivity|rewrite V|rewrite V|apply ttl_not_after];
    cbn [RLimits Status]; (reflexivity || congruence).
Qed.

(** ** Debits *)

(** A live lease that covers the cost. *)
Lemma covers_live A K p key c l now :
  pool_ok A K p ->
  covers (getLeaseLocked p key now).2 c (Split l) = true ->
  forall a, counts a (Split l) = true -> cost_of a c <= live a (cacheKey key) now p.
Proof.
  intros OK Cv. pose proof (getLease_spec A K p key now OK) as G.
  destruct (getLeaseLocked p key now) as [p0 [b|]]; [|discriminate]. cbn [snd covers] in Cv.
  destruct G as (_ & _ & _ & _ & _ & B & Lb & _). intros a Ct. rewrite Lb.
  destruct (Z.ltb_spec (lrpm b) (Requests c)); [discriminate|].
  destruct (Split l); bool_to_prop; destruct a; try discriminate; assumption.
Qed.

(** A debit succeeds exactly when the live lease covers the cost. *)
Lemma TryDebit_covers now p key l c id :
  is_Some (TryDebit now p key l c id).2 <->
  covers (getLeaseLocked (purgeResLocked now p) key now).2 c (Split l) = true.
Proof.
  unfold TryDebit. cbv zeta. destruct (getLeaseLocked _ _ _) as [p0 [b|]]; cbn [snd].
  - destruct (covers (Some b) c (Split l)); cbn [snd]; split; intros H; try discriminate;
      [reflexivity|eexists; reflexivity|destruct H; discriminate].
  - split; [intros []; discriminate|discriminate].
Qed.

(** After a credit that covers the cost, a debit before the lease expires succeeds. *)
Lemma credit_then_debit A K p now now' key l r t i o c id :
  pool_ok A K p -> 0 <= A -> 0 <= K -> K + A <= int64_max ->
  0 <= r <= A /\ 0 <= t <= A /\ 0 <= i <= A /\ 0 <= o <= A ->
  now <= now' < now + LeaseTTL (cfg p) ->
  Requests c <= r -> (if Split l then InputTokens c <= i /\ OutputTokens c <= o else Tokens c <= t) ->
  is_Some (TryDebit now' (CreditLease now p key l r t i o) key l c id).2.
Proof.
  intros OK HA HK KA (R1 & R2 & R3 & R4) Hn Cr Cm. apply TryDebit_covers.
  unfold getLeaseLocked, CreditLease. cbv zeta. cbn [purgeResLocked setLease lease].
  rewrite lookup_insert_eq. cbn [lexpiresAt]. unfold Before, Add.
  destruct (Z.ltb_spec now' (now + LeaseTTL (cfg p))); [|lia]. cbn [negb snd covers].
  set (b0 := match lease p !! cacheKey key with
             | Some b => if negb (now <? lexpiresAt b) then zeroBucket else b
             | None => zeroBucket end).
  assert (B0 : bucket_in K b0).
  { unfold b0. destruct (lease p !! cacheKey key) as [b|] eqn:E;
      [destruct (now <? lexpiresAt b); cbn [negb]|]; [exact (ok_lease _ _ _ OK _ _ E)| |];
      intros x; rewrite zero_lbal; lia. }
  pose proof (B0 RPM). pose proof (B0 TPM). pose proof (B0 ITPM). pose proof (B0 OTPM).
  cbn [lbal lrpm ltpm litpm lotpm] in *. unfold int64_max in KA.
  rewrite !wrap_small by (unfold int64_min, int64_max; lia).
  destruct (Z.ltb_spec (lrpm b0 + r) (Requests c)); [lia|].
  destruct (Split l); [destruct Cm; apply andb_true_iff; split|]; apply Z.leb_le; lia.
Qed.

(** ** Keys *)

Lemma splitKey_cacheKey key :
  nul_free (Subject key) = true ->
  splitKey (cacheKey key) = (Subject key, if decide (Model key = "") then "-" else Model key).
Proof.
  intros N. unfold cacheKey. cbv zeta. set (m := if decide (Model key = "") then "-" else Model key).
  destruct key as [s md]. cbn [Subject] in *. clearbody m. clear md.
  induction s as [|c s IH]; [reflexivity|]. cbn [nul_free] in N. bool_to_prop.
  change (String.String c s +:+ NUL +:+ m) with (String.String c (s +:+ NUL +:+ m)).
  cbn [splitKey]. destruct (Ascii.eqb c Ascii.zero); [discriminate|].
  rewrite IH by assumption. reflexivity.
Qed.

(** ** Properties *)

(** C18: a lease never spends more than it was given.  Over any history of the
    pool's methods in time order from a new pool (any interleaving of credits,
    debits, settlements, refunds, loans and snapshots, by any number of callers,
    since each method holds the mutex), on every axis and key, the credits spent
    (debits, plus use beyond the reservations, less refunds) and those still
    live are together at most the credits given.  (As long as the largest amount
    times the number of calls is an int64, so that no counter wraps.) *)
Theorem lease_never_overspends c A a k h t u :
  0 <= A -> Z.of_nat (length h) * A <= int64_max ->
  ordered t h u -> Forall (fun e => pop_ok A e.2) h ->
  0 <= live a k u (after (NewPool c) h) /\
  live a k u (after (NewPool c) h) + total (spent a k) (NewPool c) h
    <= total (given a k) (NewPool c) h.
Proof.
  intros HA Bd O F.
  destruct (lease_account A a k h t u 0 (NewPool c) HA ltac:(lia) (NewPool_ok c A 0) O F ltac:(lia))
    as [OK Q].
  split.
  - apply (live_range A (0 + Z.of_nat (length h) * A)); [nia|exact OK].
  - change (live a k t (NewPool c)) with 0 in Q. lia.
Qed.

Definition lease_key : Key := mkKey "alice" "gpt".
Definition lease_limits : Limits := mkLimits 100 10000 0 0.
Definition lease_history : list (Time * pop) :=
  [(1000, PCredit lease_key lease_limits 5 500 0 0);
   (2000, PDebit lease_key lease_limits (mkCost 1 200 0 0) "a");
   (3000, PDebit lease_key lease_limits (mkCost 1 200 0 0) "b");
   (4000, PSettle "a" 250); (5000, PRefund "b"); (6000, PSettle "b" 10)].

Lemma lease_never_overspends_witness :
  0 <= live TPM (cacheKey lease_key) 7000 (after (NewPool DefaultConfig) lease_history) /\
  live TPM (cacheKey lease_key) 7000 (after (NewPool DefaultConfig) lease_history)
    + total (spent TPM (cacheKey lease_key)) (NewPool DefaultConfig) lease_history
    <= total (given TPM (cacheKey lease_key)) (NewPool DefaultConfig) lease_history.
Proof.
  apply (lease_never_overspends DefaultConfig 1000 TPM (cacheKey lease_key) lease_history 1000 7000).
  - lia.
  - vm_compute. discriminate.
  - vm_compute. split_and!; congruence.
  - repeat apply Forall_cons_2; try apply Forall_nil_2; cbn [snd pop_ok]; try lia;
      intros []; cbn; lia.
Defined.

(** C33: reservations of the fast path refine the same specification as those of
    the store: every answer and state change of SettleLocal, SettleLocalIO and
    RefundLocal is that of [Lifecycle], no other reservation changes, and calls
    that do not close the reservation leave leases and deny cache alone. *)
Theorem local_reservations_refine_lifecycle now p id n i o :
  pfollows (Lifecycle.settle false) now id p (SettleLocal now p id n) /\
  pfollows (Lifecycle.settle true) now id p (SettleLocalIO now p id i o) /\
  pfollows Lifecycle.refund now id p (RefundLocal now p id).
Proof.
  split_and!; [apply SettleLocal_follows|apply SettleLocalIO_follows|apply RefundLocal_follows].
Qed.

(** The deny cache remembers.  A denial recorded for a key at [now] is answered
    until its wait is over (one second if the wait is not positive), with the
    recorded limit type and exactly the remaining wait, and not from then on; other
    keys are not affected; clearing the key forgets it. *)
Theorem deny_cache_remembers now c key lt wait now' :
  let w := if wait <=? 0 then Second else wait in
  let c' := denySet now c key lt wait in
  (denyGet now' c' key).2 =
    (if now' <? now + w then Some (lt, Sub (now + w) now') else None) /\
  ((now' <? now + w) = true -> (denyGet now' c' key).1 = c') /\
  (forall key', cacheKey key' <> cacheKey key -> (denyGet now' c' key').2 = (denyGet now' c key').2) /\
  (denyGet now' (denyClear c' key) key).2 = None.
Proof.
  cbv zeta. unfold denyGet, denySet, denyClear. cbv zeta.
  set (w := if wait <=? 0 then Second else wait).
  rewrite lookup_insert_eq, lookup_delete_eq. cbn [until dlimitType]. unfold Before, Add.
  split_and!; auto.
  - destruct (now' <? now + w); reflexivity.
  - intros ->. reflexivity.
  - intros key' N. rewrite lookup_insert_ne by congruence. destruct (c !! cacheKey key') as [e|]; [|reflexivity].
    destruct (negb _); reflexivity.
Qed.

(** Credits go back to where they came from.  The subject and model recovered
    from a lease's map key are those it was borrowed for (an empty model counting
    as a dash), for subjects without the separator byte. *)
Theorem split_cache_key_roundtrip key :
  nul_free (Subject key) = true ->
  splitKey (cacheKey key) = (Subject key, if decide (Model key = "") then "-" else Model key) /\
  cacheKey (mkKey (splitKey (cacheKey key)).1 (splitKey (cacheKey key)).2) = cacheKey key.
Proof.
  intros N. rewrite (splitKey_cacheKey key N). split; [reflexivity|].
  unfold cacheKey. cbn [fst snd Subject Model].
  destruct (decide (Model key = "")) as [E|E]; [reflexivity|]. rewrite decide_False by exact E. reflexivity.
Qed.

Lemma split_cache_key_roundtrip_witness :
  splitKey (cacheKey (mkKey "alice" "")) = ("alice", "-") /\
  cacheKey (mkKey (splitKey (cacheKey (mkKey "alice" ""))).1 (splitKey (cacheKey (mkKey "alice" ""))).2)
  = cacheKey (mkKey "alice" "").
Proof. apply (split_cache_key_roundtrip (mkKey "alice" "")). reflexivity. Defined.

(** C36: paying an overshoot with a loan pays nothing.  When a settlement overshot by
    [over] tokens and the limiter borrows exactly that many, it credits them to the
    lease and applies them again as a deficit: the overshoot on record is cleared,
    and the lease ends with [over] credits more than it had, not the same. *)
Theorem overshoot_loan_credited_twice A K p now id r over :
  pool_ok A K p -> 0 <= A -> 0 <= K -> K + A + A <= int64_max ->
  pres p !! id = Some r -> over = OvershootTPM (LastDecision r) -> 0 < over ->
  let k := cacheKey (RKey r) in
  let p' := ApplyBorrowedDeficit now (CreditLease now p (RKey r) (RLimits r) 0 over 0 0) id over in
  owed TPM p' id = 0 /\ live TPM k now p' = live TPM k now p + over.
Proof.
  intros OK HA HK KA R -> Ho. cbv zeta. pose proof (ok_pres _ _ _ OK id r R TPM) as [_ Ob].
  cbn [over_of] in Ob. set (over := OvershootTPM (LastDecision r)) in *.
  pose proof (live_range A K TPM (cacheKey (RKey r)) now p HK OK) as Rg.
  set (p1 := CreditLease now p (RKey r) (RLimits r) 0 over 0 0).
  assert (G : exists b, getLeaseLocked p1 (RKey r) now = (p1, Some b) /\
    ltpm b = live TPM (cacheKey (RKey r)) now p + over /\ Before now (lexpiresAt b) = true).
  { unfold p1, CreditLease, getLeaseLocked. cbv zeta. cbn [setLease lease].
    rewrite lookup_insert_eq. cbn [lexpiresAt].
    rewrite (ttl_live now (LeaseTTL (cfg p)) (ok_ttl _ _ _ OK)). cbn [negb].
    eexists. split; [reflexivity|]. cbn [ltpm lexpiresAt].
    split; [|apply ttl_live, (ok_ttl _ _ _ OK)]. revert Rg. unfold live.
    destruct (lease p !! cacheKey (RKey r)) as [b|]; [destruct (Before now (lexpiresAt b))|];
      cbn [negb lbal ltpm zeroBucket]; intros Rg; apply wrap_small; unfold int64_min, int64_max in *; lia. }
  destruct G as (b & G & Lb & Bl). unfold ApplyBorrowedDeficit, owed.
  assert (R1 : pres p1 !! id = Some r) by exact R. rewrite R1, G. fold over.
  rewrite (wrap_small (ltpm b + over)) by (unfold int64_min, int64_max in *; lia).
  unfold payOvershoot. destruct (Z.ltb_spec 0 over); [|lia].
  destruct (Z.leb_spec over (ltpm b + over)); [|lia].
  rewrite (wrap_small (ltpm b + over - over)) by (unfold int64_min, int64_max in *; lia).
  cbv zeta. cbn [pres setLease]. rewrite lookup_insert_eq. split; [reflexivity|].
  unfold live at 1. cbn [lease setLease]. rewrite lookup_insert_eq. cbn [lexpiresAt lbal ltpm].
  rewrite Bl. lia.
Qed.

(** A reservation of 100 tokens settled at 150 with nothing left in the lease. *)
Definition overshot : Pool :=
  after (NewPool DefaultConfig)
    [(1000, PCredit lease_key lease_limits 1 100 0 0);
     (2000, PDebit lease_key lease_limits (mkCost 1 100 0 0) "a"); (3000, PSettle "a" 150)].

Definition overshot_res : Reservation :=
  match pres overshot !! "a" with
  | Some r => r
  | None => mkReservation lease_key lease_limits 0 0 0 0 pending zeroDecision 0
  end.

Lemma overshoot_loan_credited_twice_witness :
  let p' := ApplyBorrowedDeficit 4000
              (CreditLease 4000 overshot lease_key lease_limits 0 50 0 0) "a" 50 in
  owed TPM p' "a" = 0 /\
  live TPM (cacheKey lease_key) 4000 p' = live TPM (cacheKey lease_key) 4000 overshot + 50.
Proof.
  apply (overshoot_loan_credited_twice 1000 3000 overshot 4000 "a" overshot_res 50);
    try (vm_compute; congruence).
  apply (lease_account 1000 TPM (cacheKey lease_key)
    [(1000, PCredit lease_key lease_limits 1 100 0 0);
     (2000, PDebit lease_key lease_limits (mkCost 1 100 0 0) "a"); (3000, PSettle "a" 150)]
    1000 4000 0 (NewPool DefaultConfig)); try lia.
  - apply NewPool_ok.
  - vm_compute. split_and!; congruence.
  - repeat apply Forall_cons_2; try apply Forall_nil_2; cbn [snd pop_ok]; try lia; intros []; cbn; lia.
  - vm_compute. congruence.
Defined.
