(* ===== verification/Limiter.v ===== *)
(** * Limiter: pkg/limiter/limiter.go over any store

    A call of the limiter is a program whose actions are the methods of the store and
    of the pool: each locks a mutex, or sends one script, and is one step.  [M] is the
    type of programs; [exec] runs one from start to end over any instance of
    [Store.Store], the clock and the id generator being functions of the number of
    readings so far.  [Concurrent] interleaves them. *)

From stdpp Require Import base tactics numbers strings gmap list.
From Stdlib Require Import ZArith Lia.
From S2P Require Import Prelude GoFloat GoEncode Api Store Lease.

(** ** Programs *)

(** The calls on [l.pool], its deny cache and [l.store], and [l.newID()]. *)
Inductive act : Type -> Type :=
| DenyGet (key : Key) : act (option (LimitType_t * Duration))
| DenySet (key : Key) (lt : LimitType_t) (retry : Duration) : act unit
| PoolConfig : act Config
| PoolNoteBorrow : act unit
| PoolHas (key : Key) (cost : Cost) (limits : Limits) : act bool
| PoolTryDebit (key : Key) (limits : Limits) (cost : Cost) (id : string) : act (option Decision)
| PoolCreditLease (key : Key) (limits : Limits) (rpm tpm itpm otpm : Z) : act unit
| PoolGetReservation (id : string) : act (option Reservation)
| PoolSettleLocal (id : string) (actual : Z) : act (res Decision)
| PoolSettleLocalIO (id : string) (actualIn actualOut : Z) : act (res Decision)
| PoolApplyBorrowedDeficit (id : string) (got : Z) : act unit
| PoolApplyBorrowedDeficitIO (id : string) (gotIn gotOut : Z) : act unit
| PoolRefundLocal (id : string) : act (res unit)
| PoolSnapshotLeases (visit : Pool -> list (string * localBucket)) : act (list LeaseSnap)
| NewID : act (res string)
| StoreCheck (key : Key) (limits : Limits) (cost : Cost) (id : string) : act (res Decision)
| StoreSettle (id : string) (actual : Z) : act (res Decision)
| StoreSettleIO (id : string) (actualIn actualOut : Z) : act (res Decision)
| StoreRefund (id : string) : act (res unit)
| StoreBorrow (key : Key) (limits : Limits) (spec : BorrowSpec) : act (res BorrowResult)
| StoreReturn (key : Key) (limits : Limits) (rpm tpm itpm otpm : Z) : act (res unit).

Inductive M : Type -> Type :=
| ret {X} (x : X) : M X
| bind {X Y} (m : M X) (f : X -> M Y) : M Y
| atomic {X} (a : act X) : M X.

Coercion atomic : act >-> M.

Notation "x <- m ;; k" := (bind m (fun x => k)) (at level 100, m at next level, right associativity).
Notation "m ;;; k" := (bind m (fun _ => k)) (at level 100, right associativity).

(** ** Running them *)

Section Exec.
Context {S : Type} `{Store S}.

(** [p.now()] and [s.now()] at their n-th reading, and [l.newID()] at its n-th call. *)
Context (clock : nat -> Time) (newID_ : nat -> res string).

Record World := mkWorld { wstore : S; wpool : Pool; wticks : nat; wids : nat }.

(** One step of the pool, or of the store, at the time it runs. *)
Definition onPool {X} (f : Time -> Pool -> Pool * X) : World -> World * X := fun w =>
  let '(p, x) := f (clock (wticks w)) (wpool w) in
  (mkWorld (wstore w) p (Datatypes.S (wticks w)) (wids w), x).

Definition onStore {X} (f : Time -> S -> S * X) : World -> World * X := fun w =>
  let '(s, x) := f (clock (wticks w)) (wstore w) in
  (mkWorld s (wpool w) (Datatypes.S (wticks w)) (wids w), x).

(** One action; those that do not read the clock take no tick of it. *)
Definition run_act {X} (a : act X) : World -> World * X :=
  match a with
  | DenyGet key => onPool (fun t p => let '(d, r) := denyGet t (deny p) key in (p <| deny := d |>, r))
  | DenySet key lt retry => onPool (fun t p => (p <| deny := denySet t (deny p) key lt retry |>, tt))
  | PoolConfig => fun w => (w, cfg (wpool w))
  | PoolNoteBorrow => fun w => (mkWorld (wstore w) (NoteBorrow (wpool w)) (wticks w) (wids w), tt)
  | PoolHas key cost limits => onPool (fun t p => Has t p key cost limits)
  | PoolTryDebit key limits cost id => onPool (fun t p => TryDebit t p key limits cost id)
  | PoolCreditLease key limits r t i o =>
      onPool (fun now p => (CreditLease now p key limits r t i o, tt))
  | PoolGetReservation id => onPool (fun t p => GetReservation t p id)
  | PoolSettleLocal id n => onPool (fun t p => SettleLocal t p id n)
  | PoolSettleLocalIO id i o => onPool (fun t p => SettleLocalIO t p id i o)
  | PoolApplyBorrowedDeficit id got => onPool (fun t p => (ApplyBorrowedDeficit t p id got, tt))
  | PoolApplyBorrowedDeficitIO id gi go =>
      onPool (fun t p => (ApplyBorrowedDeficitIO t p id gi go, tt))
  | PoolRefundLocal id => onPool (fun t p => RefundLocal t p id)
  | PoolSnapshotLeases visit => onPool (fun t p => SnapshotLeases t (visit p) p)
  | NewID => fun w => (mkWorld (wstore w) (wpool w) (wticks w) (Datatypes.S (wids w)), newID_ (wids w))
  | StoreCheck key limits cost id => onStore (fun t s => sCheck t s key limits cost id)
  | StoreSettle id n => onStore (fun t s => sSettle t s id n)
  | StoreSettleIO id i o => onStore (fun t s => sSettleIO t s id i o)
  | StoreRefund id => onStore (fun t s => sRefund t s id)
  | StoreBorrow key limits spec => onStore (fun t s => sBorrow t s key limits spec)
  | StoreReturn key limits r t i o => onStore (fun now s => sReturn now s key limits r t i o)
  end.

(** The whole program, nothing else running. *)
Fixpoint exec {X} (m : M X) : World -> World * X :=
  match m with
  | ret x => fun w => (w, x)
  | bind m f => fun w => let '(w, x) := exec m w in exec (f x) w
  | atomic a => run_act a
  end.
End Exec.

(** ** The methods *)

Definition denyDecision (limits : Limits) (lt : LimitType_t) (retry : Duration) : Decision :=
  let d := zeroDecision
    <| Allowed := false |>
    <| LimitType := lt |>
    <| RetryAfter := retry |>
    <| LimitRPM := RequestsPerMinute limits |> in
  if Split limits
  then d <| LimitITPM := InputTokensPerMinute limits |>
         <| LimitOTPM := OutputTokensPerMinute limits |>
         <| LimitTPM := OutputTokensPerMinute limits |>
  else d <| LimitTPM := TokensPerMinute limits |>.

Definition borrowDenyDecision (limits : Limits) (br : BorrowResult) : Decision :=
  let d := zeroDecision
    <| Allowed := false |>
    <| LimitType := bLimitType br |>
    <| RemainingRPM := bRemainingRPM br |>
    <| RemainingTPM := bRemainingTPM br |>
    <| RemainingITPM := bRemainingITPM br |>
    <| RemainingOTPM := bRemainingOTPM br |>
    <| LimitRPM := RequestsPerMinute limits |>
    <| RetryAfter := bRetryAfter br |> in
  if Split limits
  then d <| LimitITPM := InputTokensPerMinute limits |>
         <| LimitOTPM := OutputTokensPerMinute limits |>
         <| LimitTPM := OutputTokensPerMinute limits |>
         <| RemainingTPM := bRemainingOTPM br |>
  else d <| LimitTPM := TokensPerMinute limits |>.

Section Limiter.
(** The fields of the Go struct that do not change: the fail mode, and whether the
    fast path is on ([l.pool != nil]). *)
Context (failMode : FailMode) (fast : bool).

(** The order in which a range over the lease map visits it. *)
Context (visit : Pool -> list (string * localBucket)).

Definition onStoreErr (limits : Limits) (_ : error) : M (res Decision) :=
  match failMode with
  | FailOpen =>
      let d := zeroDecision
        <| Allowed := true |>
        <| LimitType := LimitTypeNone |>
        <| RemainingRPM := RequestsPerMinute limits |>
        <| LimitRPM := RequestsPerMinute limits |> in
      let d := if Split limits
        then d <| RemainingITPM := InputTokensPerMinute limits |>
               <| RemainingOTPM := OutputTokensPerMinute limits |>
               <| RemainingTPM := OutputTokensPerMinute limits |>
               <| LimitITPM := InputTokensPerMinute limits |>
               <| LimitOTPM := OutputTokensPerMinute limits |>
               <| LimitTPM := OutputTokensPerMinute limits |>
        else d <| RemainingTPM := TokensPerMinute limits |>
               <| LimitTPM := TokensPerMinute limits |> in
      ret (Ok d)
  | FailClosed => ret (Ok (denyDecision limits LimitTypeBackend Second))
  end.

Definition onStoreErrFast (key : Key) (limits : Limits) (cost : Cost) (_ : error) : M (res Decision) :=
  let closed := ret (Ok (denyDecision limits LimitTypeBackend Second)) in
  if bool_decide (failMode = FailOpen) then
    has <- PoolHas key cost limits ;;
    if has : bool then
      id <- NewID ;;
      match id with
      | Err _ => closed
      | Ok id =>
          d <- PoolTryDebit key limits cost id ;;
          match d with
          | Some d => ret (Ok d)
          | None => closed
          end
      end
    else closed
  else closed.

Definition checkDirect (key : Key) (limits : Limits) (cost : Cost) : M (res Decision) :=
  id <- NewID ;;
  match id with
  | Err err => onStoreErr limits err
  | Ok id =>
      d <- StoreCheck key limits cost id ;;
      match d with
      | Err err => onStoreErr limits err
      | Ok d => ret (Ok d)
      end
  end.

Definition checkFast (key : Key) (limits : Limits) (cost : Cost) : M (res Decision) :=
  let cost := mkCost (nonneg (Requests cost)) (nonneg (Tokens cost))
                (nonneg (InputTokens cost)) (nonneg (OutputTokens cost)) in
  denied <- DenyGet key ;;
  match denied with
  | Some (lt, retry) => ret (Ok (denyDecision limits lt retry))
  | None =>
      id <- NewID ;;
      match id with
      | Err err => onStoreErrFast key limits cost err
      | Ok id =>
          d <- PoolTryDebit key limits cost id ;;
          match d with
          | Some d => ret (Ok d)
          | None =>
              c <- PoolConfig ;;
              PoolNoteBorrow ;;;
              let spec := mkBorrowSpec
                (Requests cost) (Tokens cost) (InputTokens cost) (OutputTokens cost)
                (RPMChunk c) (TPMChunk c) (ITPMChunk c) (OTPMChunk c) in
              br <- StoreBorrow key limits spec ;;
              match br with
              | Err err => onStoreErrFast key limits cost err
              | Ok br =>
                  if negb (bAllowed br) then
                    DenySet key (bLimitType br) (bRetryAfter br) ;;;
                    ret (Ok (borrowDenyDecision limits br))
                  else
                    PoolCreditLease key limits (GotRPM br) (GotTPM br) (GotITPM br) (GotOTPM br) ;;;
                    d <- PoolTryDebit key limits cost id ;;
                    match d with
                    | None =>
                        DenySet key LimitTypeBackend Second ;;;
                        ret (Ok (denyDecision limits LimitTypeBackend Second))
                    | Some d => ret (Ok d)
                    end
              end
          end
      end
  end.

Definition Check (key : Key) (limits : Limits) (cost : Cost) : M (res Decision) :=
  match Validate limits with
  | Some err => ret (Err err)
  | None => if fast then checkFast key limits cost else checkDirect key limits cost
  end.

Definition Settle (reservationID : string) (actualTokens : Z) : M (res Decision) :=
  let toStore := StoreSettle reservationID actualTokens in
  if fast then
    r <- PoolGetReservation reservationID ;;
    match r with
    | Some r =>
        if Split (RLimits r) then ret (Err ErrWrongSettleMode)
        else
          dec <- PoolSettleLocal reservationID actualTokens ;;
          match dec with
          | Err err => ret (Err err)
          | Ok dec =>
              if 0 <? OvershootTPM dec then
                let need := OvershootTPM dec in
                PoolNoteBorrow ;;;
                br <- StoreBorrow (RKey r) (RLimits r)
                        (zeroBorrowSpec <| MinTPM := need |> <| ChunkTPM := need |>) ;;
                match br with
                | Ok br =>
                    if bAllowed br then
                      PoolCreditLease (RKey r) (RLimits r) (GotRPM br) (GotTPM br) 0 0 ;;;
                      PoolApplyBorrowedDeficit reservationID (GotTPM br) ;;;
                      updated <- PoolGetReservation reservationID ;;
                      match updated with
                      | Some updated => ret (Ok (LastDecision updated))
                      | None => ret (Ok dec)
                      end
                    else ret (Ok dec)
                | Err _ => ret (Ok dec)
                end
              else ret (Ok dec)
          end
    | None => toStore
    end
  else toStore.

Definition SettleIO (reservationID : string) (actualInput actualOutput : Z) : M (res Decision) :=
  let toStore := StoreSettleIO reservationID actualInput actualOutput in
  if fast then
    r <- PoolGetReservation reservationID ;;
    match r with
    | Some r =>
        if negb (Split (RLimits r)) then ret (Err ErrWrongSettleMode)
        else
          dec <- PoolSettleLocalIO reservationID actualInput actualOutput ;;
          match dec with
          | Err err => ret (Err err)
          | Ok dec =>
              if (0 <? OvershootITPM dec) || (0 <? OvershootOTPM dec) then
                PoolNoteBorrow ;;;
                br <- StoreBorrow (RKey r) (RLimits r)
                        (zeroBorrowSpec
                           <| MinITPM := OvershootITPM dec |> <| ChunkITPM := OvershootITPM dec |>
                           <| MinOTPM := OvershootOTPM dec |> <| ChunkOTPM := OvershootOTPM dec |>) ;;
                match br with
                | Ok br =>
                    if bAllowed br then
                      PoolCreditLease (RKey r) (RLimits r) (GotRPM br) 0 (GotITPM br) (GotOTPM br) ;;;
                      PoolApplyBorrowedDeficitIO reservationID (GotITPM br) (GotOTPM br) ;;;
                      updated <- PoolGetReservation reservationID ;;
                      match updated with
                      | Some updated => ret (Ok (LastDecision updated))
                      | None => ret (Ok dec)
                      end
                    else ret (Ok dec)
                | Err _ => ret (Ok dec)
                end
              else ret (Ok dec)
          end
    | None => toStore
    end
  else toStore.

Definition Refund (reservationID : string) : M (res unit) :=
  let toStore := StoreRefund reservationID in
  if fast then
    r <- PoolGetReservation reservationID ;;
    match r with
    | Some _ => PoolRefundLocal reservationID
    | None => toStore
    end
  else toStore.

(** The loop of [Close]: the first error is kept, the others are dropped. *)
Fixpoint returnAll (snaps : list LeaseSnap) (first : option error) : M (option error) :=
  match snaps with
  | [] => ret first
  | sn :: snaps =>
      r <- StoreReturn (SKey sn) (SLimits sn) (SRPM sn) (STPM sn) (SITPM sn) (SOTPM sn) ;;
      returnAll snaps
        (match r, first with
         | Err err, None => Some err
         | _, _ => first
         end)
  end.

Definition Close : M (option error) :=
  if fast then
    snaps <- PoolSnapshotLeases visit ;;
    returnAll snaps None
  else ret None.
End Limiter.

(** ** Construction *)

Section New.
Context {S : Type}.
(** The 16 bytes of the n-th call of [rand.Read]. *)
Context (rand : nat -> res (list Z)).

Definition randomID (n : nat) : res string :=
  match rand n with
  | Err err => Err err
  | Ok b => Ok (EncodeToString b)
  end.

(** The struct; what runs on it keeps the store and the pool in [World]. *)
Record limiter := mkLimiter {
  lstore : S;
  lfailMode : FailMode;
  lnewID : nat -> res string;
  lpool : option Pool
}.

Definition Option : Type := limiter -> limiter.

Definition WithFailMode (m : FailMode) : Option := fun l => mkLimiter (lstore l) m (lnewID l) (lpool l).

Definition WithIDGenerator (fn : nat -> res string) : Option :=
  fun l => mkLimiter (lstore l) (lfailMode l) fn (lpool l).

Definition WithFastPath (c : Config) : Option :=
  fun l => mkLimiter (lstore l) (lfailMode l) (lnewID l) (Some (NewPool c)).

Definition New (s : S) (opts : list Option) : limiter :=
  fold_left (fun l o => o l) opts (mkLimiter s FailClosed randomID None).

(** [l.pool != nil] *)
Definition hasPool (l : limiter) : bool := match lpool l with Some _ => true | None => false end.

(** Before the first call; without the fast path the pool is never used. *)
Definition initial (l : limiter) : World (S := S) :=
  mkWorld (lstore l) (default (NewPool DefaultConfig) (lpool l)) 0 0.
End New.
