(* ===== verification/LimiterSpec.v ===== *)
(** * LimiterSpec: what the limiter guarantees over any store

    Everything here is proved against the interface [Store.Store] and its laws
    [Store.StoreLaws]; the in-process store is one instance. *)

From stdpp Require Import base tactics numbers strings gmap list.
From Stdlib Require Import ZArith Lia.
From S2P Require Import Prelude GoFloat GoEncode GoEncodeSpec Api Store Lease LeaseSpec Limiter.

(** Runs the program in the goal up to the next answer it looks at. *)
Ltac step :=
  cbn [exec run_act]; unfold onPool, onStore;
  cbv beta iota zeta; cbn [wstore wpool wticks wids exec].

Lemma denyDecision_denied l lt d : Allowed (denyDecision l lt d) = false.
Proof. unfold denyDecision. destruct (Split l); reflexivity. Qed.

Lemma borrowDenyDecision_denied l br : Allowed (borrowDenyDecision l br) = false.
Proof. unfold borrowDenyDecision. destruct (Split l); reflexivity. Qed.

Section Spec.
Context {S : Type} `{Store S}.
Context (clock : nat -> Time) (newID_ : nat -> res string).
Context (visit : Pool -> list (string * localBucket)).
Implicit Types w : World (S := S).

(** The cost the fast path charges. *)
Definition nonneg_cost (c : Cost) : Cost :=
  mkCost (nonneg (Requests c)) (nonneg (Tokens c)) (nonneg (InputTokens c)) (nonneg (OutputTokens c)).

(** The loan the fast path asks the store for. *)
Definition borrow_spec (p : Pool) (c : Cost) : BorrowSpec :=
  mkBorrowSpec (nonneg (Requests c)) (nonneg (Tokens c)) (nonneg (InputTokens c))
    (nonneg (OutputTokens c)) (RPMChunk (cfg p)) (TPMChunk (cfg p)) (ITPMChunk (cfg p)) (OTPMChunk (cfg p)).

(** The decision when neither the store nor the leases can answer. *)
Definition backend_denial (l : Limits) : Decision := denyDecision l LimitTypeBackend Second.

(** *** Errors *)

Lemma onStoreErrFast_ok fm key l c e w :
  exists d, (exec clock newID_ (onStoreErrFast fm key l c e) w).2 = Ok d.
Proof.
  unfold onStoreErrFast. destruct (bool_decide _); [|eexists; reflexivity]. step.
  destruct (Has _ _ _ _ _) as [p []]; step; [|eexists; reflexivity].
  destruct (newID_ (wids w)); step; [|eexists; reflexivity].
  destruct (TryDebit _ _ _ _ _ _) as [p' [d|]]; eexists; reflexivity.
Qed.

Lemma onStoreErr_ok fm l e w : exists d, (exec clock newID_ (onStoreErr fm l e) w).2 = Ok d.
Proof. destruct fm; eexists; reflexivity. Qed.

Lemma checkDirect_ok fm key l c w : exists d, (exec clock newID_ (checkDirect fm key l c) w).2 = Ok d.
Proof.
  unfold checkDirect. step. destruct (newID_ (wids w)); step; [|apply onStoreErr_ok].
  destruct (sCheck _ _ _ _ _ _) as [s [d|e]]; step; [eexists; reflexivity|apply onStoreErr_ok].
Qed.

Lemma checkFast_ok fm key l c w : exists d, (exec clock newID_ (checkFast fm key l c) w).2 = Ok d.
Proof.
  unfold checkFast. step.
  destruct (denyGet _ _ _) as [d [[lt retry]|]]; step; [eexists; reflexivity|].
  destruct (newID_ (wids w)) as [id|e]; step; [|apply onStoreErrFast_ok].
  destruct (TryDebit _ _ _ _ _ _) as [p' [d'|]]; step; [eexists; reflexivity|].
  destruct (sBorrow _ _ _ _ _) as [s [br|e]]; step; [|apply onStoreErrFast_ok].
  destruct (bAllowed br); cbn [negb]; step; [|eexists; reflexivity].
  destruct (TryDebit _ _ _ _ _ _) as [p'' [d'|]]; step; eexists; reflexivity.
Qed.

(** *** Leases only shrink while nobody credits them *)

(** What one call to the deny cache leaves to the leases. *)
Lemma covers_later p key now now' c sp :
  now <= now' ->
  covers (getLeaseLocked p key now').2 c sp = true -> covers (getLeaseLocked p key now).2 c sp = true.
Proof.
  intros Hn. unfold getLeaseLocked. cbv zeta. destruct (lease p !! cacheKey key) as [b|]; [|discriminate].
  unfold Before. destruct (Z.ltb_spec now' (lexpiresAt b)); [|discriminate].
  destruct (Z.ltb_spec now (lexpiresAt b)); [auto|lia].
Qed.

Lemma getLease_purge p key now t :
  (getLeaseLocked (purgeResLocked t p) key now).2 = (getLeaseLocked p key now).2.
Proof.
  unfold getLeaseLocked. cbv zeta. cbn [purgeResLocked lease].
  destruct (lease p !! cacheKey key) as [b|]; [destruct (negb _)|]; reflexivity.
Qed.

(** A debit that failed leaves a lease that still does not cover the cost. *)
Lemma TryDebit_failed now p key l c id :
  (TryDebit now p key l c id).2 = None ->
  covers (getLeaseLocked p key now).2 c (Split l) = false /\
  exists n, (TryDebit now p key l c id).1 =
    (getLeaseLocked (purgeResLocked now p) key now).1 <| miss := n |>.
Proof.
  intros E. unfold TryDebit in *. cbv zeta in *.
  rewrite <- (getLease_purge p key now now).
  destruct (getLeaseLocked _ _ _) as [p0 [b|]]; cbn [fst snd] in *.
  - destruct (covers (Some b) c (Split l)); [discriminate|]. split; [reflexivity|eexists; reflexivity].
  - split; [reflexivity|eexists; reflexivity].
Qed.

Lemma getLease_again p key now now' :
  now <= now' -> (getLeaseLocked (getLeaseLocked p key now).1 key now').2 =
    if bool_decide (is_Some (getLeaseLocked p key now).2) then (getLeaseLocked p key now').2 else None.
Proof.
  intros Hn. unfold getLeaseLocked. cbv zeta.
  destruct (lease p !! cacheKey key) as [b|] eqn:E; unfold Before.
  - destruct (Z.ltb_spec now (lexpiresAt b)); cbn [negb fst snd].
    + rewrite bool_decide_eq_true_2 by (eexists; reflexivity). rewrite E. reflexivity.
    + cbn [lease]. rewrite lookup_delete_eq. rewrite bool_decide_eq_false_2; [reflexivity|].
      intros []; discriminate.
  - cbn [fst snd]. rewrite E. rewrite bool_decide_eq_false_2; [reflexivity|]. intros []; discriminate.
Qed.

Lemma getLease_same p q key now :
  lease p = lease q -> (getLeaseLocked p key now).2 = (getLeaseLocked q key now).2.
Proof.
  intros E. unfold getLeaseLocked. cbv zeta. rewrite E.
  destruct (lease q !! cacheKey key) as [b|]; [destruct (negb _)|]; reflexivity.
Qed.

(** After a failed debit [Has] is false, whatever happened to the counters. *)
Lemma Has_after_failed now p key l c id p' q now' :
  TryDebit now p key l c id = (p', None) -> lease q = lease p' -> now <= now' ->
  (Has now' q key c l).2 = false.
Proof.
  intros E Q Hn. destruct (TryDebit_failed now p key l c id) as [C [n P]]; [rewrite E; reflexivity|].
  rewrite E in P. cbn [fst] in P.
  assert (G : (getLeaseLocked q key now').2 =
    (getLeaseLocked (getLeaseLocked (purgeResLocked now p) key now).1 key now').2)
    by (apply getLease_same; rewrite Q, P; reflexivity).
  unfold Has. destruct (getLeaseLocked q key now') as [p0 ob]. cbn [snd] in *. rewrite G.
  rewrite getLease_again by exact Hn. rewrite !getLease_purge.
  destruct (bool_decide _); [|reflexivity].
  destruct (covers (getLeaseLocked p key now').2 c (Split l)) eqn:Cv; [|reflexivity].
  rewrite (covers_later p key now now' c (Split l) Hn Cv) in C. discriminate.
Qed.

Lemma onStoreErrFast_failed fm key l c e w now p id p' :
  TryDebit now p key l c id = (p', None) -> lease (wpool w) = lease p' -> now <= clock (wticks w) ->
  (exec clock newID_ (onStoreErrFast fm key l c e) w).2 = Ok (backend_denial l).
Proof.
  intros E Q Hn. unfold onStoreErrFast. destruct (bool_decide _); [|reflexivity]. step.
  pose proof (Has_after_failed _ _ _ _ _ _ _ _ _ E Q Hn) as F.
  destruct (Has _ _ _ _ _) as [p0 b]. cbn [snd] in F. rewrite F. reflexivity.
Qed.

(** *** Debits and loans *)

Lemma TryDebit_decision now p key l c id p' d :
  TryDebit now p key l c id = (p', Some d) ->
  Allowed d = true /\ LimitType d = LimitTypeNone /\ ReservationID d = id.
Proof.
  unfold TryDebit. cbv zeta. destruct (getLeaseLocked _ _ _) as [p0 [b|]]; [|discriminate].
  destruct (covers _ _ _); [|discriminate].
  destruct (Split l); intros [= _ <-]; split_and!; reflexivity.
Qed.

Lemma TryDebit_failed_ok A K now p key l c id p' :
  pool_ok A K p -> TryDebit now p key l c id = (p', None) -> pool_ok A K p' /\ cfg p' = cfg p.
Proof.
  intros OK E. destruct (TryDebit_failed now p key l c id) as [_ [n P]]; [rewrite E; reflexivity|].
  rewrite E in P. cbn [fst] in P.
  pose proof (getLease_spec A K (purgeResLocked now p) key now (purgeRes_ok A K now p OK)) as G.
  destruct (getLeaseLocked _ _ _) as [p0 ob]. destruct G as ([G1 G2 G3] & G4 & _).
  subst p'. split; [split; assumption|exact G4].
Qed.

Lemma pool_ok_same A K p q :
  pool_ok A K p -> cfg q = cfg p -> lease q = lease p -> pres q = pres p -> pool_ok A K q.
Proof. intros [O1 O2 O3] E1 E2 E3. split; [rewrite E1|rewrite E2|rewrite E3]; assumption. Qed.

(** What the law of loans gives to the lease: enough for the cost, and bounded. *)
Lemma granted_amounts A l c p br :
  (forall a, nonneg (cost_of a c) <= A) ->
  RPMChunk (cfg p) <= A /\ TPMChunk (cfg p) <= A /\ ITPMChunk (cfg p) <= A /\ OTPMChunk (cfg p) <= A ->
  grants l (borrow_spec p c) br ->
  (0 <= GotRPM br <= A /\ 0 <= GotTPM br <= A /\ 0 <= GotITPM br <= A /\ 0 <= GotOTPM br <= A) /\
  Requests (nonneg_cost c) <= GotRPM br /\
  (if Split l then InputTokens (nonneg_cost c) <= GotITPM br /\ OutputTokens (nonneg_cost c) <= GotOTPM br
   else Tokens (nonneg_cost c) <= GotTPM br).
Proof.
  intros C Ch. pose proof (C RPM) as C1. pose proof (C TPM) as C2. pose proof (C ITPM) as C3.
  pose proof (C OTPM) as C4. cbn [cost_of] in *.
  unfold grants, loan, borrow_spec. cbn [MinRPM MinTPM MinITPM MinOTPM ChunkRPM ChunkTPM ChunkITPM ChunkOTPM].
  unfold nonneg_cost. cbn [Requests Tokens InputTokens OutputTokens]. rewrite !nonneg_max in *.
  destruct (Split l); intros (G1 & G2 & G3); lia.
Qed.

(** The loan asked for is within the range the law of loans covers. *)
Lemma exact_borrow_spec A c p :
  (forall a, nonneg (cost_of a c) <= A) -> A <= 2 ^ 53 ->
  0 <= RPMChunk (cfg p) <= A /\ 0 <= TPMChunk (cfg p) <= A /\
  0 <= ITPMChunk (cfg p) <= A /\ 0 <= OTPMChunk (cfg p) <= A ->
  exact_spec (borrow_spec p c).
Proof.
  intros C HA Ch. pose proof (C RPM). pose proof (C TPM). pose proof (C ITPM). pose proof (C OTPM).
  cbn [cost_of] in *. unfold exact_spec, exact_amount, borrow_spec, nonneg_cost, int64_min.
  cbn [MinRPM MinTPM MinITPM MinOTPM ChunkRPM ChunkTPM ChunkITPM ChunkOTPM
       Requests Tokens InputTokens OutputTokens].
  rewrite !nonneg_max in *. lia.
Qed.
End Spec.

(** Ids are as distinct as the random blocks they print. *)
Lemma randomID_inj rand n m id b b' :
  rand n = Ok b -> rand m = Ok b' ->
  Forall (fun x => 0 <= x < 256) b -> Forall (fun x => 0 <= x < 256) b' ->
  randomID rand n = Ok id -> randomID rand m = Ok id -> b = b'.
Proof.
  unfold randomID. intros -> -> F F' [= <-] [= E]. symmetry. apply EncodeToString_inj; assumption.
Qed.

(** Successive readings of the clock do not go back. *)
Definition monotone (clock : nat -> Time) : Prop := forall n m, (n <= m)%nat -> clock n <= clock m.

(** ** Test doubles

    Concrete stores, clock and ids the theorems below are exercised with. *)

Definition double (check : string -> res Decision) (borrow : Limits -> BorrowSpec -> res BorrowResult)
    : Store unit := {|
  sCheck := fun _ s _ _ _ id => (s, check id);
  sSettle := fun _ s _ _ => (s, Err ErrReservationNotFound);
  sSettleIO := fun _ s _ _ _ => (s, Err ErrReservationNotFound);
  sRefund := fun _ s _ => (s, Err ErrReservationNotFound);
  sBorrow := fun _ s _ l spec => (s, borrow l spec);
  sReturn := fun _ s _ _ _ _ _ _ => (s, Ok tt)
|}.

(** A store that is down, one that refuses loans for 3 s, one that grants them. *)
Definition down : Store unit := double (fun _ => Err (ErrOther "down")) (fun _ _ => Err (ErrOther "down")).

Definition admitting (id : string) : res Decision :=
  Ok (zeroDecision <| Allowed := true |> <| ReservationID := id |>).

Definition refusal : BorrowResult :=
  zeroBorrowResult <| bLimitType := LimitTypeTokens |> <| bRetryAfter := 3 * Second |>.

Definition refusing : Store unit := double admitting (fun _ _ => Ok refusal).

Definition largest (min chunk : Z) : Z := Z.max (Z.max 0 min) chunk.

Definition grant (l : Limits) (sp : BorrowSpec) : BorrowResult :=
  let b := zeroBorrowResult <| bAllowed := true |> <| GotRPM := largest (MinRPM sp) (ChunkRPM sp) |> in
  if Split l then b <| GotITPM := largest (MinITPM sp) (ChunkITPM sp) |>
                    <| GotOTPM := largest (MinOTPM sp) (ChunkOTPM sp) |>
  else b <| GotTPM := largest (MinTPM sp) (ChunkTPM sp) |>.

Definition granting : Store unit := double admitting (fun l sp => Ok (grant l sp)).

Lemma granting_laws : @StoreLaws unit granting.
Proof.
  split; cbn [sBorrow sCheck granting double].
  - intros t s k l sp s' b _ [= _ <-] _. unfold grants, loan, grant, largest.
    destruct (Split l); cbn [GotRPM GotTPM GotITPM GotOTPM]; lia.
  - intros t s k l sp s' b [= _ <-]. unfold grant. destruct (Split l); discriminate.
  - intros t s k l c id s' d [= _ <-] _. split; reflexivity.
Qed.

(** A reading every 0.1 s from 1 s on, and ids r0, r1, r2. *)
Definition sample_clock (n : nat) : Time := Second + Z.of_nat n * 100 * Millisecond.

Definition sample_ids (n : nat) : res string :=
  nth n [Ok "r0"; Ok "r1"; Ok "r2"] (Ok "r3").

Definition lkey : Key := mkKey "alice" "gpt".
Definition llim : Limits := mkLimits 100 10000 0 0.

Definition start : World (S := unit) := mkWorld tt (NewPool DefaultConfig) 0 0.

Lemma sample_clock_monotone : monotone sample_clock.
Proof. intros n m H. unfold sample_clock, Millisecond. lia. Qed.

Lemma sample_ids_ok n : is_ok (sample_ids n) = true.
Proof. destruct n as [|[|[|[|n]]]]; reflexivity. Qed.

(** ** Properties *)

Section Properties.
Context {S : Type} `{Store S}.
Context (clock : nat -> Time) (newID_ : nat -> res string).
Context (visit : Pool -> list (string * localBucket)).

(** C35: Check answers a decision unless the limits are invalid.  Whatever the
    store, the id generator and the fail mode do, an error is returned exactly
    when exactly one of the two split budgets is set; every other failure is
    turned into a decision. *)
Theorem check_errs_only_on_invalid_limits fm fast key l c (w : World (S := S)) :
  match (exec clock newID_ (Check fm fast key l c) w).2 with
  | Err e => e = ErrPartialSplit /\ ~ (0 < InputTokensPerMinute l <-> 0 < OutputTokensPerMinute l)
  | Ok _ => 0 < InputTokensPerMinute l <-> 0 < OutputTokensPerMinute l
  end.
Proof.
  assert (V : forall x : res Decision, match x with Err e => Validate l = Some e | Ok _ => Validate l = None end ->
    match x with
    | Err e => e = ErrPartialSplit /\ ~ (0 < InputTokensPerMinute l <-> 0 < OutputTokensPerMinute l)
    | Ok _ => 0 < InputTokensPerMinute l <-> 0 < OutputTokensPerMinute l
    end).
  { intros [d|e]; unfold Validate; destruct (Z.ltb_spec 0 (InputTokensPerMinute l)), (Z.ltb_spec 0 (OutputTokensPerMinute l));
      cbn; intros E; try discriminate; try lia; (split; [congruence|lia]). }
  apply V. unfold Check. destruct (Validate l) as [e|]; [reflexivity|].
  destruct fast; [destruct (checkFast_ok clock newID_ fm key l c w) as [d ->]
                 |destruct (checkDirect_ok clock newID_ fm key l c w) as [d ->]]; reflexivity.
Qed.

(** What a failing store costs without the fast path.  When the id or the
    store's answer is an error, a fail-closed limiter denies for one second with
    limit type backend, and a fail-open one admits with the full limits as
    remaining and no reservation; the decision does not depend on the error. *)
Theorem direct_check_fail_modes fm key l c (w : World (S := S)) :
  (match newID_ (wids w) with
   | Err _ => True
   | Ok id => is_ok (sCheck (clock (wticks w)) (wstore w) key l c id).2 = false
   end) ->
  exists d, (exec clock newID_ (checkDirect fm key l c) w).2 = Ok d /\
    match fm with
    | FailClosed => d = backend_denial l
    | FailOpen =>
        Allowed d = true /\ LimitType d = LimitTypeNone /\ ReservationID d = "" /\
        RemainingRPM d = RequestsPerMinute l /\
        if Split l then RemainingITPM d = InputTokensPerMinute l /\ RemainingOTPM d = OutputTokensPerMinute l
        else RemainingTPM d = TokensPerMinute l
    end.
Proof.
  intros F. unfold checkDirect. step.
  assert (G : forall e w', exists d, (exec clock newID_ (onStoreErr fm l e) w').2 = Ok d /\
    match fm with
    | FailClosed => d = backend_denial l
    | FailOpen =>
        Allowed d = true /\ LimitType d = LimitTypeNone /\ ReservationID d = "" /\
        RemainingRPM d = RequestsPerMinute l /\
        if Split l then RemainingITPM d = InputTokensPerMinute l /\ RemainingOTPM d = OutputTokensPerMinute l
        else RemainingTPM d = TokensPerMinute l
    end).
  { intros e w'. destruct fm; [eexists; split; reflexivity|].
    unfold onStoreErr. step. eexists. split; [reflexivity|].
    destruct (Split l); split_and!; reflexivity. }
  destruct (newID_ (wids w)) as [id|e]; step; [|apply G].
  destruct (sCheck _ _ _ _ _ _) as [s [d|e]]; step; [discriminate F|apply G].
Qed.

(** C34: on the fast path the fail mode decides nothing once the store is asked.
    While every Borrow fails, ids can be generated and the clock does not go back,
    fail-open and fail-closed limiters answer alike: from the deny cache, from a
    lease that covers the cost, or with a backend denial. *)
Theorem fast_path_ignores_fail_mode key l c (w : World (S := S)) :
  monotone clock -> (forall n, is_ok (newID_ n) = true) ->
  (forall t s k l' sp, is_ok (sBorrow t s k l' sp).2 = false) ->
  (exec clock newID_ (checkFast FailOpen key l c) w).2 = (exec clock newID_ (checkFast FailClosed key l c) w).2.
Proof.
  intros Mono Ids Down. unfold checkFast. step.
  destruct (denyGet _ _ _) as [d [[lt retry]|]]; step; [reflexivity|].
  specialize (Ids (wids w)). destruct (newID_ (wids w)) as [id|e]; step; [|discriminate].
  destruct (TryDebit _ _ _ _ _ _) as [p' [d'|]] eqn:E; step; [reflexivity|].
  match goal with |- context [sBorrow ?t ?s ?k ?l' ?sp] => specialize (Down t s k l' sp) end.
  destruct (sBorrow _ _ _ _ _) as [s [br|e]]; step; [discriminate|].
  rewrite !(onStoreErrFast_failed clock newID_ _ _ _ _ _ _ _ _ _ _ E) by
    (reflexivity || (apply Mono; cbn [wticks]; lia)). reflexivity.
Qed.

(** C37: a granted loan is always enough.  When the deny cache is silent, an id is
    there and the store grants the loan, the request is admitted under that id: the
    backend denial after a granted loan is never reached by a caller running alone,
    as long as the lease does not expire between the credit and the debit that
    follows it and no balance leaves the int64 range. *)
Theorem granted_loan_admits `{!StoreLaws S} fm key l c (w : World (S := S)) A K id s' br :
  pool_ok A K (wpool w) -> 0 <= A <= 2 ^ 53 -> 0 <= K -> K + A <= int64_max ->
  (forall a, nonneg (cost_of a c) <= A) ->
  0 <= RPMChunk (cfg (wpool w)) <= A /\ 0 <= TPMChunk (cfg (wpool w)) <= A /\
  0 <= ITPMChunk (cfg (wpool w)) <= A /\ 0 <= OTPMChunk (cfg (wpool w)) <= A ->
  let t := fun i => clock (i + wticks w)%nat in
  t 3%nat <= t 4%nat < t 3%nat + LeaseTTL (cfg (wpool w)) ->
  (denyGet (t 0%nat) (deny (wpool w)) key).2 = None ->
  newID_ (wids w) = Ok id ->
  sBorrow (t 2%nat) (wstore w) key l (borrow_spec (wpool w) c) = (s', Ok br) -> bAllowed br = true ->
  exists d, (exec clock newID_ (checkFast fm key l c) w).2 = Ok d /\
    Allowed d = true /\ LimitType d = LimitTypeNone /\ ReservationID d = id.
Proof.
  intros OK HA HK KA C Ch t Ht Dn Id Br Al. unfold checkFast. step. subst t. cbn [Nat.add] in *.
  destruct (denyGet _ _ _) as [dc r]. cbn [snd] in Dn. subst r. step. rewrite Id. step.
  match goal with |- context [TryDebit ?n ?p ?k ?l ?c ?i] => destruct (TryDebit n p k l c i) as [p1 [d|]] eqn:E1 end;
    step; [exists d; split; [reflexivity|eapply TryDebit_decision; exact E1]|].
  lazymatch type of E1 with TryDebit _ ?q _ _ _ _ = _ =>
    assert (OK0 : pool_ok A K q) by (apply (pool_ok_same A K (wpool w)); auto) end.
  destruct (TryDebit_failed_ok A K _ _ _ _ _ _ _ OK0 E1) as [OK1 Cf].
  cbn [cfg] in Cf. cbn [NoteBorrow wpool cfg]. rewrite Cf.
  fold (borrow_spec (wpool w) c). fold (nonneg_cost c) in *.
  change (mkBorrowSpec _ _ _ _ _ _ _ _) with (borrow_spec (wpool w) c). rewrite Br. step. rewrite Al. cbn [negb]. step.
  pose proof (exact_borrow_spec A c (wpool w) C (proj2 HA) Ch) as Ex.
  destruct (granted_amounts A l c (wpool w) br C ltac:(lia) (borrow_grants _ _ _ _ _ _ _ Ex Br Al)) as (G1 & G2 & G3).
  assert (OK2 : pool_ok A K (NoteBorrow p1)) by (apply (pool_ok_same A K p1); auto).
  destruct (credit_then_debit A K (NoteBorrow p1) (clock (3 + wticks w)%nat) (clock (4 + wticks w)%nat)
    key l _ _ _ _ (nonneg_cost c) id OK2 (proj1 HA) HK KA G1) as [d D]; [|exact G2|exact G3|].
  { cbn [NoteBorrow cfg]. rewrite Cf. exact Ht. }
  match goal with |- context [TryDebit ?n ?p ?k ?l ?c ?i] => destruct (TryDebit n p k l c i) as [p2 o] eqn:E2 end.
  assert (o = Some d).
  { change (o = Some d). rewrite <- D. cbn [Nat.add]. unfold NoteBorrow in *. cbn [snd]. rewrite E2. reflexivity. }
  subst o. step. exists d. split; [reflexivity|]. eapply TryDebit_decision. exact E2.
Qed.

(** A refused loan is remembered.  When the store refuses a loan, the request is
    denied with the store's limit type, and until the wait it answered is over every
    further request for the key is denied from the deny cache, whatever its cost and
    limits: with the same limit type and the wait that remains, without asking the
    store or drawing an id. *)
Theorem refused_loan_is_remembered fm key l c (w : World (S := S)) id s' br l' c' :
  let t := fun i => clock (i + wticks w)%nat in
  let wait := if bRetryAfter br <=? 0 then Second else bRetryAfter br in
  (denyGet (t 0%nat) (deny (wpool w)) key).2 = None ->
  newID_ (wids w) = Ok id ->
  covers (getLeaseLocked (wpool w) key (t 1%nat)).2 (nonneg_cost c) (Split l) = false ->
  sBorrow (t 2%nat) (wstore w) key l (borrow_spec (wpool w) c) = (s', Ok br) -> bAllowed br = false ->
  let w1 := (exec clock newID_ (checkFast fm key l c) w).1 in
  (exec clock newID_ (checkFast fm key l c) w).2 = Ok (borrowDenyDecision l br) /\
  wstore w1 = s' /\
  (clock (wticks w1) < t 3%nat + wait ->
   let again := exec clock newID_ (checkFast fm key l' c') w1 in
   again.2 = Ok (denyDecision l' (bLimitType br) (Sub (t 3%nat + wait) (clock (wticks w1)))) /\
   wstore again.1 = s' /\ wids again.1 = wids w1).
Proof.
  intros t wait Dn Id Cv Br Al. subst t. cbn [Nat.add] in *.
  enough (G : exists p, let w1 := mkWorld s' p (4 + wticks w)%nat (Datatypes.S (wids w)) in
    exec clock newID_ (checkFast fm key l c) w = (w1, Ok (borrowDenyDecision l br)) /\
    deny p !! cacheKey key = Some (mkDenyEntry (clock (3 + wticks w)%nat + wait) (bLimitType br))).
  { destruct G as (p & E & D). cbv zeta. rewrite E. cbn [fst snd wstore wticks wids].
    split_and!; auto. intros Hw. unfold checkFast at 1 2 3. step. unfold denyGet. rewrite D.
    cbn [until dlimitType]. unfold Before. cbn [Nat.add] in Hw |- *.
    destruct (Z.ltb_spec (clock (4 + wticks w)%nat) (clock (3 + wticks w)%nat + wait));
      cbn [Nat.add] in *; [|lia].
    destruct (Z.ltb_spec (clock (Datatypes.S (Datatypes.S (Datatypes.S (Datatypes.S (wticks w))))))
      (clock (Datatypes.S (Datatypes.S (Datatypes.S (wticks w)))) + wait)); [|lia].
    cbn [negb]. step. auto. }
  unfold checkFast. step.
  destruct (denyGet _ _ _) as [dc r]. cbn [snd] in Dn. subst r. step. rewrite Id. step.
  fold (nonneg_cost c).
  match goal with |- context [TryDebit ?n ?p ?k ?l ?c ?i] => destruct (TryDebit n p k l c i) as [p1 o] eqn:E1 end.
  assert (o = None).
  { destruct o as [d|]; [|reflexivity]. exfalso.
    match type of E1 with TryDebit ?n ?p ?k ?l ?c ?i = _ =>
      destruct (TryDebit_covers n p k l c i) as [Cs _] end.
    rewrite E1 in Cs. specialize (Cs ltac:(eexists; reflexivity)). rewrite getLease_purge in Cs.
    erewrite getLease_same in Cs; [rewrite Cs in Cv; discriminate|reflexivity]. }
  subst o. step.
  assert (Cf : cfg p1 = cfg (wpool w)).
  { match type of E1 with TryDebit ?n ?p ?k ?l ?c ?i = _ =>
      destruct (TryDebit_failed n p k l c i) as [_ [m P]]; [rewrite E1; reflexivity|] end.
    rewrite E1 in P. cbn [fst] in P. rewrite P. unfold getLeaseLocked. cbv zeta.
    destruct (lease _ !! _) as [b|]; [destruct (negb _)|]; reflexivity. }
  cbn [NoteBorrow wpool cfg]. rewrite Cf.
  change (mkBorrowSpec _ _ _ _ _ _ _ _) with (borrow_spec (wpool w) c). rewrite Br. step. rewrite Al.
  cbn [negb]. step. eexists. split; [reflexivity|].
  cbn [deny]. unfold denySet. cbv zeta. rewrite lookup_insert_eq. reflexivity.
Qed.

(** Each reservation is settled where it was made.  With the fast path on, a
    settlement or refund of an id the pool does not hold (any id, without the fast
    path) is the store's, result and state; one the pool holds never changes the
    store when the settlement has no overshoot, and a refund never does. *)
Theorem settlements_are_routed fast id n i o (w : World (S := S)) :
  let t := fun k => clock (k + wticks w)%nat in
  let mine := fast && bool_decide (is_Some (pres (purgeResLocked (t 0%nat) (wpool w)) !! id)) in
  let k := if fast then 1%nat else 0%nat in
  (mine = false ->
    (wstore (exec clock newID_ (Settle fast id n) w).1, (exec clock newID_ (Settle fast id n) w).2) = sSettle (t k) (wstore w) id n /\
    (wstore (exec clock newID_ (SettleIO fast id i o) w).1, (exec clock newID_ (SettleIO fast id i o) w).2)
      = sSettleIO (t k) (wstore w) id i o /\
    (wstore (exec clock newID_ (Refund fast id) w).1, (exec clock newID_ (Refund fast id) w).2) = sRefund (t k) (wstore w) id) /\
  (mine = true ->
    wstore (exec clock newID_ (Refund fast id) w).1 = wstore w /\
    (match (SettleLocal (t 1%nat) (purgeResLocked (t 0%nat) (wpool w)) id n).2 with
     | Ok d => OvershootTPM d <= 0
     | Err _ => True
     end -> wstore (exec clock newID_ (Settle fast id n) w).1 = wstore w)).
Proof.
  intros t mine k. subst t mine k. unfold Settle, SettleIO, Refund. cbn [Nat.add].
  destruct fast; cbn [andb].
  - step. unfold GetReservation at 1 2 3 4 5 6 7 8. cbv beta iota zeta. step.
    destruct (pres (purgeResLocked (clock (wticks w)) (wpool w)) !! id) as [r|] eqn:E; split.
    + rewrite bool_decide_eq_true_2 by (eexists; reflexivity). discriminate.
    + intros _. step. split.
      * destruct (RefundLocal _ _ _). reflexivity.
      * intros Ov. destruct (Split (RLimits r)); [reflexivity|]. step.
        destruct (SettleLocal _ _ _ _) as [p1 [d|e]]; [|reflexivity]. cbn [snd] in Ov. step.
        destruct (Z.ltb_spec 0 (OvershootTPM d)); [lia|reflexivity].
    + intros _. step.
      destruct (sSettle _ _ _ _), (sSettleIO _ _ _ _ _), (sRefund _ _ _). auto.
    + rewrite bool_decide_eq_false_2; [discriminate|]. intros []; discriminate.
  - step. split; [|discriminate]. intros _.
    destruct (sSettle _ _ _ _), (sSettleIO _ _ _ _ _), (sRefund _ _ _). auto.
Qed.
End Properties.

(** *** Witnesses *)

Lemma direct_check_fail_modes_witness :
  exists d, (@exec unit down sample_clock sample_ids _ (checkDirect FailOpen lkey llim (mkCost 1 10 0 0)) start).2 = Ok d /\
    Allowed d = true /\ LimitType d = LimitTypeNone /\ ReservationID d = "" /\
    RemainingRPM d = RequestsPerMinute llim /\
    if Split llim then RemainingITPM d = InputTokensPerMinute llim /\ RemainingOTPM d = OutputTokensPerMinute llim
    else RemainingTPM d = TokensPerMinute llim.
Proof.
  apply (@direct_check_fail_modes unit down sample_clock sample_ids FailOpen lkey llim (mkCost 1 10 0 0) start).
  reflexivity.
Defined.

Lemma fast_path_ignores_fail_mode_witness :
  (@exec unit down sample_clock sample_ids _ (checkFast FailOpen lkey llim (mkCost 1 10 0 0)) start).2
  = (@exec unit down sample_clock sample_ids _ (checkFast FailClosed lkey llim (mkCost 1 10 0 0)) start).2.
Proof.
  apply (@fast_path_ignores_fail_mode unit down sample_clock sample_ids lkey llim (mkCost 1 10 0 0) start).
  - apply sample_clock_monotone.
  - apply sample_ids_ok.
  - reflexivity.
Defined.

Lemma granted_loan_admits_witness :
  exists d, (@exec unit granting sample_clock sample_ids _ (checkFast FailClosed lkey llim (mkCost 2 700 0 0)) start).2 = Ok d /\
    Allowed d = true /\ LimitType d = LimitTypeNone /\ ReservationID d = "r0".
Proof.
  apply (@granted_loan_admits unit granting sample_clock sample_ids granting_laws FailClosed lkey llim
    (mkCost 2 700 0 0) start 1000 0 "r0" tt (grant llim (borrow_spec (NewPool DefaultConfig) (mkCost 2 700 0 0))));
    try (vm_compute; congruence); try reflexivity; try (vm_compute; split_and!; congruence).
  - apply NewPool_ok.
  - intros []; vm_compute; congruence.
Defined.

Lemma refused_loan_is_remembered_witness :
  let w1 := (@exec unit refusing sample_clock sample_ids _ (checkFast FailClosed lkey llim (mkCost 2 700 0 0)) start).1 in
  (@exec unit refusing sample_clock sample_ids _ (checkFast FailClosed lkey llim (mkCost 2 700 0 0)) start).2
    = Ok (borrowDenyDecision llim refusal) /\
  wstore w1 = tt /\
  (sample_clock (wticks w1) < sample_clock 3 + 3 * Second ->
   let again := @exec unit refusing sample_clock sample_ids _ (checkFast FailClosed lkey llim (mkCost 1 1 0 0)) w1 in
   again.2 = Ok (denyDecision llim LimitTypeTokens
                   (Sub (sample_clock 3 + 3 * Second) (sample_clock (wticks w1)))) /\
   wstore again.1 = tt /\ wids again.1 = wids w1).
Proof.
  apply (@refused_loan_is_remembered unit refusing sample_clock sample_ids FailClosed lkey llim
    (mkCost 2 700 0 0) start "r0" tt refusal llim (mkCost 1 1 0 0)); reflexivity.
Defined.

(** ** Closing *)

Section Closing.
Context {S : Type} `{Store S}.
Context (clock : nat -> Time) (newID_ : nat -> res string).
Context (visit : Pool -> list (string * localBucket)).

(** Returns the snapshots one by one from the n-th clock reading on: the store
    after them, and the first error. *)
Fixpoint returned (n : nat) (snaps : list LeaseSnap) (s : S) : S * option error :=
  match snaps with
  | [] => (s, None)
  | sn :: snaps =>
      let '(s, r) := sReturn (clock n) s (SKey sn) (SLimits sn) (SRPM sn) (STPM sn) (SITPM sn) (SOTPM sn) in
      let '(s, e) := returned (Datatypes.S n) snaps s in
      (s, match r with Err err => Some err | Ok _ => e end)
  end.

Lemma returnAll_returned snaps : forall (w : World (S := S)) first,
  let '(w', e) := exec clock newID_ (returnAll snaps first) w in
  let '(s', e') := returned (wticks w) snaps (wstore w) in
  wstore w' = s' /\ wpool w' = wpool w /\ wids w' = wids w /\
  e = match first with Some err => Some err | None => e' end.
Proof.
  induction snaps as [|sn snaps IH]; intros w first; cbn [returnAll returned].
  - cbn [exec]. destruct first; auto.
  - step. destruct (sReturn _ _ _ _ _ _ _ _) as [s r].
    specialize (IH (mkWorld s (wpool w) (Datatypes.S (wticks w)) (wids w))
      (match r, first with Err err, None => Some err | _, _ => first end)).
    cbn [wstore wpool wticks wids] in IH.
    destruct (exec _ _ (returnAll _ _) _) as [w' e]. destruct (returned _ _ _) as [s' e'].
    destruct IH as (-> & -> & -> & ->). split_and!; auto.
    destruct r, first; reflexivity.
Qed.

(** After a snapshot no lease has anything to give back, at any time. *)
Lemma snapshot_empties t p order k b :
  lease (SnapshotLeases t order p).1 !! k = Some b ->
  forall t', t <= t' -> returnable t' b = false.
Proof.
  unfold SnapshotLeases. cbn [fst lease]. rewrite lookup_fmap.
  destruct (lease p !! k) as [b0|]; [|discriminate]. cbn [fmap option_fmap option_map].
  intros [= <-] t' Ht. destruct (returnable t b0) eqn:R.
  - unfold returnable, emptied. cbn [lrpm ltpm litpm lotpm lexpiresAt].
    change (0 <=? 0) with true. cbn [andb negb]. apply andb_false_r.
  - unfold returnable, Before in *. destruct (negb _); [|apply andb_false_r].
    rewrite andb_true_r in *. lia.
Qed.

Lemma filter_none {A} (P : A -> Prop) `{forall x, base.Decision (P x)} l :
  Forall (fun x => ~ P x) l -> filter P l = [].
Proof. induction 1 as [|x l N _ IH]; [reflexivity|]. rewrite filter_cons_False by exact N. exact IH. Qed.

Lemma snapshot_nothing t p q :
  Permutation (visit p) (map_to_list (lease p)) ->
  lease p = lease q -> (forall k b, lease q !! k = Some b -> returnable t b = false) ->
  (SnapshotLeases t (visit p) p).2 = [].
Proof.
  intros Pm E N. unfold SnapshotLeases. cbn [snd].
  rewrite filter_none; [reflexivity|]. rewrite Pm. apply Forall_forall. intros [k b] Hin.
  apply elem_of_map_to_list in Hin. rewrite E in Hin. rewrite (N k b Hin). discriminate.
Qed.

(** C31: Close gives every unspent credit back once.  It returns exactly the live
    leases that hold credits, each with its balances to the key it was borrowed
    for (subjects without the separator byte), reports the first error the store
    answered and no other, and empties them: closing again, at any later time and
    in whatever order the map is visited, calls the store no more and reports no
    error. *)
Theorem close_returns_every_credit_once (w : World (S := S)) :
  (forall p, Permutation (visit p) (map_to_list (lease p))) -> monotone clock ->
  let t := clock (wticks w) in
  let snaps := (SnapshotLeases t (visit (wpool w)) (wpool w)).2 in
  let w1 := (exec clock newID_ (Close true visit) w).1 in
  Permutation snaps
    (map (fun '(k, b) => snap k b) (filter (fun '(_, b) => returnable t b = true) (map_to_list (lease (wpool w))))) /\
  (wstore w1, (exec clock newID_ (Close true visit) w).2) = returned (Datatypes.S (wticks w)) snaps (wstore w) /\
  (forall w2, wpool w2 = wpool w1 -> (wticks w <= wticks w2)%nat ->
    wstore (exec clock newID_ (Close true visit) w2).1 = wstore w2 /\ (exec clock newID_ (Close true visit) w2).2 = None).
Proof.
  intros Pm Mono t snaps w1.
  assert (E : forall w0 : World (S := S),
    let sn := (SnapshotLeases (clock (wticks w0)) (visit (wpool w0)) (wpool w0)).2 in
    wstore (exec clock newID_ (Close true visit) w0).1 = (returned (Datatypes.S (wticks w0)) sn (wstore w0)).1 /\
    (exec clock newID_ (Close true visit) w0).2 = (returned (Datatypes.S (wticks w0)) sn (wstore w0)).2 /\
    wpool (exec clock newID_ (Close true visit) w0).1
      = (SnapshotLeases (clock (wticks w0)) (visit (wpool w0)) (wpool w0)).1).
  { intros w0. cbv zeta. unfold Close. step.
    destruct (SnapshotLeases (clock (wticks w0)) _ _) as [p sn]. step.
    pose proof (returnAll_returned sn (mkWorld (wstore w0) p (Datatypes.S (wticks w0)) (wids w0)) None) as R.
    cbn [wstore wpool wticks wids fst snd] in *.
    destruct (exec _ _ (returnAll _ _) _) as [w' e]. destruct (returned _ _ _) as [s' e'].
    cbn [fst snd]. destruct R as (-> & -> & _ & ->). auto. }
  destruct (E w) as (E1 & E2 & E3). split_and!.
  - unfold snaps, SnapshotLeases. cbn [snd]. apply Permutation_map. rewrite Pm. reflexivity.
  - unfold w1. rewrite E1, E2. destruct (returned _ _ _). reflexivity.
  - intros w2 P2 Ht. destruct (E w2) as (F1 & F2 & _).
    assert (N : (SnapshotLeases (clock (wticks w2)) (visit (wpool w2)) (wpool w2)).2 = []).
    { apply (snapshot_nothing _ (wpool w2) (wpool w2)); auto.
      intros k b Hk. unfold w1 in P2. rewrite P2, E3 in Hk.
      eapply snapshot_empties; [exact Hk|]. apply Mono. exact Ht. }
    rewrite N in F1, F2. auto.
Qed.
End Closing.

Definition lent_world : World (S := unit) :=
  (@exec unit granting sample_clock sample_ids _ (checkFast FailClosed lkey llim (mkCost 2 700 0 0)) start).1.

Lemma close_returns_every_credit_once_witness :
  let visit := fun p => map_to_list (lease p) in
  let t := sample_clock (wticks lent_world) in
  let snaps := (SnapshotLeases t (visit (wpool lent_world)) (wpool lent_world)).2 in
  let w1 := (@exec unit granting sample_clock sample_ids _ (Close true visit) lent_world).1 in
  Permutation snaps
    (map (fun '(k, b) => snap k b)
       (filter (fun '(_, b) => returnable t b = true) (map_to_list (lease (wpool lent_world))))) /\
  (wstore w1, (@exec unit granting sample_clock sample_ids _ (Close true visit) lent_world).2)
    = @returned unit granting sample_clock (S (wticks lent_world)) snaps (wstore lent_world) /\
  (forall w2, wpool w2 = wpool w1 -> (wticks lent_world <= wticks w2)%nat ->
    wstore (@exec unit granting sample_clock sample_ids _ (Close true visit) w2).1 = wstore w2 /\
    (@exec unit granting sample_clock sample_ids _ (Close true visit) w2).2 = None).
Proof.
  apply (@close_returns_every_credit_once unit granting sample_clock sample_ids (fun p => map_to_list (lease p)) lent_world).
  - intros p. reflexivity.
  - apply sample_clock_monotone.
Defined.
