(* ===== verification/ApiLimiter.v ===== *)
(** * ApiLimiter: the interface of pkg/api/limiter.go

    [ApiLimiter] lists the methods of api.Limiter over the state of whatever
    implements it; the limiter of [Limiter], the instrumented one of [Observe] and
    the recording one below are instances.  Its clients - server, middlewares, proxy -
    are defined against the class. *)

From stdpp Require Import base tactics numbers strings list.
From Stdlib Require Import ZArith Lia.
From S2P Require Import Prelude Api Store Lease Limiter.

Class ApiLimiter (W : Type) := {
  lCheck : Key -> Limits -> Cost -> W -> W * res Decision;
  lSettle : string -> Z -> W -> W * res Decision;
  lSettleIO : string -> Z -> Z -> W -> W * res Decision;
  lRefund : string -> W -> W * res unit
}.

(** limiter.Limiter over a store. *)
Definition Limiter_ApiLimiter {S} `{Store S} (failMode : FailMode) (fast : bool)
    (clock : nat -> Time) (newID_ : nat -> res string) : ApiLimiter (World (S := S)) := {|
  lCheck key limits cost := exec clock newID_ (Limiter.Check failMode fast key limits cost);
  lSettle id n := exec clock newID_ (Limiter.Settle fast id n);
  lSettleIO id i o := exec clock newID_ (Limiter.SettleIO fast id i o);
  lRefund id := exec clock newID_ (Limiter.Refund fast id)
|}.

(** The limiter [New] built. *)
Definition built {S} `{Store S} (l : limiter (S := S)) (clock : nat -> Time) : ApiLimiter (World (S := S)) :=
  Limiter_ApiLimiter (lfailMode l) (hasPool l) clock (lnewID l).

(** ** Calls as data *)

Inductive call : Type :=
| CCheck (key : Key) (limits : Limits) (cost : Cost)
| CSettle (id : string) (actual : Z)
| CSettleIO (id : string) (actualInput actualOutput : Z)
| CRefund (id : string).

Inductive answer : Type :=
| ADecision (r : res Decision)
| ADone (r : res unit).

Definition answer_ok (a : answer) : bool :=
  match a with ADecision r => is_ok r | ADone r => is_ok r end.

Section Calls.
Context {W : Type} `{ApiLimiter W}.

Definition perform (c : call) (w : W) : W * answer :=
  match c with
  | CCheck key limits cost => let '(w, r) := lCheck key limits cost w in (w, ADecision r)
  | CSettle id n => let '(w, r) := lSettle id n w in (w, ADecision r)
  | CSettleIO id i o => let '(w, r) := lSettleIO id i o w in (w, ADecision r)
  | CRefund id => let '(w, r) := lRefund id w in (w, ADone r)
  end.

(** A sequence of calls, with their answers. *)
Fixpoint performs (cs : list call) (w : W) : W * list (call * answer) :=
  match cs with
  | [] => (w, [])
  | c :: cs =>
      let '(w, a) := perform c w in
      let '(w, l) := performs cs w in
      (w, (c, a) :: l)
  end.
End Calls.

(** The program a call of limiter.Limiter runs. *)
Definition program (failMode : FailMode) (fast : bool) (c : call) : M answer :=
  match c with
  | CCheck key limits cost => r <- Limiter.Check failMode fast key limits cost ;; ret (ADecision r)
  | CSettle id n => r <- Limiter.Settle fast id n ;; ret (ADecision r)
  | CSettleIO id i o => r <- Limiter.SettleIO fast id i o ;; ret (ADecision r)
  | CRefund id => r <- Limiter.Refund fast id ;; ret (ADone r)
  end.

Lemma perform_program {S} `{Store S} failMode fast clock newID_ c (w : World (S := S)) :
  perform (H := Limiter_ApiLimiter failMode fast clock newID_) c w
  = exec clock newID_ (program failMode fast c) w.
Proof. destruct c; reflexivity. Qed.

(** ** A limiter that records its calls *)

Definition record {W X} (mk : X -> call * answer) (r : W * X) (l : list (call * answer)) :
    (W * list (call * answer)) * X :=
  let '(w, x) := r in ((w, l ++ [mk x]), x).

#[export] Instance Recorded_ApiLimiter {W} `{ApiLimiter W} : ApiLimiter (W * list (call * answer)) := {|
  lCheck key limits cost w :=
    record (fun r => (CCheck key limits cost, ADecision r)) (lCheck key limits cost w.1) w.2;
  lSettle id n w := record (fun r => (CSettle id n, ADecision r)) (lSettle id n w.1) w.2;
  lSettleIO id i o w := record (fun r => (CSettleIO id i o, ADecision r)) (lSettleIO id i o w.1) w.2;
  lRefund id w := record (fun r => (CRefund id, ADone r)) (lRefund id w.1) w.2
|}.

(** A limiter that admits everything and knows no reservation. *)
Definition open_limiter : ApiLimiter unit := {|
  lCheck _ _ _ w := (w, Ok (zeroDecision <| Allowed := true |> <| ReservationID := "r1" |>));
  lSettle _ _ w := (w, Err ErrReservationNotFound);
  lSettleIO _ _ _ w := (w, Err ErrReservationNotFound);
  lRefund _ w := (w, Ok tt)
|}.
