(* ===== verification/Ledger.v ===== *)
(** * Ledger: what the clients of a limiter have taken

    An account of the calls of a limiter and its answers alone, as a client could
    keep it: which reservations are open, and how many tokens of a key's budget the
    calls have taken and given back.  [held] sums a history; the budget theorems of
    [LimiterLedger] and [Valved] bound it, whatever the limiter keeps inside. *)

From stdpp Require Import base tactics numbers strings gmap list.
From Stdlib Require Import ZArith Lia.
From S2P Require Import Prelude Api Store Lease Limiter ApiLimiter.

(** An admitted request that is neither settled nor refunded. *)
Record entry := mkEntry { eKey : Key; eSplit : bool; eCost : Cost }.

Abbreviation ledger := (gmap string entry) (only parsing).

(** What the entry holds of an axis; negative costs count as zero. *)
Definition reserved (a : axis) (e : entry) : Z := nonneg (cost_of a (eCost e)).

(** The open reservations after a call. *)
Definition book (L : ledger) (c : call) (ans : answer) : ledger :=
  match c, ans with
  | CCheck key l cost, ADecision (Ok d) =>
      if Allowed d then <[ReservationID d := mkEntry key (Split l) cost]> L else L
  | CSettle id _, ADecision (Ok _) => delete id L
  | CSettleIO id _ _, ADecision (Ok _) => delete id L
  | CRefund id, ADone (Ok _) => delete id L
  | _, _ => L
  end.

Section Held.
Context (a : axis) (k : Key).

(** A request of key [key] in the given mode is charged on the axis of [k]. *)
Definition touches (key : Key) (sp : bool) : bool :=
  bool_decide (cacheKey key = cacheKey k) && counts a sp.

(** What settling gives back: the part of the reservation that was not used. *)
Definition unused (L : ledger) (id : string) (actual : Z) : Z :=
  match L !! id with
  | Some e => if touches (eKey e) (eSplit e) then Z.max 0 (reserved a e - nonneg actual) else 0
  | None => 0
  end.

(** Tokens a call takes, negative when it gives some back. *)
Definition taken (L : ledger) (c : call) (ans : answer) : Z :=
  match c, ans with
  | CCheck key l cost, ADecision (Ok d) =>
      if Allowed d && touches key (Split l) then nonneg (cost_of a cost) else 0
  | CSettle id n, ADecision (Ok _) => match a with TPM => - unused L id n | _ => 0 end
  | CSettleIO id i o, ADecision (Ok _) =>
      match a with ITPM => - unused L id i | OTPM => - unused L id o | _ => 0 end
  | CRefund id, ADone (Ok _) => - unused L id 0
  | _, _ => 0
  end.

(** A settlement of more than the reservation. *)
Definition overdrawn (L : ledger) (id : string) (actual : Z) : Z :=
  match L !! id with
  | Some e => if touches (eKey e) (eSplit e) && (reserved a e <? nonneg actual) then 1 else 0
  | None => 0
  end.

Definition overdraft (L : ledger) (c : call) (ans : answer) : Z :=
  match c, ans with
  | CSettle id n, ADecision (Ok _) => match a with TPM => overdrawn L id n | _ => 0 end
  | CSettleIO id i o, ADecision (Ok _) =>
      match a with ITPM => overdrawn L id i | OTPM => overdrawn L id o | _ => 0 end
  | _, _ => 0
  end.

(** The tokens a history holds, and how often it settled more than it held. *)
Fixpoint held (L : ledger) (h : list (call * answer)) : Z :=
  match h with
  | [] => 0
  | (c, ans) :: h => taken L c ans + held (book L c ans) h
  end.

Fixpoint overdrafts (L : ledger) (h : list (call * answer)) : Z :=
  match h with
  | [] => 0
  | (c, ans) :: h => overdraft L c ans + overdrafts (book L c ans) h
  end.
End Held.

(** ** Performing calls *)

Section Performs.
Context {W : Type} `{ApiLimiter W}.

Lemma performs_app cs cs' (w : W) :
  performs (cs ++ cs') w =
    let '(w1, h1) := performs cs w in let '(w2, h2) := performs cs' w1 in (w2, h1 ++ h2).
Proof.
  revert w. induction cs as [|c cs IH]; intros w; cbn [app performs].
  - destruct (performs cs' w). reflexivity.
  - destruct (perform c w) as [w1 ans]. rewrite IH. destruct (performs cs w1) as [w2 h1].
    destruct (performs cs' w2) as [w3 h2]. reflexivity.
Qed.

Lemma performs_calls cs (w : W) : map fst (performs cs w).2 = cs.
Proof.
  revert w. induction cs as [|c cs IH]; intros w; [reflexivity|]. cbn [performs].
  destruct (perform c w) as [w1 ans]. specialize (IH w1). destruct (performs cs w1). cbn in *. congruence.
Qed.
End Performs.
