(* ===== verification/LimiterMemory.v ===== *)
(** * LimiterMemory: the fast path over the in-process store

    The end-to-end budget: what the limiter admits from local leases, over any
    history of checks, stays within the per-minute budget kept by the store. *)

From stdpp Require Import base tactics numbers strings gmap list.
From Stdlib Require Import ZArith Lia.
From S2P Require Import Prelude GoFloat Api Bucket Budget Store Memory MemorySpec MemoryBudget MemoryProps.
From S2P Require Import Lease LeaseSpec Limiter LimiterSpec ApiLimiter Ledger.

(** ** Histories of the store, in pieces *)

(** The store after a history. *)
Definition run (s : MemStore) (h : list (Time * op)) : MemStore :=
  fold_left (fun s e => apply e.1 s e.2) h s.

Lemma charges_app a bk h h' s :
  charges a bk s (h ++ h') = charges a bk s h + charges a bk (run s h) h'.
Proof.
  revert s. induction h as [|[now o] h IH]; intros s; cbn [charges app run fold_left fst snd]; [lia|].
  rewrite IH. fold (run (apply now s o) h). lia.
Qed.

Lemma window_app a bk c h h' t u v :
  window a bk c t h u -> window a bk c u h' v -> window a bk c t (h ++ h') v.
Proof.
  revert t. induction h as [|[now o] h IH]; cbn [window app]; intros t W W'.
  - revert t W. induction h' as [|[now o] h' IH']; cbn [window] in *; intros t W; [lia|].
    destruct W' as (H1 & H2 & H3 & H4). split_and!; auto; lia.
  - destruct W as (H1 & H2 & H3 & H4). split_and!; auto.
Qed.

Lemma run_app s h h' : run s (h ++ h') = run (run s h) h'.
Proof. unfold run. apply fold_left_app. Qed.

Lemma window_ok a bk c h : forall t u s,
  store_ok t s -> uniform a bk c s -> 0 <= t -> u <= int64_max -> window a bk c t h u ->
  store_ok u (run s h) /\ uniform a bk c (run s h).
Proof.
  induction h as [|[now o] h IH]; intros t u s OK U Ht Hu W; cbn [window run fold_left fst snd] in *.
  - split; [apply (store_ok_mono t); assumption|exact U].
  - destruct W as (H1 & Ao & Uo & W). pose proof (window_le _ _ _ _ _ _ W).
    apply (IH (toUnixMilli now)); auto; [|apply uniform_step; assumption|lia].
    apply (apply_ok t); auto. unfold time_ok. lia.
Qed.

(** A pool with a configuration and nothing else. *)
Definition bare (C : Config) : Pool := mkPool C ∅ ∅ ∅ 0 0 0.

(** ** One check *)

Section FastPath.
Context (fm : FailMode) (clock : nat -> Time) (newID_ : nat -> res string).
Context (Mono : monotone clock).
Implicit Types w : World (S := MemStore).

(** The millisecond of the world's next clock reading. *)
Definition ms w : Z := toUnixMilli (clock (wticks w)).

(** What an admitted request takes from axis [a] of key [bk]. *)
Definition admitted_cost (a : axis) (bk : string) (key : Key) (l : Limits) (c : Cost)
    (r : res Decision) : Z :=
  if admitted r && concerns a bk key (Split l) then nonneg (cost_of a c) else 0.

(** From [w] to [w'] the limiter made the store calls [h], and what it admitted is
    paid by the live credits and the store's charges. *)
Record paid (a : axis) (bk : string) (c A K : Z) (w w' : World) (h : list (Time * op)) (q : Z) : Prop := {
  paid_ticks : (wticks w <= wticks w')%nat;
  paid_pool : pool_ok A K (wpool w');
  paid_cfg : cfg (wpool w') = cfg (wpool w);
  paid_store : wstore w' = run (wstore w) h;
  paid_window : window a bk c (ms w) h (ms w');
  paid_credits : live a bk (clock (wticks w')) (wpool w') + q
    <= live a bk (clock (wticks w)) (wpool w) + charges a bk (wstore w) h
}.

Lemma ms_le w w' : (wticks w <= wticks w')%nat -> ms w <= ms w'.
Proof. intros H. unfold ms, toUnixMilli. apply Z.div_le_mono; [reflexivity|]. apply Mono, H. Qed.

(** Steps that leave the store alone. *)
Lemma paid_local a bk c A K K' w w' q :
  pool_ok A K (wpool w) -> (wticks w <= wticks w')%nat -> wstore w' = wstore w ->
  pool_ok A K' (wpool w') -> cfg (wpool w') = cfg (wpool w) ->
  (exists t, clock (wticks w) <= t <= clock (wticks w') /\
     live a bk t (wpool w') + q <= live a bk t (wpool w)) ->
  paid a bk c A K' w w' [] q.
Proof.
  intros OK Ht S O C (t & Ht' & L). split; auto; cbn [run fold_left window charges].
  - apply ms_le, Ht.
  - pose proof (live_later A K' a bk t (clock (wticks w')) (wpool w') O ltac:(lia)).
    pose proof (live_later A K a bk (clock (wticks w)) t (wpool w) OK ltac:(lia)). lia.
Qed.

Lemma paid_trans a bk c A K K' w w1 w2 h h' q q' :
  paid a bk c A K w w1 h q -> paid a bk c A K' w1 w2 h' q' ->
  paid a bk c A K' w w2 (h ++ h') (q + q').
Proof.
  intros [A1 A2 A3 A4 A5 A6] [B1 B2 B3 B4 B5 B6]. split; auto.
  - lia.
  - congruence.
  - rewrite B4, A4, run_app. reflexivity.
  - eapply window_app; eassumption.
  - rewrite charges_app, <- A4. lia.
Qed.

Lemma paid_weaken a bk c A K K' w w' h q : K <= K' -> paid a bk c A K w w' h q -> paid a bk c A K' w w' h q.
Proof. intros H [A1 A2 A3 A4 A5 A6]. split; auto. apply (pool_ok_mono A K); assumption. Qed.

(** One step of the pool. *)
Lemma paid_pool_step {X} a bk c A K w (f : Time -> Pool -> Pool * X) (q : X -> Z) :
  pool_ok A K (wpool w) ->
  (let t := clock (wticks w) in accounts a bk t A K (wpool w) (f t (wpool w)).1 0 (q (f t (wpool w)).2)) ->
  let out := onPool clock f w in paid a bk c A (K + A) w out.1 [] (q out.2).
Proof.
  intros OK Acc. cbv zeta in *. unfold onPool. step.
  destruct (f (clock (wticks w)) (wpool w)) as [p x]. cbn [fst snd] in *.
  destruct Acc as (O & C & L).
  apply (paid_local a bk c A K (K + A)); cbn [wticks wstore wpool]; auto.
  exists (clock (wticks w)). split; [|lia]. split; [lia|]. apply Mono. lia.
Qed.

(** *** Accounting for programs of the limiter's monad *)

(** What a program relies on and leaves: conditions on the pool and the store. *)
Definition cond : Type := Pool -> MemStore -> Prop.

Section Pays.
Context (a : axis) (bk : string) (c A : Z) (C0 : Config).
Context (HA : 0 <= A).

(** Started in [J], [m] makes at most [k] store calls, changes no balance by more
    than [n] times [A], ends in [P] of its result, and what it takes, [Q] of the
    result, is paid by the live credits and the store's charges. *)
Definition pays {X} (n k : nat) (J : cond) (m : M X) (P : X -> cond) (Q : X -> Z) : Prop :=
  forall K (w : World (S := MemStore)), 0 <= K -> pool_ok A K (wpool w) -> cfg (wpool w) = C0 ->
    K + Z.of_nat n * A <= int64_max -> J (wpool w) (wstore w) ->
    let out := exec clock newID_ m w in
    P out.2 (wpool out.1) (wstore out.1) /\
    exists h, (length h <= k)%nat /\
      paid a bk c A (K + Z.of_nat n * A) w out.1 h (Q out.2).

Lemma pays_ret {X} n k J (x : X) (P : X -> cond) (Q : X -> Z) :
  (forall p s, J p s -> P x p s) -> Q x <= 0 -> pays n k J (ret x) P Q.
Proof.
  intros Px Qx K w HK OK C Hn Jw. split; [apply Px, Jw|]. exists []. split; [apply Nat.le_0_l|].
  apply (paid_local a bk c A K); auto; cbn [exec fst snd].
  - apply (pool_ok_mono A K); [nia|exact OK].
  - exists (clock (wticks w)). split; [lia|]. lia.
Qed.

Lemma pays_bind {X Y} n1 n2 k1 k2 J (m : M X) (f : X -> M Y) P1 Q1 P Q :
  pays n1 k1 J m P1 Q1 ->
  (forall x, pays n2 k2 (P1 x) (f x) P (fun y => Q y - Q1 x)) ->
  pays (n1 + n2) (k1 + k2) J (bind m f) P Q.
Proof.
  intros H1 H2 K w HK OK C Hn Jw. rewrite Nat2Z.inj_add, Z.mul_add_distr_r in *.
  destruct (H1 K w HK OK C ltac:(nia) Jw) as (P1x & h1 & L1 & Pd1).
  cbn [exec]. destruct (exec clock newID_ m w) as [w1 x]. cbn [fst snd] in *.
  destruct (H2 x (K + Z.of_nat n1 * A) w1) as (Py & h2 & L2 & Pd2); auto.
  - nia.
  - apply Pd1.
  - rewrite (paid_cfg _ _ _ _ _ _ _ _ _ Pd1). exact C.
  - lia.
  - split; [exact Py|]. exists (h1 ++ h2). rewrite length_app. split; [lia|].
    pose proof (paid_trans _ _ _ _ _ _ _ _ _ _ _ _ _ Pd1 Pd2) as Pd.
    set (out := exec clock newID_ (f x) w1) in *. replace (Q1 x + (Q out.2 - Q1 x)) with (Q out.2) in Pd by lia.
    rewrite Z.add_assoc. exact Pd.
Qed.

Lemma pays_more {X} n n' k k' J J' (m : M X) P Q :
  (n <= n')%nat -> (k <= k')%nat -> (forall p s, J' p s -> J p s) ->
  pays n k J m P Q -> pays n' k' J' m P Q.
Proof.
  intros Hn Hk HJ Hm K w HK OK C Bd Jw.
  destruct (Hm K w HK OK C ltac:(nia) (HJ _ _ Jw)) as (Px & h & L & Pd).
  split; [exact Px|]. exists h. split; [lia|].
  apply (paid_weaken _ _ _ _ (K + Z.of_nat n * A)); [nia|exact Pd].
Qed.

Lemma pays_seq {X Y} n1 n2 k1 k2 n k J (m : M X) (f : X -> M Y) P1 Q1 P Q :
  pays n1 k1 J m P1 Q1 ->
  (n1 + n2 <= n)%nat -> (k1 + k2 <= k)%nat ->
  (forall x, pays n2 k2 (P1 x) (f x) P (fun y => Q y - Q1 x)) ->
  pays n k J (bind m f) P Q.
Proof.
  intros Hm Hn Hk Hf. apply (pays_more (n1 + n2) n (k1 + k2) k J); auto.
  apply (pays_bind _ _ _ _ _ _ _ P1 Q1); assumption.
Qed.

(** Facts the condition holds. *)
Lemma pays_fact {X} (F : Prop) n k J (m : M X) P Q :
  (forall p s, J p s -> F) -> (F -> pays n k J m P Q) -> pays n k J m P Q.
Proof. intros HF Hm K w HK OK C Bd Jw. exact (Hm (HF _ _ Jw) K w HK OK C Bd Jw). Qed.

(** Taking less. *)
Lemma pays_less {X} n k J (m : M X) (P : X -> cond) (P' : X -> cond) (Q Q' : X -> Z) :
  (forall x p s, P x p s -> P' x p s /\ Q' x <= Q x) -> pays n k J m P Q -> pays n k J m P' Q'.
Proof.
  intros HQ Hm K w HK OK C Bd Jw. destruct (Hm K w HK OK C Bd Jw) as (Px & h & L & Pd).
  destruct (HQ _ _ _ Px) as [Px' Hq]. split; [exact Px'|]. exists h. split; [exact L|].
  destruct Pd as [D1 D2 D3 D4 D5 D6]. split; auto. lia.
Qed.

(** A step of the pool that [accounts] for what it spends. *)
Lemma pays_pool {X} J (x : act X) (f : Time -> Pool -> Pool * X) (P : X -> cond) (Q : X -> Z) :
  run_act (S := MemStore) clock newID_ x = onPool clock f ->
  (forall t K p s, 0 <= K -> pool_ok A K p -> cfg p = C0 -> K + A <= int64_max -> J p s ->
    P (f t p).2 (f t p).1 s /\ accounts a bk t A K p (f t p).1 0 (Q (f t p).2)) ->
  pays 1 0 J x P Q.
Proof.
  intros E H K w HK OK C Hn Jw. cbv zeta. cbn [exec]. rewrite E. rewrite Z.mul_1_l in *.
  destruct (H (clock (wticks w)) K (wpool w) (wstore w) HK OK C Hn Jw) as [Px Acc].
  pose proof (paid_pool_step a bk c A K w f Q OK Acc) as Pd. cbv zeta in Pd.
  split; [|exists []; split; [reflexivity|exact Pd]].
  unfold onPool. step. destruct (f _ _). exact Px.
Qed.

(** A call of the store. *)
Lemma pays_store {X} J (x : act X) (f : Time -> MemStore -> MemStore * X) (o : op) (P : X -> cond) (Q : X -> Z) :
  run_act clock newID_ x = onStore clock f ->
  op_ok o -> op_uses a bk c o -> (forall t s, (f t s).1 = apply t s o) ->
  (forall t p s, J p s -> P (f t s).2 p (f t s).1 /\ Q (f t s).2 <= charge a bk t s o) ->
  pays 0 1 J x P Q.
Proof.
  intros Ex Ho Hu Ha Hf K w HK OK C Hn Jw. cbv zeta. cbn [exec]. rewrite Ex.
  destruct (Hf (clock (wticks w)) (wpool w) (wstore w) Jw) as [Px Hq].
  pose proof (Ha (clock (wticks w)) (wstore w)) as E. unfold onStore. step.
  destruct (f (clock (wticks w)) (wstore w)) as [s' y]. cbn [fst snd] in *. cbn [wpool wstore fst snd].
  split; [exact Px|]. exists [(clock (wticks w), o)]. split; [reflexivity|].
  split; cbn [wticks wpool wstore]; auto.
  - apply (pool_ok_mono A K); [lia|exact OK].
  - cbn [window]. split_and!; auto; [apply Z.le_refl|]. apply ms_le. cbn [wticks]. lia.
  - cbn [charges].
    assert (T : clock (wticks w) <= clock (Datatypes.S (wticks w))) by (apply Mono; lia).
    pose proof (live_later A K a bk _ _ (wpool w) OK T). lia.
Qed.

(** Steps that change neither leases nor reservations nor the store. *)
Lemma pays_silent {X} (J : cond) (x : act X) (P : X -> cond) :
  (forall w, cfg (wpool w) = C0 -> J (wpool w) (wstore w) ->
     let out := run_act clock newID_ x w in P out.2 (wpool out.1) (wstore out.1)) ->
  (forall w : World (S := MemStore), let out := run_act clock newID_ x w in
     wstore out.1 = wstore w /\ (wticks w <= wticks out.1)%nat /\ cfg (wpool out.1) = cfg (wpool w) /\
     lease (wpool out.1) = lease (wpool w) /\ pres (wpool out.1) = pres (wpool w)) ->
  pays 0 0 J x P (fun _ => 0).
Proof.
  intros HP Hs K w HK OK C Hn Jw. cbv zeta. cbn [exec]. destruct (Hs w) as (S1 & S2 & S3 & S4 & S5).
  split; [apply HP; assumption|]. exists []. split; [reflexivity|].
  apply (paid_local a bk c A K); auto.
  - apply (pool_ok_mono A K); [lia|]. apply (pool_ok_same A K (wpool w)); auto.
  - exists (clock (wticks w)). split; [split; [lia|apply Mono; exact S2]|].
    unfold live. rewrite S4. lia.
Qed.

(** Conditions on the reservations alone. *)
Definition on_reservations (J : cond) : Prop :=
  forall p p' s, pres p' = pres p -> J p s -> J p' s.

Lemma pays_newID J : pays 0 0 J NewID (fun _ => J) (fun _ => 0).
Proof. apply pays_silent; [auto|]. intros w. cbn. auto. Qed.

Lemma pays_noteBorrow J : on_reservations J -> pays 0 0 J PoolNoteBorrow (fun _ => J) (fun _ => 0).
Proof.
  intros HJ. apply pays_silent; [|intros w; cbn; auto].
  intros w _. apply (HJ (wpool w)). reflexivity.
Qed.

Lemma pays_config J : pays 0 0 J PoolConfig (fun x p s => x = C0 /\ J p s) (fun _ => 0).
Proof. apply pays_silent; [auto|]. intros w. cbn. auto. Qed.

Lemma pays_denyGet J key :
  on_reservations J -> pays 0 0 J (DenyGet key) (fun _ => J) (fun _ => 0).
Proof.
  intros HJ. apply pays_silent.
  - intros w _. step. destruct (denyGet _ _ _). apply (HJ (wpool w)). reflexivity.
  - intros w. step. destruct (denyGet _ _ _) as [d r]. cbn. auto.
Qed.

Lemma pays_denySet J key lt d :
  on_reservations J -> pays 0 0 J (DenySet key lt d) (fun _ => J) (fun _ => 0).
Proof.
  intros HJ. apply pays_silent; [|intros w; step; cbn; auto].
  intros w _. apply (HJ (wpool w)). reflexivity.
Qed.

(** *** Credits and loans *)

(** What a loan to [key] gets. *)
Definition lent_out (key : Key) (l : Limits) (r : res BorrowResult) : Z :=
  match r with
  | Ok b => if bAllowed b && concerns a bk key (Split l) then got_of a b else 0
  | Err _ => 0
  end.

Lemma accounts_net t K p p' g q :
  accounts a bk t A K p p' g q -> accounts a bk t A K p p' 0 (q - g).
Proof. intros (O & C & L). split_and!; [exact O|exact C|lia]. Qed.

(** What a granted loan credits to [bk]. *)
Definition amount (r t i o : Z) : Z := match a with RPM => r | TPM => t | ITPM => i | OTPM => o end.

Lemma granted_lent key l sp b :
  bAllowed b = true -> grants l sp b ->
  lent_out key l (Ok b) =
    if bool_decide (cacheKey key = bk) then amount (GotRPM b) (GotTPM b) (GotITPM b) (GotOTPM b) else 0.
Proof.
  intros Al [_ G]. unfold lent_out, concerns, amount. rewrite Al. change (bucketKey key) with (cacheKey key).
  cbn [andb]. destruct (bool_decide (cacheKey key = bk)); cbn [andb]; [|reflexivity].
  destruct (Split l), a; cbn [counts negb got_of]; lia.
Qed.

Lemma pays_credit J key l r t i o :
  on_reservations J -> 0 <= r <= A /\ 0 <= t <= A /\ 0 <= i <= A /\ 0 <= o <= A ->
  pays 1 0 J (PoolCreditLease key l r t i o)
    (fun _ => J) (fun _ => - if bool_decide (cacheKey key = bk) then amount r t i o else 0).
Proof.
  intros HJ R. eapply pays_pool; [reflexivity|]. intros now K p s HK OK _ Hn Jp. cbn [fst snd].
  split; [apply (HJ p); [reflexivity|exact Jp]|].
  rewrite <- Z.sub_0_l. apply accounts_net.
  change (if bool_decide (cacheKey key = bk) then amount r t i o else 0)
    with (given a bk now p (PCredit key l r t i o)).
  eapply CreditLease_accounts; eauto.
Qed.

(** The store's answer to a loan grants what was asked for. *)
Definition granted (l : Limits) (sp : BorrowSpec) (r : res BorrowResult) : Prop :=
  match r with
  | Ok b => bAllowed b = true -> grants l sp b
  | Err _ => True
  end.

Lemma pays_borrow (J : cond) key l sp :
  limits_ok l -> (concerns a bk key (Split l) = true -> limit_of a l = c) ->
  (forall p s s', reservations s' = reservations s -> J p s -> J p s') ->
  pays 0 1 J (StoreBorrow key l sp)
    (fun r p s => granted l sp r /\ J p s) (lent_out key l).
Proof.
  intros Lim Uses HJ. eapply pays_store with (o := OpBorrow key l sp); [reflexivity|auto..].
  cbn [sBorrow MemStore_Store charge]. intros t p s Jp. split; [split|].
  - destruct (Memory.Borrow t s key l sp) as [s' [b|]] eqn:E; [|exact I]. intros Al.
    pose proof (Borrow_grants _ _ _ _ _ _ _ E) as G. rewrite Al in G. exact G.
  - apply (HJ p s); [apply Borrow_reservations|exact Jp].
  - unfold lent_out. destruct (Memory.Borrow t s key l sp).2; lia.
Qed.

(** *** The reservations and the ledger *)

(** The reservation is the entry's. *)
Definition entry_of (e : entry) (r : Reservation) : Prop :=
  eKey e = RKey r /\ eSplit e = Split (RLimits r) /\ forall x, rres_of x r = reserved x e.

(** The pool's pending reservations are the entries of the ledger. *)
Definition recorded_in (L : ledger) (id : string) (r : Reservation) : Prop :=
  match L !! id with
  | Some e => Status r = pending /\ entry_of e r
  | None => Status r <> pending
  end.

(** Limits the arithmetic is exact for, and the bucket's capacity. *)
Definition limits_fit (key : Key) (l : Limits) : Prop :=
  limits_ok l /\ (concerns a bk key (Split l) = true -> limit_of a l = c).

Context (Rs : gmap string reservation).

Record leased (L : ledger) (p : Pool) (s : MemStore) : Prop := {
  leased_fit : map_Forall (fun _ r => limits_fit (RKey r) (RLimits r)) (pres p);
  leased_open : map_Forall (recorded_in L) (pres p);
  leased_store : reservations s = Rs
}.

Lemma leased_shrink L p p' s s' :
  pres p' ⊆ pres p -> reservations s' = reservations s -> leased L p s -> leased L p' s'.
Proof.
  intros H E [F O S]. split; [| |congruence]; intros id r Er; pose proof (lookup_weaken _ _ _ _ Er H) as Er'.
  - exact (F id r Er').
  - exact (O id r Er').
Qed.

Lemma leased_on L : on_reservations (leased L).
Proof. intros p p' s E. apply leased_shrink; [rewrite E|]; reflexivity. Qed.

Lemma leased_borrow L p s s' : reservations s' = reservations s -> leased L p s -> leased L p s'.
Proof. apply leased_shrink. reflexivity. Qed.

Lemma purge_shrinks t p : pres (purgeResLocked t p) ⊆ pres p.
Proof. cbn [purgeResLocked pres]. apply map_filter_subseteq. Qed.

(** Writing a reservation. *)
Lemma leased_insert L L' p p' s t id r :
  leased L p s -> pres p' = <[id := r]> (pres (purgeResLocked t p)) ->
  limits_fit (RKey r) (RLimits r) -> recorded_in L' id r -> (forall i, i <> id -> L' !! i = L !! i) ->
  leased L' p' s.
Proof.
  intros Ld E Fr Rr HL. apply (leased_shrink L p (purgeResLocked t p) s s (purge_shrinks t p) eq_refl) in Ld.
  destruct Ld as [F O S]. split; [rewrite E| |exact S].
  - apply map_Forall_insert_2; assumption.
  - rewrite E. intros i ri [[-> <-]|[N Ei]]%lookup_insert_Some; [exact Rr|].
    unfold recorded_in. rewrite HL by congruence. exact (O i ri Ei).
Qed.

(** *** The steps of a check *)

Context (key : Key) (l : Limits) (cost : Cost) (L : ledger).
Context (Chunks : RPMChunk C0 <= A /\ TPMChunk C0 <= A /\ ITPMChunk C0 <= A /\ OTPMChunk C0 <= A).
Context (Lim : limits_ok l) (Uses : concerns a bk key (Split l) = true -> limit_of a l = c).
Context (Costs : forall x, nonneg (cost_of x cost) <= A).

Lemma cost_of_nonneg x : cost_of x (nonneg_cost cost) = nonneg (cost_of x cost).
Proof. destruct x; reflexivity. Qed.

Lemma cost_range x : 0 <= cost_of x (nonneg_cost cost) <= A.
Proof. rewrite cost_of_nonneg. split; [rewrite nonneg_max; lia|apply Costs]. Qed.

(** The ledger after the check, and after a debit. *)
Definition after_check (r : res Decision) : ledger := book L (CCheck key l cost) (ADecision r).

Definition after_debit (o : option Decision) : ledger :=
  match o with Some d => after_check (Ok d) | None => L end.

(** What a debit takes. *)
Definition debited (o : option Decision) : Z :=
  match o with Some d => admitted_cost a bk key l cost (Ok d) | None => 0 end.

(** A debit records its reservation. *)
Lemma TryDebit_leased t p s id :
  leased L p s ->
  let r := TryDebit t p key l (nonneg_cost cost) id in leased (after_debit r.2) r.1 s.
Proof.
  intros Ld. cbv zeta. assert (Fit : limits_fit key l) by (split; assumption).
  pose proof (TryDebit_decision t p key l (nonneg_cost cost) id) as D.
  assert (Pr : pres (getLeaseLocked (purgeResLocked t p) key t).1 = pres (purgeResLocked t p)).
  { unfold getLeaseLocked. cbv zeta. destruct (lease _ !! _) as [b|]; [destruct (negb _)|]; reflexivity. }
  unfold TryDebit in *. cbv zeta in *. destruct (getLeaseLocked _ _ _) as [p0 ob]. cbn [fst] in Pr.
  assert (None_ : forall n, leased L (p0 <| miss := n |>) s).
  { intros n. apply (leased_shrink L p _ s s); [|reflexivity|exact Ld].
    cbn [pres]. rewrite Pr. apply purge_shrinks. }
  destruct ob as [b|]; [|apply None_].
  destruct (covers _ _ _); [|apply None_].
  destruct (Split l) eqn:Sp; cbn [fst snd after_debit]; destruct (D _ _ eq_refl) as (Al & _ & Id);
    (eapply leased_insert; [exact Ld|cbn [pres setLease]; rewrite Pr; reflexivity
      |exact Fit| |]).
  all: unfold after_check, book; rewrite Al, Id.
  all: try (intros i Ni; apply lookup_insert_ne; congruence).
  all: unfold recorded_in; rewrite lookup_insert_eq; (split; [reflexivity|]); unfold entry_of;
    cbn [eKey eSplit RKey RLimits]; rewrite Sp; (split_and!; [reflexivity..|]); intros []; reflexivity.
Qed.

Lemma pays_TryDebit id :
  pays 1 0 (leased L) (PoolTryDebit key l (nonneg_cost cost) id)
    (fun o => leased (after_debit o)) debited.
Proof.
  eapply pays_pool; [reflexivity|]. intros t K p s HK OK _ Hn Ld. split; [apply TryDebit_leased, Ld|].
  assert (Acc : accounts a bk t A K p (TryDebit t p key l (nonneg_cost cost) id).1 0
    (spent a bk t p (PDebit key l (nonneg_cost cost) id)))
    by (eapply TryDebit_accounts; eauto using cost_range).
  cbn [spent] in Acc. pose proof (TryDebit_decision t p key l (nonneg_cost cost) id) as D.
  destruct (TryDebit _ _ _ _ _ _) as [p' [d|]]; cbn [fst snd debited] in *; [|exact Acc].
  destruct (D p' d eq_refl) as (Al & _ & _). unfold admitted_cost. cbn [admitted]. rewrite Al.
  rewrite cost_of_nonneg in Acc. exact Acc.
Qed.

(** The program ends the request, owing [q] to the steps before it. *)
Definition ends (n k : nat) (m : M (res Decision)) (q : Z) : Prop :=
  pays n k (leased L) m (fun r => leased (after_check r))
    (fun r => admitted_cost a bk key l cost r - q).

Lemma ends_seq {X} n1 n2 k1 k2 n k (m : M X) (f : X -> M (res Decision)) P1 Q1 q :
  pays n1 k1 (leased L) m P1 Q1 ->
  (n1 + n2 <= n)%nat -> (k1 + k2 <= k)%nat ->
  (forall x, pays n2 k2 (P1 x) (f x) (fun r => leased (after_check r))
    (fun r => admitted_cost a bk key l cost r - (q + Q1 x))) ->
  ends n k (bind m f) q.
Proof.
  intros Hm Hn Hk Hf. apply (pays_seq n1 n2 k1 k2 n k _ m f P1 Q1); auto.
  intros x K w HK OK C Bd Jw. specialize (Hf x K w HK OK C Bd Jw).
  cbv beta zeta in Hf |- *. rewrite Z.sub_add_distr in Hf. exact Hf.
Qed.

Lemma ends_more n n' k k' m q : (n <= n')%nat -> (k <= k')%nat -> ends n k m q -> ends n' k' m q.
Proof. intros Hn Hk. apply pays_more; auto. Qed.

Lemma ends_denied n k d q : Allowed d = false -> 0 <= q -> ends n k (ret (Ok d)) q.
Proof.
  intros D Hq. unfold ends, after_check, admitted_cost, book. apply pays_ret; cbn [admitted]; rewrite D; [auto|].
  cbn [andb]. lia.
Qed.

Lemma ends_closed n k lt d q : 0 <= q -> ends n k (ret (Ok (denyDecision l lt d))) q.
Proof. apply ends_denied, denyDecision_denied. Qed.

(** After a debit: the request is admitted with its decision, or [m] goes on. *)
Lemma ends_debited n k o q m :
  0 <= q -> (o = None -> ends n k m q) ->
  pays n k (leased (after_debit o)) (match o with Some d => ret (Ok d) | None => m end)
    (fun r => leased (after_check r))
    (fun r => admitted_cost a bk key l cost r - (q + debited o)).
Proof.
  intros Hq Hm. destruct o as [d|]; cbn [after_debit debited].
  - apply pays_ret; [auto|lia].
  - rewrite Z.add_0_r. apply Hm. reflexivity.
Qed.

Lemma pays_Has x :
  pays 1 0 (leased L) (PoolHas key x l)
    (fun _ => leased L) (fun _ => 0).
Proof.
  eapply pays_pool; [reflexivity|]. intros t K p s HK OK _ Hn Ld. split.
  - apply (leased_on L p); [|exact Ld]. unfold Has, getLeaseLocked. cbv zeta.
    destruct (lease p !! _) as [b|]; [destruct (negb _)|]; reflexivity.
  - exact (papply_accounts A K p t a bk OK HA HK Hn (PHas key x l) I).
Qed.

Lemma ends_errFast e q :
  0 <= q -> ends 2 0 (onStoreErrFast fm key l (nonneg_cost cost) e) q.
Proof.
  intros Hq. unfold onStoreErrFast. destruct (bool_decide _); [|apply ends_closed; exact Hq].
  eapply (ends_seq 1 1 0 0); [apply pays_Has|lia|lia|intros []; [|apply ends_closed; lia]].
  eapply (ends_seq 0 1 0 0); [apply pays_newID|lia|lia|intros [id|e']; [|apply ends_closed; lia]].
  eapply (ends_seq 1 0 0 0); [apply pays_TryDebit|lia|lia|intros o].
  apply ends_debited; [lia|]. intros _. apply ends_closed. lia.
Qed.

(** After a granted loan: credit it, debit the request. *)
Lemma ends_granted b id :
  bAllowed b = true -> grants l (borrow_spec (bare C0) cost) b ->
  ends 2 0
    (PoolCreditLease key l (GotRPM b) (GotTPM b) (GotITPM b) (GotOTPM b) ;;;
     d <- PoolTryDebit key l (nonneg_cost cost) id ;;
     match d with
     | None => DenySet key LimitTypeBackend Second ;;; ret (Ok (denyDecision l LimitTypeBackend Second))
     | Some d => ret (Ok d)
     end) (lent_out key l (Ok b)).
Proof.
  intros Al G. destruct (granted_amounts A l cost (bare C0) b Costs Chunks G) as (R & _ & _).
  eapply (ends_seq 1 1 0 0); [apply pays_credit; [apply leased_on|exact R]|lia|lia|intros []; cbv beta].
  rewrite (granted_lent key l _ b Al G), Z.add_opp_diag_r.
  eapply (ends_seq 1 0 0 0); [apply pays_TryDebit|lia|lia|intros [d|]].
  - apply (ends_debited 0 0 (Some d) 0 (ret (Ok d))); [lia|discriminate].
  - eapply (ends_seq 0 0 0 0); [apply pays_denySet, leased_on|lia|lia|intros []; cbv beta].
    apply ends_closed. cbn [debited]. lia.
Qed.

(** A check takes at most five steps on the leases and one call of the store. *)
Lemma ends_checkFast : ends 5 1 (checkFast fm key l cost) 0.
Proof.
  unfold checkFast. cbv zeta. fold (nonneg_cost cost).
  eapply (ends_seq 0 5 0 1); [apply pays_denyGet, leased_on|lia|lia|intros [[lt retry]|]; [apply ends_closed; lia|]].
  eapply (ends_seq 0 5 0 1); [apply pays_newID|lia|lia|intros [id|e];
    [|apply (ends_more 2 5 0 1); [lia|lia|apply ends_errFast; lia]]].
  eapply (ends_seq 1 4 0 1); [apply pays_TryDebit|lia|lia|intros [d|];
    [apply (ends_debited 4 1 (Some d) 0 (ret (Ok d))); [lia|discriminate]|]].
  eapply (ends_seq 0 4 0 1); [apply pays_config|lia|lia|intros cf].
  apply (pays_fact (cf = C0)); [intros p s []; assumption|intros ->].
  eapply (pays_more 4 4 1 1 (leased L)); [lia|lia|intros p s []; assumption|].
  eapply (ends_seq 0 4 0 1); [apply pays_noteBorrow, leased_on|lia|lia|intros []; cbv beta].
  change (mkBorrowSpec _ _ _ _ _ _ _ _) with (borrow_spec (bare C0) cost).
  eapply (ends_seq 0 4 1 0); [apply pays_borrow; [assumption..|apply leased_borrow]|lia|lia|intros r].
  apply (pays_fact (granted l (borrow_spec (bare C0) cost) r)); [intros p s []; assumption|intros G].
  eapply (pays_more 4 4 0 0 (leased L)); [lia|lia|intros p s []; assumption|].
  destruct r as [b|e]; cbn [debited].
  2:{ apply (ends_more 2 4 0 0); [lia|lia|]. apply ends_errFast. cbn [lent_out]. lia. }
  rewrite !Z.add_0_l. destruct (bAllowed b) eqn:Al; cbn [negb].
  - apply (ends_more 2 4 0 0); [lia|lia|]. apply ends_granted; auto.
  - cbn [lent_out]. rewrite Al. cbn [andb].
    eapply (ends_seq 0 4 0 0); [apply pays_denySet, leased_on|lia|lia|intros []; cbv beta]. apply ends_denied; [|lia].
    unfold borrowDenyDecision. destruct (Split l); reflexivity.
Qed.

(** A check is paid for, and books what it admits. *)
Lemma pays_Check :
  pays 5 1 (leased L) (Limiter.Check fm true key l cost)
    (fun r => leased (after_check r)) (admitted_cost a bk key l cost).
Proof.
  unfold Limiter.Check. destruct (Validate l).
  - apply pays_ret; [auto|]. unfold admitted_cost. cbn [admitted andb]. lia.
  - eapply pays_less; [|apply ends_checkFast]. intros r p s H. split; [exact H|]. cbn beta. lia.
Qed.
End Pays.

(** *** Histories of checks *)

(** Runs the checks one after the other and adds up what they admit. *)
Fixpoint check_all (a : axis) (bk : string) (w : World (S := MemStore))
    (calls : list (Key * Limits * Cost)) : World (S := MemStore) * Z :=
  match calls with
  | [] => (w, 0)
  | (key, l, cost) :: calls =>
      let '(w1, r) := exec clock newID_ (Limiter.Check fm true key l cost) w in
      let '(w2, n) := check_all a bk w1 calls in
      (w2, admitted_cost a bk key l cost r + n)
  end.

(** Amounts up to [A], limits the arithmetic is exact for, and capacity [c] for
    bucket [bk] of axis [a]. *)
Definition check_ok (a : axis) (bk : string) (c A : Z) (call : Key * Limits * Cost) : Prop :=
  let '(key, l, cost) := call in
  limits_ok l /\ (concerns a bk key (Split l) = true -> limit_of a l = c) /\
  (forall x, nonneg (cost_of x cost) <= A).

Definition chunks_ok (A : Z) (C : Config) : Prop :=
  RPMChunk C <= A /\ TPMChunk C <= A /\ ITPMChunk C <= A /\ OTPMChunk C <= A.

Lemma check_all_paid a bk c A Rs calls : forall K w L,
  0 <= A -> 0 <= K -> chunks_ok A (cfg (wpool w)) -> pool_ok A K (wpool w) ->
  leased a bk c Rs L (wpool w) (wstore w) ->
  Forall (check_ok a bk c A) calls ->
  K + Z.of_nat (length calls) * (5 * A) <= int64_max ->
  exists h, (length h <= length calls)%nat /\
    paid a bk c A (K + Z.of_nat (length calls) * (5 * A)) w (check_all a bk w calls).1 h
      (check_all a bk w calls).2.
Proof.
  induction calls as [|[[key l] cost] calls IH]; intros K w L HA HK Ch OK Ld F Bd.
  - exists []. split; [reflexivity|]. cbn [check_all fst snd length] in *.
    apply (paid_local a bk c A K); auto; [apply (pool_ok_mono A K); [lia|exact OK]|].
    exists (clock (wticks w)). lia.
  - apply Forall_cons in F as [(Lim & Us & Cs) F].
    change (length ((key, l, cost) :: calls)) with (Datatypes.S (length calls)) in *.
    rewrite Nat2Z.inj_succ, Z.mul_succ_l in *.
    destruct (pays_Check a bk c A (cfg (wpool w)) HA Rs key l cost L Ch Lim Us Cs K w HK OK eq_refl
      ltac:(lia) Ld) as (Ld1 & h1 & L1 & Pd1). cbn [check_all].
    destruct (exec _ _ (Limiter.Check _ _ _ _ _) _) as [w1 r]. cbn [fst snd] in *.
    change (Z.of_nat 5) with 5 in Pd1.
    destruct (IH (K + 5 * A) w1 (after_check key l cost L r) HA ltac:(lia)) as (h2 & L2 & Pd2).
    + rewrite (paid_cfg _ _ _ _ _ _ _ _ _ Pd1). exact Ch.
    + apply Pd1.
    + exact Ld1.
    + exact F.
    + lia.
    + destruct (check_all a bk w1 calls) as [w2 m]. cbn [fst snd] in *.
      exists (h1 ++ h2). rewrite length_app. split; [lia|].
      pose proof (paid_trans _ _ _ _ _ _ _ _ _ _ _ _ _ Pd1 Pd2) as Pd.
      replace (K + (Z.of_nat (length calls) * (5 * A) + 5 * A))
        with (K + 5 * A + Z.of_nat (length calls) * (5 * A)) by ring. exact Pd.
Qed.
End FastPath.

Arguments pays_seq {_ _ _ _ _ _ _} HA {_ _} n1 n2 k1 k2 {_ _ _ _ _ _ _ _ _}.
Arguments pays_more {_ _ _ _ _ _ _} HA {_} n n' k k' J {_ _ _ _}.
Arguments pays_fact {_ _ _ _ _ _ _ _} F {_ _ _ _ _ _}.
Arguments pays_ret {_ _} Mono {_ _ _ _ _} HA {_ _ _ _ _ _ _}.

(** ** Properties *)

(** End to end, the fast path stays within the budget.  A limiter with a new
    pool over a reachable in-process store, answering any sequence of checks for
    any keys from local leases, admits for each key and axis at most the
    per-minute limit, what the limit earns between the first and the last clock
    reading, and one token: leasing credits ahead and caching denials never admit
    more than the store's own budget. *)
Theorem fast_path_budget fm clock newID_ a bk c A C T0 s ticks ids calls :
  let w := mkWorld s (NewPool C) ticks ids in
  let out := check_all fm clock newID_ a bk w calls in
  monotone clock -> reachable T0 s -> T0 <= ms clock w -> 0 < ms clock w -> uniform a bk c s ->
  Forall (check_ok a bk c A) calls -> chunks_ok A (normalized C) -> 0 <= A <= 2 ^ 40 ->
  0 < c <= 2 ^ 30 -> Z.of_nat (length calls) <= 2 ^ 20 ->
  ms clock out.1 <= 2 ^ 53 -> ms clock out.1 - ms clock w <= 2 ^ 32 ->
  60000 * out.2 <= 60000 * (c + 1) + (ms clock out.1 - ms clock w) * c.
Proof.
  intros w out Mono Re HT H0 U F Ch HA Hc Hn Hu Hd.
  assert (Ld : leased a bk c (reservations s) ∅ (NewPool C) s)
    by (split; [apply map_Forall_empty|apply map_Forall_empty|reflexivity]).
  destruct (check_all_paid fm clock newID_ Mono a bk c A (reservations s) calls 0 w ∅ ltac:(lia) ltac:(lia) Ch
    (NewPool_ok C A 0) Ld F ltac:(unfold int64_max; nia)) as (h & L & Pd).
  fold out in Pd. destruct Pd as [_ O _ _ W Cr].
  pose proof (budget_bound a bk c T0 (ms clock w) s h (ms clock out.1) (reachable_ok T0 s Re) HT H0 U W
    Hc Hu Hd ltac:(lia)) as B.
  assert (Lr : 0 <= live a bk (clock (wticks out.1)) (wpool out.1)).
  { eapply live_range; [|exact O]. nia. }
  change (live a bk (clock (wticks w)) (wpool w)) with 0 in Cr. cbn [wstore w] in Cr. lia.
Qed.

Definition burst : list (Key * Limits * Cost) :=
  [(sample_key, sample_limits, mkCost 1 100 0 0); (sample_key, sample_limits, mkCost 4 100 0 0);
   (mkKey "bob" "", sample_limits, mkCost 1 100 0 0); (sample_key, sample_limits, mkCost 9 100 0 0)].

Definition unix_clock (n : nat) : Time := 1700000001000000000 + Z.of_nat n * 1000000.

Lemma fast_path_budget_witness :
  let w := mkWorld sample_store (NewPool DefaultConfig) 0 0 in
  let out := check_all FailClosed unix_clock sample_ids RPM (bucketKey sample_key) w burst in
  60000 * out.2 <= 60000 * (10 + 1) + (ms unix_clock out.1 - ms unix_clock w) * 10.
Proof.
  apply (fast_path_budget FailClosed unix_clock sample_ids RPM (bucketKey sample_key) 10 1000 DefaultConfig
    1700000000000 sample_store 0 0 burst).
  - intros n m H. unfold unix_clock. lia.
  - apply sample_reachable.
  - vm_compute. congruence.
  - vm_compute. reflexivity.
  - apply (bool_decide_unpack _). vm_compute. exact I.
  - repeat apply Forall_cons_2; try apply Forall_nil_2;
      (split; [vm_compute; split_and!; congruence|]);
      (split; [vm_compute; congruence|]); intros []; vm_compute; congruence.
  - vm_compute. split_and!; congruence.
  - lia.
  - lia.
  - vm_compute. congruence.
  - vm_compute. congruence.
  - vm_compute. congruence.
Defined.
