(* ===== verification/LimiterLedger.v ===== *)
(** * LimiterLedger: what clients hold is within the store's budget

    Over the in-process store, with the fast path or without it, the reservations a
    limiter has handed out agree with the [Ledger] its clients can keep, and what
    the ledger holds of a key is paid by the credits still leased and the store's
    charges; so it stays within the per-minute budget. *)

From stdpp Require Import base tactics numbers strings gmap list.
From Stdlib Require Import ZArith Lia.
From S2P Require Import Prelude GoFloat Api Bucket Budget Store Memory MemorySpec MemoryBudget MemoryProps.
From S2P Require Import Lease LeaseSpec Limiter LimiterSpec ApiLimiter Ledger LimiterMemory.

(** ** Closing a reservation of the pool *)

(** A settlement or refund of [id] fails, answers again for a closed reservation, or
    closes a pending one; [last] relates its answer to the reservation it leaves. *)
Variant closes {X} (last : X -> Reservation -> Prop) (t : Time) (p : Pool) (id : string) :
    Pool * res X -> Prop :=
| closes_err e : closes last t p id (purgeResLocked t p, Err e)
| closes_again r x :
    pres (purgeResLocked t p) !! id = Some r -> Status r <> pending -> last x r ->
    closes last t p id (purgeResLocked t p, Ok x)
| closes_now r r' p' x :
    pres (purgeResLocked t p) !! id = Some r -> Status r = pending ->
    pres p' = <[id := r']> (pres (purgeResLocked t p)) -> Status r' <> pending ->
    RKey r' = RKey r -> RLimits r' = RLimits r -> last x r' ->
    closes last t p id (p', Ok x).

(** The decision answered is the one on record. *)
Definition on_record (d : Decision) (r : Reservation) : Prop := LastDecision r = d.

Lemma SettleLocal_closes t p id n : closes on_record t p id (SettleLocal t p id n).
Proof.
  unfold SettleLocal. cbv zeta. destruct (pres (purgeResLocked t p) !! id) as [r|] eqn:E; [|apply closes_err].
  destruct (Split (RLimits r)); [apply closes_err|].
  destruct (Status r) eqn:St; [|eapply closes_again; [exact E|congruence|reflexivity]|apply closes_err].
  pose proof (pres_leaseFor (purgeResLocked t p) r t) as Pr.
  destruct (leaseFor (purgeResLocked t p) r t) as [p0 b]. cbn [fst] in Pr.
  destruct (if 0 <? wrap64 (TPMReserved r - nonneg n) then _ else _) as [[bal over] restored].
  eapply closes_now; [exact E|exact St|rewrite pres_clearIf; cbn [pres setLease]; rewrite Pr; reflexivity
    |discriminate|reflexivity..].
Qed.

Lemma SettleLocalIO_closes t p id i o : closes on_record t p id (SettleLocalIO t p id i o).
Proof.
  unfold SettleLocalIO. cbv zeta. destruct (pres (purgeResLocked t p) !! id) as [r|] eqn:E; [|apply closes_err].
  destruct (negb _); [apply closes_err|].
  destruct (Status r) eqn:St; [|eapply closes_again; [exact E|congruence|reflexivity]|apply closes_err].
  pose proof (pres_leaseFor (purgeResLocked t p) r t) as Pr.
  destruct (leaseFor (purgeResLocked t p) r t) as [p0 b]. cbn [fst] in Pr.
  destruct (applyLocalDelta (litpm b) _ _) as [[itpm' overI] restI].
  destruct (applyLocalDelta (lotpm b) _ _) as [[otpm' overO] restO].
  eapply closes_now; [exact E|exact St|rewrite pres_clearIf; cbn [pres setLease]; rewrite Pr; reflexivity
    |discriminate|reflexivity..].
Qed.

Lemma RefundLocal_closes t p id : closes (fun _ _ => True) t p id (RefundLocal t p id).
Proof.
  unfold RefundLocal. cbv zeta. destruct (pres (purgeResLocked t p) !! id) as [r|] eqn:E; [|apply closes_err].
  destruct (Status r) eqn:St; [|apply closes_err|eapply closes_again; [exact E|congruence|exact I]].
  pose proof (pres_leaseFor (purgeResLocked t p) r t) as Pr.
  destruct (leaseFor (purgeResLocked t p) r t) as [p0 b]. cbn [fst] in Pr.
  eapply closes_now; [exact E|exact St|cbn [pres setLease]; rewrite Pr; reflexivity
    |discriminate|reflexivity|reflexivity|exact I].
Qed.

(** What a settlement overshoots is beyond the reservation. *)
Lemma applyLocalDelta_over A K bal res_ actual :
  0 <= bal <= K -> 0 <= res_ <= A -> 0 <= actual <= A -> 0 <= A -> K + A <= int64_max ->
  (applyLocalDelta bal res_ actual).1.2 <= Z.max 0 (actual - res_).
Proof.
  intros Hb Hr Ha HA HK. pose proof (applyLocalDelta_spec A K bal res_ actual Hb Hr Ha HA HK) as D.
  destruct (applyLocalDelta _ _ _) as [[bal' over] restored]. cbn [fst snd].
  destruct D as (D1 & D2 & D3 & D4 & _). lia.
Qed.

Lemma SettleLocal_over A K t p id n r d :
  pool_ok A K p -> 0 <= A -> 0 <= K -> K + A <= int64_max -> n <= A ->
  pending_res p t id = Some r -> (SettleLocal t p id n).2 = Ok d ->
  over_of TPM d <= Z.max 0 (nonneg n - rres_of TPM r).
Proof.
  intros OK HA HK KA Hn. unfold pending_res, SettleLocal. cbv zeta.
  pose proof (purgeRes_ok A K t p OK) as OK'.
  destruct (pres (purgeResLocked t p) !! id) as [r0|] eqn:E; [|discriminate].
  destruct (Status r0) eqn:St; try discriminate. intros [= ->].
  destruct (Split (RLimits r)); [discriminate|].
  pose proof (leaseFor_spec A K (purgeResLocked t p) r t HK OK') as G.
  destruct (leaseFor (purgeResLocked t p) r t) as [p0 b]. destruct G as (_ & _ & _ & _ & B & _).
  pose proof (applyLocalDelta_over A K (ltpm b) (TPMReserved r) (nonneg n) (B TPM)
    (proj1 (ok_pres _ _ _ OK' id r E TPM)) ltac:(rewrite nonneg_max; lia) HA KA) as D.
  unfold applyLocalDelta in D. cbv zeta in D.
  destruct (if 0 <? wrap64 (TPMReserved r - nonneg n) then _ else _) as [[bal over] restored].
  intros [= <-]. exact D.
Qed.

Lemma SettleLocalIO_over A K t p id i o r d :
  pool_ok A K p -> 0 <= A -> 0 <= K -> K + A <= int64_max -> i <= A -> o <= A ->
  pending_res p t id = Some r -> (SettleLocalIO t p id i o).2 = Ok d ->
  over_of ITPM d <= Z.max 0 (nonneg i - rres_of ITPM r) /\
  over_of OTPM d <= Z.max 0 (nonneg o - rres_of OTPM r).
Proof.
  intros OK HA HK KA Hi Ho. unfold pending_res, SettleLocalIO. cbv zeta.
  pose proof (purgeRes_ok A K t p OK) as OK'.
  destruct (pres (purgeResLocked t p) !! id) as [r0|] eqn:E; [|discriminate].
  destruct (Status r0) eqn:St; try discriminate. intros [= ->].
  destruct (negb _); [discriminate|].
  pose proof (leaseFor_spec A K (purgeResLocked t p) r t HK OK') as G.
  destruct (leaseFor (purgeResLocked t p) r t) as [p0 b]. destruct G as (_ & _ & _ & _ & B & _).
  pose proof (ok_pres _ _ _ OK' id r E) as R.
  pose proof (applyLocalDelta_over A K (litpm b) (ITPMReserved r) (nonneg i) (B ITPM)
    (proj1 (R ITPM)) ltac:(rewrite nonneg_max; lia) HA KA) as Di.
  pose proof (applyLocalDelta_over A K (lotpm b) (OTPMReserved r) (nonneg o) (B OTPM)
    (proj1 (R OTPM)) ltac:(rewrite nonneg_max; lia) HA KA) as Do.
  destruct (applyLocalDelta (litpm b) _ _) as [[itpm' overI] restI].
  destruct (applyLocalDelta (lotpm b) _ _) as [[otpm' overO] restO].
  intros [= <-]. split; assumption.
Qed.

(** ** Paying an overshoot with a loan *)

(** A loan of exactly the overshoot pays it from what it brings in. *)
Lemma payOvershoot_loan bal over :
  0 <= bal -> 0 <= over -> bal + over <= int64_max ->
  payOvershoot (wrap64 (bal + over)) over = (bal, 0).
Proof.
  intros Hb Ho Hs. rewrite (wrap_small (bal + over)) by (unfold int64_min, int64_max in *; lia).
  unfold payOvershoot. destruct (Z.ltb_spec 0 over).
  - destruct (Z.leb_spec over (bal + over)); [|lia].
    rewrite wrap_small by (unfold int64_min, int64_max in *; lia). f_equal; lia.
  - f_equal; lia.
Qed.

(** The limiter's deficit of a settlement that overshot gives the lease nothing. *)
Lemma Deficit_free A K t p id a bk :
  pool_ok A K p -> 0 <= K -> K + A <= int64_max ->
  let o := PDeficit id (owed TPM p id) in given a bk t p o <= spent a bk t p o.
Proof.
  intros OK HK KA. cbv zeta. unfold given, spent, deficit_paid, papply, owed, ApplyBorrowedDeficit. cbv zeta.
  destruct (pres p !! id) as [r|] eqn:E; [|destruct a; lia].
  pose proof (ok_pres _ _ _ OK id r E TPM) as [_ R]. cbn [over_of] in R.
  pose proof (getLease_spec A K p (RKey r) t OK) as G.
  destruct (getLeaseLocked p (RKey r) t) as [p0 [b|]]; destruct G as (_ & _ & Pr & _ & G); cbn [snd over_of].
  - destruct G as (_ & B & _). pose proof (B TPM) as Bt. cbn [lbal] in Bt.
    rewrite payOvershoot_loan by lia. cbn [pres setLease]. rewrite lookup_insert_eq.
    cbn [LastDecision]. destruct a; try case_bool_decide; cbn [over_of OvershootTPM]; lia.
  - rewrite Pr, E. destruct a; try case_bool_decide; cbn [over_of]; lia.
Qed.

Lemma DeficitIO_free A K t p id a bk :
  pool_ok A K p -> 0 <= K -> K + A <= int64_max ->
  let o := PDeficitIO id (owed ITPM p id) (owed OTPM p id) in given a bk t p o <= spent a bk t p o.
Proof.
  intros OK HK KA. cbv zeta. unfold given, spent, deficit_paid, papply, owed, ApplyBorrowedDeficitIO. cbv zeta.
  destruct (pres p !! id) as [r|] eqn:E; [|destruct a; lia].
  pose proof (ok_pres _ _ _ OK id r E ITPM) as [_ Ri]. pose proof (ok_pres _ _ _ OK id r E OTPM) as [_ Ro].
  cbn [over_of] in Ri, Ro.
  pose proof (getLease_spec A K p (RKey r) t OK) as G.
  destruct (getLeaseLocked p (RKey r) t) as [p0 [b|]]; destruct G as (_ & _ & Pr & _ & G); cbn [snd over_of].
  - destruct G as (_ & B & _). pose proof (B ITPM) as Bi. pose proof (B OTPM) as Bo. cbn [lbal] in Bi, Bo.
    rewrite !payOvershoot_loan by lia. cbn [pres setLease]. rewrite lookup_insert_eq.
    cbn [LastDecision]. destruct a; try case_bool_decide; cbn [over_of OvershootITPM OvershootOTPM]; lia.
  - rewrite Pr, E. destruct a; try case_bool_decide; cbn [over_of]; lia.
Qed.

(** A deficit changes the decision on record and nothing else of the reservation. *)
Definition redecided (p p' : Pool) (id : string) : Prop :=
  pres p' = pres p \/
  exists r r' d, pres p !! id = Some r /\ r' = r <| LastDecision := d |> /\
    pres p' = <[id := r']> (pres p).

Lemma Deficit_redecided t p id g : redecided p (ApplyBorrowedDeficit t p id g) id.
Proof.
  unfold ApplyBorrowedDeficit. destruct (pres p !! id) as [r|] eqn:E; [|left; reflexivity].
  assert (Pr : pres (getLeaseLocked p (RKey r) t).1 = pres p).
  { unfold getLeaseLocked. cbv zeta. destruct (lease p !! _); [destruct (negb _)|]; reflexivity. }
  destruct (getLeaseLocked _ _ _) as [p0 [b|]]; cbn [fst] in Pr; [|left; exact Pr].
  destruct (payOvershoot _ _) as [bal left_]. right.
  eexists r, _, _. split; [exact E|]. split; [reflexivity|]. cbn [pres setLease]. rewrite Pr. reflexivity.
Qed.

Lemma DeficitIO_redecided t p id gi go : redecided p (ApplyBorrowedDeficitIO t p id gi go) id.
Proof.
  unfold ApplyBorrowedDeficitIO. destruct (pres p !! id) as [r|] eqn:E; [|left; reflexivity].
  assert (Pr : pres (getLeaseLocked p (RKey r) t).1 = pres p).
  { unfold getLeaseLocked. cbv zeta. destruct (lease p !! _); [destruct (negb _)|]; reflexivity. }
  destruct (getLeaseLocked _ _ _) as [p0 [b|]]; cbn [fst] in Pr; [|left; exact Pr].
  destruct (payOvershoot (wrap64 (litpm b + gi)) _) as [bi li].
  destruct (payOvershoot (wrap64 (lotpm b + go)) _) as [bo lo]. right.
  eexists r, _, _. split; [exact E|]. split; [reflexivity|]. cbn [pres setLease]. rewrite Pr. reflexivity.
Qed.

(** ** The calls of the fast path *)

Section Fast.
Context (fm : FailMode) (clock : nat -> Time) (newID_ : nat -> res string).
Context (Mono : monotone clock).
Context (a : axis) (k : Key) (c A : Z) (C0 : Config).
Context (HA : 0 <= A) (Am : A < int64_max) (Chunks : chunks_ok A C0).

Abbreviation lent_as := (leased a (cacheKey k) c ∅).
Abbreviation pays_for := (pays clock newID_ a (cacheKey k) c A C0).

(** The ledger after a call that closes [id] if it succeeds. *)
Definition closed {X} (L : ledger) (id : string) (r : res X) : ledger :=
  match r with Ok _ => delete id L | Err _ => L end.

Lemma closes_leased {X} (last : X -> Reservation -> Prop) t p id out L s :
  closes last t p id out -> lent_as L p s -> lent_as (closed L id out.2) out.1 s.
Proof.
  intros Cl Ld. pose proof (leased_shrink _ _ _ _ _ _ _ s _ (purge_shrinks t p) eq_refl Ld) as Lp.
  destruct Cl as [e|r x E N _|r r' p' x E St Pr N Ek El _]; cbn [closed fst snd].
  - exact Lp.
  - assert (D : L !! id = None).
    { pose proof (leased_open _ _ _ _ _ _ _ Lp id r E) as O. unfold recorded_in in O.
      destruct (L !! id); [|reflexivity]. destruct O. contradiction. }
    rewrite delete_id by exact D. exact Lp.
  - apply (leased_insert _ _ _ _ L _ p _ s t id r'); auto.
    + rewrite Ek, El. exact (leased_fit _ _ _ _ _ _ _ Lp id r E).
    + unfold recorded_in. rewrite lookup_delete_eq. exact N.
    + intros i Ni. apply lookup_delete_ne. congruence.
Qed.

(** What was not used is at most what the pool puts back. *)
Lemma unused_spent sp L t p s id n out :
  (forall q, counts a q = Bool.eqb sp q) -> lent_as L p s ->
  (forall r d, pending_res p t id = Some r -> out = Ok d ->
     over_of a d <= Z.max 0 (nonneg n - rres_of a r)) ->
  - unused a k L id n <= settle_spent a (cacheKey k) sp p t id n out.
Proof.
  intros Ct Ld Ov. pose proof (leased_shrink _ _ _ _ _ _ _ s _ (purge_shrinks t p) eq_refl Ld) as Lp.
  assert (U : 0 <= unused a k L id n).
  { unfold unused. destruct (L !! id) as [e|]; [|lia]. destruct (touches a k _ _); lia. }
  unfold settle_spent, pending_res in *.
  destruct (pres (purgeResLocked t p) !! id) as [r|] eqn:E; [|lia].
  destruct (Status r) eqn:St; try lia. destruct out as [d|e]; [|lia].
  specialize (Ov r d eq_refl eq_refl).
  pose proof (leased_open _ _ _ _ _ _ _ Lp id r E) as O. unfold recorded_in in O.
  unfold unused in *. destruct (L !! id) as [e|]; [|congruence].
  destruct O as (_ & Ek & Es & Er). unfold touches. rewrite Ek, Es, Ct, <- Er.
  destruct (_ && _); lia.
Qed.

Lemma redecided_leased L p p' s id : redecided p p' id -> lent_as L p s -> lent_as L p' s.
Proof.
  intros [E|(r & r' & d & Er & -> & E)] Ld; [apply (leased_on _ _ _ _ _ p); assumption|].
  destruct Ld as [F O S]. split; [rewrite E| |exact S].
  - apply map_Forall_insert_2; [exact (F id r Er)|exact F].
  - rewrite E. apply map_Forall_insert_2; [exact (O id r Er)|exact O].
Qed.

(** *** Looking a reservation up, closing it *)

Lemma pays_Get L id :
  pays_for 1 0 (lent_as L) (PoolGetReservation id)
    (fun o p s => lent_as L p s /\
       match o with Some r => limits_fit a (cacheKey k) c (RKey r) (RLimits r) | None => True end)
    (fun _ => 0).
Proof.
  eapply pays_pool; [exact Mono|reflexivity|]. intros t K p s HK OK _ KA Ld. cbn [GetReservation fst snd].
  pose proof (leased_shrink _ _ _ _ _ _ _ s _ (purge_shrinks t p) eq_refl Ld) as Lp.
  split; [split; [exact Lp|]|].
  - destruct (pres (purgeResLocked t p) !! id) as [r|] eqn:E; [|exact I].
    exact (leased_fit _ _ _ _ _ _ _ Lp id r E).
  - exact (papply_accounts A K p t a (cacheKey k) OK HA HK KA (PGet id) I).
Qed.

(** The answer of the step that closes [id], and what it leaves on record. *)
Definition after_close {X} (last : X -> Reservation -> Prop) (L : ledger) (id : string) (r : res X) : cond :=
  fun p s => lent_as (closed L id r) p s /\
    match r with
    | Ok x => exists v, pres p !! id = Some v /\ last x v /\ res_in A v
    | Err _ => True
    end.

Lemma pays_close {X} (last : X -> Reservation -> Prop) (x : act (res X)) (f : Time -> Pool -> Pool * res X) L id o
    (Q : res X -> Z) :
  run_act (S := MemStore) clock newID_ x = onPool clock f ->
  (forall t p, closes last t p id (f t p)) -> (forall t p, papply t p o = (f t p).1) -> pop_ok A o ->
  (forall t p, given a (cacheKey k) t p o = 0) ->
  (forall t K p s, 0 <= K -> pool_ok A K p -> K + A <= int64_max -> lent_as L p s ->
     Q (f t p).2 <= spent a (cacheKey k) t p o) ->
  pays_for 1 0 (lent_as L) x (after_close last L id) Q.
Proof.
  intros Ex Cl Ap Po Gv HQ. eapply pays_pool; [exact Mono|exact Ex|]. intros t K p s HK OK _ KA Ld.
  pose proof (papply_accounts A K p t a (cacheKey k) OK HA HK KA o Po) as (O' & Cf & Lv).
  specialize (HQ t K p s HK OK KA Ld). rewrite Gv in Lv. rewrite Ap in *.
  pose proof (Cl t p) as C. pose proof (closes_leased _ _ _ _ _ L s C Ld) as Ld'.
  split; [split; [exact Ld'|]|split_and!; [exact O'|exact Cf|lia]].
  destruct C as [e|r y E N La|r r' p' y E St Pr N Ek El La]; cbn [fst snd] in *; [exact I| |].
  - exists r. split_and!; [exact E|exact La|]. exact (ok_pres _ _ _ O' id r E).
  - exists r'. assert (E' : pres p' !! id = Some r') by (rewrite Pr; apply lookup_insert_eq).
    split_and!; [exact E'|exact La|]. exact (ok_pres _ _ _ O' id r' E').
Qed.

(** *** The loan for an overshoot *)

(** Reservation [id] is on record with decision [d]. *)
Definition owing (L : ledger) (id : string) (d : Decision) : cond :=
  fun p s => lent_as L p s /\ exists v, pres p !! id = Some v /\ on_record d v /\ res_in A v.

Lemma owing_on L id d : on_reservations (owing L id d).
Proof. intros p p' s E [Ld R]. split; [exact (leased_on _ _ _ _ _ p p' s E Ld)|]. rewrite E. exact R. Qed.

(** If [id] is still on record it is with decision [d]. *)
Definition decided (L : ledger) (id : string) (d : Decision) : cond :=
  fun p s => lent_as L p s /\ forall v, pres p !! id = Some v -> on_record d v.

Lemma owing_decided L id d p s : owing L id d p s -> decided L id d p s.
Proof. intros [Ld (v & E & R & _)]. split; [exact Ld|]. intros v'. rewrite E. intros [= <-]. exact R. Qed.

Lemma decided_owed K L id d p s v x :
  decided L id d p s -> pool_ok A K p -> pres p !! id = Some v ->
  owed x p id = over_of x d /\ 0 <= over_of x d <= A.
Proof.
  intros [_ R] OK E. specialize (R v E). unfold on_record in R. subst d. unfold owed. rewrite E.
  split; [reflexivity|]. apply (ok_pres _ _ _ OK id v E).
Qed.

Lemma pays_Deficit L id d :
  pays_for 1 0 (decided L id d) (PoolApplyBorrowedDeficit id (OvershootTPM d))
    (fun _ => lent_as L) (fun _ => 0).
Proof.
  eapply pays_pool; [exact Mono|reflexivity|]. intros t K p s HK OK _ KA Ow. cbn [fst snd].
  split; [apply (redecided_leased L p _ s id); [apply Deficit_redecided|apply Ow]|].
  destruct (pres p !! id) as [v|] eqn:Ev.
  2:{ unfold ApplyBorrowedDeficit. rewrite Ev. apply accounts_refl; assumption. }
  destruct (decided_owed K L id d p s v TPM Ow OK Ev) as [E B]. cbn [over_of] in E, B.
  pose proof (Deficit_accounts A K p t a (cacheKey k) OK HA HK KA id (OvershootTPM d) B) as (O & C & Lv).
  pose proof (Deficit_free A K t p id a (cacheKey k) OK HK KA) as Fr. cbv zeta in Fr. rewrite E in Fr.
  split_and!; [exact O|exact C|lia].
Qed.

Lemma pays_DeficitIO L id d :
  pays_for 1 0 (decided L id d) (PoolApplyBorrowedDeficitIO id (OvershootITPM d) (OvershootOTPM d))
    (fun _ => lent_as L) (fun _ => 0).
Proof.
  eapply pays_pool; [exact Mono|reflexivity|]. intros t K p s HK OK _ KA Ow. cbn [fst snd].
  split; [apply (redecided_leased L p _ s id); [apply DeficitIO_redecided|apply Ow]|].
  destruct (pres p !! id) as [v|] eqn:Ev.
  2:{ unfold ApplyBorrowedDeficitIO. rewrite Ev. apply accounts_refl; assumption. }
  destruct (decided_owed K L id d p s v ITPM Ow OK Ev) as [Ei Bi].
  destruct (decided_owed K L id d p s v OTPM Ow OK Ev) as [Eo Bo]. cbn [over_of] in *.
  pose proof (DeficitIO_accounts A K p t a (cacheKey k) OK HA HK KA id _ _ Bi Bo) as (O & C & Lv).
  pose proof (DeficitIO_free A K t p id a (cacheKey k) OK HK KA) as Fr. cbv zeta in Fr. rewrite Ei, Eo in Fr.
  split_and!; [exact O|exact C|lia].
Qed.

(** Borrow, credit the lease, apply the deficit, read the decision again. *)
Lemma pays_loan L id d key l sp (r t i o : BorrowResult -> Z) (deficit : BorrowResult -> act unit) :
  limits_fit a (cacheKey k) c key l ->
  (forall b, bAllowed b = true -> grants l sp b ->
     (0 <= r b <= A /\ 0 <= t b <= A /\ 0 <= i b <= A /\ 0 <= o b <= A) /\
     r b = GotRPM b /\ t b = GotTPM b /\ i b = GotITPM b /\ o b = GotOTPM b /\
     pays_for 1 0 (decided L id d) (deficit b)
       (fun _ => lent_as L) (fun _ => 0)) ->
  pays_for 3 1 (owing L id d)
    (PoolNoteBorrow ;;;
     br <- StoreBorrow key l sp ;;
     match br with
     | Ok br =>
         if bAllowed br then
           PoolCreditLease key l (r br) (t br) (i br) (o br) ;;;
           deficit br ;;;
           updated <- PoolGetReservation id ;;
           match updated with
           | Some updated => ret (Ok (LastDecision updated))
           | None => ret (Ok d)
           end
         else ret (Ok d)
     | Err _ => ret (Ok d)
     end)
    (fun x p s => is_ok (E := error) x = true /\ lent_as L p s) (fun _ => 0).
Proof.
  intros [Lim Uses] Hb.
  assert (Done : forall n m d' q, 0 <= q -> pays_for n m (owing L id d) (ret (Ok d'))
    (fun (x : res Decision) p s => is_ok (E := error) x = true /\ lent_as L p s) (fun _ => 0 - 0 - q)).
  { intros n m d' q Hq. apply (pays_ret Mono HA); [|lia]. intros p s [Ld _]. split; [reflexivity|exact Ld]. }
  eapply (pays_seq HA 0 3 0 1); [apply pays_noteBorrow; [exact Mono|apply owing_on]|lia|lia|intros []].
  eapply (pays_seq HA 0 3 1 0);
    [apply pays_borrow; [exact Mono|exact Lim|exact Uses|]|lia|lia|intros br].
  { intros p s s' E [Ld R]. split; [exact (leased_borrow _ _ _ _ _ _ _ _ E Ld)|exact R]. }
  apply (pays_fact (granted l sp br)); [intros p s []; assumption|intros G].
  eapply (pays_more HA 3 3 0 0 (owing L id d)); [lia|lia|intros p s []; assumption|].
  destruct br as [b|e]; [|apply Done; cbn [lent_out]; lia].
  destruct (bAllowed b) eqn:Al; [|apply Done; cbn [lent_out]; rewrite Al; cbn [andb]; lia].
  destruct (Hb b Al (G Al)) as (Bd & E1 & E2 & E3 & E4 & Df).
  rewrite (granted_lent _ _ key l sp b Al (G Al)), <- E1, <- E2, <- E3, <- E4.
  eapply (pays_seq HA 1 2 0 0); [apply pays_credit; [exact Mono|exact HA|apply owing_on|exact Bd]|lia|lia|intros []].
  eapply (pays_seq HA 1 1 0 0);
    [apply (pays_more HA 1 1 0 0 (decided L id d)); [lia|lia|apply owing_decided|exact Df]|lia|lia|intros []].
  eapply (pays_seq HA 1 0 0 0); [apply pays_Get|lia|lia|intros u].
  destruct u; (apply (pays_ret Mono HA); [|lia]); intros p s [Ld _]; (split; [reflexivity|exact Ld]).
Qed.

(** *** Settlements and refunds *)

(** The overshoot on record is within the largest amount. *)
Definition owed_bound (d : Decision) : Prop := forall x, 0 <= over_of x d <= A.

Lemma closed_bound L id d p s : after_close on_record L id (Ok d) p s -> owed_bound d.
Proof. intros [_ (v & _ & <- & R)] x. apply R. Qed.

(** A loan for the overshoot gets exactly the overshoot. *)
Lemma overshoot_loan_got b d l :
  grants l (zeroBorrowSpec <| MinTPM := OvershootTPM d |> <| ChunkTPM := OvershootTPM d |>) b ->
  owed_bound d -> Split l = false ->
  GotRPM b = 0 /\ GotTPM b = OvershootTPM d /\ GotITPM b = 0 /\ GotOTPM b = 0.
Proof.
  intros G B Sp. unfold grants, loan in G. rewrite Sp in G. pose proof (B TPM). cbn [over_of] in *.
  cbn [zeroBorrowSpec MinRPM MinTPM MinITPM MinOTPM ChunkRPM ChunkTPM ChunkITPM ChunkOTPM] in G. lia.
Qed.

Lemma overshoot_loan_got_io b d l :
  grants l (zeroBorrowSpec <| MinITPM := OvershootITPM d |> <| ChunkITPM := OvershootITPM d |>
              <| MinOTPM := OvershootOTPM d |> <| ChunkOTPM := OvershootOTPM d |>) b ->
  owed_bound d -> Split l = true ->
  GotRPM b = 0 /\ GotTPM b = 0 /\ GotITPM b = OvershootITPM d /\ GotOTPM b = OvershootOTPM d.
Proof.
  intros G B Sp. unfold grants, loan in G. rewrite Sp in G. pose proof (B ITPM). pose proof (B OTPM).
  cbn [over_of] in *.
  cbn [zeroBorrowSpec MinRPM MinTPM MinITPM MinOTPM ChunkRPM ChunkTPM ChunkITPM ChunkOTPM] in G. lia.
Qed.

(** A refund puts back at least the reservation. *)
Lemma refund_puts_back L t p s id :
  lent_as L p s ->
  (if is_ok (RefundLocal t p id).2 then - unused a k L id 0 else 0) <= spent a (cacheKey k) t p (PRefund id).
Proof.
  intros Ld. pose proof (leased_shrink _ _ _ _ _ _ _ s _ (purge_shrinks t p) eq_refl Ld) as Lp.
  cbn [spent]. unfold pending_res, RefundLocal. cbv zeta.
  destruct (pres (purgeResLocked t p) !! id) as [r|] eqn:E; [|reflexivity].
  pose proof (leased_open _ _ _ _ _ _ _ Lp id r E) as O. unfold recorded_in in O. unfold unused.
  destruct (Status r) eqn:St; [|reflexivity|].
  - destruct (leaseFor (purgeResLocked t p) r t) as [p0 b]. cbn [snd is_ok].
    destruct (L !! id) as [e|]; [|congruence]. destruct O as (_ & Ek & Es & Er).
    unfold touches. rewrite Ek, Es, <- Er, nonneg_max. destruct (_ && _); lia.
  - cbn [snd is_ok]. destruct (L !! id) as [e|]; [destruct O; congruence|lia].
Qed.


Lemma empty_closing s t id : reservations s = ∅ -> closing_res s t id = None.
Proof.
  intros E. unfold closing_res. cbn [purgeExpired reservations]. rewrite E, map_filter_empty, lookup_empty. reflexivity.
Qed.

Lemma empty_purged s t id : reservations s = ∅ -> reservations (purgeExpired s t) !! id = None.
Proof. intros E. cbn [purgeExpired reservations]. rewrite E, map_filter_empty. apply lookup_empty. Qed.

(** Reservations the pool does not hold: the store, which holds none, answers. *)
Lemma pays_unknown {X} (x : act (res X)) (f : Time -> MemStore -> MemStore * res X) o L id n m q :
  run_act clock newID_ x = onStore clock f ->
  op_ok o -> op_uses a (cacheKey k) c o -> (forall t s, (f t s).1 = apply t s o) ->
  (forall t s, reservations s = ∅ ->
     f t s = (purgeExpired s t, Err ErrReservationNotFound) /\ charge a (cacheKey k) t s o = 0) ->
  pays_for n (S m) (lent_as L) x (fun r => lent_as (closed L id r))
    (fun r => (if is_ok r then q else 0) - 0).
Proof.
  intros Ex Ho Hu Ha Hf. apply (pays_more HA 0 n 1 (S m) (lent_as L)); [lia|lia|auto|].
  apply (pays_store clock newID_ Mono) with (f := f) (o := o); auto. intros t p s Ld.
  pose proof (leased_store _ _ _ _ _ _ _ Ld) as E. destruct (Hf t s E) as [-> ->]. cbn [fst snd closed is_ok].
  split; [apply (leased_borrow _ _ _ _ _ _ s)|lia]; [|exact Ld].
  cbn [purgeExpired reservations]. rewrite E. apply map_filter_empty.
Qed.

Lemma unknown_settle t s id n sp out :
  reservations s = ∅ -> settle_charge a (cacheKey k) sp s t id n out = 0.
Proof. intros E. unfold settle_charge. rewrite empty_closing by exact E. destruct a; reflexivity. Qed.

Lemma pays_StoreSettle n m L id x q :
  x <= A ->
  pays_for n (S m) (lent_as L) (StoreSettle id x) (fun r => lent_as (closed L id r))
    (fun r => (if is_ok r then q else 0) - 0).
Proof.
  intros Hx. eapply pays_unknown with (o := OpSettle id x); [reflexivity|cbn [op_ok]; lia|exact I|reflexivity|].
  intros t s E. split; [|apply unknown_settle, E]. cbn [sSettle MemStore_Store].
  unfold Memory.Settle. cbv zeta. rewrite (empty_purged s t id E). reflexivity.
Qed.

Lemma pays_StoreSettleIO n m L id i o q :
  i <= A -> o <= A ->
  pays_for n (S m) (lent_as L) (StoreSettleIO id i o) (fun r => lent_as (closed L id r))
    (fun r => (if is_ok r then q else 0) - 0).
Proof.
  intros Hi Ho. eapply pays_unknown with (o := OpSettleIO id i o); [reflexivity|cbn [op_ok]; lia|exact I|reflexivity|].
  intros t s E. split; [|apply unknown_settle, E]. cbn [sSettleIO MemStore_Store].
  unfold Memory.SettleIO. cbv zeta. rewrite (empty_purged s t id E). reflexivity.
Qed.

Lemma pays_StoreRefund n m L id q :
  pays_for n (S m) (lent_as L) (StoreRefund id) (fun r => lent_as (closed L id r))
    (fun r => (if is_ok r then q else 0) - 0).
Proof.
  eapply pays_unknown with (o := OpRefund id); [reflexivity|exact I|exact I|reflexivity|].
  intros t s E. cbn [charge]. rewrite empty_closing by exact E. split; [|reflexivity].
  cbn [sRefund MemStore_Store]. unfold Memory.Refund. cbv zeta.
  rewrite (empty_purged s t id E). reflexivity.
Qed.

Lemma pays_RefundLocal L id :
  pays_for 1 0 (lent_as L) (PoolRefundLocal id) (fun r => lent_as (closed L id r))
    (fun r => (if is_ok r then - unused a k L id 0 else 0) - 0).
Proof.
  eapply pays_less; [|apply (pays_close (fun _ _ => True) (PoolRefundLocal id) (fun t p => RefundLocal t p id) L id (PRefund id)
    (fun r => if is_ok r then - unused a k L id 0 else 0))].
  - intros x p s [Ld _]. split; [exact Ld|lia].
  - reflexivity.
  - intros; apply RefundLocal_closes.
  - reflexivity.
  - exact I.
  - reflexivity.
  - intros t K p s HK OK KA Ld. exact (refund_puts_back L t p s id Ld).
Qed.

(** The program answers a settlement of [id] that, answered at all, takes [q]. *)
Definition prices (n m : nat) (J : cond) (L : ledger) (id : string) (p : M (res Decision)) (q : Z) : Prop :=
  pays_for n m J p (fun r => lent_as (closed L id r)) (fun r => if is_ok r then q else 0).

Lemma prices_again n m J L id d q (x : M (res Decision)) :
  (forall p s, after_close on_record L id (Ok d) p s -> J p s) ->
  pays_for n m J x (fun r p s => is_ok (E := error) r = true /\ lent_as (delete id L) p s) (fun _ => 0) ->
  pays_for n m (after_close on_record L id (Ok d)) x (fun r => lent_as (closed L id r))
    (fun r => (if is_ok r then q else 0) - 0 - q).
Proof.
  intros HJ Hx. apply (pays_more HA n n m m J); [lia|lia|exact HJ|].
  eapply pays_less; [|exact Hx]. intros r p s [Ok_ Ld]. destruct r; [|discriminate].
  split; [exact Ld|]. cbn [is_ok]. lia.
Qed.

Lemma prices_done n m L id d q :
  pays_for n m (after_close on_record L id (Ok d)) (ret (Ok d)) (fun r => lent_as (closed L id r))
    (fun r => (if is_ok (E := error) r then q else 0) - 0 - q).
Proof. apply (pays_ret Mono HA); [intros p s []; assumption|cbn [is_ok]; lia]. Qed.

Lemma prices_err n m J L id e : (forall p s, J p s -> lent_as L p s) -> prices n m J L id (ret (Err e)) 0.
Proof. intros HJ. apply (pays_ret Mono HA); [exact HJ|reflexivity]. Qed.

(** A settlement the pool answers puts back at least what was not used. *)
Lemma settle_puts_back sp L t p s id n out :
  (forall q, counts a q = Bool.eqb sp q) -> lent_as L p s ->
  (forall r d, pending_res p t id = Some r -> out = Ok d ->
     over_of a d <= Z.max 0 (nonneg n - rres_of a r)) ->
  (if is_ok out then - unused a k L id n else 0) <= settle_spent a (cacheKey k) sp p t id n out.
Proof.
  intros Ct Ld Ov. pose proof (unused_spent sp L t p s id n out Ct Ld Ov) as U.
  destruct out as [d|e]; cbn [is_ok]; [exact U|]. unfold settle_spent. destruct (pending_res p t id); lia.
Qed.

(** What a settlement gives back on the axis. *)
Definition settled_back (L : ledger) (id : string) (n : Z) : Z :=
  match a with TPM => - unused a k L id n | _ => 0 end.

Definition settled_back_io (L : ledger) (id : string) (i o : Z) : Z :=
  match a with ITPM => - unused a k L id i | OTPM => - unused a k L id o | _ => 0 end.

Lemma pays_SettleLocal L id n :
  n <= A ->
  pays_for 1 0 (lent_as L) (PoolSettleLocal id n) (after_close on_record L id)
    (fun r => if is_ok r then settled_back L id n else 0).
Proof.
  intros Hn. eapply pays_close with (o := PSettle id n); [reflexivity|intros; apply SettleLocal_closes|reflexivity|exact Hn|reflexivity|].
  intros t K p s HK OK KA Ld. cbn [spent]. unfold settled_back.
  destruct a eqn:Ea; try (destruct (is_ok _); lia). rewrite <- Ea in *.
  apply (settle_puts_back false L t p s); [rewrite Ea; intros []; reflexivity|exact Ld|]. rewrite Ea.
  intros r d. apply (SettleLocal_over A K); assumption.
Qed.

Lemma pays_SettleLocalIO L id i o :
  i <= A -> o <= A ->
  pays_for 1 0 (lent_as L) (PoolSettleLocalIO id i o) (after_close on_record L id)
    (fun r => if is_ok r then settled_back_io L id i o else 0).
Proof.
  intros Hi Ho. eapply pays_close with (o := PSettleIO id i o);
    [reflexivity|intros; apply SettleLocalIO_closes|reflexivity|split; assumption|reflexivity|].
  intros t K p s HK OK KA Ld. cbn [spent]. unfold settled_back_io.
  destruct a eqn:Ea; try (destruct (is_ok _); lia); rewrite <- Ea in *;
    (apply (settle_puts_back true L t p s); [rewrite Ea; intros []; reflexivity|exact Ld|]); rewrite Ea;
    intros r d E1 E2; apply (SettleLocalIO_over A K t p id i o r d); assumption.
Qed.

Lemma pays_Settle L id n :
  n <= A ->
  prices 5 1 (lent_as L) L id (Limiter.Settle true id n) (settled_back L id n).
Proof.
  intros Hn. unfold prices, Limiter.Settle. cbv zeta.
  eapply (pays_seq HA 1 4 0 1); [apply pays_Get|lia|lia|intros [r|]]; cbv beta iota.
  2:{ eapply (pays_more HA 4 4 1 1 (lent_as L)); [lia|lia|intros p s []; assumption|].
      apply pays_StoreSettle, Hn. }
  apply (pays_fact (limits_fit a (cacheKey k) c (RKey r) (RLimits r))); [intros p s []; assumption|intros Fit].
  eapply (pays_more HA 4 4 1 1 (lent_as L)); [lia|lia|intros p s []; assumption|].
  destruct (Split (RLimits r)) eqn:Sp; [apply (pays_ret Mono HA); [auto|cbn [is_ok]; lia]|].
  eapply (pays_seq HA 1 3 0 1); [apply pays_SettleLocal, Hn|lia|lia|intros [d|e]; cbv beta iota].
  2:{ apply (pays_ret Mono HA); [intros p s []; assumption|cbn [is_ok]; lia]. }
  cbn [is_ok]. destruct (0 <? OvershootTPM d) eqn:Ov; [|apply prices_done].
  apply Z.ltb_lt in Ov. apply (pays_fact (owed_bound d)); [intros p s; eapply closed_bound|intros B].
  apply prices_again with (J := owing (delete id L) id d); [auto|].
  apply (pays_loan (delete id L) id d (RKey r) (RLimits r) _ GotRPM GotTPM (fun _ => 0) (fun _ => 0)
    (fun br => PoolApplyBorrowedDeficit id (GotTPM br)) Fit).
  intros b Al G. apply (overshoot_loan_got b d) in G; [|exact B|exact Sp]. destruct G as (E1 & E2 & E3 & E4).
  rewrite E1, E2, E3, E4. pose proof (B TPM). cbn [over_of] in *. split_and!; try lia. apply pays_Deficit.
Qed.

Lemma pays_SettleIO L id i o :
  i <= A -> o <= A ->
  prices 5 1 (lent_as L) L id (Limiter.SettleIO true id i o) (settled_back_io L id i o).
Proof.
  intros Hi Ho. unfold prices, Limiter.SettleIO. cbv zeta.
  eapply (pays_seq HA 1 4 0 1); [apply pays_Get|lia|lia|intros [r|]]; cbv beta iota.
  2:{ eapply (pays_more HA 4 4 1 1 (lent_as L)); [lia|lia|intros p s []; assumption|].
      apply pays_StoreSettleIO; assumption. }
  apply (pays_fact (limits_fit a (cacheKey k) c (RKey r) (RLimits r))); [intros p s []; assumption|intros Fit].
  eapply (pays_more HA 4 4 1 1 (lent_as L)); [lia|lia|intros p s []; assumption|].
  destruct (Split (RLimits r)) eqn:Sp; cbn [negb]; [|apply (pays_ret Mono HA); [auto|cbn [is_ok]; lia]].
  eapply (pays_seq HA 1 3 0 1); [apply pays_SettleLocalIO; assumption|lia|lia|intros [d|e]; cbv beta iota].
  2:{ apply (pays_ret Mono HA); [intros p s []; assumption|cbn [is_ok]; lia]. }
  cbn [is_ok]. destruct (_ || _) eqn:Ov; [|apply prices_done]. clear Ov.
  apply (pays_fact (owed_bound d)); [intros p s; eapply closed_bound|intros B].
  apply prices_again with (J := owing (delete id L) id d); [auto|].
  apply (pays_loan (delete id L) id d (RKey r) (RLimits r) _ GotRPM (fun _ => 0) GotITPM GotOTPM
    (fun br => PoolApplyBorrowedDeficitIO id (GotITPM br) (GotOTPM br)) Fit).
  intros b Al G. apply (overshoot_loan_got_io b d) in G; [|exact B|exact Sp]. destruct G as (E1 & E2 & E3 & E4).
  rewrite E1, E2, E3, E4. pose proof (B ITPM). pose proof (B OTPM). cbn [over_of] in *.
  split_and!; try lia. apply pays_DeficitIO.
Qed.

Lemma pays_Refund L id :
  pays_for 5 1 (lent_as L) (Limiter.Refund true id) (fun r => lent_as (closed L id r))
    (fun r => if is_ok r then - unused a k L id 0 else 0).
Proof.
  unfold Limiter.Refund. cbv zeta.
  eapply (pays_seq HA 1 4 0 1); [apply pays_Get|lia|lia|intros [r|]]; cbv beta iota.
  2:{ eapply (pays_more HA 4 4 1 1 (lent_as L)); [lia|lia|intros p s []; assumption|].
      apply pays_StoreRefund. }
  eapply (pays_more HA 1 4 0 1 (lent_as L)); [lia|lia|intros p s []; assumption|].
  apply pays_RefundLocal.
Qed.

(** *** Any call, any history *)

(** Amounts up to [A], limits the arithmetic is exact for, capacity [c] for the
    key's bucket on the axis. *)
Definition call_fits (cl : call) : Prop :=
  match cl with
  | CCheck key l cost => limits_fit a (cacheKey k) c key l /\ forall x, nonneg (cost_of x cost) <= A
  | CSettle _ n => n <= A
  | CSettleIO _ i o => i <= A /\ o <= A
  | CRefund _ => True
  end.

Lemma pays_map {X Y} (g : X -> Y) n m J (p : M X) P Q :
  pays_for n m J p (fun x => P (g x)) (fun x => Q (g x)) ->
  pays_for n m J (x <- p ;; ret (g x)) P Q.
Proof.
  intros H K w HK OK C Bd Jw. specialize (H K w HK OK C Bd Jw). cbv zeta in *. cbn [exec].
  destruct (exec _ _ p w). exact H.
Qed.

Lemma pays_call L cl :
  call_fits cl ->
  pays_for 5 1 (lent_as L) (program fm true cl)
    (fun ans => lent_as (book L cl ans)) (taken a k L cl).
Proof.
  destruct cl as [key l cost|id n|id i o|id]; cbn [call_fits]; intros F.
  - destruct F as [[Lim Uses] Costs]. apply (pays_map ADecision).
    eapply pays_less; [|apply (pays_Check fm clock newID_ Mono a (cacheKey k) c A C0 HA ∅ key l cost L Chunks Lim Uses Costs)].
    intros r p s Ld. split; [exact Ld|]. unfold admitted_cost. destruct r; reflexivity.
  - apply (pays_map ADecision). eapply pays_less; [|apply pays_Settle, F].
    intros r p s Ld. split; [|destruct r; reflexivity]. destruct r; exact Ld.
  - apply (pays_map ADecision). eapply pays_less; [|apply pays_SettleIO; apply F].
    intros r p s Ld. split; [|destruct r; reflexivity]. destruct r; exact Ld.
  - apply (pays_map ADone). eapply pays_less; [|apply pays_Refund].
    intros r p s Ld. split; [|destruct r; reflexivity]. destruct r; exact Ld.
Qed.

Lemma performs_paid cs : forall K w L,
  0 <= K -> pool_ok A K (wpool w) -> cfg (wpool w) = C0 -> lent_as L (wpool w) (wstore w) ->
  Forall call_fits cs -> K + Z.of_nat (length cs) * (5 * A) <= int64_max ->
  let out := performs (H := Limiter_ApiLimiter fm true clock newID_) cs w in
  exists h, (length h <= length cs)%nat /\
    paid clock a (cacheKey k) c A (K + Z.of_nat (length cs) * (5 * A)) w out.1 h (held a k L out.2).
Proof.
  induction cs as [|cl cs IH]; intros K w L HK OK C Ld F Bd; cbv zeta.
  - exists []. split; [reflexivity|]. cbn [performs fst snd length held] in *.
    apply (paid_local clock Mono a (cacheKey k) c A K); auto; [apply (pool_ok_mono A K); [lia|exact OK]|].
    exists (clock (wticks w)). lia.
  - apply Forall_cons in F as [Fc F]. change (length (cl :: cs)) with (Datatypes.S (length cs)) in *.
    rewrite Nat2Z.inj_succ, Z.mul_succ_l in *.
    destruct (pays_call L cl Fc K w HK OK C ltac:(lia) Ld) as (Ld1 & h1 & L1 & Pd1). cbn [performs].
    rewrite perform_program.
    destruct (exec _ _ (program fm true cl) w) as [w1 ans]. cbn [fst snd] in *. change (Z.of_nat 5) with 5 in Pd1.
    destruct (IH (K + 5 * A) w1 (book L cl ans) ltac:(lia)) as (h2 & L2 & Pd2); auto.
    + apply Pd1.
    + rewrite (paid_cfg _ _ _ _ _ _ _ _ _ _ Pd1). exact C.
    + lia.
    + destruct (performs cs w1) as [w2 h]. cbn [fst snd held] in *.
      exists (h1 ++ h2). rewrite length_app. split; [lia|].
      pose proof (paid_trans _ _ _ _ _ _ _ _ _ _ _ _ _ _ Pd1 Pd2) as Pd.
      replace (K + (Z.of_nat (length cs) * (5 * A) + 5 * A))
        with (K + 5 * A + Z.of_nat (length cs) * (5 * A)) by ring. exact Pd.
Qed.
End Fast.
