(* ===== verification/LimiterBudget.v ===== *)
(** * LimiterBudget: the per-minute budget of a limiter's clients

    Without the fast path every call of the limiter is at most one call of the
    store; with it [LimiterLedger] accounts for the calls.  Either way what the
    ledger of the clients holds is within the budget. *)

From stdpp Require Import base tactics numbers strings gmap list.
From Stdlib Require Import ZArith Lia.
From S2P Require Import Prelude GoFloat Api Bucket Budget Store Memory MemorySpec MemoryBudget MemoryProps.
From S2P Require Import Lease LeaseSpec Limiter LimiterSpec ApiLimiter Ledger LimiterMemory LimiterLedger.

(** ** What a settlement of the store overshoots *)

(** At most what is beyond the reservation, and one token more when it meets a
    balance that a rounding left below zero. *)
Lemma settleAxis_over c nowMs st res_ actual :
  limit_ok c -> time_ok nowMs -> fresh nowMs c st -> cost_ok res_ -> cost_ok actual ->
  (settleAxis st nowMs res_ actual).2 <= Z.max 0 (actual - res_) + (if res_ <? actual then 1 else 0).
Proof.
  intros Hc Tok (W & L & C) Hr Ha. unfold cost_ok, limit_ok, int64_max in *. unfold settleAxis. cbv zeta.
  rewrite (wrap64_id (res_ - actual)) by (unfold in_int64, int64_min, int64_max; lia).
  destruct (Z.ltb_spec 0 (res_ - actual)), (Z.ltb_spec res_ actual); cbn [snd]; try lia.
  - destruct (Z.ltb_spec (res_ - actual) 0); [|lia].
    rewrite wrap64_id by (unfold in_int64, int64_min, int64_max; lia).
    rewrite DebitFloor_spec; rewrite ?L, ?C; try (assumption || unfold int64_max; lia).
    pose proof (floor_ge_m1 _ (Refill_wf st nowMs ltac:(rewrite L; exact Tok) Tok W)).
    destruct (Z.leb_spec (- (res_ - actual)) (floorZ (stTokens (Refill st nowMs)))); cbn [snd]; lia.
  - destruct (Z.ltb_spec (res_ - actual) 0); [lia|]. cbn [snd]. lia.
Qed.

(** ** Closing a reservation of the store *)

Variant store_closes (t : Time) (s : MemStore) (id : string) {X} : MemStore * res X -> Prop :=
| store_err s' e : reservations s' = reservations (purgeExpired s t) -> store_closes t s id (s', Err e)
| store_again r s' x :
    reservations (purgeExpired s t) !! id = Some r -> rstatus r <> pending ->
    reservations s' = reservations (purgeExpired s t) -> store_closes t s id (s', Ok x)
| store_now r r' s' x :
    reservations (purgeExpired s t) !! id = Some r -> rstatus r = pending ->
    reservations s' = <[id := r']> (reservations (purgeExpired s t)) -> rstatus r' <> pending ->
    store_closes t s id (s', Ok x).

Lemma Settle_closes t s id n : store_closes t s id (Memory.Settle t s id n).
Proof.
  unfold Memory.Settle. cbv zeta. destruct (reservations (purgeExpired s t) !! id) as [r|] eqn:E;
    [|apply store_err; reflexivity].
  destruct (split r); [apply store_err; reflexivity|].
  destruct (rstatus r) eqn:St;
    [|eapply store_again; [exact E|congruence|reflexivity]|apply store_err; reflexivity].
  destruct (settleAxis _ _ _ _). eapply store_now; [exact E|exact St|reflexivity|discriminate].
Qed.

Lemma SettleIO_closes t s id i o : store_closes t s id (Memory.SettleIO t s id i o).
Proof.
  unfold Memory.SettleIO. cbv zeta. destruct (reservations (purgeExpired s t) !! id) as [r|] eqn:E;
    [|apply store_err; reflexivity].
  destruct (negb _); [apply store_err; reflexivity|].
  destruct (rstatus r) eqn:St;
    [|eapply store_again; [exact E|congruence|reflexivity]|apply store_err; reflexivity].
  destruct (settleAxis (loadBucket (itpm _) _ _ _) _ _ _).
  destruct (settleAxis (loadBucket (otpm _) _ _ _) _ _ _).
  eapply store_now; [exact E|exact St|reflexivity|discriminate].
Qed.

Lemma Refund_closes t s id : store_closes t s id (Memory.Refund t s id).
Proof.
  unfold Memory.Refund. cbv zeta. destruct (reservations (purgeExpired s t) !! id) as [r|] eqn:E;
    [|apply store_err; reflexivity].
  destruct (rstatus r) eqn:St;
    [|apply store_err; reflexivity|eapply store_again; [exact E|congruence|reflexivity]].
  destruct (split r); (eapply store_now; [exact E|exact St|reflexivity|discriminate]).
Qed.

(** ** The reservations of the store and the ledger *)

Definition kept_as (L : ledger) (id : string) (r : reservation) : Prop :=
  match L !! id with
  | Some e => rstatus r = pending /\ eKey e = rkey r /\ eSplit e = split r /\
      forall x, counts x (split r) = true -> reserved_of x r = reserved x e
  | None => rstatus r <> pending
  end.

Definition kept (L : ledger) (s : MemStore) : Prop := map_Forall (kept_as L) (reservations s).

Lemma kept_purge L s t : kept L s -> kept L (purgeExpired s t).
Proof. intros H id r [E _]%map_lookup_filter_Some. exact (H id r E). Qed.

Lemma kept_same L s s' : reservations s' = reservations s -> kept L s -> kept L s'.
Proof. unfold kept. intros ->. auto. Qed.

Lemma kept_insert L L' s s' id r :
  kept L s -> reservations s' = <[id := r]> (reservations s) -> kept_as L' id r ->
  (forall i, i <> id -> L' !! i = L !! i) -> kept L' s'.
Proof.
  intros H E Hr HL. unfold kept. rewrite E. intros i ri [[-> <-]|[N Ei]]%lookup_insert_Some; [exact Hr|].
  unfold kept_as. rewrite HL by congruence. exact (H i ri Ei).
Qed.

Lemma closes_kept {X} t s id (out : MemStore * res X) L :
  store_closes t s id out -> kept L s -> kept (closed L id out.2) out.1.
Proof.
  intros Cl H. apply (kept_purge L s t) in H. destruct Cl as [s' e R|r s' x E N R|r r' s' x E St R N]; cbn [closed fst snd].
  - apply (kept_same L _ _ R H).
  - assert (D : L !! id = None).
    { pose proof (H id r E) as O. unfold kept_as in O. destruct (L !! id); [destruct O; contradiction|reflexivity]. }
    rewrite delete_id by exact D. apply (kept_same L _ _ R H).
  - apply (kept_insert L _ (purgeExpired s t) _ id r'); auto.
    + unfold kept_as. rewrite lookup_delete_eq. exact N.
    + intros i Ni. apply lookup_delete_ne. congruence.
Qed.

(** ** One call without the fast path *)

Section Direct.
Context (a : axis) (k : Key) (c A : Z) (Am : A < int64_max).
Context (T : Z) (s : MemStore) (t : Time) (L : ledger).
Context (OK : store_ok T s) (HT : T <= toUnixMilli t) (Tok : time_ok (toUnixMilli t)).
Context (Kp : kept L s).

Lemma Check_kept key l cost id :
  let r := (Memory.Check t s key l cost id).2 in
  let L' := match r with Ok d => book L (CCheck key l cost) (ADecision (Ok d)) | Err _ => L end in
  kept L' (Memory.Check t s key l cost id).1 /\
  taken a k L (CCheck key l cost) (ADecision r) <= charge a (cacheKey k) t s (OpCheck key l cost id).
Proof.
  cbv zeta. cbn [charge taken]. destruct (Memory.Check t s key l cost id) as [s' [d|e]] eqn:E; cbn [fst snd admitted].
  - pose proof (Check_recorded t s key l cost id s' d E) as R. pose proof (Check_answered t s key l cost id s' d E) as An.
    unfold recorded, answered, book in *. split.
    + destruct (Allowed d); [|subst s'; apply kept_purge, Kp]. destruct An as [-> _].
      eapply kept_insert; [apply (kept_purge L s t), Kp|exact R| |intros i Ni; apply lookup_insert_ne; congruence].
      unfold kept_as. rewrite lookup_insert_eq. cbn [rstatus new_reservation split rkey subject model eKey eSplit].
      split; [reflexivity|]. split; [destruct key; reflexivity|]. split; [reflexivity|].
      intros x Cx. unfold reserved, new_reservation. cbn [eCost]. 
      destruct x; cbn [reserved_of rpmCost tpmReserved itpmReserved otpmReserved counts] in *;
        rewrite ?Cx; cbn [clampCosts Requests Tokens InputTokens OutputTokens cost_of];
        rewrite ?clampCost_max, ?nonneg_max; reflexivity.
    + change (touches a k key (Split l)) with (concerns a (cacheKey k) key (Split l)).
      rewrite clampCost_max, nonneg_max. destruct (Allowed d && concerns _ _ _ _); lia.
  - split; [|apply Z.le_refl]. pose proof (Check_cases t s key l cost id) as Cs. rewrite E in Cs.
    inversion Cs as [? ? [R| ->] _| |]; subst; [apply (kept_same L s); assumption|apply kept_purge, Kp].
Qed.

(** A settlement of the store charges at least minus what was not used, but for one
    token when it overdraws. *)
Lemma settle_charge_back sp id n out :
  (forall q, counts a q = Bool.eqb sp q) -> a <> RPM ->
  (forall r d, closing_res s t id = Some r -> out = Ok d ->
     overshoot_of a d <= Z.max 0 (clampCost n - reserved_of a r)
                         + (if reserved_of a r <? clampCost n then 1 else 0)) ->
  (if is_ok out then - unused a k L id n - overdrawn a k L id n else 0)
    <= settle_charge a (cacheKey k) sp s t id n out.
Proof.
  intros Ct Na Ov. unfold settle_charge, closing_res in *. pose proof (kept_purge L s t Kp) as Kp'.
  assert (U : 0 <= unused a k L id n /\ 0 <= overdrawn a k L id n).
  { unfold unused, overdrawn. destruct (L !! id) as [e|]; [|lia].
    destruct (touches a k _ _); cbn [andb]; [destruct (_ <? _)|]; lia. }
  assert (Z0 : (if is_ok out then - unused a k L id n - overdrawn a k L id n else 0) <= 0) by (destruct (is_ok out); lia).
  destruct (reservations (purgeExpired s t) !! id) as [r|] eqn:E; [|destruct a; exact Z0].
  destruct (rstatus r) eqn:St; try (destruct a; exact Z0).
  destruct out as [d|e]; [|destruct a; exact Z0]. specialize (Ov r d eq_refl eq_refl).
  cbn [is_ok] in *. pose proof (Kp' id r E) as O. unfold kept_as in O.
  unfold unused, overdrawn in *. destruct (L !! id) as [e|]; [|congruence]. destruct O as (_ & Ek & Es & Er).
  change (touches a k (eKey e) (eSplit e)) with (concerns a (cacheKey k) (eKey e) (eSplit e)) in *.
  rewrite Ek, Es in *. specialize (Er a). unfold concerns in *. rewrite Ct in *.
  rewrite clampCost_max in *. rewrite nonneg_max in *.
  destruct (bool_decide _), (Bool.eqb sp (split r)); cbn [andb] in *; destruct a; try congruence; try lia;
    rewrite <- Er in * by reflexivity; lia.
Qed.

Lemma Settle_over id n r d :
  n < int64_max -> closing_res s t id = Some r -> (Memory.Settle t s id n).2 = Ok d ->
  overshoot_of TPM d <= Z.max 0 (clampCost n - reserved_of TPM r)
                        + (if reserved_of TPM r <? clampCost n then 1 else 0).
Proof.
  intros Hn Cl. destruct (closing_ok T s t id r OK Cl) as (E & St & _ & R2 & _ & _ & _ & R6 & _).
  unfold Memory.Settle. cbv zeta. rewrite E, St. destruct (split r); [discriminate|].
  pose proof (settleAxis_over (limitTPM r) (toUnixMilli t)
    (loadBucket (tpm (purgeExpired s t)) (bucketKey (mkKey (subject r) (model r))) (limitTPM r) (toUnixMilli t))
    (tpmReserved r) (clampCost n) R6 Tok
    (load_fresh T _ _ (ok_tpm _ _ (purge_ok T s t OK)) HT Tok _ _) R2 (clampCost_ok _ Hn)) as O.
  destruct (settleAxis _ _ _ _) as [st over]. intros [= <-]. exact O.
Qed.

Lemma SettleIO_over id i o r d :
  i < int64_max -> o < int64_max -> closing_res s t id = Some r -> (Memory.SettleIO t s id i o).2 = Ok d ->
  overshoot_of ITPM d <= Z.max 0 (clampCost i - reserved_of ITPM r)
                         + (if reserved_of ITPM r <? clampCost i then 1 else 0) /\
  overshoot_of OTPM d <= Z.max 0 (clampCost o - reserved_of OTPM r)
                         + (if reserved_of OTPM r <? clampCost o then 1 else 0).
Proof.
  intros Hi Ho Cl. destruct (closing_ok T s t id r OK Cl) as (E & St & _ & _ & R3 & R4 & _ & _ & R7 & R8).
  unfold Memory.SettleIO. cbv zeta. rewrite E, St. destruct (split r); [cbn [negb]|discriminate].
  set (bk := bucketKey (mkKey (subject r) (model r))).
  pose proof (settleAxis_over (limitITPM r) (toUnixMilli t)
    (loadBucket (itpm (purgeExpired s t)) bk (limitITPM r) (toUnixMilli t)) (itpmReserved r) (clampCost i) R7 Tok
    (load_fresh T _ _ (ok_itpm _ _ (purge_ok T s t OK)) HT Tok _ _) R3 (clampCost_ok _ Hi)) as Oi.
  pose proof (settleAxis_over (limitOTPM r) (toUnixMilli t)
    (loadBucket (otpm (purgeExpired s t)) bk (limitOTPM r) (toUnixMilli t)) (otpmReserved r) (clampCost o) R8 Tok
    (load_fresh T _ _ (ok_otpm _ _ (purge_ok T s t OK)) HT Tok _ _) R4 (clampCost_ok _ Ho)) as Oo.
  destruct (settleAxis (loadBucket (itpm _) _ _ _) _ _ _) as [si oi].
  destruct (settleAxis (loadBucket (otpm _) _ _ _) _ _ _) as [so oo].
  intros [= <-]. split; [exact Oi|exact Oo].
Qed.

(** What a call takes, less the token an overdraft may cost, is charged. *)
Lemma settle_charged id n :
  n <= A ->
  taken a k L (CSettle id n) (ADecision (Memory.Settle t s id n).2)
    - overdraft a k L (CSettle id n) (ADecision (Memory.Settle t s id n).2)
    <= charge a (cacheKey k) t s (OpSettle id n).
Proof.
  intros Hn. cbn [charge taken overdraft].
  assert (N : forall out, a <> TPM -> settle_charge a (cacheKey k) false s t id n out = 0).
  { intros out Na. unfold settle_charge. destruct (closing_res s t id) as [r|], a, out; try congruence;
      unfold concerns; destruct (bool_decide _), (split r); reflexivity. }
  destruct a eqn:Ea; try (rewrite N by discriminate; destruct (Memory.Settle t s id n).2; lia).
  rewrite <- Ea. pose proof (settle_charge_back false id n (Memory.Settle t s id n).2) as B.
  rewrite Ea in *. etransitivity; [|apply B].
  - destruct (Memory.Settle t s id n).2; cbn [is_ok]; lia.
  - intros []; reflexivity.
  - discriminate.
  - intros r d. apply Settle_over. lia.
Qed.

Lemma settleIO_charged id i o :
  i <= A -> o <= A ->
  taken a k L (CSettleIO id i o) (ADecision (Memory.SettleIO t s id i o).2)
    - overdraft a k L (CSettleIO id i o) (ADecision (Memory.SettleIO t s id i o).2)
    <= charge a (cacheKey k) t s (OpSettleIO id i o).
Proof.
  intros Hi Ho. cbn [charge taken overdraft].
  pose proof (fun r d => SettleIO_over id i o r d ltac:(lia) ltac:(lia)) as Ov.
  pose proof (settle_charge_back true id (match a with ITPM => i | _ => o end) (Memory.SettleIO t s id i o).2) as B.
  destruct a eqn:Ea.
  - cbn [settle_charge]. destruct (Memory.SettleIO t s id i o).2; lia.
  - unfold settle_charge. destruct (closing_res s t id) as [r|], (Memory.SettleIO t s id i o).2; try lia.
    unfold concerns. destruct (bool_decide _), (split r); cbn; lia.
  - rewrite <- Ea. rewrite Ea in *. etransitivity; [|apply B; [intros []; reflexivity|discriminate|]].
    + destruct (Memory.SettleIO t s id i o).2; cbn [is_ok]; lia.
    + intros r d Cl E. apply (Ov r d Cl E).
  - rewrite <- Ea. rewrite Ea in *. etransitivity; [|apply B; [intros []; reflexivity|discriminate|]].
    + destruct (Memory.SettleIO t s id i o).2; cbn [is_ok]; lia.
    + intros r d Cl E. apply (Ov r d Cl E).
Qed.

Lemma refund_charged id :
  taken a k L (CRefund id) (ADone (Memory.Refund t s id).2) <= charge a (cacheKey k) t s (OpRefund id).
Proof.
  cbn [charge taken]. unfold closing_res, Memory.Refund. cbv zeta. pose proof (kept_purge L s t Kp) as Kp'.
  destruct (reservations (purgeExpired s t) !! id) as [r|] eqn:E; [|apply Z.le_refl].
  pose proof (Kp' id r E) as O. unfold kept_as in O. unfold unused.
  destruct (rstatus r) eqn:St; cbn [snd]; [|lia|].
  - destruct (L !! id) as [e|]; [|congruence]. destruct O as (_ & Ek & Es & Er). rewrite Ek, Es.
    change (touches a k (rkey r) (split r)) with (concerns a (cacheKey k) (rkey r) (split r)).
    specialize (Er a). unfold concerns. rewrite nonneg_max.
    destruct (bool_decide _); cbn [andb]; [|lia]. destruct (counts a (split r)); [rewrite <- Er by reflexivity|]; lia.
  - destruct (L !! id) as [e|]; [destruct O; congruence|lia].
Qed.
End Direct.

(** ** Histories without the fast path *)

Section Run.
Context (clock : nat -> Time) (newID_ : nat -> res string) (Mono : monotone clock).
Context (a : axis) (k : Key) (c A : Z) (Am : A < int64_max).
Implicit Types w : World (S := MemStore).

Abbreviation bk := (cacheKey k).
Abbreviation direct := (Limiter_ApiLimiter (S := MemStore) FailClosed false clock newID_).

(** From [w] to [w'] the limiter made the store calls [h], which pay [q]. *)
Record charged_for (w w' : World (S := MemStore)) (h : list (Time * op)) (q : Z) : Prop := {
  for_ticks : (wticks w <= wticks w')%nat;
  for_store : wstore w' = run (wstore w) h;
  for_window : window a bk c (ms clock w) h (ms clock w');
  for_charges : q <= charges a bk (wstore w) h
}.

Lemma charged_trans w w1 w2 h h' q q' :
  charged_for w w1 h q -> charged_for w1 w2 h' q' -> charged_for w w2 (h ++ h') (q + q').
Proof.
  intros [A1 A2 A3 A4] [B1 B2 B3 B4]. split.
  - lia.
  - rewrite B2, A2, run_app. reflexivity.
  - eapply window_app; eassumption.
  - rewrite charges_app, <- A2. lia.
Qed.

Lemma charged_none w w' : wticks w' = wticks w -> wstore w' = wstore w -> charged_for w w' [] 0.
Proof.
  intros E1 E2. split; [lia|exact E2| |reflexivity]. cbn [window]. unfold ms. rewrite E1. lia.
Qed.

(** One call of the store at the next reading of the clock. *)
Lemma charged_op w p i o q :
  op_ok o -> op_uses a bk c o -> q <= charge a bk (clock (wticks w)) (wstore w) o ->
  charged_for w (mkWorld (apply (clock (wticks w)) (wstore w) o) p (Datatypes.S (wticks w)) i)
    [(clock (wticks w), o)] q.
Proof.
  intros Ho Hu Hq. split; cbn [wticks wstore].
  - lia.
  - reflexivity.
  - cbn [window]. split_and!; auto; [reflexivity|]. apply (ms_le clock Mono). cbn [wticks]. lia.
  - cbn [charges]. lia.
Qed.

(** The ledger stays the store's, and what the call takes is charged. *)
Definition answers (L : ledger) (cl : call) w (out : World (S := MemStore) * answer) : Prop :=
  kept (book L cl out.2) (wstore out.1) /\
  exists h, (length h <= 1)%nat /\
    charged_for w out.1 h (taken a k L cl out.2 - overdraft a k L cl out.2).

Lemma answers_one L cl w p i o (out : World (S := MemStore) * answer) :
  out.1 = mkWorld (apply (clock (wticks w)) (wstore w) o) p (Datatypes.S (wticks w)) i ->
  op_ok o -> op_uses a bk c o -> kept (book L cl out.2) (wstore out.1) ->
  taken a k L cl out.2 - overdraft a k L cl out.2 <= charge a bk (clock (wticks w)) (wstore w) o ->
  answers L cl w out.
Proof.
  intros E Ho Hu K Q. split; [exact K|]. exists [(clock (wticks w), o)]. split; [reflexivity|].
  rewrite E. apply charged_op; assumption.
Qed.

Lemma check_op_ok key l cost id :
  limits_fit a bk c key l -> (forall x, nonneg (cost_of x cost) <= A) -> op_ok (OpCheck key l cost id).
Proof.
  intros [Lim _] Costs. split; [exact Lim|].
  pose proof (Costs RPM). pose proof (Costs TPM). pose proof (Costs ITPM). pose proof (Costs OTPM).
  rewrite !nonneg_max in *. unfold costs_ok. cbn [cost_of] in *. lia.
Qed.

Section Call.
Context (s : MemStore) (p : Pool) (n ids : nat) (T : Z) (L : ledger).
Let t := clock n.
Context (OK : store_ok T s) (HT : T <= toUnixMilli t) (Tok : time_ok (toUnixMilli t)) (Kp : kept L s).

Lemma direct_Check key l cost :
  limits_fit a bk c key l -> (forall x, nonneg (cost_of x cost) <= A) ->
  answers L (CCheck key l cost) (mkWorld s p n ids) (perform (H := direct) (CCheck key l cost) (mkWorld s p n ids)).
Proof.
  intros Fit Costs. cbn [perform lCheck Limiter_ApiLimiter]. unfold Limiter.Check.
  assert (Denied : forall w' r, wticks w' = n -> wstore w' = s ->
    (match r with Ok d => Allowed d = false | Err _ => True end) ->
    answers L (CCheck key l cost) (mkWorld s p n ids) (w', ADecision r)).
  { intros w' r E1 E2 D. unfold answers. cbn [fst snd]. destruct r as [d|e]; cbn [book taken overdraft]; rewrite ?D, E2;
      (split; [exact Kp|]); exists []; (split; [auto|]); apply charged_none; assumption. }
  destruct (Validate l); cbn [exec]; [apply Denied; auto|].
  unfold checkDirect. step. destruct (newID_ ids) as [id|e]; step; [|apply Denied; auto using denyDecision_denied].
  cbn [sCheck MemStore_Store]. pose proof (Check_kept a k s t L Kp key l cost id) as [K1 K2]. fold t.
  pose proof (check_op_ok key l cost id Fit Costs) as Ho. destruct Fit as [_ Uses].
  destruct (Memory.Check t s key l cost id) as [s' [d|e]] eqn:E; step; cbn [exec onStoreErr fst snd] in *;
    apply (answers_one _ _ _ p (Datatypes.S ids) (OpCheck key l cost id)); auto; cbn [fst snd wstore wticks apply];
    fold t; try (rewrite E; reflexivity).
  - cbn [overdraft]. rewrite Z.sub_0_r. exact K2.
  - cbn [book]. rewrite denyDecision_denied. exact K1.
  - cbn [taken overdraft] in *. rewrite denyDecision_denied. exact K2.
Qed.

Lemma direct_call cl :
  call_fits a k c A cl ->
  answers L cl (mkWorld s p n ids) (perform (H := direct) cl (mkWorld s p n ids)).
Proof.
  destruct cl as [key l cost|id m|id i o|id]; cbn [call_fits]; intros F;
    [apply direct_Check; apply F| | |]; cbn [perform lSettle lSettleIO lRefund Limiter_ApiLimiter].
  - unfold Limiter.Settle. step. cbn [sSettle MemStore_Store]. fold t.
    pose proof (closes_kept t s id _ L (Settle_closes t s id m) Kp) as K1.
    pose proof (settle_charged a k A Am T s t L OK HT Tok Kp id m F) as K2.
    destruct (Memory.Settle t s id m) as [s' r] eqn:E. cbn [fst snd] in *.
    apply (answers_one _ _ _ p ids (OpSettle id m)); cbn [fst snd wstore wticks apply op_ok op_uses]; fold t;
      [rewrite E; reflexivity|lia|exact I|destruct r; exact K1|exact K2].
  - unfold Limiter.SettleIO. step. cbn [sSettleIO MemStore_Store]. fold t. destruct F as [Fi Fo].
    pose proof (closes_kept t s id _ L (SettleIO_closes t s id i o) Kp) as K1.
    pose proof (settleIO_charged a k A Am T s t L OK HT Tok Kp id i o Fi Fo) as K2.
    destruct (Memory.SettleIO t s id i o) as [s' r] eqn:E. cbn [fst snd] in *.
    apply (answers_one _ _ _ p ids (OpSettleIO id i o)); cbn [fst snd wstore wticks apply op_ok op_uses]; fold t;
      [rewrite E; reflexivity|lia|exact I|destruct r; exact K1|exact K2].
  - unfold Limiter.Refund. step. cbn [sRefund MemStore_Store]. fold t.
    pose proof (closes_kept t s id _ L (Refund_closes t s id) Kp) as K1.
    pose proof (refund_charged a k s t L Kp id) as K2.
    destruct (Memory.Refund t s id) as [s' r] eqn:E. cbn [fst snd] in *.
    apply (answers_one _ _ _ p ids (OpRefund id)); cbn [fst snd wstore wticks apply op_ok op_uses overdraft];
      fold t; [rewrite E; reflexivity|exact I|exact I|destruct r; exact K1|rewrite Z.sub_0_r; exact K2].
Qed.
End Call.

(** The clock only goes on. *)
Lemma perform_ticks cl w : (wticks w <= wticks (perform (H := direct) cl w).1)%nat.
Proof.
  destruct w as [s p n ids].
  destruct cl as [key l cost|id m|id i o|id]; cbn [perform lCheck lSettle lSettleIO lRefund Limiter_ApiLimiter].
  - unfold Limiter.Check. destruct (Validate l); cbn [exec fst wticks]; [lia|].
    unfold checkDirect. step. destruct (newID_ ids) as [id|e]; step; [|cbn; lia].
    destruct (sCheck _ _ _ _ _ _) as [s' [d|e]]; step; cbn; lia.
  - unfold Limiter.Settle. step. destruct (sSettle _ _ _ _). cbn. lia.
  - unfold Limiter.SettleIO. step. destruct (sSettleIO _ _ _ _ _). cbn. lia.
  - unfold Limiter.Refund. step. destruct (sRefund _ _ _). cbn. lia.
Qed.

Lemma performs_ticks cs w : (wticks w <= wticks (performs (H := direct) cs w).1)%nat.
Proof.
  revert w. induction cs as [|cl cs IH]; intros w; [reflexivity|]. cbn [performs].
  pose proof (perform_ticks cl w) as P. destruct (perform cl w) as [w1 ans]. specialize (IH w1).
  destruct (performs cs w1) as [w2 h]. cbn [fst] in *. lia.
Qed.

Lemma performs_charged cs : forall w L,
  store_ok (ms clock w) (wstore w) -> uniform a bk c (wstore w) -> 0 <= ms clock w ->
  kept L (wstore w) -> Forall (call_fits a k c A) cs ->
  let out := performs (H := direct) cs w in
  ms clock out.1 <= 2 ^ 53 ->
  exists h, (length h <= length cs)%nat /\
    charged_for w out.1 h (held a k L out.2 - overdrafts a k L out.2).
Proof.
  induction cs as [|cl cs IH]; intros w L OK U H0 Kp F out Hu.
  - exists []. split; [reflexivity|]. apply charged_none; reflexivity.
  - apply Forall_cons in F as [Fc F]. subst out. cbn [performs] in *.
    pose proof (perform_ticks cl w) as P. pose proof (performs_ticks cs (perform (H := direct) cl w).1) as P'.
    assert (Hw : ms clock w <= ms clock (perform (H := direct) cl w).1) by (apply (ms_le clock Mono); lia).
    assert (Tok : ms clock (perform (H := direct) cl w).1 <= 2 ^ 53).
    { etransitivity; [|exact Hu]. apply (ms_le clock Mono). destruct (perform cl w) as [w1 ans].
      cbn [fst] in P'. destruct (performs cs w1). exact P'. }
    assert (D : answers L cl w (perform (H := direct) cl w)).
    { destruct w as [s p n ids]. apply direct_call with (T := ms clock (mkWorld s p n ids)); auto; [reflexivity|].
      unfold time_ok, int64_max, ms in *. cbn [wticks] in *. lia. }
    destruct D as (Kp1 & h1 & L1 & C1). destruct (perform cl w) as [w1 ans]. cbn [fst snd] in *.
    destruct (window_ok a bk c h1 (ms clock w) (ms clock w1) (wstore w) OK U H0
      ltac:(unfold int64_max; lia) (for_window _ _ _ _ C1)) as [OK1 U1].
    rewrite <- (for_store _ _ _ _ C1) in OK1, U1.
    destruct (IH w1 (book L cl ans) OK1 U1 ltac:(lia) Kp1 F) as (h2 & L2 & C2).
    { destruct (performs cs w1). exact Hu. }
    destruct (performs cs w1) as [w2 h]. cbn [fst snd held overdrafts length] in *.
    exists (h1 ++ h2). rewrite length_app. split; [lia|].
    pose proof (charged_trans _ _ _ _ _ _ _ C1 C2) as C12.
    replace (taken a k L cl ans + held a k (book L cl ans) h - (overdraft a k L cl ans + overdrafts a k (book L cl ans) h))
      with (taken a k L cl ans - overdraft a k L cl ans
            + (held a k (book L cl ans) h - overdrafts a k (book L cl ans) h)) by ring.
    exact C12.
Qed.
End Run.

(** Why a limiter without the fast path must fail closed: the error of a store that
    rejects the request counts as a failing store, so a fail-open limiter admits a
    request without a subject, and charges nothing. *)
Lemma fail_open_admits_rejected clock newID_ key l cost id (w : World (S := MemStore)) :
  Validate l = None -> Subject key = "" -> newID_ (wids w) = Ok id ->
  let out := exec clock newID_ (Limiter.Check FailOpen false key l cost) w in
  is_ok (Memory.Check (clock (wticks w)) (wstore w) key l cost id).2 = false /\
  admitted out.2 = true /\ same_buckets (wstore w) (wstore out.1).
Proof.
  intros V Sb Id. cbv zeta. unfold Limiter.Check, checkDirect. rewrite V. step. rewrite Id. step.
  cbn [sCheck MemStore_Store]. unfold Memory.Check. rewrite V. cbv zeta. rewrite decide_True by exact Sb.
  step. cbn [exec onStoreErr fst snd wstore is_ok admitted].
  split; [reflexivity|]. split; [destruct (Split l); reflexivity|]. split_and!; reflexivity.
Qed.

(** ** Properties *)

Section Properties.
Context (fm : FailMode) (fast : bool) (clock : nat -> Time) (newID_ : nat -> res string).

Lemma overdrafts_nonneg a k h : forall L, 0 <= overdrafts a k L h.
Proof.
  induction h as [|[cl ans] h IH]; intros L; cbn [overdrafts]; [reflexivity|].
  assert (N : forall id n, 0 <= overdrawn a k L id n).
  { intros id n. unfold overdrawn. destruct (L !! id) as [e|]; [destruct (_ && _)|]; lia. }
  assert (0 <= overdraft a k L cl ans); [|specialize (IH (book L cl ans)); lia].
  unfold overdraft. destruct cl, ans as [[]|]; try reflexivity; destruct a; (apply N || reflexivity).
Qed.

(** The budget of a history of calls, in the terms of the two modes. *)
Lemma ledger_bound a k c A C s ticks ids cs :
  let w := mkWorld s (NewPool C) ticks ids in
  let out := performs (H := Limiter_ApiLimiter fm fast clock newID_) cs w in
  monotone clock -> reservations s = ∅ -> store_ok (ms clock w) s -> 0 < ms clock w ->
  (if fast then chunks_ok A (normalized C) else fm = FailClosed) ->
  Forall (call_fits a k c A) cs -> 0 <= A <= 2 ^ 40 -> 0 < c <= 2 ^ 30 ->
  Z.of_nat (length cs) <= 2 ^ 20 -> ms clock out.1 <= 2 ^ 53 -> ms clock out.1 - ms clock w <= 2 ^ 32 ->
  60000 * (held a k ∅ out.2 - if fast then 0 else overdrafts a k ∅ out.2)
    <= 60000 * (c + 1) + (ms clock out.1 - ms clock w) * c.
Proof.
  intros w out Mono Re OK H0 Fm F HA Hc Hn Hu Hd.
  assert (U : uniform a (cacheKey k) c s) by (unfold uniform; rewrite Re; apply map_Forall_empty).
  assert (P : exists h, (length h <= length cs)%nat /\
    window a (cacheKey k) c (ms clock w) h (ms clock out.1) /\
    held a k ∅ out.2 - (if fast then 0 else overdrafts a k ∅ out.2) <= charges a (cacheKey k) s h).
  { destruct fast.
    - destruct (performs_paid fm clock newID_ Mono a k c A (normalized C) (proj1 HA)
        ltac:(unfold int64_max; lia) Fm cs 0 w ∅ ltac:(lia) (NewPool_ok C A 0) eq_refl) as (h & L & Pd).
      + split; [apply map_Forall_empty|apply map_Forall_empty|exact Re].
      + exact F.
      + unfold int64_max. nia.
      + exists h. fold out in Pd. destruct Pd as [_ O _ _ W Cr]. split_and!; [exact L|exact W|].
        assert (0 <= live a (cacheKey k) (clock (wticks out.1)) (wpool out.1)) by (eapply live_range; [|exact O]; nia).
        change (live a (cacheKey k) (clock (wticks w)) (wpool w)) with 0 in Cr. cbn [wstore w] in Cr. lia.
    - subst fm. destruct (performs_charged clock newID_ Mono a k c A ltac:(unfold int64_max; lia) cs w ∅ OK U
        ltac:(lia)) as (h & L & [_ _ W Q]); [|exact F|exact Hu|].
      + unfold kept. cbn [wstore w]. rewrite Re. apply map_Forall_empty.
      + exists h. split_and!; [exact L|exact W|exact Q]. }
  destruct P as (h & L & W & Q).
  pose proof (budget_bound a (cacheKey k) c (ms clock w) (ms clock w) s h (ms clock out.1) OK ltac:(lia) H0 U W
    Hc Hu Hd ltac:(lia)) as B. lia.
Qed.

(** C3: the budget of a limiter's clients.  Over the in-process store, with the fast
    path on or off, take any sequence of checks, settlements and refunds, for any
    keys and in any order, and the ledger a client can keep of the calls and their
    answers: what admitted requests cost, less what settlements left unused and
    refunds gave back.  For each key and axis the ledger holds at most the
    per-minute limit, what the limit earns between the first and the last clock
    reading, and one token; without the fast path, one more for each settlement
    above its reservation, which may meet a balance that a rounding left below
    zero.  Leases, the deny cache, loans for overshoots and idempotent answers never
    hand out more.  (Without the fast path the limiter must fail closed: one that
    fails open admits what the store refuses to answer.)  The clock must not go back,
    calls must give the key one limit [c], and limits, amounts and their number be at
    most what is stated. *)
Theorem ledger_budget a k c A C T0 s ticks ids cs :
  let w := mkWorld s (NewPool C) ticks ids in
  let out := performs (H := Limiter_ApiLimiter fm fast clock newID_) cs w in
  monotone clock -> reachable T0 s -> reservations s = ∅ -> T0 <= ms clock w -> 0 < ms clock w ->
  (if fast then chunks_ok A (normalized C) else fm = FailClosed) ->
  Forall (call_fits a k c A) cs -> 0 <= A <= 2 ^ 40 -> 0 < c <= 2 ^ 30 ->
  Z.of_nat (length cs) <= 2 ^ 20 -> ms clock out.1 <= 2 ^ 53 -> ms clock out.1 - ms clock w <= 2 ^ 32 ->
  60000 * (held a k ∅ out.2 - if fast then 0 else overdrafts a k ∅ out.2)
    <= 60000 * (c + 1) + (ms clock out.1 - ms clock w) * c.
Proof.
  intros w out Mono Rc Re HT. intros. apply (ledger_bound a k c A C s ticks ids cs); auto.
  apply (store_ok_mono T0); [exact HT|apply reachable_ok, Rc].
Qed.
End Properties.

Definition client_calls : list call :=
  [CCheck sample_key sample_limits (mkCost 1 100 0 0); CSettle "r0" 140;
   CCheck sample_key sample_limits (mkCost 4 100 0 0); CRefund "r1"; CSettle "r1" 10;
   CCheck (mkKey "bob" "") sample_limits (mkCost 1 100 0 0); CSettle "r2" 30; CSettle "r2" 99;
   CCheck sample_key sample_limits (mkCost 2 300 0 0)].

Definition client_world : World := mkWorld Memory.New (NewPool DefaultConfig) 0 0.

Definition client_run (fast : bool) :=
  performs (H := Limiter_ApiLimiter FailClosed fast unix_clock sample_ids) client_calls client_world.

(** What alice holds at the end: the settled request, up to its reservation, and the
    last one; bob's request was settled at 30. *)
Example client_held :
  held TPM sample_key ∅ (client_run true).2 = 400 /\ held RPM sample_key ∅ (client_run true).2 = 3 /\
  held TPM (mkKey "bob" "") ∅ (client_run false).2 = 30 /\
  overdrafts TPM sample_key ∅ (client_run false).2 = 1.
Proof. vm_compute. split_and!; reflexivity. Qed.

(** Amounts up to [n] on every axis. *)
Lemma costs_within n c :
  Requests c <= n -> Tokens c <= n -> InputTokens c <= n -> OutputTokens c <= n -> 0 <= n ->
  forall x, Lease.nonneg (cost_of x c) <= n.
Proof. intros. rewrite Lease.nonneg_max. destruct x; cbn [cost_of]; lia. Qed.

Lemma sample_limits_fit key : limits_fit TPM (cacheKey sample_key) 1000 key sample_limits.
Proof. split; [unfold limits_ok, limit_ok, max_capacity; cbn; lia|reflexivity]. Qed.

Lemma client_calls_fit fast : Forall (call_fits TPM sample_key 1000 1000) client_calls /\
  (if fast : bool then chunks_ok 1000 (normalized DefaultConfig) else FailClosed = FailClosed).
Proof.
  split; [|destruct fast; [vm_compute; split_and!; congruence|reflexivity]].
  repeat apply Forall_cons_2; try apply Forall_nil_2; cbn [call_fits]; try lia; try exact I;
    (split; [apply sample_limits_fit|apply costs_within; cbn; lia]).
Qed.

Lemma unix_clock_monotone : monotone unix_clock.
Proof. intros n m H. unfold unix_clock. lia. Qed.

Lemma ledger_budget_witness :
  60000 * (held TPM sample_key ∅ (client_run true).2 - 0)
    <= 60000 * (1000 + 1) + (ms unix_clock (client_run true).1 - ms unix_clock client_world) * 1000 /\
  60000 * (held TPM sample_key ∅ (client_run false).2 - overdrafts TPM sample_key ∅ (client_run false).2)
    <= 60000 * (1000 + 1) + (ms unix_clock (client_run false).1 - ms unix_clock client_world) * 1000.
Proof.
  unfold client_run, client_world. split.
  - apply (ledger_budget FailClosed true unix_clock sample_ids TPM sample_key 1000 1000 DefaultConfig 0 Memory.New 0 0 client_calls);
      [apply unix_clock_monotone|apply reach_new|reflexivity|..];
      (apply (client_calls_fit true) || lia || (vm_compute; congruence)).
  - apply (ledger_budget FailClosed false unix_clock sample_ids TPM sample_key 1000 1000 DefaultConfig 0 Memory.New 0 0 client_calls);
      [apply unix_clock_monotone|apply reach_new|reflexivity|..];
      (apply (client_calls_fit false) || lia || (vm_compute; congruence)).
Defined.
