(* ===== verification/Concurrent.v ===== *)
(** * Concurrent: calls of one limiter, interleaved

    A limiter is shared: the goroutines of a server call it at the same time, and the
    actions of their programs interleave, the pool and the store keeping each action
    one step.  The machine below starts calls and runs single actions in any order.
    [follows] states what a program does whatever the answers to its actions are;
    from it come the facts that hold under any interleaving: every call returns after
    a bounded number of its own steps, and shows in the clients' [Ledger] through at
    most one of them. *)

From stdpp Require Import base tactics numbers strings gmap list.
From Stdlib Require Import ZArith Lia Permutation.
From S2P Require Import Prelude GoFloat Api Store Memory MemorySpec Lease Limiter LimiterSpec ApiLimiter Ledger.

(** ** Programs, action by action *)

(** What a program does next: it has returned, or does an action and goes on with
    the answer. *)
Inductive view (X : Type) : Type :=
| Done (x : X)
| Doing {Y} (a : act Y) (k : Y -> M X).
Arguments Done {X} x.
Arguments Doing {X Y} a k.

Fixpoint next {X} (m : M X) : view X :=
  match m with
  | ret x => Done x
  | bind m f =>
      match next m with
      | Done y => next (f y)
      | Doing a k => Doing a (fun y => bind (k y) f)
      end
  | atomic a => Doing a ret
  end.

(** Taking the actions one after the other is running the program. *)
Lemma exec_next {S} `{Store S} clock newID_ {X} (m : M X) (w : World (S := S)) :
  exec clock newID_ m w =
    match next m with
    | Done x => (w, x)
    | Doing a k => let '(w', y) := run_act clock newID_ a w in exec clock newID_ (k y) w'
    end.
Proof.
  revert w. induction m as [X x|X Y m IHm f IHf|X a]; intros w; cbn [exec next]; [reflexivity| |].
  - rewrite IHm. destruct (next m) as [y|Z a k]; cbn [exec]; [apply IHf|].
    destruct (run_act clock newID_ a w) as [w' z]. cbn [exec]. reflexivity.
  - destruct (run_act clock newID_ a w). reflexivity.
Qed.

(** *** Protocols *)

Section Protocol.
(** A program keeps track of a state of its own: the actions it may do in a state,
    what it can rely on of their answers, and the state after. *)
Context {St : Type}.
Context (may : forall X, St -> act X -> Prop).
Context (says : forall X, St -> act X -> X -> Prop).
Context (after : forall X, St -> act X -> X -> St).

(** From state [s], whatever the answers, the program does only what it may and
    returns in [post]. *)
Fixpoint follows {X} (m : M X) : St -> (X -> St -> Prop) -> Prop :=
  match m with
  | ret x => fun s post => post x s
  | bind m f => fun s post => follows m s (fun x s => follows (f x) s post)
  | atomic a => fun s post => may _ s a /\ forall y, says _ s a y -> post y (after _ s a y)
  end.

Lemma follows_impl {X} (m : M X) : forall s (P Q : X -> St -> Prop),
  (forall x s, P x s -> Q x s) -> follows m s P -> follows m s Q.
Proof.
  induction m as [X x|X Y m IHm f IHf|X a]; intros s P Q HPQ; cbn [follows]; [auto| |].
  - apply IHm. intros x s'. apply IHf, HPQ.
  - intros [Ma Sa]. split; auto.
Qed.

Lemma follows_next {X} (m : M X) : forall s (post : X -> St -> Prop),
  follows m s post ->
  match next m with
  | Done x => post x s
  | Doing a k => may _ s a /\ forall y, says _ s a y -> follows (k y) (after _ s a y) post
  end.
Proof.
  induction m as [X x|X Y m IHm f IHf|X a]; intros s post F; cbn [follows next] in *; [exact F| |exact F].
  specialize (IHm _ _ F). destruct (next m) as [y|Z a k]; [apply IHf, IHm|].
  destruct IHm as [Ma Sa]. split; [exact Ma|]. intros y Sy. cbn [follows]. apply Sa, Sy.
Qed.

Lemma follows_done {X} (m : M X) x : forall s (post : X -> St -> Prop),
  next m = Done x -> post x s -> follows m s post.
Proof.
  induction m as [X y|X Y m IHm f IHf|X a]; intros s post N Px; cbn [next follows] in *; [congruence| |discriminate].
  destruct (next m) as [z|]; [|discriminate]. apply (IHm z _ _ eq_refl), (IHf z x _ _ N), Px.
Qed.
End Protocol.

(** ** The machine *)

(** What an action changes in the account of the call that does it: an admission, or
    the answer that closes a reservation. *)
Definition effect {X} (a : act X) : X -> option answer :=
  let decided (r : res Decision) := if is_ok r then Some (ADecision r) else None in
  match a with
  | PoolTryDebit _ _ _ _ => fun o => match o with Some d => Some (ADecision (Ok d)) | None => None end
  | StoreCheck _ _ _ _ => fun r => if admitted r then Some (ADecision r) else None
  | PoolSettleLocal _ _ | PoolSettleLocalIO _ _ _ | StoreSettle _ _ | StoreSettleIO _ _ _ => decided
  | PoolRefundLocal _ | StoreRefund _ => fun r => if is_ok r then Some (ADone r) else None
  | _ => fun _ => None
  end.

(** A call, the rest of its program, and the effects it had. *)
Record thread := mkThread { tcall : call; tcode : M answer; teffects : list answer }.

Definition returned_with (th : thread) : option answer :=
  match next (tcode th) with Done ans => Some ans | Doing _ _ => None end.

Section Machine.
Context {S : Type} `{Store S}.
Context (failMode : FailMode) (fast : bool) (clock : nat -> Time) (newID_ : nat -> res string).

(** [clog] lists the effects of all calls in the order they happened. *)
Record conf := mkConf { cworld : World (S := S); cthreads : list thread; clog : list (call * answer) }.

Variant cmd : Type :=
| Start (c : call)
| Go (i : nat).

(** A call starts, or the i-th call does its next action, if it has one left. *)
Definition advance (x : cmd) (c : conf) : conf :=
  match x with
  | Start cl => mkConf (cworld c) (cthreads c ++ [mkThread cl (program failMode fast cl) []]) (clog c)
  | Go i =>
      match cthreads c !! i with
      | Some th =>
          match next (tcode th) with
          | Done _ => c
          | Doing a k =>
              let '(w, y) := run_act clock newID_ a (cworld c) in
              let es := match effect a y with Some e => [e] | None => [] end in
              mkConf w (<[i := mkThread (tcall th) (k y) (teffects th ++ es)]> (cthreads c))
                (clog c ++ map (fun e => (tcall th, e)) es)
          end
      | None => c
      end
  end.

Definition runs (schedule : list cmd) (c : conf) : conf :=
  fold_left (fun c x => advance x c) schedule c.

Definition idle (w : World (S := S)) : conf := mkConf w [] [].

Lemma runs_app l l' c : runs (l ++ l') c = runs l' (runs l c).
Proof. apply fold_left_app. Qed.

Lemma runs_cons x l c : runs (x :: l) c = runs l (advance x c).
Proof. reflexivity. Qed.

(** *** Protocols of threads *)

Section Threads.
Context {St : Type} (may : forall X, St -> act X -> Prop) (says : forall X, St -> act X -> X -> Prop)
  (after : forall X, St -> act X -> X -> St) (post : call -> answer -> St -> Prop).

(** The thread's remaining program follows the protocol from [s]. *)
Definition in_state (th : thread) (s : St) : Prop :=
  follows may says after (tcode th) s (post (tcall th)).

(** A step of a thread in a state of the protocol. *)
Lemma advance_in_state c i th s {Y} (a : act Y) k :
  cthreads c !! i = Some th -> in_state th s -> next (tcode th) = Doing a k ->
  let '(w, y) := run_act clock newID_ a (cworld c) in
  may _ s a /\ (says _ s a y -> forall es, in_state (mkThread (tcall th) (k y) es) (after _ s a y)).
Proof.
  intros _ F E. apply follows_next in F. rewrite E in F. destruct F as [Ma Sa].
  destruct (run_act clock newID_ a (cworld c)) as [w y]. split; [exact Ma|]. intros Sy es. apply Sa, Sy.
Qed.
End Threads.
End Machine.
Arguments conf S : clear implicits.
Arguments cworld {S} c.
Arguments cthreads {S} c.
Arguments clog {S} c.

(** ** At most one effect *)

(** The ledger does not see the answer; it sees one as it would see the other. *)
Definition unseen (cl : call) (ans : answer) : Prop :=
  forall L, book L cl ans = L /\ forall a k, taken a k L cl ans = 0 /\ overdraft a k L cl ans = 0.

Definition seen_as (cl : call) (e ans : answer) : Prop :=
  forall L, book L cl e = book L cl ans /\
    forall a k, taken a k L cl e = taken a k L cl ans /\ overdraft a k L cl e = overdraft a k L cl ans.

Definition accounted (cl : call) (ans : answer) (es : list answer) : Prop :=
  match es with
  | [] => unseen cl ans
  | [e] => seen_as cl e ans
  | _ => False
  end.

Definition then_effects {X} (es : list answer) (a : act X) (y : X) : list answer :=
  es ++ match effect a y with Some e => [e] | None => [] end.

(** An action that has an effect is the first that has one. *)
Definition once {X} (es : list answer) (a : act X) : Prop := forall y, effect a y <> None -> es = [].

Definition debit_says {X} (a : act X) : X -> Prop :=
  match a with
  | PoolTryDebit _ _ _ id => fun o =>
      match o with Some d => Allowed d = true /\ ReservationID d = id | None => True end
  | _ => fun _ => True
  end.

Lemma debit_said {S} `{Store S} clock newID_ {X} (a : act X) (w : World (S := S)) :
  debit_says a (run_act clock newID_ a w).2.
Proof.
  destruct a; cbn [debit_says]; try exact I. cbn [run_act]. unfold onPool.
  destruct (TryDebit _ _ _ _ _ _) as [p [d|]] eqn:E; cbn [snd]; [|exact I].
  destruct (TryDebit_decision _ _ _ _ _ _ _ _ E) as (Al & _ & Id). auto.
Qed.

Abbreviation effects_follow := (follows (St := list answer) (fun X es a => once es a)
  (fun X _ a y => debit_says a y) (fun X es a y => then_effects es a y)).

Lemma unseen_denied key l cost d : Allowed d = false -> unseen (CCheck key l cost) (ADecision (Ok d)).
Proof. intros D L. cbn [book taken overdraft]. rewrite D. auto. Qed.

Lemma seen_refl cl e : seen_as cl e e.
Proof. intros L. auto. Qed.

Lemma seen_settle id n d d' : seen_as (CSettle id n) (ADecision (Ok d)) (ADecision (Ok d')).
Proof. intros L. auto. Qed.

Lemma seen_settleIO id i o d d' : seen_as (CSettleIO id i o) (ADecision (Ok d)) (ADecision (Ok d')).
Proof. intros L. auto. Qed.

Lemma unseen_error cl e :
  unseen cl (match cl with CRefund _ => ADone (Err (E := error) e) | _ => ADecision (Err e) end).
Proof. intros L. destruct cl; cbn [book taken overdraft]; auto. Qed.

(** An effect shows in the answer of the action that has it. *)
Lemma accounted_if cl (b : bool) e :
  (b = false -> unseen cl e) -> accounted cl e (match (if b then Some e else None) with Some e => [e] | None => [] end).
Proof. destruct b; cbn [accounted]; [intros _; apply seen_refl|auto]. Qed.

#[export] Hint Resolve unseen_denied seen_refl seen_settle seen_settleIO accounted_if
  denyDecision_denied borrowDenyDecision_denied : valve.

(** Walks through a program: an action, any answer, the rest. *)
Ltac walk :=
  repeat (cbn [follows]; match goal with
  | |- follows _ _ _ (match ?x with _ => _ end) _ _ => destruct x eqn:?
  | |- _ /\ _ => split
  | |- forall _, _ => intros ?
  end).

Ltac effects_walk :=
  walk; cbn [follows effect then_effects debit_says admitted is_ok accounted app] in *;
  try match goal with
  | |- once [] _ => intros ? ?; reflexivity
  | |- once _ _ => intros ? []; reflexivity
  | |- unseen ?c (_ (Err ?e)) => exact (unseen_error c e)
  end.

Lemma program_effects fm fast cl :
  (fast = false -> fm = FailClosed) ->
  effects_follow (program fm fast cl) [] (accounted cl).
Proof.
  assert (Un : forall r : res Decision, is_ok r = false -> forall c,
    (match c with CRefund _ => False | _ => True end) -> unseen c (ADecision r)).
  { intros [d|e] F c Hc; [discriminate|]. destruct c; try exact (unseen_error _ e). destruct Hc. }
  assert (Ud : forall (r : res unit), is_ok r = false -> forall id, unseen (CRefund id) (ADone r)).
  { intros [u|e] F id; [discriminate|]. exact (unseen_error (CRefund id) e). }
  intros Fm. destruct cl as [key l cost|id n|id i o|id]; cbn [program].
  - unfold Check, checkFast, checkDirect, onStoreErrFast, onStoreErr.
    destruct fast; [|rewrite Fm by reflexivity]; effects_walk; auto with valve.
  - unfold Settle. destruct fast; effects_walk; auto with valve.
  - unfold SettleIO. destruct fast; effects_walk; auto with valve.
  - unfold Refund. destruct fast; effects_walk; auto with valve.
Qed.

Definition effects_of (th : thread) : list (call * answer) := map (fun e => (tcall th, e)) (teffects th).

(** The thread is at a point of its program where its effects so far are what the
    rest of the program takes them to be. *)
Definition tracked (th : thread) : Prop :=
  effects_follow (tcode th) (teffects th) (accounted (tcall th)) /\ (length (teffects th) <= 1)%nat.

Lemma tracked_step th {Y} (a : act Y) k y :
  tracked th -> next (tcode th) = Doing a k -> debit_says a y ->
  tracked (mkThread (tcall th) (k y) (then_effects (teffects th) a y)).
Proof.
  intros [F L] E Sy. apply follows_next in F. rewrite E in F. destruct F as [Ma F].
  split; cbn [tcode teffects tcall]; [apply F, Sy|]. unfold then_effects. specialize (Ma y).
  destruct (effect a y) as [e|]; [rewrite Ma by discriminate; reflexivity|rewrite app_nil_r; exact L].
Qed.

(** Writing one element of a list of lists. *)
Lemma concat_insert_perm {X Y} (f : X -> list Y) l i x x' zs :
  l !! i = Some x -> f x' = f x ++ zs ->
  Permutation (concat (map f (<[i := x']> l))) (concat (map f l) ++ zs).
Proof.
  intros E Ef. rewrite <- (take_drop_middle l i x E) at 2.
  rewrite insert_take_drop by (eapply lookup_lt_Some; exact E).
  rewrite !map_app, !concat_app. cbn [map concat]. rewrite Ef, <- !app_assoc.
  apply Permutation_app_head, Permutation_app_head. apply Permutation_app_comm.
Qed.

Section Effects.
Context {S : Type} `{Store S} (fm : FailMode) (fast : bool) (clock : nat -> Time) (newID_ : nat -> res string).
Context (Closed : fast = false -> fm = FailClosed).

Definition accounts_for (c : conf S) : Prop :=
  Permutation (clog c) (concat (map effects_of (cthreads c))) /\ Forall tracked (cthreads c).

Lemma advance_accounts x c : accounts_for c -> accounts_for (advance fm fast clock newID_ x c).
Proof.
  intros [P F]. destruct x as [cl|i]; cbn [advance].
  - split; cbn [clog cthreads].
    + rewrite map_app, concat_app. cbn. rewrite app_nil_r. exact P.
    + apply Forall_app_2; [exact F|]. apply Forall_singleton. split; [|cbn; lia].
      apply program_effects, Closed.
  - destruct (cthreads c !! i) as [th|] eqn:E; [|split; assumption].
    destruct (next (tcode th)) as [ans|Y a k] eqn:N; [split; assumption|].
    pose proof (debit_said clock newID_ a (cworld c)) as D. pose proof (Forall_lookup_1 _ _ _ _ F E) as Th.
    destruct (run_act clock newID_ a (cworld c)) as [w y]. cbn [snd] in D.
    split; cbn [clog cthreads].
    + rewrite P. symmetry. apply concat_insert_perm with (x := th); [exact E|].
      unfold effects_of. cbn [tcall teffects]. apply map_app.
    + apply Forall_insert; [exact F|]. exact (tracked_step th a k y Th N D).
Qed.

Lemma runs_accounts schedule c : accounts_for c -> accounts_for (runs fm fast clock newID_ schedule c).
Proof.
  revert c. induction schedule as [|x l IH]; intros c A; [exact A|]. apply IH, advance_accounts, A.
Qed.

(** C5: every call takes effect at most once, between its start and its return.  Start
    calls of one limiter, over any store, at any time and interleave their actions in
    any way.  The log of their effects, in the order they happened, is made of at most
    one step of each call; and a call that has returned is seen in a client's ledger
    as that one step is: a call without an effect answered what takes nothing and
    changes nothing (without the fast path, the limiter must fail closed). *)
Theorem calls_take_effect_once schedule w :
  let c := runs fm fast clock newID_ schedule (idle w) in
  Permutation (clog c) (concat (map effects_of (cthreads c))) /\
  Forall (fun th => (length (teffects th) <= 1)%nat /\
    forall ans, returned_with th = Some ans -> accounted (tcall th) ans (teffects th)) (cthreads c).
Proof.
  intros c. destruct (runs_accounts schedule (idle w)) as [P F]; [split; constructor|].
  split; [exact P|]. apply (Forall_impl _ _ _ F). intros th [Fo L]. split; [exact L|]. intros ans R.
  apply follows_next in Fo. unfold returned_with in R.
  destruct (next (tcode th)) as [ans'|Y a k]; [|discriminate]. injection R as <-. exact Fo.
Qed.
End Effects.

(** ** Returning *)

(** At most [n] more actions. *)
Abbreviation within := (follows (St := nat) (fun _ n _ => (0 < n)%nat) (fun _ _ _ _ => True) (fun _ n _ _ => pred n)).

(** The longest call: a check that debits in vain, borrows, fails and falls back. *)
Definition call_steps : nat := 9.

Lemma program_within fm fast cl : within (program fm fast cl) call_steps (fun _ _ => True).
Proof.
  destruct cl as [key l cost|id n|id i o|id]; cbn [program]; unfold call_steps.
  - unfold Check, checkFast, checkDirect, onStoreErrFast, onStoreErr. destruct fast; walk; try exact I; cbn; lia.
  - unfold Settle. destruct fast; walk; try exact I; cbn; lia.
  - unfold SettleIO. destruct fast; walk; try exact I; cbn; lia.
  - unfold Refund. destruct fast; walk; try exact I; cbn; lia.
Qed.

Definition runs_thread (i : nat) (x : cmd) : bool :=
  match x with Go j => Nat.eqb i j | Start _ => false end.

(** How often the schedule runs thread [i]. *)
Definition turns (i : nat) (schedule : list cmd) : nat := length (List.filter (runs_thread i) schedule).

Section WaitFree.
Context {S : Type} `{Store S} (fm : FailMode) (fast : bool) (clock : nat -> Time) (newID_ : nat -> res string).

(** Thread [i] runs call [cl] and has at most [n] actions left. *)
Definition thread_within (i : nat) (cl : call) (n : nat) (c : conf S) : Prop :=
  exists th, cthreads c !! i = Some th /\ tcall th = cl /\ within (tcode th) n (fun _ _ => True).

Lemma advance_within x i cl n c :
  thread_within i cl n c ->
  thread_within i cl (if runs_thread i x then pred n else n) (advance fm fast clock newID_ x c).
Proof.
  intros (th & E & Ec & W). destruct x as [cl'|j]; cbn [advance runs_thread].
  - exists th. split; [|auto]. apply lookup_app_l_Some, E.
  - destruct (Nat.eqb_spec i j) as [<-|N].
    + rewrite E. pose proof (follows_next _ _ _ _ _ _ W) as V.
      destruct (next (tcode th)) as [ans|Y a k] eqn:Nx.
      * exists th. split_and!; auto. eapply follows_done; [exact Nx|exact I].
      * destruct (run_act clock newID_ a (cworld c)) as [w y]. destruct V as [_ V].
        eexists. split; [apply list_lookup_insert_eq; eapply lookup_lt_Some; exact E|].
        split; [exact Ec|]. apply V. exact I.
    + assert (Keep : forall l th', (l : list thread) !! i = Some th -> <[j := th']> l !! i = Some th)
        by (intros; rewrite list_lookup_insert_ne; auto).
      destruct (cthreads c !! j) as [tj|]; [|exists th; auto].
      destruct (next (tcode tj)); [exists th; auto|].
      destruct (run_act clock newID_ _ (cworld c)). exists th. cbn [cthreads]. auto.
Qed.

Lemma runs_within schedule i cl : forall n c,
  thread_within i cl n c -> thread_within i cl (n - turns i schedule) (runs fm fast clock newID_ schedule c).
Proof.
  induction schedule as [|x l IH]; intros n c T; [cbn; rewrite Nat.sub_0_r; exact T|].
  apply advance_within with (x := x) in T. apply IH in T. unfold turns in *. cbn [List.filter].
  destruct (runs_thread i x); cbn [length]; [|exact T].
  replace (n - Datatypes.S _)%nat with (pred n - length (List.filter (runs_thread i) l))%nat by lia. exact T.
Qed.

(** C6: calls are wait-free.  A call returns after at most nine actions of its own,
    however many other calls run, whatever they do in between and however the store
    answers. *)
Theorem calls_are_wait_free before cl after w :
  let i := length (cthreads (runs fm fast clock newID_ before (idle w))) in
  (call_steps <= turns i after)%nat ->
  exists th ans, cthreads (runs fm fast clock newID_ (before ++ Start cl :: after) (idle w)) !! i = Some th /\
    tcall th = cl /\ returned_with th = Some ans.
Proof.
  intros i Le. rewrite runs_app. set (c := runs _ _ _ _ before _) in *.
  assert (T : thread_within i cl call_steps (advance fm fast clock newID_ (Start cl) c)).
  { eexists. split; [apply list_lookup_middle; reflexivity|]. split; [reflexivity|]. apply program_within. }
  apply (runs_within after) in T. destruct T as (th & E & Ec & W).
  replace (call_steps - turns i after)%nat with 0%nat in W by lia.
  apply follows_next in W. unfold returned_with. exists th.
  destruct (next (tcode th)) as [ans|Y a k]; [|lia]. exists ans. auto.
Qed.
End WaitFree.

(** ** One call at a time *)

Section Alone.
Context {S : Type} `{Store S} (fm : FailMode) (fast : bool) (clock : nat -> Time) (newID_ : nat -> res string).

Abbreviation machine := (runs fm fast clock newID_).

(** While nothing else runs, the machine runs a thread as [exec] does. *)
Lemma runs_alone i n : forall th (c : conf S),
  cthreads c !! i = Some th -> within (tcode th) n (fun _ _ => True) ->
  let c' := machine (repeat (Go i) n) c in
  let out := exec clock newID_ (tcode th) (cworld c) in
  cworld c' = out.1 /\
  exists th', cthreads c' = <[i := th']> (cthreads c) /\ tcall th' = tcall th /\ returned_with th' = Some out.2.
Proof.
  induction n as [|n IH]; intros th c E W; cbv zeta; cbn [repeat];
    pose proof (follows_next _ _ _ _ _ _ W) as V; rewrite exec_next.
  - cbn [runs fold_left]. destruct (next (tcode th)) as [ans|Y a k] eqn:N; [|lia]. split; [reflexivity|].
    exists th. rewrite list_insert_id by exact E. unfold returned_with. rewrite N. auto.
  - rewrite runs_cons. cbn [advance]. rewrite E. destruct (next (tcode th)) as [ans|Y a k] eqn:N.
    + destruct (IH th c E (follows_done _ _ _ _ _ _ _ N I)) as [W' (th' & T & C & R)].
      rewrite exec_next, N in W', R. split; [exact W'|]. exists th'. auto.
    + destruct V as [_ V]. destruct (run_act clock newID_ a (cworld c)) as [w y]. cbn [pred] in V.
      set (es := match effect a y with Some e => [e] | None => [] end).
      specialize (IH (mkThread (tcall th) (k y) (teffects th ++ es))
        (mkConf w (<[i := mkThread (tcall th) (k y) (teffects th ++ es)]> (cthreads c))
          (clog c ++ map (fun e => (tcall th, e)) es))).
      cbn [cthreads cworld tcode tcall] in IH.
      destruct IH as [W' (th' & T & C & R)]; [apply list_lookup_insert_eq; eapply lookup_lt_Some; exact E|apply V; exact I|].
      split; [exact W'|]. exists th'. rewrite T, list_insert_insert_eq. auto.
Qed.

(** The calls one after the other. *)
Fixpoint in_turn (i : nat) (cs : list call) : list cmd :=
  match cs with
  | [] => []
  | cl :: cs => Start cl :: repeat (Go i) call_steps ++ in_turn (Datatypes.S i) cs
  end.

(** The interleaved machine agrees with the sequential limiter: calls that do not
    overlap leave the same world and return the same answers as [performs]. *)
Theorem in_turn_is_sequential cs w :
  let c := machine (in_turn 0 cs) (idle w) in
  let out := performs (H := Limiter_ApiLimiter fm fast clock newID_) cs w in
  cworld c = out.1 /\
  map (fun th => (tcall th, returned_with th)) (cthreads c) = map (fun '(cl, ans) => (cl, Some ans)) out.2.
Proof.
  assert (G : forall cs (c : conf S),
    let c' := machine (in_turn (length (cthreads c)) cs) c in
    let out := performs (H := Limiter_ApiLimiter fm fast clock newID_) cs (cworld c) in
    cworld c' = out.1 /\
    map (fun th => (tcall th, returned_with th)) (cthreads c')
      = map (fun th => (tcall th, returned_with th)) (cthreads c) ++ map (fun '(cl, ans) => (cl, Some ans)) out.2).
  { clear cs w. induction cs as [|cl cs IH]; intros c; cbn [in_turn performs]; cbv zeta.
    - split; [reflexivity|]. cbn. rewrite app_nil_r. reflexivity.
    - rewrite runs_cons, runs_app. cbn [advance]. set (th := mkThread cl (program fm fast cl) []).
      pose proof (runs_alone (length (cthreads c)) call_steps th (mkConf (cworld c) (cthreads c ++ [th]) (clog c))
        (list_lookup_middle _ _ _ _ eq_refl) (program_within fm fast cl)) as [W (th' & T & C & R)].
      set (c1 := machine (repeat _ _) _) in *. clearbody c1.
      cbn [cthreads cworld tcode th] in W, T, R. rewrite perform_program.
      rewrite insert_app_r_alt, Nat.sub_diag in T by reflexivity. cbn in T. specialize (IH c1). cbv zeta in IH.
      rewrite T in IH. rewrite length_app, Nat.add_comm in IH. cbn [length Nat.add] in IH. rewrite W in IH.
      destruct (exec clock newID_ (program fm fast cl) (cworld c)) as [w1 ans]. cbn [fst snd] in *.
      destruct (performs cs w1) as [w2 h]. cbn [fst snd] in *. destruct IH as [I1 I2]. split; [exact I1|].
      rewrite I2, map_app, <- app_assoc. cbn [map app]. rewrite C, R. reflexivity. }
  intros c out. exact (G cs (idle w)).
Qed.
End Alone.

(** ** On concrete schedules *)

Definition check_once : call := CCheck lkey llim (mkCost 1 100 0 0).

Definition new_world : World (S := MemStore) := mkWorld Memory.New (NewPool DefaultConfig) 0 0.

(** A second check starts while the first runs; both take their actions in turns. *)
Definition overlapping : list cmd :=
  [Start check_once; Go 0] ++ Start check_once :: concat (repeat [Go 1; Go 0] call_steps).

Definition overlapped (fast : bool) : conf MemStore :=
  runs FailClosed fast sample_clock sample_ids overlapping (idle new_world).

Lemma calls_take_effect_once_witness :
  length (clog (overlapped false)) = 2%nat /\
  Permutation (clog (overlapped false)) (concat (map effects_of (cthreads (overlapped false)))) /\
  Forall (fun th => (length (teffects th) <= 1)%nat /\
    forall ans, returned_with th = Some ans -> accounted (tcall th) ans (teffects th)) (cthreads (overlapped false)).
Proof.
  split; [vm_compute; reflexivity|]. unfold overlapped.
  apply (calls_take_effect_once FailClosed false sample_clock sample_ids (fun _ => eq_refl) overlapping new_world).
Defined.

Lemma calls_are_wait_free_witness :
  exists th ans, cthreads (overlapped true) !! 1%nat = Some th /\ tcall th = check_once /\ returned_with th = Some ans.
Proof.
  unfold overlapped, overlapping.
  apply (calls_are_wait_free FailClosed true sample_clock sample_ids [Start check_once; Go 0] check_once
    (concat (repeat [Go 1; Go 0] call_steps)) new_world).
  vm_compute. lia.
Defined.
