(* ===== verification/Roles.v ===== *)
(** * Roles: what a call may do while others run

    A role is what a running call of the fast path may still do: debit under the id it
    drew, credit what it was lent, pay the overshoot it settled.  The programs of the
    limiter keep to their roles whatever the pool and the store answer, each action of
    a role is paid for over the in-process store, and what each action does to the
    reservations of the pool is confined to the one it names. *)

From stdpp Require Import base tactics numbers strings gmap list.
From Stdlib Require Import ZArith Lia.
From S2P Require Import Prelude GoFloat Api Bucket Budget Store Memory MemorySpec MemoryBudget MemoryProps.
From S2P Require Import Lease LeaseSpec Limiter LimiterSpec ApiLimiter Ledger LimiterMemory LimiterLedger LimiterBudget Concurrent.

(** ** Roles *)

(** A running call: the id it drew and has not debited under, what it was lent of the
    key's axis and has not credited, the reservation it settled with an overshoot it
    has not paid. *)
Record role := mkRole {
  gcall : call;
  gid : option string;
  gdue : Z;
  gowes : option (string * Decision)
}.

Definition enter (cl : call) : role := mkRole cl None 0 None.

Section Role.
Context (a : axis) (k : Key) (c A : Z) (C0 : Config).

Abbreviation fits := (limits_fit a (cacheKey k) c).

(** What a credit adds to the axis of [k]. *)
Definition credited (key : Key) (r t i o : Z) : Z :=
  if bool_decide (cacheKey key = cacheKey k) then amount a r t i o else 0.

Definition may_fast {X} (g : role) (x : act X) : Prop :=
  match x with
  | DenyGet _ | DenySet _ _ _ | PoolConfig | PoolNoteBorrow | PoolHas _ _ _ | PoolGetReservation _ | NewID => True
  | PoolTryDebit key l cost id =>
      gid g = Some id /\ fits key l /\
      exists c0, gcall g = CCheck key l c0 /\ cost = nonneg_cost c0 /\ forall y, nonneg (cost_of y c0) <= A
  | PoolCreditLease key l r t i o =>
      (0 <= r <= A /\ 0 <= t <= A /\ 0 <= i <= A /\ 0 <= o <= A) /\ credited key r t i o <= gdue g
  | PoolSettleLocal id n => gcall g = CSettle id n /\ n <= A
  | PoolSettleLocalIO id i o => gcall g = CSettleIO id i o /\ i <= A /\ o <= A
  | PoolApplyBorrowedDeficit id got => exists d, gowes g = Some (id, d) /\ got = OvershootTPM d
  | PoolApplyBorrowedDeficitIO id gi go =>
      exists d, gowes g = Some (id, d) /\ gi = OvershootITPM d /\ go = OvershootOTPM d
  | PoolRefundLocal id | StoreRefund id => gcall g = CRefund id
  | StoreSettle id n => gcall g = CSettle id n /\ n <= A
  | StoreSettleIO id i o => gcall g = CSettleIO id i o /\ i <= A /\ o <= A
  | StoreBorrow key l _ => fits key l
  | _ => False
  end.

(** What the pool and the store answer. *)
Definition says_fast {X} (x : act X) : X -> Prop :=
  match x with
  | PoolConfig => fun cf => cf = C0
  | PoolGetReservation _ => fun o =>
      match o with Some r => fits (RKey r) (RLimits r) | None => True end
  | PoolSettleLocal _ _ | PoolSettleLocalIO _ _ _ => fun r =>
      match r with Ok d => owed_bound A d | Err _ => True end
  | StoreBorrow _ l sp => granted l sp
  | _ => fun _ => True
  end.

Definition after_fast {X} (g : role) (x : act X) : X -> role :=
  match x with
  | NewID => fun r => match r with Ok id => mkRole (gcall g) (Some id) (gdue g) (gowes g) | Err _ => g end
  | PoolTryDebit _ _ _ _ => fun o =>
      match o with Some _ => mkRole (gcall g) None (gdue g) (gowes g) | None => g end
  | PoolCreditLease key _ r t i o => fun _ =>
      mkRole (gcall g) (gid g) (gdue g - credited key r t i o) (gowes g)
  | StoreBorrow key l _ => fun r => mkRole (gcall g) (gid g) (gdue g + lent_out a (cacheKey k) key l r) (gowes g)
  | PoolSettleLocal id _ | PoolSettleLocalIO id _ _ => fun r =>
      match r with Ok d => mkRole (gcall g) (gid g) (gdue g) (Some (id, d)) | Err _ => g end
  | PoolApplyBorrowedDeficit _ _ | PoolApplyBorrowedDeficitIO _ _ _ => fun _ =>
      mkRole (gcall g) (gid g) (gdue g) None
  | _ => fun _ => g
  end.

Abbreviation plays := (follows (fun X => may_fast (X := X)) (fun X _ => says_fast (X := X)) (fun X => after_fast (X := X))).

Context (Chunks : chunks_ok A C0).

Lemma lent_credited key l sp b :
  bAllowed b = true -> granted l sp (Ok b) ->
  lent_out a (cacheKey k) key l (Ok b) = credited key (GotRPM b) (GotTPM b) (GotITPM b) (GotOTPM b).
Proof. intros Al G. apply (granted_lent a (cacheKey k) key l sp b Al (G Al)). Qed.

Ltac plays_walk :=
  walk; cbn [follows may_fast says_fast after_fast enter gcall gid gdue gowes] in *;
  try match goal with |- context [if ?b then _ else _] => destruct b eqn:? end; auto.

(** A loan is within what may be credited. *)
Lemma may_credit key l sp b r t i o :
  bAllowed b = true -> granted l sp (Ok b) ->
  (0 <= GotRPM b <= A /\ 0 <= GotTPM b <= A /\ 0 <= GotITPM b <= A /\ 0 <= GotOTPM b <= A) ->
  r = GotRPM b -> t = GotTPM b -> i = GotITPM b -> o = GotOTPM b ->
  (0 <= r <= A /\ 0 <= t <= A /\ 0 <= i <= A /\ 0 <= o <= A) /\
  credited key r t i o <= 0 + lent_out a (cacheKey k) key l (Ok b).
Proof. intros Al G B -> -> -> ->. split; [exact B|]. rewrite (lent_credited key l sp b Al G). lia. Qed.

Lemma check_plays fm key l cost :
  call_fits a k c A (CCheck key l cost) ->
  plays (program fm true (CCheck key l cost)) (enter (CCheck key l cost)) (fun _ _ => True).
Proof.
  intros [Fit Costs]. cbn [program]. unfold Check, checkFast, onStoreErrFast. cbv zeta.
  fold (nonneg_cost cost).
  assert (Debit : forall id, Some id = Some (id : string) /\ fits key l /\
    exists c0, CCheck key l cost = CCheck key l c0 /\ nonneg_cost cost = nonneg_cost c0 /\ forall y, nonneg (cost_of y c0) <= A)
    by (intros; split_and!; [reflexivity|exact Fit|exists cost; auto]).
  plays_walk; try apply Debit. subst. apply negb_false_iff in Heqb.
  eapply may_credit; [exact Heqb|exact H4| |reflexivity..].
  apply (granted_amounts A l cost (bare C0)); [exact Costs|exact Chunks|exact (H4 Heqb)].
Qed.

(** The loan for an overshoot is credited, and applied, in full. *)
Ltac overshoot got d b :=
  match goal with Al : bAllowed b = true, G : granted _ _ (Ok b), Bd : owed_bound A d |- _ =>
    pose proof (Bd TPM); pose proof (Bd ITPM); pose proof (Bd OTPM); cbn [over_of] in *;
    destruct (got A b d _ (G Al) Bd ltac:(assumption)) as (?E1 & ?E2 & ?E3 & ?E4);
    solve [eapply may_credit; [exact Al|exact G|lia|lia..] | exists d; split_and!; auto]
  end.

Lemma settle_plays fm id n :
  n <= A -> plays (program fm true (CSettle id n)) (enter (CSettle id n)) (fun _ _ => True).
Proof.
  intros Hn. cbn [program]. unfold Settle. plays_walk; subst; overshoot overshoot_loan_got a0 a1.
Qed.

Lemma settleIO_plays fm id i o :
  i <= A -> o <= A -> plays (program fm true (CSettleIO id i o)) (enter (CSettleIO id i o)) (fun _ _ => True).
Proof.
  intros Hi Ho. cbn [program]. unfold SettleIO. plays_walk; subst;
    match goal with H : negb _ = false |- _ => apply negb_false_iff in H end;
    overshoot overshoot_loan_got_io a0 a1.
Qed.

Lemma program_plays fm cl :
  call_fits a k c A cl -> plays (program fm true cl) (enter cl) (fun _ _ => True).
Proof.
  destruct cl as [key l cost|id n|id i o|id].
  - apply check_plays.
  - apply settle_plays.
  - intros []. apply settleIO_plays; assumption.
  - intros _. cbn [program]. unfold Refund. plays_walk.
Qed.
End Role.

(** ** Actions of roles are paid for *)

(** The ledger after an effect, and what the effect takes. *)
Definition booked (L : ledger) (cl : call) (e : option answer) : ledger :=
  match e with Some e => book L cl e | None => L end.

Definition took (a : axis) (k : Key) (L : ledger) (cl : call) (e : option answer) : Z :=
  match e with Some e => taken a k L cl e | None => 0 end.

Section Fast.
Context (clock : nat -> Time) (newID_ : nat -> res string) (Mono : monotone clock).
Context (a : axis) (k : Key) (c A : Z) (C0 : Config).
Context (HA : 0 <= A) (Am : A < int64_max) (Chunks : chunks_ok A C0).

Abbreviation lent_as := (leased a (cacheKey k) c ∅).
Abbreviation pays_for := (pays clock newID_ a (cacheKey k) c A C0).
Abbreviation may := (may_fast a k c A).
Abbreviation says := (says_fast a k c A C0).
Abbreviation after := (after_fast a k).

(** What the role relies on. *)
Definition ready (g : role) (L : ledger) : cond := fun p s =>
  lent_as L p s /\
  match gowes g with
  | Some (id, d) => forall v, pres p !! id = Some v -> on_record d v
  | None => True
  end.

Definition paid_act {X} (g : role) (L : ledger) (x : act X) : Prop :=
  pays_for 1 1 (ready g L) x
    (fun y p s => lent_as (booked L (gcall g) (effect x y)) p s /\ says x y)
    (fun y => took a k L (gcall g) (effect x y) + (gdue (after g x y) - gdue g)).

Lemma paid_by {X} g L (x : act X) n m (J : cond) P Q :
  (n <= 1)%nat -> (m <= 1)%nat -> (forall p s, ready g L p s -> J p s) -> pays_for n m J x P Q ->
  (forall y p s, P y p s -> (lent_as (booked L (gcall g) (effect x y)) p s /\ says x y) /\
     took a k L (gcall g) (effect x y) + (gdue (after g x y) - gdue g) <= Q y) ->
  paid_act g L x.
Proof.
  intros Hn Hm HJ Hx HP. eapply pays_less; [exact HP|].
  apply (pays_more HA n 1 m 1 J); assumption.
Qed.

(** From a triple that asks for the leases only. *)
Ltac by_leases n m x :=
  match goal with |- paid_act ?g ?L _ =>
    eapply (paid_by g L _ n m (leased a (cacheKey k) c ∅ L));
      [lia|lia|intros ? ? [? _]; assumption|eapply x; eauto|]
  end; cbn [effect booked took says_fast after_fast gdue].

Lemma act_paid_quiet {X} g L (x : act X) :
  match x with
  | DenyGet _ | DenySet _ _ _ | PoolConfig | PoolNoteBorrow | PoolHas _ _ _ | PoolGetReservation _ | NewID => True
  | _ => False
  end -> paid_act g L x.
Proof.
  pose proof (leased_on a (cacheKey k) c ∅ L) as On.
  intros Qx. destruct x; try destruct Qx.
  - by_leases 0%nat 0%nat pays_denyGet. intros y p s Ld. split; [auto|lia].
  - by_leases 0%nat 0%nat pays_denySet. intros y p s Ld. split; [auto|lia].
  - by_leases 0%nat 0%nat pays_config. intros y p s [E Ld]. split; [auto|lia].
  - by_leases 0%nat 0%nat pays_noteBorrow. intros y p s Ld. split; [auto|lia].
  - by_leases 1%nat 0%nat pays_Has. intros y p s Ld. split; [auto|lia].
  - by_leases 1%nat 0%nat pays_Get. intros y p s [Ld F]. split; [auto|lia].
  - by_leases 0%nat 0%nat pays_newID. intros y p s Ld. split; [auto|]. destruct y; cbn [gdue]; lia.
Qed.

Lemma act_paid_debit g L key l cost id :
  may g (PoolTryDebit key l cost id) -> paid_act g L (PoolTryDebit key l cost id).
Proof.
  intros (_ & [Lim Uses] & c0 & E & -> & Costs). by_leases 1%nat 0%nat pays_TryDebit.
  rewrite E. intros y p s Ld. destruct y as [d|]; cbn [gdue]; (split; [split; [exact Ld|exact I]|]); cbn [took debited]; [|lia].
  rewrite Z.sub_diag, Z.add_0_r. unfold admitted_cost, taken. cbn [admitted]. reflexivity.
Qed.

Lemma act_paid_credit g L key l r t i o :
  may g (PoolCreditLease key l r t i o) -> paid_act g L (PoolCreditLease key l r t i o).
Proof.
  intros [R _]. pose proof (leased_on a (cacheKey k) c ∅ L) as On. by_leases 1%nat 0%nat pays_credit.
  intros y p s Ld. split; [auto|]. unfold credited. lia.
Qed.

Lemma act_paid_borrow g L key l sp :
  may g (StoreBorrow key l sp) -> paid_act g L (StoreBorrow key l sp).
Proof.
  intros [Lim Uses]. pose proof (leased_borrow a (cacheKey k) c ∅ L) as Lb. by_leases 0%nat 1%nat pays_borrow.
  intros y p s [G Ld]. split; [auto|]. lia.
Qed.

Lemma act_paid_deficit g L id got :
  may g (PoolApplyBorrowedDeficit id got) -> paid_act g L (PoolApplyBorrowedDeficit id got).
Proof.
  intros (d & Ow & ->).
  eapply (paid_by g L _ 1 0 (decided a k c L id d)); [lia|lia| |eapply pays_Deficit; eauto|].
  - intros p s [Ld R]. rewrite Ow in R. split; assumption.
  - cbn [effect booked took says_fast after_fast gdue]. intros y p s Ld. split; [auto|lia].
Qed.

Lemma act_paid_deficitIO g L id gi go :
  may g (PoolApplyBorrowedDeficitIO id gi go) -> paid_act g L (PoolApplyBorrowedDeficitIO id gi go).
Proof.
  intros (d & Ow & -> & ->).
  eapply (paid_by g L _ 1 0 (decided a k c L id d)); [lia|lia| |eapply pays_DeficitIO; eauto|].
  - intros p s [Ld R]. rewrite Ow in R. split; assumption.
  - cbn [effect booked took says_fast after_fast gdue]. intros y p s Ld. split; [auto|lia].
Qed.

(** The steps that close a reservation. *)
Lemma act_paid_settle g L id n :
  may g (PoolSettleLocal id n) -> paid_act g L (PoolSettleLocal id n).
Proof.
  intros [E Hn]. by_leases 1%nat 0%nat pays_SettleLocal. rewrite E.
  intros y p s [Ld R]. destruct y as [d|e]; cbn [is_ok booked took gdue]; split.
  - split; [exact Ld|]. destruct R as (v & _ & <- & Rv). intros x. apply Rv.
  - unfold settled_back. cbn [taken]. destruct a; lia.
  - split; [exact Ld|exact I].
  - lia.
Qed.

Lemma act_paid_settleIO g L id i o :
  may g (PoolSettleLocalIO id i o) -> paid_act g L (PoolSettleLocalIO id i o).
Proof.
  intros (E & Hi & Ho). by_leases 1%nat 0%nat pays_SettleLocalIO. rewrite E.
  intros y p s [Ld R]. destruct y as [d|e]; cbn [is_ok booked took gdue]; split.
  - split; [exact Ld|]. destruct R as (v & _ & <- & Rv). intros x. apply Rv.
  - unfold settled_back_io. cbn [taken]. destruct a; lia.
  - split; [exact Ld|exact I].
  - lia.
Qed.

Lemma act_paid_close {X} g L (x : act X) :
  match x with
  | PoolRefundLocal _ | StoreSettle _ _ | StoreSettleIO _ _ _ | StoreRefund _ => may g x
  | _ => False
  end -> paid_act g L x.
Proof.
  destruct x; try (intros []; fail); cbn [may_fast].
  - intros E. by_leases 1%nat 0%nat pays_RefundLocal. rewrite E.
    intros y p s Ld. destruct y; cbn [is_ok booked took taken closed] in *; (split; [split; [exact Ld|exact I]|lia]).
  - intros [E Hn]. by_leases 0%nat 1%nat (pays_StoreSettle clock newID_ Mono a k c A C0 HA Am 0 0 L id actual (settled_back a k L id actual)).
    rewrite E. intros y p s Ld. destruct y; cbn [is_ok booked took taken closed] in *;
      (split; [split; [exact Ld|exact I]|unfold settled_back; destruct a; lia]).
  - intros (E & Hi & Ho). by_leases 0%nat 1%nat
      (pays_StoreSettleIO clock newID_ Mono a k c A C0 HA Am 0 0 L id actualIn actualOut (settled_back_io a k L id actualIn actualOut)).
    rewrite E. intros y p s Ld. destruct y; cbn [is_ok booked took taken closed] in *;
      (split; [split; [exact Ld|exact I]|unfold settled_back_io; destruct a; lia]).
  - intros E. by_leases 0%nat 1%nat (pays_StoreRefund clock newID_ Mono a k c A C0 HA 0 0 L id (- unused a k L id 0)).
    rewrite E. intros y p s Ld. destruct y; cbn [is_ok booked took taken closed] in *;
      (split; [split; [exact Ld|exact I]|lia]).
Qed.

Lemma act_paid {X} g L (x : act X) : may g x -> paid_act g L x.
Proof.
  intros Mx. destruct x; try (destruct Mx; fail); lazymatch goal with
  | |- paid_act _ _ (PoolTryDebit _ _ _ _) => apply act_paid_debit, Mx
  | |- paid_act _ _ (PoolCreditLease _ _ _ _ _ _) => apply act_paid_credit, Mx
  | |- paid_act _ _ (StoreBorrow _ _ _) => apply act_paid_borrow, Mx
  | |- paid_act _ _ (PoolApplyBorrowedDeficit _ _) => apply act_paid_deficit, Mx
  | |- paid_act _ _ (PoolApplyBorrowedDeficitIO _ _ _) => apply act_paid_deficitIO, Mx
  | |- paid_act _ _ (PoolSettleLocal _ _) => apply act_paid_settle, Mx
  | |- paid_act _ _ (PoolSettleLocalIO _ _ _) => apply act_paid_settleIO, Mx
  | |- paid_act _ _ (PoolRefundLocal _) => apply act_paid_close, Mx
  | |- paid_act _ _ (StoreSettle _ _) => apply act_paid_close, Mx
  | |- paid_act _ _ (StoreSettleIO _ _ _) => apply act_paid_close, Mx
  | |- paid_act _ _ (StoreRefund _) => apply act_paid_close, Mx
  | |- _ => apply act_paid_quiet; exact I
  end.
Qed.

(** A role never owes the lease more than it was lent. *)
Lemma due_kept {X} g (x : act X) y :
  may g x -> says x y -> 0 <= gdue g -> 0 <= gdue (after g x y).
Proof.
  intros Mx Sy Hd. destruct x; cbn [after_fast may_fast says_fast] in *; try assumption;
    try (destruct y; assumption); cbn [gdue].
  - destruct Mx as [_ B]. lia.
  - destruct y as [b|e]; cbn [lent_out granted] in *; [|lia].
    destruct (bAllowed b); cbn [andb]; [|lia]. destruct (Sy eq_refl) as [G1 G2].
    unfold concerns, loan in *. destruct (bool_decide _); cbn [andb]; [|lia].
    destruct (Split limits), a; cbn [counts negb got_of]; lia.
Qed.
End Fast.

(** ** What an action does to the reservations of the pool *)

(** The reservation an action may write, and the one it opens. *)
Definition writes {X} (x : act X) : option string :=
  match x with
  | PoolTryDebit _ _ _ id | PoolSettleLocal id _ | PoolSettleLocalIO id _ _ | PoolRefundLocal id
  | PoolApplyBorrowedDeficit id _ | PoolApplyBorrowedDeficitIO id _ _ => Some id
  | _ => None
  end.

Definition opens {X} (x : act X) : X -> option string :=
  match x with
  | PoolTryDebit _ _ _ id => fun o => match o with Some _ => Some id | None => None end
  | _ => fun _ => None
  end.

(** Reservation [id] apart, the pool loses some at most. *)
Definition confined (id : option string) (p p' : Pool) : Prop :=
  forall i v, id <> Some i -> pres p' !! i = Some v -> pres p !! i = Some v.

Lemma shrunk_confined id p p' : pres p' ⊆ pres p -> confined id p p'.
Proof. intros Sub i v _ E. exact (lookup_weaken _ _ _ _ E Sub). Qed.

Lemma closes_shrinks {X} last t p id (out : Pool * res X) :
  closes last t p id out ->
  (forall r, pres (purgeResLocked t p) !! id = Some r -> Status r <> pending) -> pres out.1 ⊆ pres p.
Proof.
  intros Cl N. destruct Cl as [e|r x E _ _|r r' p' x E St]; try apply purge_shrinks. destruct (N r E St).
Qed.

Lemma closes_confined {X} last t p id (out : Pool * res X) :
  closes last t p id out ->
  confined (Some id) p out.1 /\ (is_Some (pres out.1 !! id) -> is_Some (pres p !! id)).
Proof.
  intros Cl. destruct Cl as [e|r x E _ _|r r' p' x E St Pr _ _ _ _]; cbn [fst].
  - split; [apply shrunk_confined, purge_shrinks|]. intros [v Ev]. exists v.
    exact (lookup_weaken _ _ _ _ Ev (purge_shrinks t p)).
  - split; [apply shrunk_confined, purge_shrinks|]. intros [v Ev]. exists v.
    exact (lookup_weaken _ _ _ _ Ev (purge_shrinks t p)).
  - split.
    + intros i v N. rewrite Pr, lookup_insert_ne by congruence. intros Ev.
      exact (lookup_weaken _ _ _ _ Ev (purge_shrinks t p)).
    + intros _. exists r. exact (lookup_weaken _ _ _ _ E (purge_shrinks t p)).
Qed.

Lemma redecided_confined p p' id :
  redecided p p' id -> confined (Some id) p p' /\ (is_Some (pres p' !! id) -> is_Some (pres p !! id)).
Proof.
  intros [E|(r & r' & d & Er & _ & E)].
  - split; [apply shrunk_confined; rewrite E; reflexivity|]. rewrite E. auto.
  - split; [|rewrite Er; eauto]. intros i v N. rewrite E, lookup_insert_ne by congruence. auto.
Qed.

Lemma TryDebit_pres t p key l cost id :
  match (TryDebit t p key l cost id).2 with
  | Some _ => exists r, pres (TryDebit t p key l cost id).1 = <[id := r]> (pres (purgeResLocked t p))
  | None => pres (TryDebit t p key l cost id).1 = pres (purgeResLocked t p)
  end.
Proof.
  assert (Pr : pres (getLeaseLocked (purgeResLocked t p) key t).1 = pres (purgeResLocked t p)).
  { unfold getLeaseLocked. cbv zeta. destruct (lease _ !! _) as [b|]; [destruct (negb _)|]; reflexivity. }
  unfold TryDebit. cbv zeta. destruct (getLeaseLocked _ _ _) as [p0 ob]. cbn [fst] in Pr.
  destruct ob as [b|]; [|exact Pr]. destruct (covers _ _ _); [|exact Pr].
  destruct (Split l); cbn [fst snd pres setLease]; eexists; rewrite Pr; reflexivity.
Qed.

Lemma TryDebit_confined t p key l cost id :
  confined (Some id) p (TryDebit t p key l cost id).1 /\
  (is_Some (pres (TryDebit t p key l cost id).1 !! id) ->
   is_Some (pres p !! id) \/ opens (PoolTryDebit key l cost id) (TryDebit t p key l cost id).2 = Some id).
Proof.
  pose proof (TryDebit_pres t p key l cost id) as T. cbn [opens].
  destruct (TryDebit t p key l cost id) as [p' [d|]]; cbn [fst snd] in *.
  - destruct T as [r E]. split; [|auto]. intros i v N. rewrite E, lookup_insert_ne by congruence.
    intros Ev. exact (lookup_weaken _ _ _ _ Ev (purge_shrinks t p)).
  - split; [apply shrunk_confined; rewrite T; apply purge_shrinks|]. rewrite T. intros [v Ev]. left.
    exists v. exact (lookup_weaken _ _ _ _ Ev (purge_shrinks t p)).
Qed.

Section ActPool.
Context {S : Type} `{Store S} (clock : nat -> Time) (newID_ : nat -> res string).
Implicit Types w : World (S := S).

(** The actions on the pool and on the store, step by step. *)
Lemma onPool_out {X} (f : Time -> Pool -> Pool * X) w :
  let out := onPool (S := S) clock f w in
  wpool out.1 = (f (clock (wticks w)) (wpool w)).1 /\ out.2 = (f (clock (wticks w)) (wpool w)).2 /\
  wids out.1 = wids w.
Proof. unfold onPool. destruct (f _ _). auto. Qed.

Lemma onStore_out {X} (f : Time -> S -> S * X) w :
  let out := onStore clock f w in wpool out.1 = wpool w /\ wids out.1 = wids w.
Proof. unfold onStore. destruct (f _ _). auto. Qed.

(** The reservations a step leaves were there, but for the one it may write; that one
    was there too, unless the step opened it. *)
Definition keeps {X} (x : act X) (p p' : Pool) (y : X) : Prop :=
  confined (writes x) p p' /\
  forall i, is_Some (pres p' !! i) -> is_Some (pres p !! i) \/ opens x y = Some i.

Lemma keeps_same {X} (x : act X) p p' y : pres p' = pres p -> keeps x p p' y.
Proof. intros E. split; [apply shrunk_confined; rewrite E; reflexivity|]. intros i. rewrite E. auto. Qed.

Lemma keeps_at {X} (x : act X) p p' y id :
  writes x = Some id -> confined (Some id) p p' ->
  (is_Some (pres p' !! id) -> is_Some (pres p !! id) \/ opens x y = Some id) -> keeps x p p' y.
Proof.
  intros W Cf D. unfold keeps. rewrite W. split; [exact Cf|]. intros i [v Ev].
  destruct (decide (i = id)) as [->|N]; [apply D; eauto|]. left. exists v. apply (Cf i v); congruence.
Qed.

Lemma act_keeps {X} (x : act X) w :
  let out := run_act clock newID_ x w in keeps x (wpool w) (wpool out.1) out.2.
Proof.
  assert (Leased : forall p key t, pres (getLeaseLocked p key t).1 = pres p).
  { intros p key t. unfold getLeaseLocked. cbv zeta. destruct (lease _ !! _) as [b|]; [destruct (negb _)|]; reflexivity. }
  destruct x; cbv zeta; cbn [run_act];
    try match goal with |- context [onPool clock ?f w] => destruct (onPool_out f w) as (-> & -> & _) end;
    try match goal with |- context [onStore clock ?f w] =>
      apply keeps_same; rewrite (proj1 (onStore_out f w)); reflexivity end;
    try (apply keeps_same; reflexivity).
  - apply keeps_same. destruct (denyGet _ _ _). reflexivity.
  - apply keeps_same. unfold Has. pose proof (Leased (wpool w) key (clock (wticks w))) as E.
    destruct (getLeaseLocked _ _ _). exact E.
  - destruct (TryDebit_confined (clock (wticks w)) (wpool w) key limits cost id) as [C1 C2].
    eapply keeps_at; [reflexivity|exact C1|exact C2].
  - split; [apply shrunk_confined, purge_shrinks|]. intros i [v Ev]. left. exists v.
    exact (lookup_weaken _ _ _ _ Ev (purge_shrinks _ _)).
  - destruct (closes_confined _ _ _ _ _ (SettleLocal_closes (clock (wticks w)) (wpool w) id actual)) as [C1 C2].
    eapply keeps_at; [reflexivity|exact C1|auto].
  - destruct (closes_confined _ _ _ _ _ (SettleLocalIO_closes (clock (wticks w)) (wpool w) id actualIn actualOut)) as [C1 C2].
    eapply keeps_at; [reflexivity|exact C1|auto].
  - destruct (redecided_confined _ _ _ (Deficit_redecided (clock (wticks w)) (wpool w) id got)) as [C1 C2].
    eapply keeps_at; [reflexivity|exact C1|auto].
  - destruct (redecided_confined _ _ _ (DeficitIO_redecided (clock (wticks w)) (wpool w) id gotIn gotOut)) as [C1 C2].
    eapply keeps_at; [reflexivity|exact C1|auto].
  - destruct (closes_confined _ _ _ _ _ (RefundLocal_closes (clock (wticks w)) (wpool w) id)) as [C1 C2].
    eapply keeps_at; [reflexivity|exact C1|auto].
Qed.

Lemma act_ids {X} (x : act X) w :
  wids (run_act clock newID_ x w).1 = match x with NewID => Datatypes.S (wids w) | _ => wids w end.
Proof.
  destruct x; cbn [run_act]; try reflexivity;
    try match goal with |- context [onPool clock ?f w] => apply (onPool_out f w) end;
    match goal with |- context [onStore clock ?f w] => apply (onStore_out f w) end.
Qed.

(** A settled reservation on record. *)
Definition settled_as (d : Decision) (r : Reservation) : Prop := on_record d r /\ Status r <> pending.

Lemma closes_record t p id out d r :
  closes on_record t p id out -> out.2 = Ok d -> pres out.1 !! id = Some r -> settled_as d r.
Proof.
  intros Cl. destruct Cl as [e|r0 x E N R|r0 r' p' x E St Pr N _ _ R]; cbn [fst snd]; intros Eo Er.
  - discriminate.
  - injection Eo as <-. rewrite E in Er. injection Er as <-. split; assumption.
  - injection Eo as <-. rewrite Pr, lookup_insert_eq in Er. injection Er as <-. split; assumption.
Qed.

(** If [id] is still on record, it is settled with decision [d]. *)
Definition settled_at (p : Pool) (id : string) (d : Decision) : Prop :=
  forall r, pres p !! id = Some r -> settled_as d r.

Lemma settled_at_sub p p' id d : pres p' ⊆ pres p -> settled_at p id d -> settled_at p' id d.
Proof. intros Sub St r E. apply St. exact (lookup_weaken _ _ _ _ E Sub). Qed.

Lemma closes_err_shrinks {X} last t p id (out : Pool * res X) :
  closes last t p id out -> is_ok out.2 = false -> pres out.1 ⊆ pres p.
Proof. intros [e|r x E _ _|r r' p' x E St]; cbn [snd is_ok]; [|discriminate..]. intros _. apply purge_shrinks. Qed.

Lemma closes_known {X} last t p id (out : Pool * res X) :
  closes last t p id out -> is_ok out.2 = true -> is_Some (pres p !! id).
Proof.
  intros [e|r x E _ _|r r' p' x E St]; cbn [snd is_ok]; intros Hok; [discriminate|..];
    exists r; exact (lookup_weaken _ _ _ _ E (purge_shrinks t p)).
Qed.

(** The actions that may write a settled reservation and leave it as it is. *)
Definition harmless {X} (x : act X) : X -> Prop :=
  match x with
  | PoolRefundLocal _ => fun _ => True
  | PoolSettleLocal _ _ | PoolSettleLocalIO _ _ _ => fun r => is_ok r = false
  | _ => fun _ => False
  end.

Lemma act_settled_at {X} (x : act X) w id d :
  let out := run_act clock newID_ x w in
  (writes x = Some id -> harmless x out.2) -> settled_at (wpool w) id d -> settled_at (wpool out.1) id d.
Proof.
  cbv zeta. intros Hw St.
  assert (Else : writes x <> Some id -> settled_at (wpool (run_act clock newID_ x w).1) id d).
  { intros N r E. apply St. exact (proj1 (act_keeps x w) id r N E). }
  destruct (decide (writes x = Some id)) as [W|N]; [|exact (Else N)]. specialize (Hw W). clear Else.
  destruct x; cbn [writes harmless] in *; try discriminate; try (destruct Hw; fail); injection W as ->;
    cbn [run_act] in *;
    match goal with |- context [onPool clock ?f w] => destruct (onPool_out f w) as (Ep & Ey & _); try rewrite Ey in Hw; rewrite Ep end;
    (eapply settled_at_sub; [|exact St]).
  - eapply closes_err_shrinks; [apply SettleLocal_closes|exact Hw].
  - eapply closes_err_shrinks; [apply SettleLocalIO_closes|exact Hw].
  - eapply closes_shrinks; [apply RefundLocal_closes|]. intros r Er.
    apply (St r). exact (lookup_weaken _ _ _ _ Er (purge_shrinks _ _)).
Qed.

(** Settling puts the answer on record. *)
Definition settles_with {X} (x : act X) : X -> option (string * Decision) :=
  match x with
  | PoolSettleLocal id _ | PoolSettleLocalIO id _ _ => fun r =>
      match r with Ok d => Some (id, d) | Err _ => None end
  | _ => fun _ => None
  end.

Lemma act_settles {X} (x : act X) w id d :
  let out := run_act clock newID_ x w in
  settles_with x out.2 = Some (id, d) -> settled_at (wpool out.1) id d /\ is_Some (pres (wpool w) !! id).
Proof.
  cbv zeta. destruct x; try discriminate; cbn [run_act settles_with];
    match goal with |- context [onPool clock ?f w] => destruct (onPool_out f w) as (Ep & Ey & _); rewrite Ey, Ep end.
  - pose proof (SettleLocal_closes (clock (wticks w)) (wpool w) id0 actual) as Cl.
    destruct (SettleLocal _ _ _ _) as [p' [d'|e]]; [|discriminate]. intros [= -> ->]. split.
    + intros r E. exact (closes_record _ _ _ _ _ r Cl eq_refl E).
    + exact (closes_known _ _ _ _ _ Cl eq_refl).
  - pose proof (SettleLocalIO_closes (clock (wticks w)) (wpool w) id0 actualIn actualOut) as Cl.
    destruct (SettleLocalIO _ _ _ _ _) as [p' [d'|e]]; [|discriminate]. intros [= -> ->]. split.
    + intros r E. exact (closes_record _ _ _ _ _ r Cl eq_refl E).
    + exact (closes_known _ _ _ _ _ Cl eq_refl).
Qed.
End ActPool.
