(* ===== verification/ConcurrentBudget.v ===== *)
(** * ConcurrentBudget: the clients' budget under any interleaving

    The in-process store, and any number of calls of one limiter running at the same
    time.  As each keeps to its role, the ledger of their effects stays within the
    budget that [LimiterBudget] proves of calls one after the other - provided no two
    settlements of one reservation overlap.  [Race] is about those that do. *)

From stdpp Require Import base tactics numbers strings gmap list.
From Stdlib Require Import ZArith Lia.
From S2P Require Import Prelude GoFloat Api Bucket Budget Store Memory MemorySpec MemoryBudget MemoryProps.
From S2P Require Import Lease LeaseSpec Limiter LimiterSpec ApiLimiter Ledger LimiterMemory LimiterLedger LimiterBudget Concurrent Roles.

(** ** Ledgers of logs *)

Definition books (h : list (call * answer)) : ledger := fold_left (fun L e => book L e.1 e.2) h ∅.

Lemma books_snoc h es cl :
  books (h ++ map (fun e => (cl, e)) (match es with Some e => [e] | None => [] end)) = booked (books h) cl es.
Proof. unfold books. rewrite fold_left_app. destruct es; reflexivity. Qed.

Lemma held_app a k h h' L :
  held a k L (h ++ h') = held a k L h + held a k (fold_left (fun L e => book L e.1 e.2) h L) h'.
Proof.
  revert L. induction h as [|[cl ans] h IH]; intros L; cbn [app held fold_left fst snd]; [lia|]. rewrite IH. lia.
Qed.

Lemma held_snoc a k h es cl :
  held a k ∅ (h ++ map (fun e => (cl, e)) (match es with Some e => [e] | None => [] end))
  = held a k ∅ h + took a k (books h) cl es.
Proof. rewrite held_app. fold (books h). destruct es; cbn [map held took]; lia. Qed.

(** What all roles were lent and have not credited. *)
Definition dues (gs : list role) : Z := foldr (fun g n => gdue g + n) 0 gs.

Lemma dues_insert gs i g g' :
  gs !! i = Some g -> dues (<[i := g']> gs) = dues gs + (gdue g' - gdue g).
Proof.
  revert i. induction gs as [|g0 gs IH]; intros [|i] E; cbn in *; try discriminate.
  - injection E as ->. lia.
  - change (foldr _ 0 gs) with (dues gs). change (foldr _ 0 (<[i := g']> gs)) with (dues (<[i := g']> gs)).
    rewrite (IH i E). lia.
Qed.

Lemma dues_app gs gs' : dues (gs ++ gs') = dues gs + dues gs'.
Proof.
  induction gs as [|g gs IH]; [reflexivity|]. cbn [app]. unfold dues in *. cbn [foldr]. rewrite IH. lia.
Qed.

Lemma dues_nonneg gs : Forall (fun g => 0 <= gdue g) gs -> 0 <= dues gs.
Proof. induction 1 as [|g gs Hg _ IH]; [reflexivity|]. unfold dues in *. cbn [foldr]. lia. Qed.

(** ** The machine, with the fast path *)

(** The reservation a call settles. *)
Definition settling (cl : call) : option string :=
  match cl with CSettle id _ | CSettleIO id _ _ => Some id | _ => None end.

Definition unreturned (th : thread) : Prop := returned_with th = None.

(** No running call settles the reservation that [cl] would. *)
Definition clear_of (cl : call) (th : thread) : bool :=
  match settling cl, returned_with th with
  | Some id, None => negb (bool_decide (settling (tcall th) = Some id))
  | _, _ => true
  end.

Lemma clear_of_apart cl th id :
  clear_of cl th = true -> unreturned th -> settling cl = Some id -> settling (tcall th) <> Some id.
Proof.
  unfold clear_of, unreturned. intros C U E. rewrite E, U in C. apply negb_true_iff, bool_decide_eq_false in C. exact C.
Qed.

(** No call starts to settle a reservation while another settles it. *)
Fixpoint orderly {S} `{Store S} (fm : FailMode) (fast : bool) (clock : nat -> Time) (newID_ : nat -> res string)
    (schedule : list cmd) (cf : conf S) : bool :=
  match schedule with
  | [] => true
  | x :: schedule =>
      match x with Start cl => forallb (clear_of cl) (cthreads cf) | Go _ => true end &&
      orderly fm fast clock newID_ schedule (advance fm fast clock newID_ x cf)
  end.

(** The calls a schedule starts. *)
Definition started (schedule : list cmd) : list call :=
  omap (fun x => match x with Start cl => Some cl | Go _ => None end) schedule.

Section Running.
Context (fm : FailMode) (clock : nat -> Time) (newID_ : nat -> res string) (Mono : monotone clock).
Context (Inj : forall n m id, newID_ n = Ok id -> newID_ m = Ok id -> n = m).
Context (a : axis) (k : Key) (c A : Z).
Context (HA : 0 <= A) (Am : A < int64_max).
Context (w0 : World (S := MemStore)) (Chunks : chunks_ok A (cfg (wpool w0))).

Abbreviation lent_as := (leased a (cacheKey k) c ∅).
Abbreviation may := (may_fast a k c A).
Abbreviation says := (says_fast a k c A (cfg (wpool w0))).
Abbreviation after := (after_fast a k).
Abbreviation plays m g :=
  (follows (fun X => may_fast a k c A (X := X)) (fun X _ => says_fast a k c A (cfg (wpool w0)) (X := X))
     (fun X => after_fast a k (X := X)) m g (fun _ _ => True)).
Abbreviation paid_for := (paid clock a (cacheKey k) c A).

Definition plays_as (th : thread) (g : role) : Prop := plays (tcode th) g /\ gcall g = tcall th.

(** *** What is lent, held and charged *)

Record balanced (n : nat) (cf : conf MemStore) (gs : list role) : Prop := {
  bal_roles : Forall2 plays_as (cthreads cf) gs;
  bal_due : Forall (fun g => 0 <= gdue g) gs;
  bal_lent : lent_as (books (clog cf)) (wpool (cworld cf)) (wstore (cworld cf));
  bal_paid : exists h, (length h <= n)%nat /\
    paid_for (Z.of_nat n * A) w0 (cworld cf) h (held a k ∅ (clog cf) + dues gs)
}.

Lemma balanced_start n cf gs cl :
  call_fits a k c A cl -> balanced n cf gs ->
  balanced n (advance fm true clock newID_ (Start cl) cf) (gs ++ [enter cl]).
Proof.
  intros F [R D L P]. split; cbn [advance cthreads clog cworld].
  - apply Forall2_app; [exact R|]. constructor; [|constructor].
    split; [apply program_plays; assumption|reflexivity].
  - apply Forall_app_2; [exact D|]. constructor; [reflexivity|constructor].
  - exact L.
  - rewrite dues_app. change (dues [enter cl]) with 0. rewrite Z.add_0_r. exact P.
Qed.

(** One action of the i-th thread, in its role. *)
Definition acted (i : nat) (th : thread) (g : role) {Y} (x : act Y) (k' : Y -> M answer) (cf : conf MemStore)
    (gs : list role) : conf MemStore * list role :=
  let '(w, y) := run_act clock newID_ x (cworld cf) in
  let es := match effect x y with Some e => [e] | None => [] end in
  (mkConf w (<[i := mkThread (tcall th) (k' y) (teffects th ++ es)]> (cthreads cf))
     (clog cf ++ map (fun e => (tcall th, e)) es), <[i := after g x y]> gs).

Lemma balanced_act n cf gs i th g {Y} (x : act Y) k' :
  balanced n cf gs -> Z.of_nat (S n) * A <= int64_max ->
  cthreads cf !! i = Some th -> gs !! i = Some g -> next (tcode th) = Doing x k' ->
  match gowes g with
  | Some (id, d) => forall r, pres (wpool (cworld cf)) !! id = Some r -> on_record d r
  | None => True
  end ->
  let out := acted i th g x k' cf gs in
  balanced (S n) out.1 out.2 /\ may g x.
Proof.
  intros [R D L (h & Len & P)] Bd Et Eg N Ow. cbv zeta. unfold acted.
  destruct (Forall2_lookup_lr _ _ _ _ _ _ R Et Eg) as [F Ec].
  apply follows_next in F. rewrite N in F. destruct F as [Mx F].
  pose proof (act_paid clock newID_ Mono a k c A (cfg (wpool w0)) HA Am g (books (clog cf)) x Mx
    (Z.of_nat n * A) (cworld cf) ltac:(lia) (paid_pool _ _ _ _ _ _ _ _ _ _ P) (paid_cfg _ _ _ _ _ _ _ _ _ _ P)
    ltac:(lia) (conj L Ow)) as [[Ld Sy] (h1 & L1 & P1)].
  cbn [exec] in *. destruct (run_act clock newID_ x (cworld cf)) as [w y]. cbn [fst snd] in *.
  split; [|exact Mx]. split; cbn [cthreads clog cworld].
  - apply Forall2_insert; [exact R|]. split; [apply F, Sy|]. cbn [tcall]. rewrite <- Ec.
    destruct x; cbn [after_fast]; try reflexivity; destruct y; reflexivity.
  - apply Forall_insert; [exact D|]. apply (due_kept a k c A (cfg (wpool w0))); auto.
    exact (Forall_lookup_1 _ _ _ _ D Eg).
  - rewrite books_snoc, <- Ec. exact Ld.
  - exists (h ++ h1). split; [rewrite length_app; lia|].
    rewrite held_snoc, (dues_insert gs i g) by exact Eg. rewrite <- Ec.
    pose proof (paid_trans _ _ _ _ _ _ _ _ _ _ _ _ _ _ P P1) as PP.
    replace (Z.of_nat (S n) * A) with (Z.of_nat n * A + Z.of_nat 1 * A) by lia.
    match type of PP with paid _ _ _ _ _ _ _ _ _ ?q => match goal with |- paid _ _ _ _ _ _ _ _ _ ?q' =>
      replace q' with q by lia end end. exact PP.
Qed.

(** *** Ids *)

Definition issued (w : World (S := MemStore)) (id : string) : Prop :=
  exists n, (n < wids w)%nat /\ newID_ n = Ok id.

(** The id an action draws. *)
Definition draws {X} (x : act X) : X -> option string :=
  match x with
  | NewID => fun r => match r with Ok id => Some id | Err _ => None end
  | _ => fun _ => None
  end.

(** The ids debited under are drawn; the pool's are among them, those of the roles are
    not, and no two roles have the same. *)
Record known (cf : conf MemStore) (gs : list role) (D : gset string) : Prop := {
  kn_issued : forall id, id ∈ D -> issued (cworld cf) id;
  kn_pres : forall id, is_Some (pres (wpool (cworld cf)) !! id) -> id ∈ D;
  kn_ids : forall i g id, gs !! i = Some g -> gid g = Some id -> issued (cworld cf) id /\ id ∉ D;
  kn_apart : forall i j g g' id, gs !! i = Some g -> gs !! j = Some g' ->
    gid g = Some id -> gid g' = Some id -> i = j
}.

Lemma known_start cf gs D cl :
  known cf gs D -> known (advance fm true clock newID_ (Start cl) cf) (gs ++ [enter cl]) D.
Proof.
  intros [K1 K2 K3 K4]. assert (Old : forall i g id, (gs ++ [enter cl]) !! i = Some g -> gid g = Some id -> gs !! i = Some g).
  { intros i g id [E|[_ E]]%lookup_app_Some G; [exact E|]. destruct (i - length gs)%nat; [injection E as <-|]; discriminate. }
  split; cbn [advance cworld]; eauto.
Qed.

Lemma issued_act {X} (x : act X) w id :
  issued w id -> issued (run_act clock newID_ x w).1 id.
Proof. intros (n & L & E). exists n. split; [|exact E]. rewrite act_ids. destruct x; lia. Qed.

Lemma draws_fresh {X} (x : act X) w id :
  draws x (run_act clock newID_ x w).2 = Some id ->
  issued (run_act clock newID_ x w).1 id /\ ~ issued w id.
Proof.
  intros E. destruct x; try discriminate. cbn in E. destruct (newID_ (wids w)) as [id'|] eqn:En; [|discriminate].
  injection E as ->. split; [exists (wids w); split; [cbn; lia|exact En]|].
  intros (n & L & E). rewrite (Inj n (wids w) id E En) in L. lia.
Qed.

Lemma gid_after {X} g (x : act X) y id :
  may g x -> gid (after g x y) = Some id ->
  (gid g = Some id /\ opens x y = None) \/ draws x y = Some id.
Proof.
  intros Mx E. destruct x; cbn [after_fast opens draws gid] in *; auto; destruct y; auto; discriminate.
Qed.

Lemma opens_own {X} g (x : act X) y id : may g x -> opens x y = Some id -> gid g = Some id.
Proof.
  intros Mx E. destruct x; try discriminate. cbn [opens] in E. destruct y; [|discriminate].
  injection E as <-. apply Mx.
Qed.

Definition debited_with {X} (D : gset string) (x : act X) (y : X) : gset string :=
  match opens x y with Some id => {[id]} ∪ D | None => D end.

Lemma debited_in {X} D (x : act X) y id : id ∈ debited_with D x y <-> id ∈ D \/ opens x y = Some id.
Proof.
  unfold debited_with. destruct (opens x y) as [i|]; [rewrite elem_of_union, elem_of_singleton|].
  - split; [intros [->|]; auto|intros [|[= ->]]; auto].
  - split; [auto|intros [|]; [assumption|discriminate]].
Qed.

Lemma known_act cf gs D i th g {Y} (x : act Y) k' :
  known cf gs D -> gs !! i = Some g -> may g x ->
  let out := acted i th g x k' cf gs in
  known out.1 out.2 (debited_with D x (run_act clock newID_ x (cworld cf)).2).
Proof.
  intros [K1 K2 K3 K4] Eg Mx. cbv zeta. unfold acted.
  pose proof (act_keeps clock newID_ x (cworld cf)) as [_ Kp].
  pose proof (issued_act x (cworld cf)) as Im. pose proof (draws_fresh x (cworld cf)) as Dr.
  destruct (run_act clock newID_ x (cworld cf)) as [w y]. cbn [fst snd] in *.
  assert (Own : forall id, opens x y = Some id -> gid g = Some id) by (intros id; apply opens_own, Mx).
  assert (New : forall j g' id, <[i := after g x y]> gs !! j = Some g' -> gid g' = Some id ->
    (gs !! j = Some g' /\ j <> i) \/ (j = i /\ gid g = Some id /\ opens x y = None) \/ (j = i /\ draws x y = Some id)).
  { intros j g' id E G. apply list_lookup_insert_Some in E as [(-> & <- & _)|[N E]]; [|auto].
    destruct (gid_after g x y id Mx G) as [[]|]; auto. }
  split; cbn [cworld].
  - intros id [H|E]%debited_in; [apply Im, K1, H|]. apply Im. exact (proj1 (K3 i g id Eg (Own id E))).
  - intros id H. apply debited_in. destruct (Kp id H) as [H'|E]; [left; apply K2, H'|right; exact E].
  - intros j g' id E G. rewrite debited_in. destruct (New j g' id E G) as [[E' N]|[(-> & G' & O)|[-> Dw]]].
    + destruct (K3 j g' id E' G) as [I1 I2]. split; [apply Im, I1|]. intros [H|O]; [exact (I2 H)|].
      apply N. symmetry. exact (K4 i j g g' id Eg E' (Own id O) G).
    + destruct (K3 i g id Eg G') as [I1 I2]. split; [apply Im, I1|]. rewrite O. intros [H|H]; [exact (I2 H)|discriminate].
    + destruct (Dr id Dw) as [I1 I2]. split; [exact I1|]. intros [H|O]; [apply I2, K1, H|].
      apply I2. exact (proj1 (K3 i g id Eg (Own id O))).
  - assert (Fresh : forall j g' id, gs !! j = Some g' -> gid g' = Some id -> draws x y <> Some id).
    { intros j g' id E G Dw. apply (proj2 (Dr id Dw)). exact (proj1 (K3 j g' id E G)). }
    assert (Old : forall j g' id, <[i := after g x y]> gs !! j = Some g' -> gid g' = Some id ->
      (j = i /\ draws x y = Some id) \/ exists g0, gs !! j = Some g0 /\ gid g0 = Some id).
    { intros j g' id E G. destruct (New j g' id E G) as [[E' N]|[(-> & G' & O)|Dw]]; eauto. }
    intros j1 j2 g1 g2 id E1 E2 G1 G2.
    destruct (Old j1 g1 id E1 G1) as [[-> D1]|(o1 & F1 & O1)], (Old j2 g2 id E2 G2) as [[-> D2]|(o2 & F2 & O2)];
      [reflexivity|destruct (Fresh j2 o2 id F2 O2 D1)|destruct (Fresh j1 o1 id F1 O1 D2)|exact (K4 _ _ _ _ _ F1 F2 O1 O2)].
Qed.

(** *** Overshoots *)

(** A running call that owes an overshoot settles the reservation it owes it for, the
    record is as it left it, and it is the only one to settle it. *)
Record sole (cf : conf MemStore) (gs : list role) (D : gset string) : Prop := {
  so_owes : forall i th g id d, cthreads cf !! i = Some th -> gs !! i = Some g -> unreturned th ->
    gowes g = Some (id, d) ->
    settling (tcall th) = Some id /\ id ∈ D /\ settled_at (wpool (cworld cf)) id d;
  so_single : forall i j th th' id, cthreads cf !! i = Some th -> cthreads cf !! j = Some th' ->
    unreturned th -> unreturned th' ->
    settling (tcall th) = Some id -> settling (tcall th') = Some id -> i = j
}.

(** What a role owes after an action. *)
Lemma gowes_after {X} g (x : act X) y id d :
  may g x -> gowes (after g x y) = Some (id, d) ->
  settles_with x y = Some (id, d) \/
  (gowes g = Some (id, d) /\ settles_with x y = None /\
   match x with PoolApplyBorrowedDeficit _ _ | PoolApplyBorrowedDeficitIO _ _ _ => False | _ => True end).
Proof.
  intros Mx E. destruct x; cbn [after_fast settles_with gowes] in *; try discriminate;
    try (right; auto; fail); destruct y; auto.
Qed.

(** Settling and paying overshoots is for the call that settles. *)
Lemma writes_own {X} g (x : act X) y id :
  may g x -> writes x = Some id ->
  gid g = Some id \/ settling (gcall g) = Some id \/ (exists d, gowes g = Some (id, d)) \/ harmless x y.
Proof.
  intros Mx W. destruct x; try discriminate; cbn [writes may_fast harmless] in *; injection W as <-.
  - left. apply Mx.
  - right. left. destruct Mx as [-> _]. reflexivity.
  - right. left. destruct Mx as (-> & _). reflexivity.
  - right. right. left. destruct Mx as (d & -> & _). eauto.
  - right. right. left. destruct Mx as (d & -> & _). eauto.
  - auto.
Qed.

Lemma settles_own {X} g (x : act X) y id d :
  may g x -> settles_with x y = Some (id, d) -> settling (gcall g) = Some id.
Proof.
  intros Mx E. destruct x; try discriminate; cbn [settles_with may_fast] in *;
    (destruct y; [|discriminate]); injection E as <- _; destruct Mx as [-> _]; reflexivity.
Qed.

Lemma own_harmless {X} g (x : act X) y id :
  may g x -> writes x = Some id -> settles_with x y = None -> gid g <> Some id ->
  match x with PoolApplyBorrowedDeficit _ _ | PoolApplyBorrowedDeficitIO _ _ _ => False | _ => True end ->
  harmless x y.
Proof.
  intros Mx W N G Nd. destruct x; try discriminate; cbn [writes settles_with may_fast harmless] in *;
    try (destruct Nd; fail); try exact I; try (destruct y; [discriminate|reflexivity]).
  injection W as <-. destruct (G (proj1 Mx)).
Qed.

Lemma sole_start cf gs D cl :
  length (cthreads cf) = length gs -> forallb (clear_of cl) (cthreads cf) = true ->
  sole cf gs D -> sole (advance fm true clock newID_ (Start cl) cf) (gs ++ [enter cl]) D.
Proof.
  intros Len Cl [S1 S2]. rewrite forallb_forall in Cl.
  assert (Apart : forall i th id, cthreads cf !! i = Some th -> unreturned th ->
    settling cl = Some id -> settling (tcall th) <> Some id).
  { intros i th id E. apply clear_of_apart, Cl. apply list_elem_of_In. eapply list_elem_of_lookup_2, E. }
  split; cbn [advance cthreads cworld].
  - intros i th g id d [E|[Lt E]]%lookup_app_Some [Eg|[Lg Eg]]%lookup_app_Some U Ow.
    + exact (S1 i th g id d E Eg U Ow).
    + apply lookup_lt_Some in E. lia.
    + apply lookup_lt_Some in Eg. lia.
    + destruct (i - length gs)%nat; [injection Eg as <-|]; discriminate.
  - assert (New : forall i th, (cthreads cf ++ [mkThread cl (program fm true cl) []]) !! i = Some th ->
      cthreads cf !! i = Some th \/ (i = length (cthreads cf) /\ tcall th = cl)).
    { intros i th [E|[L E]]%lookup_app_Some; [auto|]. right. pose proof (lookup_lt_Some _ _ _ E) as Lt. cbn in Lt.
      destruct (i - length (cthreads cf))%nat eqn:Ei; [|discriminate]. injection E as <-. split; [lia|reflexivity]. }
    intros i j th th' id [E1|[-> T1]]%New [E2|[-> T2]]%New U1 U2 Q1 Q2; [eauto| | |reflexivity].
    + rewrite T2 in Q2. destruct (Apart _ _ _ E1 U1 Q2 Q1).
    + rewrite T1 in Q1. destruct (Apart _ _ _ E2 U2 Q1 Q2).
Qed.

Lemma sole_act cf gs D i th g {Y} (x : act Y) k' :
  sole cf gs D -> known cf gs D -> cthreads cf !! i = Some th -> gs !! i = Some g ->
  next (tcode th) = Doing x k' -> gcall g = tcall th -> may g x ->
  let out := acted i th g x k' cf gs in
  sole out.1 out.2 (debited_with D x (run_act clock newID_ x (cworld cf)).2).
Proof.
  intros [S1 S2] Kn Et Eg Nx Ec Mx. cbv zeta. unfold acted.
  assert (U : unreturned th) by (unfold unreturned, returned_with; rewrite Nx; reflexivity).
  pose proof (fun id d => act_settled_at clock newID_ x (cworld cf) id d) as Keep.
  pose proof (fun id d => act_settles clock newID_ x (cworld cf) id d) as Put. cbv zeta in Keep, Put.
  destruct (run_act clock newID_ x (cworld cf)) as [w y]. cbn [fst snd] in *.
  assert (NoId : forall id, id ∈ D -> gid g <> Some id).
  { intros id H G. exact (proj2 (kn_ids _ _ _ Kn i g id Eg G) H). }
  split; cbn [cthreads cworld].
  - intros j th' g' id d E E' U' Ow. rewrite debited_in.
    apply list_lookup_insert_Some in E as [(<- & <- & _)|[N E]].
    + rewrite list_lookup_insert_eq in E' by (eapply lookup_lt_Some; exact Eg). injection E' as <-. cbn [tcall].
      destruct (gowes_after g x y id d Mx Ow) as [Sw|(Og & Ns & Nd)].
      * destruct (Put id d Sw) as [P1 P2]. rewrite <- Ec. split; [exact (settles_own g x y id d Mx Sw)|].
        split; [left; exact (kn_pres _ _ _ Kn id P2)|exact P1].
      * destruct (S1 i th g id d Et Eg U Og) as (Q1 & Q2 & Q3). split; [exact Q1|]. split; [auto|].
        apply Keep; [|exact Q3]. intros W. exact (own_harmless g x y id Mx W Ns (NoId id Q2) Nd).
    + rewrite list_lookup_insert_ne in E' by congruence.
      destruct (S1 j th' g' id d E E' U' Ow) as (Q1 & Q2 & Q3). split; [exact Q1|]. split; [auto|].
      apply Keep; [|exact Q3]. intros W.
      destruct (writes_own g x y id Mx W) as [G|[Se|[[d' Od]|Hm]]]; [destruct (NoId id Q2 G)| | |exact Hm].
      * rewrite Ec in Se. destruct (N (S2 i j th th' id Et E U U' Se Q1)).
      * destruct (S1 i th g id d' Et Eg U Od) as [Se _]. destruct (N (S2 i j th th' id Et E U U' Se Q1)).
  - assert (Old : forall j th', <[i := mkThread (tcall th) (k' y) (teffects th ++ match effect x y with Some e => [e] | None => [] end)]>
        (cthreads cf) !! j = Some th' -> unreturned th' ->
        exists th0, cthreads cf !! j = Some th0 /\ unreturned th0 /\ tcall th0 = tcall th').
    { intros j th' E U'. apply list_lookup_insert_Some in E as [(<- & <- & _)|[N E]]; eauto. }
    intros j1 j2 t1 t2 id E1 E2 U1 U2. destruct (Old j1 t1 E1 U1) as (o1 & F1 & V1 & <-).
    destruct (Old j2 t2 E2 U2) as (o2 & F2 & V2 & <-). exact (S2 j1 j2 o1 o2 id F1 F2 V1 V2).
Qed.

(** *** Any schedule *)

Definition running (n : nat) (cf : conf MemStore) : Prop :=
  exists gs D, balanced n cf gs /\ known cf gs D /\ sole cf gs D.

Lemma running_more n cf : running n cf -> running (S n) cf.
Proof.
  intros (gs & D & [R Du L (h & Len & P)] & Rest). exists gs, D. split; [|exact Rest]. split; auto.
  exists h. split; [lia|]. eapply paid_weaken; [|exact P]. nia.
Qed.

Lemma running_advance n cf x :
  running n cf -> Z.of_nat (S n) * A <= int64_max ->
  match x with Start cl => call_fits a k c A cl /\ forallb (clear_of cl) (cthreads cf) = true | Go _ => True end ->
  running (S n) (advance fm true clock newID_ x cf).
Proof.
  intros Ru Bd Fit. destruct x as [cl|i].
  - destruct Fit as [F Cl]. apply running_more. destruct Ru as (gs & D & B & Kn & So). exists (gs ++ [enter cl]), D.
    pose proof (Forall2_length _ _ _ (bal_roles _ _ _ B)) as Len.
    split_and!; [apply balanced_start|apply known_start|apply sole_start]; assumption.
  - destruct (cthreads cf !! i) as [th|] eqn:Et; [|cbn [advance]; rewrite Et; apply running_more, Ru].
    destruct (next (tcode th)) as [ans|Y y k'] eqn:Nx; [cbn [advance]; rewrite Et, Nx; apply running_more, Ru|].
    destruct Ru as (gs & D & B & Kn & So).
    destruct (Forall2_lookup_l _ _ _ _ _ (bal_roles _ _ _ B) Et) as (g & Eg & _ & Ec).
    assert (U : unreturned th) by (unfold unreturned, returned_with; rewrite Nx; reflexivity).
    destruct (balanced_act n cf gs i th g y k' B Bd Et Eg Nx) as [B' Mx].
    { destruct (gowes g) as [[id d]|] eqn:Ow; [|exact I]. intros r Er.
      apply (so_owes _ _ _ So i th g id d Et Eg U Ow). exact Er. }
    pose proof (known_act cf gs D i th g y k' Kn Eg Mx) as Kn'.
    pose proof (sole_act cf gs D i th g y k' So Kn Et Eg Nx Ec Mx) as So'. cbv zeta in *.
    assert (Ea : advance fm true clock newID_ (Go i) cf = (acted i th g y k' cf gs).1).
    { cbn [advance]. rewrite Et, Nx. unfold acted. destruct (run_act clock newID_ y (cworld cf)). reflexivity. }
    rewrite Ea. eexists _, _. split; [exact B'|]. split; [exact Kn'|exact So'].
Qed.

Lemma running_runs schedule : forall n cf,
  running n cf -> Z.of_nat (n + length schedule) * A <= int64_max ->
  Forall (call_fits a k c A) (started schedule) -> orderly fm true clock newID_ schedule cf = true ->
  running (n + length schedule) (runs fm true clock newID_ schedule cf).
Proof.
  induction schedule as [|x l IH]; intros n cf Ru Bd F O; cbn [length orderly] in *.
  - rewrite Nat.add_0_r. exact Ru.
  - rewrite Nat.add_succ_r in *. apply andb_prop in O as [O1 O2]. rewrite runs_cons.
    apply (IH (S n)); [|exact Bd| |exact O2].
    + apply running_advance; [exact Ru|nia|]. destruct x as [cl|i]; [|exact I].
      apply Forall_cons in F as [Fc _]. split; assumption.
    + destruct x as [cl|i]; [apply Forall_cons in F as [_ F]|]; exact F.
Qed.
End Running.

(** ** The machine, without the fast path *)

Section Direct.
Context (clock : nat -> Time) (newID_ : nat -> res string) (Mono : monotone clock).
Context (a : axis) (k : Key) (c A : Z) (Am : A < int64_max).
Context (w0 : World (S := MemStore)).

Abbreviation bk := (cacheKey k).
Abbreviation machine := (advance FailClosed false clock newID_).

(** The only action of a call that matters is its call of the store. *)
Definition may_direct {X} (cl : call) (x : act X) : Prop :=
  call_fits a k c A cl /\
  match x with
  | NewID => True
  | StoreCheck key l cost _ => cl = CCheck key l cost
  | StoreSettle id n => cl = CSettle id n
  | StoreSettleIO id i o => cl = CSettleIO id i o
  | StoreRefund id => cl = CRefund id
  | _ => False
  end.

Abbreviation asks := (follows (St := call) (fun X => may_direct (X := X)) (fun _ _ _ _ => True) (fun _ cl _ _ => cl)).

Lemma program_asks cl : call_fits a k c A cl -> asks (program FailClosed false cl) cl (fun _ _ => True).
Proof.
  intros F. destruct cl as [key l cost|id n|id i o|id]; cbn [program]; unfold Check, checkDirect, onStoreErr, Settle, SettleIO, Refund;
    walk; try exact I; (split; [exact F|first [exact I|reflexivity]]).
Qed.

(** What such an action takes from the ledger is charged, but for the token an
    overdraft may cost. *)
Definition overdrew (L : ledger) (cl : call) (e : option answer) : Z :=
  match e with Some e => overdraft a k L cl e | None => 0 end.

(** An admission books and takes what the answer does; a refusal does nothing. *)
Lemma check_effect key limits cost (r : res Decision) L :
  let cl := CCheck key limits cost in
  let e := if admitted r then Some (ADecision r) else None in
  booked L cl e = match r with Ok d => book L cl (ADecision (Ok d)) | Err _ => L end /\
  took a k L cl e = taken a k L cl (ADecision r) /\ overdrew L cl e = 0.
Proof.
  destruct r as [d|e]; cbn [admitted]; [|auto].
  destruct (Allowed d) eqn:D; cbn [booked took overdrew book taken overdraft]; rewrite ?D; auto.
Qed.

Lemma store_act_charged {X} (x : act X) cl (w : World (S := MemStore)) L :
  may_direct cl x -> store_ok (ms clock w) (wstore w) -> time_ok (ms clock w) -> kept L (wstore w) ->
  let out := run_act clock newID_ x w in
  kept (booked L cl (effect x out.2)) (wstore out.1) /\
  exists h, (length h <= 1)%nat /\
    charged_for clock a k c w out.1 h (took a k L cl (effect x out.2) - overdrew L cl (effect x out.2)).
Proof.
  intros [F Mx] OK Tok Kp. cbv zeta. destruct w as [s p n ids]. unfold ms in OK, Tok. cbn [wstore wticks] in *.
  assert (One : forall o q, op_ok o -> op_uses a bk c o -> q <= charge a bk (clock n) s o ->
    exists h, (length h <= 1)%nat /\
      charged_for clock a k c (mkWorld s p n ids) (mkWorld (apply (clock n) s o) p (Datatypes.S n) ids) h q).
  { intros o q Ho Hu Hq. eexists [(_, o)]. split; [reflexivity|].
    exact (charged_op clock Mono a k c (mkWorld s p n ids) p ids o q Ho Hu Hq). }
  destruct x; try (destruct Mx; fail); cbn [run_act effect]; unfold onStore;
    cbn [wstore wticks wpool wids fst snd sCheck sSettle sSettleIO sRefund MemStore_Store].
  - split; [exact Kp|]. exists []. split; [auto|]. apply charged_none; reflexivity.
  - subst cl. destruct F as [Fit Costs]. pose proof (check_op_ok a k c A Am key limits cost id Fit Costs) as Ho.
    pose proof (Check_kept a k s (clock n) L Kp key limits cost id) as [K1 K2].
    pose proof (One (OpCheck key limits cost id)) as O. cbn [apply op_uses] in O.
    destruct (Memory.Check (clock n) s key limits cost id) as [s' r]. cbn [fst snd] in *.
    destruct (check_effect key limits cost r L) as (-> & -> & ->). rewrite Z.sub_0_r.
    split; [exact K1|]. apply O; [exact Ho|apply Fit|exact K2].
  - subst cl. pose proof (closes_kept (clock n) s id _ L (Settle_closes (clock n) s id actual) Kp) as K1.
    pose proof (settle_charged a k A Am _ s (clock n) L OK (Z.le_refl _) Tok Kp id actual F) as K2.
    pose proof (One (OpSettle id actual)) as O. cbn [apply op_uses op_ok call_fits] in *.
    destruct (Memory.Settle (clock n) s id actual) as [s' [d|e]]; cbn [fst snd is_ok booked took overdrew book closed] in *;
      (split; [exact K1|apply O; [lia|exact I|exact K2]]).
  - subst cl. destruct F as [Fi Fo].
    pose proof (closes_kept (clock n) s id _ L (SettleIO_closes (clock n) s id actualIn actualOut) Kp) as K1.
    pose proof (settleIO_charged a k A Am _ s (clock n) L OK (Z.le_refl _) Tok Kp id actualIn actualOut Fi Fo) as K2.
    pose proof (One (OpSettleIO id actualIn actualOut)) as O. cbn [apply op_uses op_ok] in *.
    destruct (Memory.SettleIO (clock n) s id actualIn actualOut) as [s' [d|e]];
      cbn [fst snd is_ok booked took overdrew book closed] in *;
      (split; [exact K1|apply O; [lia|exact I|exact K2]]).
  - subst cl. pose proof (closes_kept (clock n) s id _ L (Refund_closes (clock n) s id) Kp) as K1.
    pose proof (refund_charged a k s (clock n) L Kp id) as K2.
    pose proof (One (OpRefund id)) as O. cbn [apply op_uses op_ok] in *.
    destruct (Memory.Refund (clock n) s id) as [s' [u|e]];
      cbn [fst snd is_ok booked took overdrew book closed overdraft] in *;
      (split; [exact K1|apply O; [exact I|exact I|rewrite Z.sub_0_r; exact K2]]).
Qed.

Lemma overdrafts_snoc h es cl :
  overdrafts a k ∅ (h ++ map (fun e => (cl, e)) (match es with Some e => [e] | None => [] end))
  = overdrafts a k ∅ h + overdrew (books h) cl es.
Proof.
  unfold books. generalize (∅ : ledger). induction h as [|[cl' ans] h IH]; intros L; cbn [app overdrafts fold_left fst snd].
  - destruct es; cbn [map overdrafts overdrew]; lia.
  - rewrite IH. lia.
Qed.

(** *** Any schedule *)

Record charging (n : nat) (cf : conf MemStore) : Prop := {
  ch_calls : Forall (fun th => asks (tcode th) (tcall th) (fun _ _ => True)) (cthreads cf);
  ch_kept : kept (books (clog cf)) (wstore (cworld cf));
  ch_charged : exists h, (length h <= n)%nat /\
    charged_for clock a k c w0 (cworld cf) h (held a k ∅ (clog cf) - overdrafts a k ∅ (clog cf))
}.

Context (OK : store_ok (ms clock w0) (wstore w0)) (U : uniform a bk c (wstore w0)) (H0 : 0 <= ms clock w0).

Lemma charging_more n cf : charging n cf -> charging (S n) cf.
Proof. intros [C K (h & L & Ch)]. split; auto. exists h. split; [lia|exact Ch]. Qed.

Lemma charging_advance n cf x :
  charging n cf -> ms clock (cworld cf) <= 2 ^ 53 ->
  match x with Start cl => call_fits a k c A cl | Go _ => True end -> charging (S n) (machine x cf).
Proof.
  intros Ch Tm Fit. destruct x as [cl|i]; cbn [advance].
  - apply charging_more in Ch. destruct Ch as [C K Q]. split; auto. apply Forall_app_2; [exact C|].
    constructor; [|constructor]. apply program_asks, Fit.
  - destruct (cthreads cf !! i) as [th|] eqn:Et; [|apply charging_more, Ch].
    destruct (next (tcode th)) as [ans|Y y k'] eqn:Nx; [apply charging_more, Ch|].
    destruct Ch as [C K (h & Len & P)].
    pose proof (follows_next _ _ _ _ _ _ (Forall_lookup_1 _ _ _ _ C Et)) as F. rewrite Nx in F. destruct F as [My F].
    destruct (window_ok a bk c h (ms clock w0) (ms clock (cworld cf)) (wstore w0) OK U H0
      ltac:(unfold int64_max; lia) (for_window _ _ _ _ _ _ _ _ P)) as [OK1 _].
    rewrite <- (for_store _ _ _ _ _ _ _ _ P) in OK1.
    pose proof (window_le _ _ _ _ _ _ (for_window _ _ _ _ _ _ _ _ P)) as Wl.
    destruct (store_act_charged y (tcall th) (cworld cf) (books (clog cf)) My OK1
      ltac:(unfold time_ok, int64_max; lia) K) as (K1 & h1 & L1 & P1).
    destruct (run_act clock newID_ y (cworld cf)) as [w z]. cbn [fst snd] in *.
    split; cbn [cthreads clog cworld].
    + apply Forall_insert; [exact C|]. cbn [tcode tcall]. apply F. exact I.
    + rewrite books_snoc. exact K1.
    + exists (h ++ h1). split; [rewrite length_app; lia|].
      rewrite held_snoc, overdrafts_snoc. pose proof (charged_trans _ _ _ _ _ _ _ _ _ _ _ P P1) as PP.
      match type of PP with charged_for _ _ _ _ _ _ _ ?q => match goal with |- charged_for _ _ _ _ _ _ _ ?q' =>
        replace q' with q by lia end end. exact PP.
Qed.
End Direct.

(** The clock only goes on. *)
Section Ticks.
Context {S : Type} `{Store S} (fm : FailMode) (fast : bool) (clock : nat -> Time) (newID_ : nat -> res string).

Lemma act_ticks {X} (x : act X) (w : World (S := S)) : (wticks w <= wticks (run_act clock newID_ x w).1)%nat.
Proof.
  destruct x; cbn [run_act]; unfold onPool, onStore;
    try match goal with |- context [let '(_, _) := ?e in _] => destruct e end; cbn [fst wticks]; lia.
Qed.

Lemma advance_ticks x (cf : conf S) :
  (wticks (cworld cf) <= wticks (cworld (advance fm fast clock newID_ x cf)))%nat.
Proof.
  destruct x as [cl|i]; cbn [advance cworld]; [lia|].
  destruct (cthreads cf !! i) as [th|]; [|lia]. destruct (next (tcode th)) as [ans|Y y k]; [lia|].
  pose proof (act_ticks y (cworld cf)) as T. destruct (run_act clock newID_ y (cworld cf)). exact T.
Qed.

Lemma runs_ticks l (cf : conf S) :
  (wticks (cworld cf) <= wticks (cworld (runs fm fast clock newID_ l cf)))%nat.
Proof.
  revert cf. induction l as [|x l IH]; intros cf; [reflexivity|]. rewrite runs_cons.
  etransitivity; [apply (advance_ticks x)|apply IH].
Qed.
End Ticks.

Lemma charging_runs clock newID_ (Mono : monotone clock) a k c A w0 schedule :
  A < int64_max -> store_ok (ms clock w0) (wstore w0) -> uniform a (cacheKey k) c (wstore w0) -> 0 <= ms clock w0 ->
  forall n cf, charging clock a k c A w0 n cf -> Forall (call_fits a k c A) (started schedule) ->
  ms clock (cworld (runs FailClosed false clock newID_ schedule cf)) <= 2 ^ 53 ->
  charging clock a k c A w0 (n + length schedule) (runs FailClosed false clock newID_ schedule cf).
Proof.
  intros Am OK U H0. induction schedule as [|x l IH]; intros n cf Ch F Tm; cbn [length].
  - rewrite Nat.add_0_r. exact Ch.
  - rewrite Nat.add_succ_r, runs_cons in *. apply (IH (S n)); [| |exact Tm].
    + apply (charging_advance clock newID_ Mono a k c A Am w0 OK U H0); [exact Ch| |].
      * etransitivity; [|exact Tm]. apply (ms_le clock Mono). etransitivity; [apply advance_ticks|apply runs_ticks].
      * destruct x; [apply Forall_cons in F; apply F|exact I].
    + destruct x; [apply Forall_cons in F; apply F|exact F].
Qed.

(** ** Properties *)

(** The start of a limiter: a new pool, nothing running. *)
Lemma running_start clock newID_ (Mono : monotone clock) a k c A C w0 :
  0 <= A -> wpool w0 = NewPool C -> reservations (wstore w0) = ∅ ->
  running clock newID_ a k c A w0 0 (idle w0).
Proof.
  intros HA Ep Re. exists [], ∅.
  assert (Pr : pres (wpool w0) = ∅) by (rewrite Ep; reflexivity). split; [|split].
  - split; cbn [idle cthreads clog cworld]; [constructor|constructor| |].
    + split; [rewrite Pr; apply map_Forall_empty|rewrite Pr; apply map_Forall_empty|exact Re].
    + exists []. split; [apply Nat.le_0_l|].
      apply (paid_local clock Mono a (cacheKey k) c A 0); try reflexivity;
        [rewrite Ep; apply NewPool_ok|rewrite Ep; apply NewPool_ok|exists (clock (wticks w0)); cbn; lia].
  - split; cbn [idle cworld].
    + intros id []%elem_of_empty.
    + intros id. rewrite Pr, lookup_empty. intros []; discriminate.
    + intros i g id E. discriminate.
    + intros i j g g' id E. discriminate.
  - split; cbn [idle cthreads]; intros i; intros; discriminate.
Qed.

(** C4: the budget of a limiter's clients under any interleaving.  Over the in-process
    store, start any checks, settlements and refunds at any time and interleave their
    actions in any way: the ledger of their effects, in the order they happen, holds
    of each key and axis at most the per-minute limit, what the limit earns meanwhile,
    and one token (without the fast path, one more for each settlement above its
    reservation, and the limiter must fail closed).  With the fast path ids must be
    unique, and no settlement may start while another settles the same reservation.
    The clock must not go back, calls must give the key one limit [c], and limits,
    amounts and their number be at most what is stated. *)
Theorem concurrent_budget fm fast clock newID_ a k c A C T0 s ticks ids schedule :
  let w := mkWorld s (NewPool C) ticks ids in
  let out := runs fm fast clock newID_ schedule (idle w) in
  monotone clock -> (forall n m id, newID_ n = Ok id -> newID_ m = Ok id -> n = m) ->
  reachable T0 s -> reservations s = ∅ -> T0 <= ms clock w -> 0 < ms clock w ->
  (if fast then chunks_ok A (normalized C) /\ orderly fm fast clock newID_ schedule (idle w) = true
   else fm = FailClosed) ->
  Forall (call_fits a k c A) (started schedule) -> 0 <= A <= 2 ^ 40 -> 0 < c <= 2 ^ 30 ->
  Z.of_nat (length schedule) <= 2 ^ 20 -> ms clock (cworld out) <= 2 ^ 53 ->
  ms clock (cworld out) - ms clock w <= 2 ^ 32 ->
  60000 * (held a k ∅ (clog out) - if fast then 0 else overdrafts a k ∅ (clog out))
    <= 60000 * (c + 1) + (ms clock (cworld out) - ms clock w) * c.
Proof.
  intros w out Mono Inj Rc Re HT H0 Fm F HA Hc Hn Hu Hd.
  assert (OK : store_ok (ms clock w) s) by (apply (store_ok_mono T0); [exact HT|apply reachable_ok, Rc]).
  assert (U : uniform a (cacheKey k) c s) by (unfold uniform; rewrite Re; apply map_Forall_empty).
  assert (P : exists h, (length h <= length schedule)%nat /\
    window a (cacheKey k) c (ms clock w) h (ms clock (cworld out)) /\
    held a k ∅ (clog out) - (if fast then 0 else overdrafts a k ∅ (clog out)) <= charges a (cacheKey k) s h).
  { destruct fast.
    - destruct Fm as [Ch O].
      destruct (running_runs fm clock newID_ Mono Inj a k c A (proj1 HA) ltac:(unfold int64_max; lia) w Ch schedule 0
        (idle w)) as (gs & D & [_ Du _ (h & L & [_ Pk _ _ W Q])] & _); [|unfold int64_max; nia|exact F|exact O|].
      + apply (running_start clock newID_ Mono a k c A C); [apply HA|reflexivity|exact Re].
      + exists h. fold out in W, Q, Pk. split_and!; [exact L|exact W|].
        pose proof (dues_nonneg gs Du).
        assert (0 <= live a (cacheKey k) (clock (wticks (cworld out))) (wpool (cworld out))) by (eapply live_range; [|exact Pk]; nia).
        change (live a (cacheKey k) (clock (wticks w)) (wpool w)) with 0 in Q. cbn [wstore w] in Q. lia.
    - subst fm. destruct (charging_runs clock newID_ Mono a k c A w schedule ltac:(unfold int64_max; lia) OK U
        ltac:(lia) 0 (idle w)) as [_ _ (h & L & [_ _ W Q])]; [|exact F|exact Hu|].
      + split; [apply Forall_nil_2|unfold kept; change (map_Forall (kept_as ∅) (reservations s)); rewrite Re; apply map_Forall_empty|].
        exists []. split; [apply Nat.le_0_l|]. apply charged_none; reflexivity.
      + exists h. split_and!; [exact L|exact W|exact Q]. }
  destruct P as (h & L & W & Q).
  pose proof (budget_bound a (cacheKey k) c (ms clock w) (ms clock w) s h (ms clock (cworld out)) OK ltac:(lia) H0 U W
    Hc Hu Hd ltac:(lia)) as B. lia.
Qed.

(** Ids that never repeat. *)
Fixpoint dots (n : nat) : string :=
  match n with O => "" | S n => String.append "." (dots n) end.

Definition numbered (n : nat) : res string := Ok (dots (S n)).

Lemma numbered_unique n m id : numbered n = Ok id -> numbered m = Ok id -> n = m.
Proof.
  unfold numbered. cbn [dots String.append]. intros [= <-] [= E]. revert m E.
  induction n as [|n IH]; intros [|m] E; cbn [dots String.append] in E; try discriminate; [reflexivity|].
  injection E as E. f_equal. apply IH, E.
Qed.

(** [n] actions of each of the threads [ths], in turns. *)
Definition by_turns (n : nat) (ths : list nat) : list cmd := concat (repeat (map Go ths) n).

(** Two checks at once; then the settlement of one, the refund of the other and a third
    check at once. *)
Definition together : list cmd :=
  [Start (CCheck sample_key sample_limits (mkCost 1 100 0 0)); Start (CCheck sample_key sample_limits (mkCost 2 100 0 0))]
  ++ by_turns 9 [0; 1]%nat ++
  [Start (CSettle "." 140); Start (CRefund ".."); Start (CCheck sample_key sample_limits (mkCost 2 300 0 0))]
  ++ by_turns 9 [4; 2; 3]%nat.

Definition together_run (fast : bool) :=
  runs FailClosed fast unix_clock numbered together (idle client_world).

(** With the fast path alice holds what the settlement left of her first request, and
    the last one; the direct path settles in the store. *)
Example together_holds :
  held TPM sample_key ∅ (clog (together_run true)) = 400 /\ held TPM sample_key ∅ (clog (together_run false)) = 400 /\
  orderly FailClosed true unix_clock numbered together (idle client_world) = true /\
  forallb (fun th => match returned_with th with Some _ => true | None => false end) (cthreads (together_run true)) = true.
Proof. vm_compute. split_and!; reflexivity. Qed.

Lemma together_fits : Forall (call_fits TPM sample_key 1000 1000) (started together).
Proof.
  unfold started, together. cbn -[call_fits].
  repeat apply Forall_cons_2; try apply Forall_nil_2; cbn [call_fits]; try lia; try exact I;
    (split; [apply sample_limits_fit|apply costs_within; cbn; lia]).
Qed.

Lemma concurrent_budget_witness :
  60000 * (held TPM sample_key ∅ (clog (together_run true)) - 0)
    <= 60000 * (1000 + 1) + (ms unix_clock (cworld (together_run true)) - ms unix_clock client_world) * 1000 /\
  60000 * (held TPM sample_key ∅ (clog (together_run false)) - overdrafts TPM sample_key ∅ (clog (together_run false)))
    <= 60000 * (1000 + 1) + (ms unix_clock (cworld (together_run false)) - ms unix_clock client_world) * 1000.
Proof.
  unfold together_run, client_world. split.
  - apply (concurrent_budget FailClosed true unix_clock numbered TPM sample_key 1000 1000 DefaultConfig 0 Memory.New 0 0 together);
      [apply unix_clock_monotone|apply numbered_unique|apply reach_new|reflexivity|..];
      try (apply together_fits || lia || (vm_compute; congruence)).
    split; [apply (client_calls_fit true)|vm_compute; reflexivity].
  - apply (concurrent_budget FailClosed false unix_clock numbered TPM sample_key 1000 1000 DefaultConfig 0 Memory.New 0 0 together);
      [apply unix_clock_monotone|apply numbered_unique|apply reach_new|reflexivity|..];
      try (apply together_fits || lia || reflexivity || (vm_compute; congruence)).
Defined.
