(* ===== verification/Race.v ===== *)
(** * Race: two settlements of one reservation at the same time

    A settlement above its reservation is answered its overshoot by the pool and then
    borrows it.  A second settlement that reaches the pool before the first has paid is
    answered the same overshoot and borrows it too: what the first loan pays, the second
    adds to the lease. *)

From stdpp Require Import base tactics numbers strings gmap list.
From Stdlib Require Import ZArith Lia.
From S2P Require Import Prelude GoFloat Api Store Memory MemorySpec Lease LeaseSpec Limiter LimiterSpec ApiLimiter.
From S2P Require Import Ledger LimiterMemory LimiterBudget Concurrent ConcurrentBudget.

Section Overlap.
Context {S : Type} `{Store S} (fm : FailMode) (clock : nat -> Time) (newID_ : nat -> res string).

(** ** Threads by their programs *)

(** The machine runs threads with these programs left. *)
Definition programs (c : conf S) (w : World (S := S)) (ms : list (M answer)) : Prop :=
  cworld c = w /\ map tcode (cthreads c) = ms.

Abbreviation machine := (runs fm true clock newID_).

Lemma programs_start c w ms cl :
  programs c w ms -> programs (advance fm true clock newID_ (Start cl) c) w (ms ++ [program fm true cl]).
Proof. intros [<- <-]. split; [reflexivity|]. cbn [advance cthreads]. rewrite map_app. reflexivity. Qed.

Lemma programs_go i c w ms m {Y} (a : act Y) k w' y :
  programs c w ms -> ms !! i = Some m -> next m = Doing a k -> run_act clock newID_ a w = (w', y) ->
  programs (advance fm true clock newID_ (Go i) c) w' (<[i := k y]> ms).
Proof.
  intros [Ew Em] L N R. rewrite <- Em in L. apply list_lookup_fmap_Some in L as (t & -> & Et).
  unfold running. cbn [advance]. rewrite Et, N, Ew, R. split; [reflexivity|]. cbn [cthreads].
  rewrite <- Em. exact (list_fmap_insert tcode (cthreads c) i (mkThread (tcall t) (k y) _)).
Qed.

(** ** The reservation and its lease *)

Context (id : string) (r : Reservation) (w0 : World (S := S)).
Let T : nat := wticks w0.
Let key : string := cacheKey (RKey r).

(** The readings of the run. *)
Definition in_window (t : Time) : Prop :=
  clock T <= t < clock T + LeaseTTL (cfg (wpool w0)) /\ t <= clock T + ReservationTTL /\ t <= ExpiresAt r.

(** Both calls know the reservation, and nothing is settled yet. *)
Record unsettled (n : nat) (s : S) (w : World (S := S)) : Prop := {
  un_ticks : wticks w = n;
  un_store : wstore w = s;
  un_cfg : cfg (wpool w) = cfg (wpool w0);
  un_lease : lease (wpool w) = lease (wpool w0);
  un_res : pres (wpool w) !! id = Some r
}.

(** The reservation is settled and owes [o]; the lease holds [b] tokens, and neither
    expires during the run. *)
Record settled_owing (n : nat) (s : S) (b o : Z) (w : World (S := S)) : Prop := {
  so_ticks : wticks w = n;
  so_store : wstore w = s;
  so_cfg : cfg (wpool w) = cfg (wpool w0);
  so_lease : exists lb, lease (wpool w) !! key = Some lb /\ ltpm lb = b /\
    clock T + LeaseTTL (cfg (wpool w0)) <= lexpiresAt lb;
  so_res : exists r', pres (wpool w) !! id = Some r' /\ RKey r' = RKey r /\ RLimits r' = RLimits r /\
    Status r' = settled /\ OvershootTPM (LastDecision r') = o /\ clock T + ReservationTTL <= ExpiresAt r'
}.

Lemma reservation_kept t p r' :
  pres p !! id = Some r' -> t <= ExpiresAt r' -> pres (purgeResLocked t p) !! id = Some r'.
Proof.
  intros E L. cbn [purgeResLocked pres]. apply map_lookup_filter_Some_2; [exact E|]. unfold After. apply Z.ltb_ge, L.
Qed.

Lemma get_unsettled n s w :
  in_window (clock n) -> unsettled n s w ->
  exists w', run_act clock newID_ (PoolGetReservation id) w = (w', Some r) /\ unsettled (Datatypes.S n) s w'.
Proof.
  intros W [Tk St C L R]. cbn [run_act]. unfold onPool, GetReservation. rewrite Tk.
  pose proof (reservation_kept (clock n) _ r R ltac:(apply W)) as R'. cbv zeta. rewrite R'.
  eexists. split; [reflexivity|]. split; cbn [wticks wstore wpool]; auto.
Qed.

Lemma settle_unsettled n s w a o :
  in_window (clock n) -> unsettled n s w -> Status r = pending -> Split (RLimits r) = false ->
  o = a - TPMReserved r - live TPM key (clock n) (wpool w0) -> 0 < o ->
  0 <= live TPM key (clock n) (wpool w0) -> 0 <= TPMReserved r -> 0 <= a <= int64_max ->
  exists w' d, run_act clock newID_ (PoolSettleLocal id a) w = (w', Ok d) /\ OvershootTPM d = o /\
    settled_owing (Datatypes.S n) s 0 o w'.
Proof.
  intros W [Tk St C L R] Pe Sp Eo Ho Hl Hr Ha. cbn [run_act]. unfold onPool, SettleLocal. rewrite Tk.
  pose proof (reservation_kept (clock n) _ r R ltac:(apply W)) as R'. cbv zeta. rewrite R', Sp, Pe.
  assert (Na : nonneg a = a) by (unfold nonneg; destruct (Z.ltb_spec a 0); lia). rewrite Na.
  set (p := purgeResLocked (clock n) (wpool w)) in *.
  assert (B : exists p' lb, leaseFor p r (clock n) = (p', lb) /\ ltpm lb = live TPM key (clock n) (wpool w0) /\
    cfg p' = cfg (wpool w0)).
  { unfold leaseFor, getLeaseLocked, live. assert (Lp : lease p = lease (wpool w0)) by exact L. rewrite Lp. fold key.
    destruct (lease (wpool w0) !! key) as [lb|]; [destruct (Before (clock n) (lexpiresAt lb)); cbn [negb]|];
      eexists _, _; (split; [reflexivity|split; [reflexivity|exact C]]). }
  destruct B as (p' & lb & -> & Lb & C').
  rewrite (wrap64_id (TPMReserved r - a)) by (unfold in_int64, int64_min, int64_max in *; lia).
  destruct (Z.ltb_spec 0 (TPMReserved r - a)); [lia|]. destruct (Z.ltb_spec (TPMReserved r - a) 0); [|lia].
  rewrite (wrap64_id (- (TPMReserved r - a))) by (unfold in_int64, int64_min, int64_max in *; lia).
  rewrite Lb. destruct (Z.leb_spec (- (TPMReserved r - a)) (live TPM key (clock n) (wpool w0))); [lia|].
  rewrite wrap64_id by (unfold in_int64, int64_min, int64_max in *; lia).
  eexists _, _. split; [reflexivity|]. cbn [OvershootTPM]. split; [lia|].
  destruct W as ([W1 _] & _ & _).
  split; cbn [wticks wstore wpool clearIf cfg lease pres setLease]; auto.
  - eexists. split; [apply lookup_insert_eq|]. cbn [ltpm lexpiresAt]. split; [reflexivity|]. rewrite C'. unfold Add. lia.
  - eexists. split; [apply lookup_insert_eq|]. cbn [settledRes RKey RLimits Status LastDecision OvershootTPM ExpiresAt].
    unfold Add. repeat split; lia.
Qed.

Lemma settle_settled n s b o w a :
  in_window (clock n) -> settled_owing n s b o w -> Split (RLimits r) = false ->
  exists w' d, run_act clock newID_ (PoolSettleLocal id a) w = (w', Ok d) /\ OvershootTPM d = o /\
    settled_owing (Datatypes.S n) s b o w'.
Proof.
  intros W [Tk St C L (r' & R & Rk & Rl & Rs & Ro & Rx)] Sp. cbn [run_act]. unfold onPool, SettleLocal. rewrite Tk.
  pose proof (reservation_kept (clock n) _ r' R ltac:(destruct W as (_ & W & _); lia)) as R'. cbv zeta. rewrite R', Rl, Sp, Rs.
  eexists _, _. split; [reflexivity|]. split; [exact Ro|]. split; cbn [wticks wstore wpool]; eauto 10.
Qed.

Lemma get_settled n s b o w :
  in_window (clock n) -> settled_owing n s b o w ->
  exists w' r', run_act clock newID_ (PoolGetReservation id) w = (w', Some r') /\ OvershootTPM (LastDecision r') = o /\
    settled_owing (Datatypes.S n) s b o w'.
Proof.
  intros W [Tk St C L (r' & R & Rk & Rl & Rs & Ro & Rx)]. cbn [run_act]. unfold onPool, GetReservation. rewrite Tk.
  pose proof (reservation_kept (clock n) _ r' R ltac:(destruct W as (_ & W & _); lia)) as R'. cbv zeta. rewrite R'.
  eexists _, _. split; [reflexivity|]. split; [exact Ro|]. split; cbn [wticks wstore wpool]; eauto 10.
Qed.

Lemma note_settled n s b o w :
  settled_owing n s b o w ->
  exists w', run_act clock newID_ PoolNoteBorrow w = (w', tt) /\ settled_owing n s b o w'.
Proof. intros [Tk St C L R]. eexists. split; [reflexivity|]. split; assumption. Qed.

Lemma borrow_settled n s b o w sp s' br :
  settled_owing n s b o w -> sBorrow (clock n) s (RKey r) (RLimits r) sp = (s', Ok br) ->
  exists w', run_act clock newID_ (StoreBorrow (RKey r) (RLimits r) sp) w = (w', Ok br) /\
    settled_owing (Datatypes.S n) s' b o w'.
Proof.
  intros [Tk St C L R] E. cbn [run_act]. unfold onStore. rewrite Tk, St, E. eexists. split; [reflexivity|].
  split; cbn [wticks wstore wpool]; auto.
Qed.

Lemma credit_settled n s b o w rpm got :
  in_window (clock n) -> settled_owing n s b o w -> 0 <= b -> 0 <= got -> b + got <= int64_max ->
  exists w', run_act clock newID_ (PoolCreditLease (RKey r) (RLimits r) rpm got 0 0) w = (w', tt) /\
    settled_owing (Datatypes.S n) s (b + got) o w'.
Proof.
  intros W [Tk St C (lb & L & Lb & Lx) R] Hb Hg Bd. cbn [run_act]. unfold onPool, CreditLease. rewrite Tk. fold key. rewrite L.
  destruct W as ([W1 W2] & _). unfold Before. destruct (Z.ltb_spec (clock n) (lexpiresAt lb)); [|lia]. cbn [negb].
  eexists. split; [reflexivity|]. split; cbn [wticks wstore wpool cfg lease pres setLease]; auto.
  eexists. fold key. split; [apply lookup_insert_eq|]. cbn [ltpm lexpiresAt]. rewrite Lb, C. unfold Add.
  rewrite wrap64_id by (unfold in_int64, int64_min, int64_max in *; lia). split; [reflexivity|lia].
Qed.

(** Applying a loan pays what is owed out of it, and adds the rest to the lease. *)
Lemma apply_settled n s b o w got :
  in_window (clock n) -> settled_owing n s b o w -> 0 <= o <= b + got -> 0 <= b -> 0 <= got -> b + got <= int64_max ->
  exists w', run_act clock newID_ (PoolApplyBorrowedDeficit id got) w = (w', tt) /\
    settled_owing (Datatypes.S n) s (b + got - o) 0 w'.
Proof.
  intros W [Tk St C (lb & L & Lb & Lx) (r' & R & Rk & Rl & Rs & Ro & Rx)] Ho Hb Hg Bd.
  cbn [run_act]. unfold onPool, ApplyBorrowedDeficit, getLeaseLocked. rewrite Tk, R, Rk. fold key. rewrite L.
  destruct W as ([W1 W2] & _). unfold Before. destruct (Z.ltb_spec (clock n) (lexpiresAt lb)); [|lia]. cbn [negb].
  rewrite Ro, Lb. rewrite (wrap64_id (b + got)) by (unfold in_int64, int64_min, int64_max in *; lia).
  assert (P : payOvershoot (b + got) o = (b + got - o, 0)).
  { unfold payOvershoot. destruct (Z.ltb_spec 0 o).
    - destruct (Z.leb_spec o (b + got)); [|lia]. rewrite wrap64_id by (unfold in_int64, int64_min, int64_max in *; lia). reflexivity.
    - f_equal; lia. }
  rewrite P. eexists. split; [reflexivity|]. split; cbn [wticks wstore wpool cfg lease pres setLease]; auto.
  - eexists. fold key. split; [apply lookup_insert_eq|]. cbn [ltpm lexpiresAt]. auto.
  - eexists. split; [apply lookup_insert_eq|]. cbn [RKey RLimits Status LastDecision OvershootTPM ExpiresAt]. auto 10.
Qed.

(** ** Paying an overshoot *)

(** [Settle] after the pool has answered it. *)
Definition settled_answer (dec : res Decision) : M (res Decision) :=
  match dec with
  | Err err => ret (Err err)
  | Ok dec =>
      if 0 <? OvershootTPM dec then
        let need := OvershootTPM dec in
        PoolNoteBorrow ;;;
        br <- StoreBorrow (RKey r) (RLimits r) (zeroBorrowSpec <| MinTPM := need |> <| ChunkTPM := need |>) ;;
        match br with
        | Ok br =>
            if bAllowed br then
              PoolCreditLease (RKey r) (RLimits r) (GotRPM br) (GotTPM br) 0 0 ;;;
              PoolApplyBorrowedDeficit id (GotTPM br) ;;;
              updated <- PoolGetReservation id ;;
              match updated with
              | Some updated => ret (Ok (LastDecision updated))
              | None => ret (Ok dec)
              end
            else ret (Ok dec)
        | Err _ => ret (Ok dec)
        end
      else ret (Ok dec)
  end.

Definition answered (dec : res Decision) : M answer :=
  bind (bind (ret dec) settled_answer) (fun r => ret (ADecision r)).

(** The thread has returned that nothing is owed. *)
Definition paid_up (m : M answer) : Prop := exists d, next m = Done (ADecision (Ok d)) /\ OvershootTPM d = 0.

Lemma pays i c w ms d n s b o l s' br :
  programs c w ms -> ms !! i = Some (answered (Ok d)) -> settled_owing n s b o w ->
  (forall j, (j < 4)%nat -> in_window (clock (j + n))) ->
  sBorrow (clock n) s (RKey r) (RLimits r)
    (zeroBorrowSpec <| MinTPM := OvershootTPM d |> <| ChunkTPM := OvershootTPM d |>) = (s', Ok br) ->
  bAllowed br = true -> GotTPM br = OvershootTPM d ->
  0 < OvershootTPM d -> 0 <= o <= OvershootTPM d -> 0 <= b -> b + OvershootTPM d + OvershootTPM d <= int64_max ->
  exists c' w' m', machine (repeat (Go i) 5 ++ l) c = machine l c' /\ programs c' w' (<[i := m']> ms) /\ paid_up m' /\
    settled_owing (4 + n) s' (b + OvershootTPM d + OvershootTPM d - o) 0 w'.
Proof.
  intros R L St Win Br Al Got Pos Ho Hb Bd. pose proof (lookup_lt_Some _ _ _ L) as Li.
  destruct (note_settled _ _ _ _ _ St) as (w1 & A1 & S1).
  assert (N1 : next (answered (Ok d)) = Doing PoolNoteBorrow (fun y => bind (bind (ret y) (fun _ =>
      bind (StoreBorrow (RKey r) (RLimits r) (zeroBorrowSpec <| MinTPM := OvershootTPM d |> <| ChunkTPM := OvershootTPM d |>))
        (fun br => match br with
        | Ok br =>
            if bAllowed br then
              PoolCreditLease (RKey r) (RLimits r) (GotRPM br) (GotTPM br) 0 0 ;;;
              PoolApplyBorrowedDeficit id (GotTPM br) ;;;
              updated <- PoolGetReservation id ;;
              match updated with
              | Some updated => ret (Ok (LastDecision updated))
              | None => ret (Ok d)
              end
            else ret (Ok d)
        | Err _ => ret (Ok d)
        end))) (fun r => ret (ADecision r)))).
  { unfold answered. cbn [next settled_answer]. destruct (Z.ltb_spec 0 (OvershootTPM d)); [|lia]. reflexivity. }
  pose proof (programs_go i c w ms _ _ _ _ _ R L N1 A1) as R1. cbv beta in R1.
  destruct (borrow_settled _ _ _ _ _ _ _ _ S1 Br) as (w2 & A2 & S2).
  pose proof (programs_go i _ w1 _ _ _ _ _ _ R1 (list_lookup_insert_eq _ _ _ Li) eq_refl A2) as R2. cbv beta in R2.
  rewrite list_insert_insert_eq in R2.
  destruct (credit_settled _ _ _ _ _ (GotRPM br) (GotTPM br) (Win 1%nat ltac:(lia)) S2 Hb ltac:(lia) ltac:(lia)) as (w3 & A3 & S3).
  epose proof (programs_go i _ w2 _ _ _ _ _ _ R2 (list_lookup_insert_eq _ _ _ Li)
    ltac:(cbn [next]; rewrite Al; reflexivity) A3) as R3. cbv beta in R3.
  rewrite list_insert_insert_eq in R3.
  destruct (apply_settled _ _ _ _ _ (GotTPM br) (Win 2%nat ltac:(lia)) S3 ltac:(lia) ltac:(lia) ltac:(lia) ltac:(lia))
    as (w4 & A4 & S4).
  pose proof (programs_go i _ w3 _ _ _ _ _ _ R3 (list_lookup_insert_eq _ _ _ Li) eq_refl A4) as R4. cbv beta in R4.
  rewrite list_insert_insert_eq in R4.
  destruct (get_settled _ _ _ _ _ (Win 3%nat ltac:(lia)) S4) as (w5 & r' & A5 & O5 & S5).
  pose proof (programs_go i _ w4 _ _ _ _ _ _ R4 (list_lookup_insert_eq _ _ _ Li) eq_refl A5) as R5. cbv beta in R5.
  rewrite list_insert_insert_eq in R5.
  eexists _, _, _. split; [cbn [repeat app]; rewrite !runs_cons; reflexivity|]. split; [exact R5|]. split.
  - exists (LastDecision r'). split; [reflexivity|exact O5].
  - rewrite Got in S5. exact S5.
Qed.

(** ** The race *)

(** Both settlements reach the pool, and then the first borrows and pays, and then the
    second. *)
Definition overlap (a1 a2 : Z) : list cmd :=
  [Start (CSettle id a1); Start (CSettle id a2); Go 0; Go 1; Go 0; Go 1] ++ repeat (Go 0) 5 ++ repeat (Go 1) 5.

(** C38: two settlements of one reservation that overlap mint credits.  Take any limiter with
    the fast path over any store, and a classic reservation the pool holds, and let two
    settlements reach the pool, the first for [o] tokens more than the reservation and the
    lease hold, before either borrows; then the first borrows and pays, and then the
    second.  If the store grants both the loan of [o] tokens
    they ask for, then both are answered that nothing is owed any more, and the lease,
    which held nothing, ends with [3 * o] tokens: of the [2 * o] lent, [o] were owed for
    tokens the client has used. *)
Theorem racing_settlements_mint_credits a1 a2 o s1 s2 br1 br2 :
  let T := wticks w0 in
  let key := cacheKey (RKey r) in
  let loan := zeroBorrowSpec <| MinTPM := o |> <| ChunkTPM := o |> in
  let out := machine (overlap a1 a2) (idle w0) in
  pres (wpool w0) !! id = Some r -> Status r = pending -> Split (RLimits r) = false ->
  (forall i, (i < 12)%nat -> in_window (clock (i + T))) ->
  0 <= live TPM key (clock (2 + T)) (wpool w0) -> 0 <= TPMReserved r -> a1 <= int64_max -> 3 * o <= int64_max ->
  o = a1 - TPMReserved r - live TPM key (clock (2 + T)) (wpool w0) -> 0 < o ->
  sBorrow (clock (4 + T)) (wstore w0) (RKey r) (RLimits r) loan = (s1, Ok br1) -> bAllowed br1 = true -> GotTPM br1 = o ->
  sBorrow (clock (8 + T)) s1 (RKey r) (RLimits r) loan = (s2, Ok br2) -> bAllowed br2 = true -> GotTPM br2 = o ->
  (exists d1 d2, map returned_with (cthreads out) = [Some (ADecision (Ok d1)); Some (ADecision (Ok d2))] /\
    OvershootTPM d1 = 0 /\ OvershootTPM d2 = 0) /\
  wstore (cworld out) = s2 /\
  live TPM key (clock (11 + T)) (wpool (cworld out)) = 3 * o.
Proof.
  intros T' key' loan out Hr Pe Sp Win Hl Hres Ha Ho3 Eo Ho B1 A1 G1 B2 A2 G2.
  unfold out, overlap. cbn [app]. rewrite !runs_cons.
  pose proof (programs_start _ _ _ (CSettle id a2) (programs_start _ _ _ (CSettle id a1) (conj eq_refl eq_refl : programs (idle w0) w0 []))) as R0.
  set (c0 := advance _ _ _ _ (Start (CSettle id a2)) _) in *. clearbody c0. cbn [app] in R0.
  assert (U0 : unsettled T (wstore w0) w0) by (split; auto).
  destruct (get_unsettled T _ _ (Win 0%nat ltac:(lia)) U0) as (w1 & A1' & U1).
  pose proof (programs_go 0 _ _ _ _ _ _ _ _ R0 eq_refl eq_refl A1') as R1. cbn [insert list_insert] in R1.
  destruct (get_unsettled _ _ _ (Win 1%nat ltac:(lia)) U1) as (w2 & A2' & U2).
  pose proof (programs_go 1 _ _ _ _ _ _ _ _ R1 eq_refl eq_refl A2') as R2. cbn [insert list_insert] in R2.
  destruct (settle_unsettled _ _ _ a1 o (Win 2%nat ltac:(lia)) U2 Pe Sp Eo Ho Hl Hres ltac:(lia)) as (w3 & d1 & A3 & O1 & S3).
  epose proof (programs_go 0 _ _ _ _ _ _ _ _ R2 eq_refl ltac:(cbn [next]; rewrite Sp; reflexivity) A3) as R3.
  cbn [insert list_insert] in R3.
  destruct (settle_settled _ _ _ _ _ a2 (Win 3%nat ltac:(lia)) S3 Sp) as (w4 & d2 & A4 & O2 & S4).
  epose proof (programs_go 1 _ _ _ _ _ _ _ _ R3 eq_refl ltac:(cbn [next]; rewrite Sp; reflexivity) A4) as R4.
  cbn [insert list_insert] in R4.
  assert (Win' : forall m j, (m + j < 12)%nat -> in_window (clock (j + (m + T)))).
  { intros m j Hj. replace (j + (m + T))%nat with ((j + m) + T)%nat by lia. apply Win. lia. }
  destruct (pays 0 _ _ _ d1 _ _ _ _ (repeat (Go 1) 5) _ _ R4 eq_refl S4 (fun j Hj => Win' 4%nat j ltac:(lia))
    ltac:(rewrite O1; exact B1) A1 ltac:(congruence) ltac:(lia) ltac:(lia) ltac:(lia) ltac:(lia))
    as (c5 & w5 & m1 & E5 & R5 & P1 & S5).
  cbn [insert list_insert] in R5.
  destruct (pays 1 _ _ _ d2 _ _ _ _ [] _ _ R5 eq_refl S5 (fun j Hj => Win' 8%nat j ltac:(lia))
    ltac:(rewrite O2; exact B2) A2 ltac:(congruence) ltac:(lia) ltac:(lia) ltac:(lia) ltac:(lia))
    as (c6 & w6 & m2 & E6 & R6 & P2 & S6).
  rewrite app_nil_r in E6. cbn [insert list_insert] in R6. rewrite E5, E6. cbn [runs fold_left].
  destruct R6 as [<- R6], P1 as (e1 & N1 & Z1), P2 as (e2 & N2 & Z2), S6 as [_ St _ (lb & L & Lb & Lx) _].
  split; [|split; [exact St|]].
  - exists e1, e2. split; [|auto]. rewrite <- (map_map tcode (fun m => match next m with Done ans => Some ans | Doing _ _ => None end)).
    rewrite R6. cbn [map]. rewrite N1, N2. reflexivity.
  - unfold live. fold key in L. change key' with key. rewrite L. destruct (Win 11%nat ltac:(lia)) as [[_ Wx] _].
    unfold Before. destruct (Z.ltb_spec (clock (11 + T')) (lexpiresAt lb)) as [_|Le]; [cbn [lbal]; lia|].
    fold T in Wx, Lx. change T' with T in *. lia.
Qed.
End Overlap.

(** ** On the in-process store *)

(** A check of 100 tokens, lent from a budget of 1,000. *)
Definition race_start : conf MemStore :=
  idle (mkWorld Memory.New (NewPool (mkConfig 5 100 100 100 (2 * Second))) 0 0).

Definition race_check : list cmd :=
  [Start (CCheck sample_key sample_limits (mkCost 1 100 0 0))] ++ by_turns 9 [0%nat].

Definition race_world : World (S := MemStore) := cworld (runs FailClosed true unix_clock numbered race_check race_start).

Definition race_res : Reservation :=
  default (mkReservation sample_key sample_limits 0 0 0 0 pending zeroDecision 0) (pres (wpool race_world) !! ".").

(** Borrowing the overshoot of a settlement at 550 tokens. *)
Definition race_loan (ticks : nat) (s : MemStore) : MemStore * res BorrowResult :=
  sBorrow (unix_clock (ticks + wticks race_world)) s (RKey race_res) (RLimits race_res)
    (zeroBorrowSpec <| MinTPM := 450 |> <| ChunkTPM := 450 |>).

Definition loan_given (out : MemStore * res BorrowResult) : BorrowResult :=
  match out.2 with Ok br => br | Err _ => zeroBorrowResult end.

Lemma racing_settlements_mint_credits_witness :
  live TPM (cacheKey (RKey race_res)) (unix_clock (11 + wticks race_world))
    (wpool (cworld (runs FailClosed true unix_clock numbered (overlap "." 550 550) (idle race_world)))) = 3 * 450.
Proof.
  destruct (racing_settlements_mint_credits FailClosed unix_clock numbered "." race_res race_world 550 550 450
    (race_loan 4 (wstore race_world)).1 (race_loan 8 (race_loan 4 (wstore race_world)).1).1
    (loan_given (race_loan 4 (wstore race_world))) (loan_given (race_loan 8 (race_loan 4 (wstore race_world)).1)))
    as (_ & _ & L).
  - vm_compute. reflexivity.
  - vm_compute. reflexivity.
  - vm_compute. reflexivity.
  - intros i Hi. do 12 (destruct i as [|i]; [vm_compute; split_and!; congruence|]). lia.
  - vm_compute. congruence.
  - vm_compute. congruence.
  - vm_compute. congruence.
  - vm_compute. congruence.
  - vm_compute. reflexivity.
  - vm_compute. reflexivity.
  - vm_compute. reflexivity.
  - vm_compute. reflexivity.
  - vm_compute. reflexivity.
  - vm_compute. reflexivity.
  - vm_compute. reflexivity.
  - vm_compute. reflexivity.
  - exact L.
Defined.

(** Once both settlements have returned, a check of 1,350 tokens is admitted from the
    lease.  Clients then hold 1,450 tokens of a budget of 1,001 and what a few
    milliseconds earn: [ConcurrentBudget.concurrent_budget] needs its order of
    settlements. *)
Definition race : conf MemStore :=
  runs FailClosed true unix_clock numbered
    (race_check ++
     [Start (CSettle "." 550); Start (CSettle "." 550)] ++ by_turns 2 [1; 2]%nat ++ by_turns 5 [1%nat] ++ by_turns 5 [2%nat] ++
     [Start (CCheck sample_key sample_limits (mkCost 1 1350 0 0))] ++ by_turns 9 [3%nat]) race_start.

Example race_exceeds_budget :
  map (fun th => match returned_with th with Some (ADecision (Ok d)) => Allowed d | _ => false end) (cthreads race)
    = [true; true; true; true] /\
  held TPM sample_key ∅ (clog race) = 1450 /\
  60000 * (1000 + 1) + (ms unix_clock (cworld race) - ms unix_clock (cworld race_start)) * 1000
    < 60000 * held TPM sample_key ∅ (clog race).
Proof. vm_compute. split_and!; reflexivity. Qed.
