(* ===== verification/RedisServer.v ===== *)
(** * RedisServer: what the scripts and the client rely on in Redis

    The Redis server, its Lua number formatting and the client library are not part
    of the repository: they are the parameters [Redis], a class of operations on an
    abstract database, with the documented behaviour the code relies on as the laws
    [RedisLaws].  [Server] is one database that satisfies the laws. *)

From stdpp Require Import base tactics numbers strings gmap list.
From Stdlib Require Import ZArith Lia Ascii DecimalString DecimalZ.
From S2P Require Import Prelude GoFloat GoString Api.

(** ** Values *)

(** What a script returns: numbers, strings, tables, and [redis.error_reply]. *)
#[warnings="-register-all"]
Inductive lua : Type :=
| LNum (x : float64)
| LStr (s : string)
| LErr (msg : string)
| LTable (vs : list lua).

(** What [Cmd.Result] returns: the Go [any] holding an [int64], a [string] or a
    slice. *)
#[warnings="-register-all"]
Inductive any : Type :=
| AInt (n : Z)
| AStr (s : string)
| AList (vs : list any).

(** The fields [HMSET] leaves: each pair in turn. *)
Definition put (kvs : list (string * string)) (h : gmap string string) : gmap string string :=
  fold_left (fun h '(f, v) => <[f := v]> h) kvs h.

(** ** The interface *)

Class Redis (D : Type) := {
  (** Commands, at the server's clock reading. *)
  HMGET : Time -> D -> string -> list string -> list (option string);
  EXISTS : Time -> D -> string -> Z;
  HMSET : Time -> D -> string -> list (string * string) -> D;
  EXPIRE : Time -> D -> string -> string -> D;
  TIME : Time -> string * string;
  (** Lua's [tonumber] on a string, and a Lua number as an argument of
      [redis.call]. *)
  tonumber : string -> option float64;
  tostr : float64 -> string;
  (** What the client returns for a script's result: the converted value, or the
      message of the error. *)
  reply : lua -> result string any;
  (** Observations: the hash at a key, and when it expires (milliseconds). *)
  contents : Time -> D -> string -> gmap string string;
  deadline : D -> string -> option Z
}.

Class RedisLaws (D : Type) `{Redis D} : Prop := {
  HMGET_spec now d k fs : HMGET now d k fs = (fun f => contents now d k !! f) <$> fs;
  EXISTS_spec now d k : EXISTS now d k = if bool_decide (contents now d k = ∅) then 0 else 1;
  (** A hash stays until its deadline has passed; the server counts milliseconds. *)
  contents_later now now' d k : toUnixMilli now <= toUnixMilli now' ->
    contents now' d k =
      match deadline d k with
      | Some t => if t <? toUnixMilli now' then ∅ else contents now d k
      | None => contents now d k
      end;
  HMSET_same now d k kvs :
    contents now (HMSET now d k kvs) k = put kvs (contents now d k);
  HMSET_other now d k kvs k' : k' <> k ->
    contents now (HMSET now d k kvs) k' = contents now d k' /\
    deadline (HMSET now d k kvs) k' = deadline d k';
  (** Writing fields keeps the time to live; a key that is not there has none. *)
  HMSET_deadline now d k kvs :
    deadline (HMSET now d k kvs) k =
      if bool_decide (contents now d k = ∅) then None else deadline d k;
  EXPIRE_contents now d k s n k' :
    s = tostr (of_int n) -> 0 < n <= 2 ^ 31 ->
    contents now (EXPIRE now d k s) k' = contents now d k';
  EXPIRE_deadline now d k s n : s = tostr (of_int n) -> 0 < n <= 2 ^ 31 ->
    contents now d k <> ∅ ->
    deadline (EXPIRE now d k s) k = Some (toUnixMilli now + n * 1000);
  EXPIRE_other now d k s k' : k' <> k -> deadline (EXPIRE now d k s) k' = deadline d k';
  (** Seconds, and microseconds of the second. *)
  TIME_spec now : 0 <= now ->
    TIME now = (FormatInt (now / Second), FormatInt (now mod Second / 1000));
  (** A decimal integer is read as the nearest number; a number that was printed is
      read back. *)
  tonumber_int n : in_int64 n -> tonumber (FormatInt n) = Some (of_int n);
  tonumber_tostr x : is_float x -> Z.abs x <= 2 ^ 64 * one -> tonumber (tostr x) = Some x;
  (** Numbers become integers, cut toward zero; tables become slices; an error's
      message may get the prefix of the error code. *)
  reply_num x : exists n, reply (LNum x) = Ok (AInt n) /\ (Z.abs x < 2 ^ 63 * one -> n = to_int64 x);
  reply_str s : reply (LStr s) = Ok (AStr s);
  reply_table vs rs : Forall2 (fun v r => reply v = Ok r) vs rs -> reply (LTable vs) = Ok (AList rs);
  reply_err m : reply (LErr m) = Err m \/ reply (LErr m) = Err ("ERR " +:+ m)
}.

(** ** A database that satisfies the laws *)

Abbreviation Server := (gmap string (gmap string string * option Z)) (only parsing).

Definition overdue (now : Time) (e : option Z) : bool :=
  match e with Some t => t <? toUnixMilli now | None => false end.

Definition hash_at (now : Time) (d : Server) (k : string) : gmap string string :=
  match d !! k with
  | Some (h, e) => if overdue now e then ∅ else h
  | None => ∅
  end.

Definition ttl_of (d : Server) (k : string) : option Z := d !! k ≫= snd.

Definition set_fields (now : Time) (d : Server) (k : string) (kvs : list (string * string)) : Server :=
  let h := hash_at now d k in
  <[k := (put kvs h, if bool_decide (h = ∅) then None else ttl_of d k)]> d.

Definition set_ttl (now : Time) (d : Server) (k s : string) : Server :=
  let h := hash_at now d k in
  if bool_decide (h = ∅) then d
  else <[k := (h, Some (toUnixMilli now + (ParseInt s).1 * 1000))]> d.

(** Integers in decimal, other numbers as a count of the smallest unit. *)
Definition print_number (x : float64) : string :=
  let n := floorZ x in
  if bool_decide (n * one = x) && bool_decide (in_int64 n) then FormatInt n
  else String.String "u" (NilZero.string_of_int (Z.to_int x)).

Definition read_number (s : string) : option float64 :=
  match strip "u" s with
  | Some r => Z.of_int <$> NilZero.int_of_string r
  | None => match ParseInt s with (n, None) => Some (of_int n) | _ => None end
  end.

Fixpoint convert (v : lua) : result string any :=
  match v with
  | LNum x => Ok (AInt (to_int64 x))
  | LStr s => Ok (AStr s)
  | LErr m => Err m
  | LTable vs =>
      match (fix go vs := match vs with
                          | [] => Ok []
                          | v :: vs => match convert v, go vs with
                                       | Ok r, Ok rs => Ok (r :: rs)
                                       | Err e, _ | _, Err e => Err e
                                       end
                          end) vs with
      | Ok rs => Ok (AList rs)
      | Err e => Err e
      end
  end.

#[export] Instance Server_redis : Redis Server := {
  HMGET now d k fs := (fun f => hash_at now d k !! f) <$> fs;
  EXISTS now d k := if bool_decide (hash_at now d k = ∅) then 0 else 1;
  HMSET := set_fields;
  EXPIRE := set_ttl;
  TIME now := (FormatInt (now / Second), FormatInt (now mod Second / 1000));
  tonumber := read_number;
  tostr := print_number;
  reply := convert;
  contents := hash_at;
  deadline := ttl_of
}.

Lemma hash_at_insert now d k h e :
  hash_at now (<[k := (h, e)]> d) k = if overdue now e then ∅ else h.
Proof. unfold hash_at. rewrite lookup_insert_eq. reflexivity. Qed.

Lemma hash_at_insert_ne now d k k' x : k' <> k -> hash_at now (<[k := x]> d) k' = hash_at now d k'.
Proof. intros N. unfold hash_at. rewrite lookup_insert_ne by congruence. reflexivity. Qed.

Lemma ttl_insert d k h e : ttl_of (<[k := (h, e)]> d) k = e.
Proof. unfold ttl_of. rewrite lookup_insert_eq. reflexivity. Qed.

Lemma ttl_insert_ne d k k' x : k' <> k -> ttl_of (<[k := x]> d) k' = ttl_of d k'.
Proof. intros N. unfold ttl_of. rewrite lookup_insert_ne by congruence. reflexivity. Qed.

(** A hash with fields is not overdue. *)
Lemma hash_at_live now d k : hash_at now d k <> ∅ -> overdue now (ttl_of d k) = false.
Proof.
  unfold hash_at, ttl_of. destruct (d !! k) as [[h e]|]; cbn; [|congruence].
  destruct (overdue now e); congruence.
Qed.

Lemma read_FormatInt n : in_int64 n -> read_number (FormatInt n) = Some (of_int n).
Proof.
  intros H. unfold read_number.
  assert (S : strip "u" (FormatInt n) = None).
  { unfold FormatInt. destruct n as [|p|p]; try reflexivity.
    cbn [Z.to_int NilZero.string_of_int].
    pose proof (DecimalPos.Unsigned.to_uint_nonnil p).
    destruct (Pos.to_uint p); (congruence || reflexivity). }
  rewrite S, ParseInt_FormatInt by assumption. reflexivity.
Qed.

Lemma print_int n : Z.abs n <= 2 ^ 53 -> print_number (of_int n) = FormatInt n.
Proof.
  intros H. rewrite of_int_exact by assumption. unfold print_number. rewrite floorZ_int.
  rewrite bool_decide_eq_true_2 by reflexivity.
  rewrite bool_decide_eq_true_2 by (unfold in_int64, int64_min, int64_max; lia). reflexivity.
Qed.

Lemma read_print x : is_float x -> read_number (print_number x) = Some x.
Proof.
  intros F. unfold print_number. cbv zeta.
  destruct (bool_decide_reflect (floorZ x * one = x)) as [E|];
    [destruct (bool_decide_reflect (in_int64 (floorZ x))) as [I|]|]; cbn [andb].
  - rewrite read_FormatInt by exact I. f_equal. rewrite of_int_spec, E.
    rewrite <- (Z.mul_1_r x) at 1. apply rnd_exact; [lia|exact F].
  - unfold read_number. cbn [strip Ascii.eqb Bool.eqb]. rewrite NilZero.isi.
    + cbn. rewrite DecimalZ.of_to. reflexivity.
    + destruct x; cbn; try discriminate. intros [= H]. apply (DecimalPos.Unsigned.to_uint_nonnil _ H).
    + destruct x; cbn; try discriminate. intros [= H]. apply (DecimalPos.Unsigned.to_uint_nonnil _ H).
  - unfold read_number. cbn [strip Ascii.eqb Bool.eqb]. rewrite NilZero.isi.
    + cbn. rewrite DecimalZ.of_to. reflexivity.
    + destruct x; cbn; try discriminate. intros [= H]. apply (DecimalPos.Unsigned.to_uint_nonnil _ H).
    + destruct x; cbn; try discriminate. intros [= H]. apply (DecimalPos.Unsigned.to_uint_nonnil _ H).
Qed.

#[export] Instance Server_laws : RedisLaws Server.
Proof.
  split; cbn [HMGET EXISTS HMSET EXPIRE TIME tonumber tostr reply contents deadline Server_redis].
  - reflexivity.
  - reflexivity.
  - intros now now' d k H. unfold hash_at, ttl_of.
    destruct (d !! k) as [[h [t|]]|]; cbn; try reflexivity.
    destruct (Z.ltb_spec t (toUnixMilli now')), (Z.ltb_spec t (toUnixMilli now)); (reflexivity || lia).
  - intros. unfold set_fields. cbv zeta. rewrite hash_at_insert.
    case_bool_decide as E; [reflexivity|]. rewrite hash_at_live by exact E. reflexivity.
  - intros. unfold set_fields. cbv zeta. rewrite hash_at_insert_ne, ttl_insert_ne by assumption. auto.
  - intros. unfold set_fields. cbv zeta. apply ttl_insert.
  - intros now d k s n k' -> Hn. unfold set_ttl. cbv zeta. case_bool_decide as E; [reflexivity|].
    destruct (decide (k' = k)) as [->|N]; [|apply hash_at_insert_ne; assumption].
    rewrite hash_at_insert. cbn [overdue]. rewrite print_int, ParseInt_FormatInt by
      (unfold in_int64, int64_min, int64_max; lia). cbn [fst].
    destruct (Z.ltb_spec (toUnixMilli now + n * 1000) (toUnixMilli now)); [lia|reflexivity].
  - intros now d k s n -> Hn NE. unfold set_ttl. cbv zeta. rewrite bool_decide_eq_false_2 by exact NE.
    rewrite ttl_insert, print_int, ParseInt_FormatInt by (unfold in_int64, int64_min, int64_max; lia).
    reflexivity.
  - intros. unfold set_ttl. cbv zeta. case_bool_decide; [reflexivity|]. apply ttl_insert_ne. assumption.
  - reflexivity.
  - apply read_FormatInt.
  - intros x F _. apply read_print, F.
  - intros x. eexists. split; [reflexivity|]. intros _. reflexivity.
  - reflexivity.
  - intros vs rs F. cbn [convert].
    enough (E : (fix go vs := match vs with
                          | [] => Ok []
                          | v :: vs => match convert v, go vs with
                                       | Ok r, Ok rs => Ok (r :: rs)
                                       | Err e, _ | _, Err e => Err e
                                       end
                          end) vs = Ok rs) by (rewrite E; reflexivity).
    induction F as [|v r vs rs Hv _ IH]; [reflexivity|]. rewrite Hv, IH. reflexivity.
  - intros. left. reflexivity.
Qed.
