(* ===== verification/RedisScripts.v ===== *)
(** * RedisScripts: the Lua scripts of pkg/store/redis/lua

    A script is a program of the monad [Lua]: it reads the server's clock, which
    stands still while it runs, threads the database, and may stop with an error,
    keeping the writes it has made.  Lua numbers are binary64 numbers. *)

From stdpp Require Import base tactics numbers strings gmap list.
From Stdlib Require Import ZArith Lia.
From S2P Require Import Prelude GoFloat GoString Api RedisServer.

Declare Scope lua_scope.

Section Scripts.
Context {D : Type} `{Redis D}.

(** ** The monad *)

Definition Lua (A : Type) : Type := Time -> D -> D * result string A.

Definition lret {A} (x : A) : Lua A := fun _ d => (d, Ok x).
Definition lerror {A} (msg : string) : Lua A := fun _ d => (d, Err msg).
Definition lbind {A B} (m : Lua A) (f : A -> Lua B) : Lua B := fun now d =>
  let '(d, r) := m now d in
  match r with Ok x => f x now d | Err e => (d, Err e) end.

Notation "x <- m ;; k" := (lbind m (fun x => k))
  (at level 100, m at next level, right associativity) : lua_scope.
Notation "m ;;; k" := (lbind m (fun _ => k)) (at level 100, right associativity) : lua_scope.
#[local] Open Scope lua_scope.

(** ** redis.call *)

Definition hmget (key : string) (fields : list string) : Lua (list (option string)) :=
  fun now d => (d, Ok (HMGET now d key fields)).

Definition exists_ (key : string) : Lua Z := fun now d => (d, Ok (EXISTS now d key)).

Definition hmset (key : string) (kvs : list (string * string)) : Lua unit :=
  fun now d => (HMSET now d key kvs, Ok tt).

Definition expire (key : string) (ttl_sec : float64) : Lua unit :=
  fun now d => (EXPIRE now d key (tostr ttl_sec), Ok tt).

Definition time : Lua (string * string) := fun now d => (d, Ok (TIME now)).

(** ** Lua *)

(** A number used in arithmetic or a comparison; using nil is an error. *)
Definition number (x : option float64) : Lua float64 :=
  match x with
  | Some x => lret x
  | None => lerror "attempt to perform arithmetic on a nil value"
  end.

(** [tonumber] of a reply of [HMGET], in which a missing field is [false]. *)
Definition tonum (v : option string) : option float64 := v ≫= tonumber.

(** [tonumber(v) or 0] *)
Definition tonum0 (v : option string) : float64 := default 0 (tonum v).

(** [math.min] and [math.max] of two numbers. *)
Definition math_min (x y : float64) : float64 := if y <? x then y else x.
Definition math_max (x y : float64) : float64 := if x <? y then y else x.

(** An integer literal. *)
Definition int (n : Z) : lua := LNum (of_int n).

(** ** The functions every script declares *)

Definition read_now : Lua float64 :=
  t <- time ;;
  s <- number (tonumber t.1) ;;
  us <- number (tonumber t.2) ;;
  lret (fadd (fmul s (of_int 1000)) (ffloor (fdiv us (of_int 1000)))).

Definition refill (now_ms : float64) (key : string) (capacity : float64) : Lua float64 :=
  data <- hmget key ["tokens"; "last_ms"] ;;
  match tonum (data !!! 0%nat), tonum (data !!! 1%nat) with
  | Some tokens, Some last_ms =>
      if (last_ms <? now_ms) && (0 <? capacity) then
        let elapsed := fdiv (fsub now_ms last_ms) (of_int 1000) in
        let rate := fdiv capacity (of_int 60) in
        lret (math_min capacity (fadd tokens (fmul elapsed rate)))
      else lret tokens
  | _, _ => lret capacity
  end.

Definition remaining (tokens : float64) : float64 := ffloor tokens.

Definition retry_after_ms (tokens capacity need : float64) : float64 :=
  if capacity <=? 0 then of_int 3600000
  else
    let rate := fdiv capacity (of_int 60) in
    let deficit := fsub need tokens in
    if deficit <=? 0 then 0
    else fmul (fceil (fdiv deficit rate)) (of_int 1000).

Definition reset_ms (now_ms tokens capacity : float64) : float64 :=
  if capacity <=? 0 then now_ms
  else
    let rate := fdiv capacity (of_int 60) in
    let need := fsub capacity tokens in
    if need <=? 0 then now_ms
    else fadd now_ms (fceil (fmul (fdiv need rate) (of_int 1000))).

(** [if x < 0 then x = 0 end] *)
Definition clamp0 (x : float64) : float64 := if x <? 0 then 0 else x.

(** [redis.call('HMSET', key, 'tokens', tokens, 'last_ms', now_ms)] *)
Definition save (now_ms : float64) (key : string) (tokens : float64) : Lua unit :=
  hmset key [("tokens", tostr tokens); ("last_ms", tostr now_ms)].

(** [KEYS] or [ARGV] of another length: the Go code passes the length the script
    reads. *)
Definition arity {A} : Lua A := lerror "wrong number of arguments".

(** ** check.lua *)

Definition check_lua (KEYS ARGV : list string) : Lua lua :=
  match KEYS, ARGV with
  | [rpm_key; tpm_key; res_key], [a1; a2; a3; a4; a5; subject; model] =>
      limit_rpm <- number (tonumber a1) ;;
      limit_tpm <- number (tonumber a2) ;;
      cost_rpm <- number (tonumber a3) ;;
      cost_tpm <- number (tonumber a4) ;;
      ttl_sec <- number (tonumber a5) ;;
      now_ms <- read_now ;;
      let cost_rpm := clamp0 cost_rpm in
      let cost_tpm := clamp0 cost_tpm in
      rpm_tokens <- refill now_ms rpm_key limit_rpm ;;
      tpm_tokens <- refill now_ms tpm_key limit_tpm ;;
      if (rpm_tokens <? cost_rpm) || (limit_rpm <? cost_rpm) then
        let ra := retry_after_ms rpm_tokens limit_rpm cost_rpm in
        lret (LTable [int 0; LStr "requests"; LNum (remaining rpm_tokens); LNum (remaining tpm_tokens);
          LNum ra; LNum (reset_ms now_ms rpm_tokens limit_rpm);
          LNum (reset_ms now_ms tpm_tokens limit_tpm); int 0])
      else if (tpm_tokens <? cost_tpm) || (limit_tpm <? cost_tpm) then
        let ra := retry_after_ms tpm_tokens limit_tpm cost_tpm in
        lret (LTable [int 0; LStr "tokens"; LNum (remaining rpm_tokens); LNum (remaining tpm_tokens);
          LNum ra; LNum (reset_ms now_ms rpm_tokens limit_rpm);
          LNum (reset_ms now_ms tpm_tokens limit_tpm); int 0])
      else
      let rpm_tokens := fsub rpm_tokens cost_rpm in
      let tpm_tokens := fsub tpm_tokens cost_tpm in
      save now_ms rpm_key rpm_tokens ;;;
      save now_ms tpm_key tpm_tokens ;;;
      hmset res_key
        [("subject", subject); ("model", model); ("mode", "classic");
         ("rpm_cost", tostr cost_rpm); ("tpm_reserved", tostr cost_tpm);
         ("limit_rpm", tostr limit_rpm); ("limit_tpm", tostr limit_tpm);
         ("status", "pending"); ("created_ms", tostr now_ms)] ;;;
      expire res_key ttl_sec ;;;
      lret (LTable [int 1; LStr ""; LNum (remaining rpm_tokens); LNum (remaining tpm_tokens); int 0;
        LNum (reset_ms now_ms rpm_tokens limit_rpm); LNum (reset_ms now_ms tpm_tokens limit_tpm); int 0])
  | _, _ => arity
  end.

(** ** check_io.lua *)

Definition check_io_lua (KEYS ARGV : list string) : Lua lua :=
  match KEYS, ARGV with
  | [rpm_key; itpm_key; otpm_key; res_key], [a1; a2; a3; a4; a5; a6; a7; subject; model] =>
      limit_rpm <- number (tonumber a1) ;;
      limit_itpm <- number (tonumber a2) ;;
      limit_otpm <- number (tonumber a3) ;;
      cost_rpm <- number (tonumber a4) ;;
      cost_itpm <- number (tonumber a5) ;;
      cost_otpm <- number (tonumber a6) ;;
      ttl_sec <- number (tonumber a7) ;;
      now_ms <- read_now ;;
      let cost_rpm := clamp0 cost_rpm in
      let cost_itpm := clamp0 cost_itpm in
      let cost_otpm := clamp0 cost_otpm in
      rpm_tokens <- refill now_ms rpm_key limit_rpm ;;
      itpm_tokens <- refill now_ms itpm_key limit_itpm ;;
      otpm_tokens <- refill now_ms otpm_key limit_otpm ;;
      let denied kind ra :=
        LTable [int 0; LStr kind; LNum (remaining rpm_tokens); LNum (remaining itpm_tokens);
          LNum (remaining otpm_tokens); LNum ra; LNum (reset_ms now_ms rpm_tokens limit_rpm);
          LNum (reset_ms now_ms itpm_tokens limit_itpm); LNum (reset_ms now_ms otpm_tokens limit_otpm)] in
      if (rpm_tokens <? cost_rpm) || (limit_rpm <? cost_rpm) then
        lret (denied "requests" (retry_after_ms rpm_tokens limit_rpm cost_rpm))
      else if (itpm_tokens <? cost_itpm) || (limit_itpm <? cost_itpm) then
        lret (denied "input_tokens" (retry_after_ms itpm_tokens limit_itpm cost_itpm))
      else if (otpm_tokens <? cost_otpm) || (limit_otpm <? cost_otpm) then
        lret (denied "output_tokens" (retry_after_ms otpm_tokens limit_otpm cost_otpm))
      else
      let rpm_tokens := fsub rpm_tokens cost_rpm in
      let itpm_tokens := fsub itpm_tokens cost_itpm in
      let otpm_tokens := fsub otpm_tokens cost_otpm in
      save now_ms rpm_key rpm_tokens ;;;
      save now_ms itpm_key itpm_tokens ;;;
      save now_ms otpm_key otpm_tokens ;;;
      hmset res_key
        [("subject", subject); ("model", model); ("mode", "split");
         ("rpm_cost", tostr cost_rpm); ("itpm_reserved", tostr cost_itpm);
         ("otpm_reserved", tostr cost_otpm); ("limit_rpm", tostr limit_rpm);
         ("limit_itpm", tostr limit_itpm); ("limit_otpm", tostr limit_otpm);
         ("status", "pending"); ("created_ms", tostr now_ms)] ;;;
      expire res_key ttl_sec ;;;
      lret (LTable [int 1; LStr ""; LNum (remaining rpm_tokens); LNum (remaining itpm_tokens);
        LNum (remaining otpm_tokens); int 0; LNum (reset_ms now_ms rpm_tokens limit_rpm);
        LNum (reset_ms now_ms itpm_tokens limit_itpm); LNum (reset_ms now_ms otpm_tokens limit_otpm)])
  | _, _ => arity
  end.

(** ** settle.lua *)

(** [status == 'settled'] on a reply of [HMGET]. *)
Definition holds_text (v : option string) (s : string) : bool := bool_decide (v = Some s).

(** The reconciliation of one axis: the new balance and the overshoot. *)
Definition apply_delta (tokens capacity reserved actual : float64) : float64 * float64 :=
  let delta := fsub reserved actual in
  if 0 <? delta then (math_min capacity (fadd tokens delta), 0)
  else if delta <? 0 then
    let need := - delta in
    let avail := ffloor tokens in
    if need <=? avail then (fsub tokens need, 0)
    else
      let tokens := fsub tokens avail in
      (if tokens <? 0 then 0 else tokens, fsub need avail)
  else (tokens, 0).

Definition settle_lua (KEYS ARGV : list string) : Lua lua :=
  match KEYS, ARGV with
  | [res_key; rpm_key; tpm_key], [a1; a2] =>
      actual <- number (tonumber a1) ;;
      ttl_sec <- number (tonumber a2) ;;
      found <- exists_ res_key ;;
      if found =? 0 then lret (LErr "reservation not found")
      else
      fields <- hmget res_key
        ["status"; "subject"; "model"; "rpm_cost"; "tpm_reserved"; "limit_rpm"; "limit_tpm";
         "snap_allowed"; "snap_remaining_rpm"; "snap_remaining_tpm"; "snap_overshoot"; "mode"] ;;
      let status := fields !!! 0%nat in
      let mode := fields !!! 11%nat in
      if holds_text mode "split" then lret (LErr "wrong settle mode for reservation")
      else if holds_text status "settled" then
        lret (LTable [int 1; LStr ""; LNum (tonum0 (fields !!! 8%nat)); LNum (tonum0 (fields !!! 9%nat));
          int 0; int 0; int 0; LNum (tonum0 (fields !!! 10%nat));
          LNum (tonum0 (fields !!! 5%nat)); LNum (tonum0 (fields !!! 6%nat))])
      else if holds_text status "refunded" then lret (LErr "reservation already refunded")
      else
      let actual := clamp0 actual in
      tpm_reserved <- number (tonum (fields !!! 4%nat)) ;;
      limit_rpm <- number (tonum (fields !!! 5%nat)) ;;
      limit_tpm <- number (tonum (fields !!! 6%nat)) ;;
      now_ms <- read_now ;;
      rpm_tokens <- refill now_ms rpm_key limit_rpm ;;
      tpm_tokens <- refill now_ms tpm_key limit_tpm ;;
      let '(tpm_tokens, overshoot) := apply_delta tpm_tokens limit_tpm tpm_reserved actual in
      save now_ms tpm_key tpm_tokens ;;;
      save now_ms rpm_key rpm_tokens ;;;
      let rem_rpm := remaining rpm_tokens in
      let rem_tpm := remaining tpm_tokens in
      hmset res_key
        [("status", "settled"); ("snap_allowed", tostr (of_int 1));
         ("snap_remaining_rpm", tostr rem_rpm); ("snap_remaining_tpm", tostr rem_tpm);
         ("snap_overshoot", tostr overshoot)] ;;;
      expire res_key ttl_sec ;;;
      lret (LTable [int 1; LStr ""; LNum rem_rpm; LNum rem_tpm; int 0;
        LNum (reset_ms now_ms rpm_tokens limit_rpm); LNum (reset_ms now_ms tpm_tokens limit_tpm);
        LNum overshoot; LNum limit_rpm; LNum limit_tpm])
  | _, _ => arity
  end.

(** ** settle_io.lua *)

Definition settle_io_lua (KEYS ARGV : list string) : Lua lua :=
  match KEYS, ARGV with
  | [res_key; rpm_key; itpm_key; otpm_key], [a1; a2; a3] =>
      actual_in <- number (tonumber a1) ;;
      actual_out <- number (tonumber a2) ;;
      ttl_sec <- number (tonumber a3) ;;
      found <- exists_ res_key ;;
      if found =? 0 then lret (LErr "reservation not found")
      else
      fields <- hmget res_key
        ["status"; "mode"; "itpm_reserved"; "otpm_reserved"; "limit_rpm"; "limit_itpm"; "limit_otpm";
         "snap_remaining_rpm"; "snap_remaining_itpm"; "snap_remaining_otpm";
         "snap_overshoot_itpm"; "snap_overshoot_otpm"] ;;
      let status := fields !!! 0%nat in
      let mode := fields !!! 1%nat in
      if negb (holds_text mode "split") then lret (LErr "wrong settle mode for reservation")
      else if holds_text status "settled" then
        lret (LTable [int 1; LStr ""; LNum (tonum0 (fields !!! 7%nat)); LNum (tonum0 (fields !!! 8%nat));
          LNum (tonum0 (fields !!! 9%nat)); int 0; int 0; int 0; int 0;
          LNum (tonum0 (fields !!! 10%nat)); LNum (tonum0 (fields !!! 11%nat));
          LNum (tonum0 (fields !!! 4%nat)); LNum (tonum0 (fields !!! 5%nat));
          LNum (tonum0 (fields !!! 6%nat))])
      else if holds_text status "refunded" then lret (LErr "reservation already refunded")
      else
      let actual_in := clamp0 actual_in in
      let actual_out := clamp0 actual_out in
      itpm_reserved <- number (tonum (fields !!! 2%nat)) ;;
      otpm_reserved <- number (tonum (fields !!! 3%nat)) ;;
      limit_rpm <- number (tonum (fields !!! 4%nat)) ;;
      limit_itpm <- number (tonum (fields !!! 5%nat)) ;;
      limit_otpm <- number (tonum (fields !!! 6%nat)) ;;
      now_ms <- read_now ;;
      rpm_tokens <- refill now_ms rpm_key limit_rpm ;;
      itpm_tokens <- refill now_ms itpm_key limit_itpm ;;
      otpm_tokens <- refill now_ms otpm_key limit_otpm ;;
      let '(itpm_tokens, over_in) := apply_delta itpm_tokens limit_itpm itpm_reserved actual_in in
      let '(otpm_tokens, over_out) := apply_delta otpm_tokens limit_otpm otpm_reserved actual_out in
      save now_ms rpm_key rpm_tokens ;;;
      save now_ms itpm_key itpm_tokens ;;;
      save now_ms otpm_key otpm_tokens ;;;
      let rem_rpm := remaining rpm_tokens in
      let rem_itpm := remaining itpm_tokens in
      let rem_otpm := remaining otpm_tokens in
      hmset res_key
        [("status", "settled"); ("snap_remaining_rpm", tostr rem_rpm);
         ("snap_remaining_itpm", tostr rem_itpm); ("snap_remaining_otpm", tostr rem_otpm);
         ("snap_overshoot_itpm", tostr over_in); ("snap_overshoot_otpm", tostr over_out)] ;;;
      expire res_key ttl_sec ;;;
      lret (LTable [int 1; LStr ""; LNum rem_rpm; LNum rem_itpm; LNum rem_otpm; int 0;
        LNum (reset_ms now_ms rpm_tokens limit_rpm); LNum (reset_ms now_ms itpm_tokens limit_itpm);
        LNum (reset_ms now_ms otpm_tokens limit_otpm); LNum over_in; LNum over_out;
        LNum limit_rpm; LNum limit_itpm; LNum limit_otpm])
  | _, _ => arity
  end.

(** ** refund.lua, refund_io.lua *)

Definition refund_lua (KEYS ARGV : list string) : Lua lua :=
  match KEYS, ARGV with
  | [res_key; rpm_key; tpm_key], [a1] =>
      ttl_sec <- number (tonumber a1) ;;
      found <- exists_ res_key ;;
      if found =? 0 then lret (LErr "reservation not found")
      else
      fields <- hmget res_key ["status"; "rpm_cost"; "tpm_reserved"; "limit_rpm"; "limit_tpm"; "mode"] ;;
      let status := fields !!! 0%nat in
      if holds_text status "refunded" then lret (LTable [int 1])
      else if holds_text status "settled" then lret (LErr "reservation already settled")
      else if holds_text (fields !!! 5%nat) "split" then lret (LErr "wrong settle mode for reservation")
      else
      rpm_cost <- number (tonum (fields !!! 1%nat)) ;;
      tpm_reserved <- number (tonum (fields !!! 2%nat)) ;;
      limit_rpm <- number (tonum (fields !!! 3%nat)) ;;
      limit_tpm <- number (tonum (fields !!! 4%nat)) ;;
      now_ms <- read_now ;;
      rpm_tokens <- refill now_ms rpm_key limit_rpm ;;
      tpm_tokens <- refill now_ms tpm_key limit_tpm ;;
      let rpm_tokens := math_min limit_rpm (fadd rpm_tokens rpm_cost) in
      let tpm_tokens := math_min limit_tpm (fadd tpm_tokens tpm_reserved) in
      save now_ms rpm_key rpm_tokens ;;;
      save now_ms tpm_key tpm_tokens ;;;
      hmset res_key [("status", "refunded")] ;;;
      expire res_key ttl_sec ;;;
      lret (LTable [int 1])
  | _, _ => arity
  end.

Definition refund_io_lua (KEYS ARGV : list string) : Lua lua :=
  match KEYS, ARGV with
  | [res_key; rpm_key; itpm_key; otpm_key], [a1] =>
      ttl_sec <- number (tonumber a1) ;;
      found <- exists_ res_key ;;
      if found =? 0 then lret (LErr "reservation not found")
      else
      fields <- hmget res_key
        ["status"; "mode"; "rpm_cost"; "itpm_reserved"; "otpm_reserved";
         "limit_rpm"; "limit_itpm"; "limit_otpm"] ;;
      let status := fields !!! 0%nat in
      if holds_text status "refunded" then lret (int 1)
      else if holds_text status "settled" then lret (LErr "reservation already settled")
      else if negb (holds_text (fields !!! 1%nat) "split") then lret (LErr "wrong settle mode for reservation")
      else
      let rpm_cost := tonum0 (fields !!! 2%nat) in
      let itpm_reserved := tonum0 (fields !!! 3%nat) in
      let otpm_reserved := tonum0 (fields !!! 4%nat) in
      limit_rpm <- number (tonum (fields !!! 5%nat)) ;;
      limit_itpm <- number (tonum (fields !!! 6%nat)) ;;
      limit_otpm <- number (tonum (fields !!! 7%nat)) ;;
      now_ms <- read_now ;;
      rpm_tokens <- refill now_ms rpm_key limit_rpm ;;
      itpm_tokens <- refill now_ms itpm_key limit_itpm ;;
      otpm_tokens <- refill now_ms otpm_key limit_otpm ;;
      let rpm_tokens := math_min limit_rpm (fadd rpm_tokens rpm_cost) in
      let itpm_tokens := math_min limit_itpm (fadd itpm_tokens itpm_reserved) in
      let otpm_tokens := math_min limit_otpm (fadd otpm_tokens otpm_reserved) in
      save now_ms rpm_key rpm_tokens ;;;
      save now_ms itpm_key itpm_tokens ;;;
      save now_ms otpm_key otpm_tokens ;;;
      hmset res_key [("status", "refunded")] ;;;
      expire res_key ttl_sec ;;;
      lret (int 1)
  | _, _ => arity
  end.

(** ** borrow.lua, borrow_io.lua *)

Definition borrow_lua (KEYS ARGV : list string) : Lua lua :=
  match KEYS, ARGV with
  | [rpm_key; tpm_key], [a1; a2; a3; a4; a5; a6] =>
      limit_rpm <- number (tonumber a1) ;;
      limit_tpm <- number (tonumber a2) ;;
      min_rpm <- number (tonumber a3) ;;
      min_tpm <- number (tonumber a4) ;;
      chunk_rpm <- number (tonumber a5) ;;
      chunk_tpm <- number (tonumber a6) ;;
      let min_rpm := clamp0 min_rpm in
      let min_tpm := clamp0 min_tpm in
      let chunk_rpm := clamp0 chunk_rpm in
      let chunk_tpm := clamp0 chunk_tpm in
      now_ms <- read_now ;;
      rpm_tokens <- refill now_ms rpm_key limit_rpm ;;
      tpm_tokens <- refill now_ms tpm_key limit_tpm ;;
      let avail_rpm := ffloor rpm_tokens in
      let avail_tpm := ffloor tpm_tokens in
      if avail_rpm <? min_rpm then
        let ra := retry_after_ms rpm_tokens limit_rpm min_rpm in
        lret (LTable [int 0; LStr "requests"; int 0; int 0; LNum avail_rpm; LNum avail_tpm; LNum ra])
      else if avail_tpm <? min_tpm then
        let ra := retry_after_ms tpm_tokens limit_tpm min_tpm in
        lret (LTable [int 0; LStr "tokens"; int 0; int 0; LNum avail_rpm; LNum avail_tpm; LNum ra])
      else
      let want_rpm := math_max min_rpm chunk_rpm in
      let want_tpm := math_max min_tpm chunk_tpm in
      let got_rpm := math_min avail_rpm want_rpm in
      let got_tpm := math_min avail_tpm want_tpm in
      let rpm_tokens := fsub rpm_tokens got_rpm in
      let tpm_tokens := fsub tpm_tokens got_tpm in
      save now_ms rpm_key rpm_tokens ;;;
      save now_ms tpm_key tpm_tokens ;;;
      lret (LTable [int 1; LStr ""; LNum got_rpm; LNum got_tpm; LNum (remaining rpm_tokens);
        LNum (remaining tpm_tokens); int 0])
  | _, _ => arity
  end.

Definition want_got (avail minv chunk : float64) : float64 :=
  let want := minv in
  let want := if want <? chunk then chunk else want in
  if avail <? want then avail else want.

Definition borrow_io_lua (KEYS ARGV : list string) : Lua lua :=
  match KEYS, ARGV with
  | [rpm_key; itpm_key; otpm_key], [a1; a2; a3; a4; a5; a6; a7; a8; a9] =>
      limit_rpm <- number (tonumber a1) ;;
      limit_itpm <- number (tonumber a2) ;;
      limit_otpm <- number (tonumber a3) ;;
      min_rpm <- number (tonumber a4) ;;
      min_itpm <- number (tonumber a5) ;;
      min_otpm <- number (tonumber a6) ;;
      chunk_rpm <- number (tonumber a7) ;;
      chunk_itpm <- number (tonumber a8) ;;
      chunk_otpm <- number (tonumber a9) ;;
      now_ms <- read_now ;;
      let min_rpm := clamp0 min_rpm in
      let min_itpm := clamp0 min_itpm in
      let min_otpm := clamp0 min_otpm in
      let chunk_rpm := clamp0 chunk_rpm in
      let chunk_itpm := clamp0 chunk_itpm in
      let chunk_otpm := clamp0 chunk_otpm in
      rpm_tokens <- refill now_ms rpm_key limit_rpm ;;
      itpm_tokens <- refill now_ms itpm_key limit_itpm ;;
      otpm_tokens <- refill now_ms otpm_key limit_otpm ;;
      let avail_rpm := remaining rpm_tokens in
      let avail_itpm := remaining itpm_tokens in
      let avail_otpm := remaining otpm_tokens in
      let denied kind ra :=
        LTable [int 0; LStr kind; int 0; int 0; int 0; LNum avail_rpm; LNum avail_itpm;
          LNum avail_otpm; LNum ra] in
      if avail_rpm <? min_rpm then
        lret (denied "requests" (retry_after_ms rpm_tokens limit_rpm min_rpm))
      else if avail_itpm <? min_itpm then
        lret (denied "input_tokens" (retry_after_ms itpm_tokens limit_itpm min_itpm))
      else if avail_otpm <? min_otpm then
        lret (denied "output_tokens" (retry_after_ms otpm_tokens limit_otpm min_otpm))
      else
      let got_rpm := want_got avail_rpm min_rpm chunk_rpm in
      let got_itpm := want_got avail_itpm min_itpm chunk_itpm in
      let got_otpm := want_got avail_otpm min_otpm chunk_otpm in
      let rpm_tokens := fsub rpm_tokens got_rpm in
      let itpm_tokens := fsub itpm_tokens got_itpm in
      let otpm_tokens := fsub otpm_tokens got_otpm in
      save now_ms rpm_key rpm_tokens ;;;
      save now_ms itpm_key itpm_tokens ;;;
      save now_ms otpm_key otpm_tokens ;;;
      lret (LTable [int 1; LStr ""; LNum got_rpm; LNum got_itpm; LNum got_otpm;
        LNum (remaining rpm_tokens); LNum (remaining itpm_tokens); LNum (remaining otpm_tokens); int 0])
  | _, _ => arity
  end.

(** ** return.lua, return_io.lua *)

Definition return_lua (KEYS ARGV : list string) : Lua lua :=
  match KEYS, ARGV with
  | [rpm_key; tpm_key], [a1; a2; a3; a4] =>
      limit_rpm <- number (tonumber a1) ;;
      limit_tpm <- number (tonumber a2) ;;
      add_rpm <- number (tonumber a3) ;;
      add_tpm <- number (tonumber a4) ;;
      let add_rpm := clamp0 add_rpm in
      let add_tpm := clamp0 add_tpm in
      now_ms <- read_now ;;
      rpm_tokens <- refill now_ms rpm_key limit_rpm ;;
      tpm_tokens <- refill now_ms tpm_key limit_tpm ;;
      let rpm_tokens := math_min limit_rpm (fadd rpm_tokens add_rpm) in
      let tpm_tokens := math_min limit_tpm (fadd tpm_tokens add_tpm) in
      save now_ms rpm_key rpm_tokens ;;;
      save now_ms tpm_key tpm_tokens ;;;
      lret (LTable [int 1; LNum (ffloor rpm_tokens); LNum (ffloor tpm_tokens)])
  | _, _ => arity
  end.

Definition return_io_lua (KEYS ARGV : list string) : Lua lua :=
  match KEYS, ARGV with
  | [rpm_key; itpm_key; otpm_key], [a1; a2; a3; a4; a5; a6] =>
      limit_rpm <- number (tonumber a1) ;;
      limit_itpm <- number (tonumber a2) ;;
      limit_otpm <- number (tonumber a3) ;;
      add_rpm <- number (tonumber a4) ;;
      add_itpm <- number (tonumber a5) ;;
      add_otpm <- number (tonumber a6) ;;
      let add_rpm := clamp0 add_rpm in
      let add_itpm := clamp0 add_itpm in
      let add_otpm := clamp0 add_otpm in
      if (add_rpm =? 0) && (add_itpm =? 0) && (add_otpm =? 0) then lret (int 1)
      else
      now_ms <- read_now ;;
      rpm_tokens <- refill now_ms rpm_key limit_rpm ;;
      itpm_tokens <- refill now_ms itpm_key limit_itpm ;;
      otpm_tokens <- refill now_ms otpm_key limit_otpm ;;
      let rpm_tokens := math_min limit_rpm (fadd rpm_tokens add_rpm) in
      let itpm_tokens := math_min limit_itpm (fadd itpm_tokens add_itpm) in
      let otpm_tokens := math_min limit_otpm (fadd otpm_tokens add_otpm) in
      save now_ms rpm_key rpm_tokens ;;;
      save now_ms itpm_key itpm_tokens ;;;
      save now_ms otpm_key otpm_tokens ;;;
      lret (int 1)
  | _, _ => arity
  end.
End Scripts.
