(* ===== verification/Redis.v ===== *)
(** * Redis: the Redis-backed store of pkg/store/redis/redis.go

    Each method builds the keys and arguments of a script, runs it on the server
    and parses what the client returns.  [Settle], [SettleIO] and [Refund] make two
    round trips: they read the reservation's mode and key, then run the script; the
    second half is a definition of its own, since other clients may run in between.
    A client that cannot reach its server is not modelled. *)

From stdpp Require Import base tactics numbers strings gmap list.
From Stdlib Require Import ZArith Lia.
From S2P Require Import Prelude GoFloat GoString Api Store RedisServer RedisScripts.

(** ** Keys *)

Definition modelOrDash (model : string) : string := if decide (model = "") then "-" else model.

Definition base_key (key : Key) : string :=
  "rl:{{{" +:+ Subject key +:+ "}}}:" +:+ modelOrDash (Model key).

Definition bucketKeys (key : Key) : string * string :=
  let base := base_key key in (base +:+ ":rpm", base +:+ ":tpm").

Definition bucketKeysIO (key : Key) : string * string * string :=
  let base := base_key key in (base +:+ ":rpm", base +:+ ":itpm", base +:+ ":otpm").

Definition reservationKey (id : string) : string := "rl:res:" +:+ id.

(** ** Parsing replies *)

Definition toInt64 (v : any) : Z :=
  match v with
  | AInt x => x
  | AStr x => (ParseInt x).1
  | AList _ => 0
  end.

(** [fmt.Sprint] *)
Fixpoint Sprint (v : any) : string :=
  match v with
  | AInt n => FormatInt n
  | AStr s => s
  | AList vs => "[" +:+ String.concat " " (map Sprint vs) +:+ "]"
  end.

Definition toString (v : any) : string := match v with AStr x => x | _ => Sprint v end.

(** [arr, ok := raw.([]any); !ok || len(arr) < n] *)
Definition array (n : nat) (what : string) (raw : any) : res (list any) :=
  match raw with
  | AList arr => if (length arr <? n)%nat then Err (ErrOther ("valve: unexpected " +:+ what +:+ " response"))
                 else Ok arr
  | _ => Err (ErrOther ("valve: unexpected " +:+ what +:+ " response"))
  end.

#[local] Instance any_inhabited : Inhabited any := populate (AInt 0).

Definition int_at (arr : list any) (i : nat) : Z := toInt64 (arr !!! i).
Definition ms_at (arr : list any) (i : nat) : Duration := wrap64 (int_at arr i * Millisecond).
Definition time_at (arr : list any) (i : nat) : Time := UnixMilli (int_at arr i).

Definition parseDecision (raw : any) (limits : Limits) (reservationID : string) : res Decision :=
  match array 7 "check" raw with
  | Err e => Err e
  | Ok arr =>
      let allowed := int_at arr 0 =? 1 in
      let dec := zeroDecision
        <| Allowed := allowed |>
        <| LimitType := toString (arr !!! 1%nat) |>
        <| RemainingRPM := int_at arr 2 |>
        <| RemainingTPM := int_at arr 3 |>
        <| RetryAfter := ms_at arr 4 |>
        <| ResetRPM := time_at arr 5 |>
        <| ResetTPM := time_at arr 6 |>
        <| LimitRPM := RequestsPerMinute limits |>
        <| LimitTPM := TokensPerMinute limits |> in
      Ok (if allowed
          then dec <| ReservationID := reservationID |> <| LimitType := LimitTypeNone |>
          else dec)
  end.

Definition parseDecisionIO (raw : any) (limits : Limits) (reservationID : string) : res Decision :=
  match array 9 "check_io" raw with
  | Err e => Err e
  | Ok arr =>
      let allowed := int_at arr 0 =? 1 in
      let dec := zeroDecision
        <| Allowed := allowed |>
        <| LimitType := toString (arr !!! 1%nat) |>
        <| RemainingRPM := int_at arr 2 |>
        <| RemainingITPM := int_at arr 3 |>
        <| RemainingOTPM := int_at arr 4 |>
        <| RemainingTPM := int_at arr 4 |>
        <| RetryAfter := ms_at arr 5 |>
        <| ResetRPM := time_at arr 6 |>
        <| ResetITPM := time_at arr 7 |>
        <| ResetOTPM := time_at arr 8 |>
        <| ResetTPM := time_at arr 8 |>
        <| LimitRPM := RequestsPerMinute limits |>
        <| LimitITPM := InputTokensPerMinute limits |>
        <| LimitOTPM := OutputTokensPerMinute limits |>
        <| LimitTPM := OutputTokensPerMinute limits |> in
      Ok (if allowed
          then dec <| ReservationID := reservationID |> <| LimitType := LimitTypeNone |>
          else dec)
  end.

Definition parseSettle (raw : any) (reservationID : string) : res Decision :=
  match array 8 "settle" raw with
  | Err e => Err e
  | Ok arr =>
      let dec := zeroDecision
        <| Allowed := int_at arr 0 =? 1 |>
        <| LimitType := toString (arr !!! 1%nat) |>
        <| RemainingRPM := int_at arr 2 |>
        <| RemainingTPM := int_at arr 3 |>
        <| RetryAfter := ms_at arr 4 |>
        <| ResetRPM := time_at arr 5 |>
        <| ResetTPM := time_at arr 6 |>
        <| OvershootTPM := int_at arr 7 |>
        <| ReservationID := reservationID |> in
      Ok (if (10 <=? length arr)%nat
          then dec <| LimitRPM := int_at arr 8 |> <| LimitTPM := int_at arr 9 |>
          else dec)
  end.

Definition parseSettleIO (raw : any) (reservationID : string) : res Decision :=
  match array 11 "settle_io" raw with
  | Err e => Err e
  | Ok arr =>
      let dec := zeroDecision
        <| Allowed := int_at arr 0 =? 1 |>
        <| LimitType := toString (arr !!! 1%nat) |>
        <| RemainingRPM := int_at arr 2 |>
        <| RemainingITPM := int_at arr 3 |>
        <| RemainingOTPM := int_at arr 4 |>
        <| RemainingTPM := int_at arr 4 |>
        <| RetryAfter := ms_at arr 5 |>
        <| ResetRPM := time_at arr 6 |>
        <| ResetITPM := time_at arr 7 |>
        <| ResetOTPM := time_at arr 8 |>
        <| ResetTPM := time_at arr 8 |>
        <| OvershootITPM := int_at arr 9 |>
        <| OvershootOTPM := int_at arr 10 |>
        <| ReservationID := reservationID |> in
      Ok (if (14 <=? length arr)%nat
          then dec <| LimitRPM := int_at arr 11 |>
                   <| LimitITPM := int_at arr 12 |>
                   <| LimitOTPM := int_at arr 13 |>
                   <| LimitTPM := int_at arr 13 |>
          else dec)
  end.

Definition mapResErr (err : error) : error :=
  let msg := errMsg err in
  if Contains msg "reservation not found" then ErrReservationNotFound
  else if Contains msg "reservation already settled" then ErrReservationSettled
  else if Contains msg "reservation already refunded" then ErrReservationRefunded
  else if Contains msg "wrong settle mode" then ErrWrongSettleMode
  else err.

(** ** The methods *)

Section Methods.
Context {D : Type} `{Redis D}.

(** [script.Run(ctx, rdb, keys, args).Result()] *)
Definition run (script : list string -> list string -> Lua lua) (keys args : list string)
    (now : Time) (d : D) : D * res any :=
  let '(d, r) := script keys args now d in
  (d, match r with
      | Err msg => Err (ErrOther msg)
      | Ok v => match reply v with Ok raw => Ok raw | Err msg => Err (ErrOther msg) end
      end).

(** [int(store.ReservationTTL.Seconds())] *)
Definition ttl_seconds : Z := ReservationTTL / Second.

(** The mode and the key of a reservation. *)
Definition reservationMode (now : Time) (d : D) (reservationID : string) : res (string * Key) :=
  let vals := HMGET now d (reservationKey reservationID) ["subject"; "model"; "mode"] in
  match vals !!! 0%nat with
  | None => Err ErrReservationNotFound
  | Some subject =>
      let model := default "" (vals !!! 1%nat) in
      let mode := default "" (vals !!! 2%nat) in
      Ok (if decide (mode = "") then "classic" else mode, mkKey subject model)
  end.

Definition Check (now : Time) (d : D) (key : Key) (limits : Limits) (cost : Cost)
    (reservationID : string) : D * res Decision :=
  match Validate limits with
  | Some err => (d, Err err)
  | None =>
      if decide (Subject key = "") then (d, Err (ErrInvalid "subject required"))
      else if decide (reservationID = "") then (d, Err (ErrInvalid "reservation id required"))
      else if Split limits then
        let '(rpmKey, itpmKey, otpmKey) := bucketKeysIO key in
        let '(d, raw) := run check_io_lua [rpmKey; itpmKey; otpmKey; reservationKey reservationID]
          [FormatInt (RequestsPerMinute limits); FormatInt (InputTokensPerMinute limits);
           FormatInt (OutputTokensPerMinute limits); FormatInt (Requests cost);
           FormatInt (InputTokens cost); FormatInt (OutputTokens cost);
           FormatInt ttl_seconds; Subject key; modelOrDash (Model key)] now d in
        (d, match raw with Err err => Err err | Ok raw => parseDecisionIO raw limits reservationID end)
      else
        let '(rpmKey, tpmKey) := bucketKeys key in
        let '(d, raw) := run check_lua [rpmKey; tpmKey; reservationKey reservationID]
          [FormatInt (RequestsPerMinute limits); FormatInt (TokensPerMinute limits);
           FormatInt (Requests cost); FormatInt (Tokens cost);
           FormatInt ttl_seconds; Subject key; modelOrDash (Model key)] now d in
        (d, match raw with Err err => Err err | Ok raw => parseDecision raw limits reservationID end)
  end.

(** The second round trip of [Settle], for what the first one read. *)
Definition settleRead (read : res (string * Key)) (now : Time) (d : D) (reservationID : string)
    (actualTokens : Z) : D * res Decision :=
  match read with
  | Err err => (d, Err (mapResErr err))
  | Ok (mode, key) =>
      if decide (mode = "split") then (d, Err ErrWrongSettleMode)
      else
        let '(rpmKey, tpmKey) := bucketKeys key in
        let '(d, raw) := run settle_lua [reservationKey reservationID; rpmKey; tpmKey]
          [FormatInt actualTokens; FormatInt ttl_seconds] now d in
        (d, match raw with Err err => Err (mapResErr err) | Ok raw => parseSettle raw reservationID end)
  end.

Definition Settle (now : Time) (d : D) (reservationID : string) (actualTokens : Z) : D * res Decision :=
  settleRead (reservationMode now d reservationID) now d reservationID actualTokens.

Definition settleIORead (read : res (string * Key)) (now : Time) (d : D) (reservationID : string)
    (actualInput actualOutput : Z) : D * res Decision :=
  match read with
  | Err err => (d, Err (mapResErr err))
  | Ok (mode, key) =>
      if negb (bool_decide (mode = "split")) then (d, Err ErrWrongSettleMode)
      else
        let '(rpmKey, itpmKey, otpmKey) := bucketKeysIO key in
        let '(d, raw) := run settle_io_lua [reservationKey reservationID; rpmKey; itpmKey; otpmKey]
          [FormatInt actualInput; FormatInt actualOutput; FormatInt ttl_seconds] now d in
        (d, match raw with Err err => Err (mapResErr err) | Ok raw => parseSettleIO raw reservationID end)
  end.

Definition SettleIO (now : Time) (d : D) (reservationID : string) (actualInput actualOutput : Z)
    : D * res Decision :=
  settleIORead (reservationMode now d reservationID) now d reservationID actualInput actualOutput.

(** [mapResErr(err)] of an error that may be nil. *)
Definition mapRes {A} (raw : res A) : res unit :=
  match raw with Ok _ => Ok tt | Err err => Err (mapResErr err) end.

Definition refundRead (read : res (string * Key)) (now : Time) (d : D) (reservationID : string)
    : D * res unit :=
  match read with
  | Err err => (d, Err (mapResErr err))
  | Ok (mode, key) =>
      if decide (mode = "split") then
        let '(rpmKey, itpmKey, otpmKey) := bucketKeysIO key in
        let '(d, raw) := run refund_io_lua [reservationKey reservationID; rpmKey; itpmKey; otpmKey]
          [FormatInt ttl_seconds] now d in
        (d, mapRes raw)
      else
        let '(rpmKey, tpmKey) := bucketKeys key in
        let '(d, raw) := run refund_lua [reservationKey reservationID; rpmKey; tpmKey]
          [FormatInt ttl_seconds] now d in
        (d, mapRes raw)
  end.

Definition Refund (now : Time) (d : D) (reservationID : string) : D * res unit :=
  refundRead (reservationMode now d reservationID) now d reservationID.

Definition parseBorrowIO (raw : any) (limits : Limits) : res BorrowResult :=
  match array 9 "borrow_io" raw with
  | Err e => Err e
  | Ok arr => Ok (zeroBorrowResult
      <| bAllowed := int_at arr 0 =? 1 |>
      <| bLimitType := toString (arr !!! 1%nat) |>
      <| GotRPM := int_at arr 2 |>
      <| GotITPM := int_at arr 3 |>
      <| GotOTPM := int_at arr 4 |>
      <| bRemainingRPM := int_at arr 5 |>
      <| bRemainingITPM := int_at arr 6 |>
      <| bRemainingOTPM := int_at arr 7 |>
      <| bRemainingTPM := int_at arr 7 |>
      <| bRetryAfter := ms_at arr 8 |>
      <| bLimitRPM := RequestsPerMinute limits |>
      <| bLimitITPM := InputTokensPerMinute limits |>
      <| bLimitOTPM := OutputTokensPerMinute limits |>
      <| bLimitTPM := OutputTokensPerMinute limits |>)
  end.

Definition parseBorrow (raw : any) (limits : Limits) : res BorrowResult :=
  match array 7 "borrow" raw with
  | Err e => Err e
  | Ok arr => Ok (zeroBorrowResult
      <| bAllowed := int_at arr 0 =? 1 |>
      <| bLimitType := toString (arr !!! 1%nat) |>
      <| GotRPM := int_at arr 2 |>
      <| GotTPM := int_at arr 3 |>
      <| bRemainingRPM := int_at arr 4 |>
      <| bRemainingTPM := int_at arr 5 |>
      <| bRetryAfter := ms_at arr 6 |>
      <| bLimitRPM := RequestsPerMinute limits |>
      <| bLimitTPM := TokensPerMinute limits |>)
  end.

Definition Borrow (now : Time) (d : D) (key : Key) (limits : Limits) (spec : BorrowSpec)
    : D * res BorrowResult :=
  match Validate limits with
  | Some err => (d, Err err)
  | None =>
      if decide (Subject key = "") then (d, Err (ErrInvalid "subject required"))
      else if Split limits then
        let '(rpmKey, itpmKey, otpmKey) := bucketKeysIO key in
        let '(d, raw) := run borrow_io_lua [rpmKey; itpmKey; otpmKey]
          [FormatInt (RequestsPerMinute limits); FormatInt (InputTokensPerMinute limits);
           FormatInt (OutputTokensPerMinute limits);
           FormatInt (MinRPM spec); FormatInt (MinITPM spec); FormatInt (MinOTPM spec);
           FormatInt (ChunkRPM spec); FormatInt (ChunkITPM spec); FormatInt (ChunkOTPM spec)] now d in
        (d, match raw with Err err => Err err | Ok raw => parseBorrowIO raw limits end)
      else
        let '(rpmKey, tpmKey) := bucketKeys key in
        let '(d, raw) := run borrow_lua [rpmKey; tpmKey]
          [FormatInt (RequestsPerMinute limits); FormatInt (TokensPerMinute limits);
           FormatInt (MinRPM spec); FormatInt (MinTPM spec);
           FormatInt (ChunkRPM spec); FormatInt (ChunkTPM spec)] now d in
        (d, match raw with Err err => Err err | Ok raw => parseBorrow raw limits end)
  end.

Definition Return (now : Time) (d : D) (key : Key) (limits : Limits) (rpm tpm itpm otpm : Z)
    : D * res unit :=
  if decide (Subject key = "") then (d, Err (ErrInvalid "subject required"))
  else if (rpm <=? 0) && (tpm <=? 0) && (itpm <=? 0) && (otpm <=? 0) then (d, Ok tt)
  else if Split limits then
    let '(rpmKey, itpmKey, otpmKey) := bucketKeysIO key in
    let '(d, raw) := run return_io_lua [rpmKey; itpmKey; otpmKey]
      [FormatInt (RequestsPerMinute limits); FormatInt (InputTokensPerMinute limits);
       FormatInt (OutputTokensPerMinute limits);
       FormatInt rpm; FormatInt itpm; FormatInt otpm] now d in
    (d, match raw with Err err => Err err | Ok _ => Ok tt end)
  else
    let '(rpmKey, tpmKey) := bucketKeys key in
    let '(d, raw) := run return_lua [rpmKey; tpmKey]
      [FormatInt (RequestsPerMinute limits); FormatInt (TokensPerMinute limits);
       FormatInt rpm; FormatInt tpm] now d in
    (d, match raw with Err err => Err err | Ok _ => Ok tt end).

#[export] Instance Redis_Store : Store D := {|
  sCheck := Check;
  sSettle := Settle;
  sSettleIO := SettleIO;
  sRefund := Refund;
  sBorrow := Borrow;
  sReturn := Return
|}.
End Methods.
