(* ===== verification/RedisSpec.v ===== *)
(** * RedisSpec: what the scripts do to the database

    The server's clock as the scripts read it, how a script runs step by step, and
    the numbers a reply carries. *)

From stdpp Require Import base tactics numbers strings gmap list.
From Stdlib Require Import ZArith Lia.
From S2P Require Import Prelude GoFloat GoString Api Bucket Budget Store RedisServer RedisScripts Redis.

(** ** The clock of the server *)

Definition clock_ok (now : Time) : Prop := 0 <= now /\ toUnixMilli now <= 2 ^ 53.

(** The millisecond of the second, computed in floating point. *)
Lemma micros_floor us : 0 <= us < 1000000 ->
  ffloor (fdiv (of_int us) (of_int 1000)) = of_int (us / 1000).
Proof.
  intros H. pose proof one_pos. assert (E64 : one = 1024 * 2 ^ 1064) by
    (rewrite one_ulp; change 1024 with (2 ^ 10); rewrite <- !Z.pow_add_r by lia; reflexivity).
  pose proof (Z.div_mod us 1000 ltac:(lia)) as DM. pose proof (Z.mod_pos_bound us 1000 ltac:(lia)) as MB.
  set (q := us / 1000) in *. assert (0 <= q < 1000) by (unfold q; split; [apply Z.div_pos|apply Z.div_lt_upper_bound]; lia).
  rewrite !of_int_exact by lia.
  rewrite fdiv_spec, rnd_scale by lia.
  assert (F : floorZ (rnd (us * one) 1000) = q); [|rewrite ffloor_spec, <- floorZ_spec, F; reflexivity].
  pose proof (pow2_pos 1064 ltac:(lia)) as P. set (v := 2 ^ 1064) in *.
  apply Z.le_antisymm.
  - assert (B : rnd (us * one) 1000 <= ((q + 1) * 1024 - 1) * v).
    { apply rnd_le; [lia| |].
      - exists ((q + 1) * 1024 - 1), 1064. split; [lia|]. split; [lia|reflexivity].
      - rewrite E64. nia. }
    set (f := rnd (us * one) 1000) in *. pose proof (floorZ_bounds f) as Fb. clearbody f.
    rewrite E64 in Fb. destruct (Z.le_gt_cases (floorZ f) q) as [|G]; [assumption|exfalso].
    assert ((q + 1) * (1024 * v) <= floorZ f * (1024 * v)) by (apply Z.mul_le_mono_nonneg_r; lia). lia.
  - apply floorZ_ge_int. apply rnd_ge; [lia|apply int_is_float; lia|].
    replace (q * one * 1000) with (q * 1000 * one) by ring. apply Z.mul_le_mono_nonneg_r; lia.
Qed.

Section Run.
Context {D : Type} `{Redis D} `{!RedisLaws D}.

Lemma bind_ok {A B} (m : Lua A) (f : A -> Lua B) now (d d' : D) x :
  m now d = (d', Ok x) -> lbind m f now d = f x now d'.
Proof. intros E. unfold lbind. rewrite E. reflexivity. Qed.

Lemma number_int n now (d : D) :
  in_int64 n -> number (tonumber (FormatInt n)) now d = (d, Ok (of_int n)).
Proof. intros I. rewrite tonumber_int by exact I. reflexivity. Qed.

Lemma number_some x y now (d : D) : x = Some y -> number x now d = (d, Ok y).
Proof. intros ->. reflexivity. Qed.

Lemma read_now_run now (d : D) :
  clock_ok now -> read_now now d = (d, Ok (of_int (toUnixMilli now))).
Proof.
  intros [N0 N1]. unfold read_now. unfold toUnixMilli, Millisecond in *.
  assert (S1 : 0 <= now / Second) by (apply Z.div_pos; unfold Second; lia).
  pose proof (Z.div_mod now Second ltac:(unfold Second; lia)) as DM.
  pose proof (Z.mod_pos_bound now Second ltac:(unfold Second; lia)) as MB.
  set (s := now / Second) in *. set (r := now mod Second) in *. unfold Second in DM, MB.
  assert (Ms : now / 1000000 = s * 1000 + r / 1000 / 1000).
  { rewrite Zdiv_Zdiv by lia. rewrite DM.
    replace (1000000000 * s + r) with (r + s * 1000 * 1000000) by ring.
    rewrite Z.div_add by lia. change (1000 * 1000) with 1000000. lia. }
  assert (R1 : 0 <= r / 1000 < 1000000) by (split; [apply Z.div_pos|apply Z.div_lt_upper_bound]; lia).
  assert (R2 : 0 <= r / 1000 / 1000) by (apply Z.div_pos; lia).
  rewrite (bind_ok _ _ _ _ d (TIME now)) by reflexivity. rewrite TIME_spec by exact N0.
  fold s r. cbn [fst snd].
  assert (s * 1000 <= 2 ^ 53) by (rewrite Ms in N1; lia).
  rewrite (bind_ok _ _ _ _ d (of_int s)) by (apply number_int; unfold in_int64, int64_min, int64_max; lia).
  rewrite (bind_ok _ _ _ _ d (of_int (r / 1000))) by
    (apply number_int; unfold in_int64, int64_min, int64_max; lia).
  unfold lret. do 2 f_equal. rewrite micros_floor by exact R1.
  rewrite Ms in *. pose proof one_pos.
  assert (F1 : fmul (of_int s) (of_int 1000) = of_int (s * 1000)).
  { rewrite fmul_of_int by (try lia; rewrite of_int_exact by lia;
      replace (s * one * 1000) with (s * 1000 * one) by ring; apply int_is_float; lia).
    rewrite !of_int_exact by lia. ring. }
  rewrite F1, !of_int_exact by lia.
  rewrite fadd_exact; [ring|]. rewrite <- Z.mul_add_distr_r. apply int_is_float. lia.
Qed.

(** The balance a refill computes from a bucket's hash. *)
Definition refilled (now_ms : float64) (h : gmap string string) (capacity : float64) : float64 :=
  match tonum (h !! "tokens"), tonum (h !! "last_ms") with
  | Some tokens, Some last_ms =>
      if (last_ms <? now_ms) && (0 <? capacity) then
        math_min capacity (fadd tokens (fmul (fdiv (fsub now_ms last_ms) (of_int 1000))
                                          (fdiv capacity (of_int 60))))
      else tokens
  | _, _ => capacity
  end.

Lemma refill_run now_ms key capacity now (d : D) :
  refill now_ms key capacity now d = (d, Ok (refilled now_ms (contents now d key) capacity)).
Proof.
  unfold refill. rewrite (bind_ok _ _ _ _ d (HMGET now d key ["tokens"; "last_ms"])) by reflexivity.
  rewrite HMGET_spec. cbn [fmap list_fmap]. unfold refilled.
  change ([contents now d key !! "tokens"; contents now d key !! "last_ms"] !!! 0%nat) with (contents now d key !! "tokens").
  change ([contents now d key !! "tokens"; contents now d key !! "last_ms"] !!! 1%nat) with (contents now d key !! "last_ms").
  destruct (tonum _) as [t|]; [|reflexivity]. destruct (tonum _) as [l|]; [|reflexivity].
  destruct (_ && _); reflexivity.
Qed.

(** What the client makes of a script's table of numbers and strings. *)
Definition scalar (v : lua) : bool := match v with LNum _ | LStr _ => true | _ => false end.

(** The reply to a number or a string. *)
Definition replies (v : lua) (r : any) : Prop :=
  match v with
  | LNum x => exists n, r = AInt n /\ (Z.abs x < 2 ^ 63 * one -> n = to_int64 x)
  | LStr s => r = AStr s
  | _ => False
  end.

Lemma reply_scalar v : scalar v = true -> exists r, reply v = Ok r /\ replies v r.
Proof.
  destruct v; try discriminate; intros _.
  - destruct (reply_num x) as (n & E & F). exists (AInt n). split; [exact E|]. exists n. auto.
  - exists (AStr s). split; [apply reply_str|reflexivity].
Qed.

Lemma reply_scalars vs : forallb scalar vs = true ->
  exists rs, reply (LTable vs) = Ok (AList rs) /\ Forall2 replies vs rs.
Proof.
  intros Sc. assert (G : exists rs, Forall2 (fun v r => reply v = Ok r) vs rs /\ Forall2 replies vs rs).
  { induction vs as [|v vs IH]; cbn in Sc; [exists []; split; constructor|]. bool_to_prop.
    destruct IH as (rs & F1 & F2); [assumption|]. destruct (reply_scalar v) as (r & E & P); [assumption|].
    exists (r :: rs). split; constructor; assumption. }
  destruct G as (rs & F1 & F2). exists rs. split; [apply reply_table; exact F1|exact F2].
Qed.
End Run.

(** Splits the replies of a table of numbers and strings. *)
Ltac split_reply F :=
  repeat match type of F with
  | Forall2 _ (_ :: _) _ =>
      let r := fresh "r" in let P := fresh "P" in
      apply Forall2_cons_inv_l in F as (r & ? & P & F & ->)
  | Forall2 _ [] _ => apply Forall2_nil_inv_l in F as ->
  end;
  repeat match goal with
  | P : exists n, _ = AInt n /\ _ |- _ => destruct P as (? & -> & ?)
  | P : _ = AStr _ |- _ => subst
  end.

(** An integer literal is reported as it is. *)
Lemma literal k n : Z.abs k <= 2 ^ 53 -> (Z.abs (of_int k) < 2 ^ 63 * one -> n = to_int64 (of_int k)) -> n = k.
Proof.
  intros Hk E. rewrite of_int_exact in E by exact Hk. pose proof one_pos.
  rewrite E by nia. apply to_int64_int. unfold in_int64, int64_min, int64_max. lia.
Qed.

(** What the methods make of a table of numbers and strings. *)
Lemma answer_table {A} `{RedisLaws D} vs (parse : any -> res A) (f : error -> error) :
  forallb scalar vs = true ->
  exists rs, Forall2 replies vs rs /\
    match (match reply (LTable vs) with Ok raw => Ok raw | Err m => Err (ErrOther m) end) with
    | Err err => Err (f err) | Ok raw => parse raw
    end = parse (AList rs).
Proof. intros Sc. destruct (reply_scalars vs Sc) as (rs & -> & F). eauto. Qed.
