(* ===== verification/RedisLifecycle.v ===== *)
(** * RedisLifecycle: the reservations of the Redis store

    A reservation is a hash; [decodes] says what it holds.  Settle, SettleIO and
    Refund follow [Store.Lifecycle] even when other clients run between their two
    round trips: each takes effect at one of the two. *)

From stdpp Require Import base tactics numbers strings gmap list.
From Stdlib Require Import ZArith Lia.
From S2P Require Import Prelude GoFloat GoString Api Bucket Budget Store RedisServer RedisScripts Redis RedisSpec.

(** ** What a reservation's hash holds *)

Definition reserved_field (a : axis) : string :=
  match a with
  | RPM => "rpm_cost" | TPM => "tpm_reserved" | ITPM => "itpm_reserved" | OTPM => "otpm_reserved"
  end.

Definition limit_field (a : axis) : string :=
  match a with
  | RPM => "limit_rpm" | TPM => "limit_tpm" | ITPM => "limit_itpm" | OTPM => "limit_otpm"
  end.

Definition status_name (s : status) : string :=
  match s with pending => "pending" | settled => "settled" | refunded => "refunded" end.

Record stored := mkStored {
  rKey : Key;
  rSplit : bool;
  rStatus : status;
  rAmount : axis -> Z;
  rLimit : axis -> Z
}.

(** ** The view of a reservation *)

Section Reservations.
Context {D : Type} `{Redis D} `{!RedisLaws D}.

Record decodes (h : gmap string string) (r : stored) : Prop := {
  dec_subject : h !! "subject" = Some (Subject (rKey r));
  dec_model : h !! "model" = Some (modelOrDash (Model (rKey r)));
  dec_mode : h !! "mode" = Some (if rSplit r then "split" else "classic");
  dec_status : h !! "status" = Some (status_name (rStatus r));
  dec_amount a : counts a (rSplit r) = true ->
    tonum (h !! reserved_field a) = Some (of_int (rAmount r a));
  dec_limit a : counts a (rSplit r) = true ->
    tonum (h !! limit_field a) = Some (of_int (rLimit r a));
  dec_range a : counts a (rSplit r) = true -> 0 <= rAmount r a <= rLimit r a /\ rLimit r a < 2 ^ 53
}.

Definition res_hash (now : Time) (d : D) (id : string) : gmap string string :=
  contents now d (reservationKey id).

(** Every reservation the database shows is one the store wrote. *)
Definition res_db (now : Time) (d : D) : Prop :=
  forall id, res_hash now d id = ∅ \/ exists r, decodes (res_hash now d id) r.

Definition status_of (v : option string) : status :=
  if holds_text v "settled" then settled else if holds_text v "refunded" then refunded else pending.

Definition view (now : Time) (d : D) (id : string) : Lifecycle.view :=
  let h := res_hash now d id in
  if bool_decide (h = ∅) then None
  else Some (holds_text (h !! "mode") "split", status_of (h !! "status")).

Lemma decodes_nonempty h r : decodes h r -> h <> ∅.
Proof. intros Dc ->. pose proof (dec_mode _ _ Dc) as M. rewrite lookup_empty in M. discriminate. Qed.

Lemma decodes_mode h r : decodes h r -> holds_text (h !! "mode") "split" = rSplit r.
Proof. intros Dc. rewrite (dec_mode _ _ Dc). destruct (rSplit r); reflexivity. Qed.

Lemma decodes_status h r : decodes h r -> status_of (h !! "status") = rStatus r.
Proof. intros Dc. rewrite (dec_status _ _ Dc). destruct (rStatus r); reflexivity. Qed.

Lemma decodes_view now d id r : decodes (res_hash now d id) r -> view now d id = Some (rSplit r, rStatus r).
Proof.
  intros Dc. unfold view. cbv zeta. rewrite bool_decide_eq_false_2 by exact (decodes_nonempty _ _ Dc).
  rewrite (decodes_mode _ _ Dc), (decodes_status _ _ Dc). reflexivity.
Qed.

Variant view_case (now : Time) (d : D) (id : string) : Prop :=
| view_none : res_hash now d id = ∅ -> view now d id = None -> view_case now d id
| view_some r : res_hash now d id <> ∅ -> decodes (res_hash now d id) r ->
    view now d id = Some (rSplit r, rStatus r) -> view_case now d id.

Lemma view_cases now d id : res_db now d -> view_case now d id.
Proof.
  intros R. destruct (R id) as [E|[r Dc]].
  - apply view_none; [exact E|]. unfold view. rewrite E. reflexivity.
  - apply (view_some _ _ _ r); [exact (decodes_nonempty _ _ Dc)|exact Dc|apply decodes_view, Dc].
Qed.

Lemma exists_run now d id :
  exists_ (reservationKey id) now d = (d, Ok (if bool_decide (res_hash now d id = ∅) then 0 else 1)).
Proof. unfold exists_. rewrite EXISTS_spec. reflexivity. Qed.

Lemma hmget_run now d id fs :
  hmget (reservationKey id) fs now d = (d, Ok ((fun f => res_hash now d id !! f) <$> fs)).
Proof. unfold hmget. rewrite HMGET_spec. reflexivity. Qed.

(** ** Keys do not clash *)

(** The key of an axis's bucket. *)
Definition axis_key (a : axis) (base : string) : string :=
  base +:+ match a with RPM => ":rpm" | TPM => ":tpm" | ITPM => ":itpm" | OTPM => ":otpm" end.

Lemma reservationKey_inj id id' : reservationKey id = reservationKey id' -> id = id'.
Proof. unfold reservationKey. intros E. repeat (injection E as E). exact E. Qed.

Lemma reservation_bucket id a key : reservationKey id <> axis_key a (base_key key).
Proof. destruct a; discriminate. Qed.

(** ** The writes of a script *)

Definition saved (now_ms : float64) (key : string) (tokens : float64) (now : Time) (d : D) : D :=
  HMSET now d key [("tokens", tostr tokens); ("last_ms", tostr now_ms)].

Lemma save_run now_ms key tokens now d : save now_ms key tokens now d = (saved now_ms key tokens now d, Ok tt).
Proof. reflexivity. Qed.

Lemma saved_res now_ms key a tokens now d id :
  res_hash now (saved now_ms (axis_key a (base_key key)) tokens now d) id = res_hash now d id.
Proof. unfold res_hash, saved. apply HMSET_other, reservation_bucket. Qed.

(** A reservation rewritten and kept for the time to live. *)
Definition kept (id : string) (kvs : list (string * string)) (now : Time) (d : D) : D :=
  EXPIRE now (HMSET now d (reservationKey id) kvs) (reservationKey id) (tostr (of_int ttl_seconds)).

Lemma kept_res id kvs now d :
  res_hash now (kept id kvs now d) id = put kvs (res_hash now d id) /\
  forall id', id' <> id -> res_hash now (kept id kvs now d) id' = res_hash now d id'.
Proof.
  unfold res_hash, kept. split.
  - rewrite (EXPIRE_contents _ _ _ _ ttl_seconds) by (reflexivity || (vm_compute; split; congruence)).
    apply HMSET_same.
  - intros id' N. rewrite (EXPIRE_contents _ _ _ _ ttl_seconds) by (reflexivity || (vm_compute; split; congruence)).
    apply HMSET_other. intros E. apply N, reservationKey_inj, E.
Qed.

(** A call follows the specification [f]: it answers and moves the reservation as
    [f] says, touches no other reservation, and writes nothing unless it moves it. *)
Definition follows {A} (f : Lifecycle.view -> Lifecycle.view * (unit + error))
    (now : Time) (id : string) (d : D) (out : D * res A) : Prop :=
  let v := view now d id in
  view now out.1 id = (f v).1 /\
  Lifecycle.answer out.2 = (f v).2 /\
  (forall id', id' <> id -> view now out.1 id' = view now d id') /\
  ((f v).1 = v -> out.1 = d).

Lemma follows_still {A} f now id d (a : res A) :
  Lifecycle.answer a = (f (view now d id)).2 -> (f (view now d id)).1 = view now d id ->
  follows f now id d (d, a).
Proof. intros E1 E2. split; [symmetry; exact E2|]. split; [exact E1|]. split; reflexivity. Qed.

(** Closing: the status is written, the mode is not. *)
Definition closes_with (s : status) (kvs : list (string * string)) : Prop :=
  forall h, put kvs h !! "status" = Some (status_name s) /\ put kvs h !! "mode" = h !! "mode".

Lemma put_nonempty f v kvs h : put ((f, v) :: kvs) h <> ∅.
Proof.
  unfold put. cbn [fold_left].
  assert (G : forall kvs (h : gmap string string), h <> ∅ -> fold_left (fun h '(f, v) => <[f:=v]> h) kvs h <> ∅).
  { clear. induction kvs as [|[f v] kvs IH]; intros h N; cbn; [exact N|]. apply IH, insert_non_empty. }
  apply G, insert_non_empty.
Qed.

Lemma follows_closes {A} f now id d d1 r s fv kvs (a : res A) :
  view now d id = Some (rSplit r, rStatus r) -> decodes (res_hash now d id) r ->
  (forall id', res_hash now d1 id' = res_hash now d id') ->
  closes_with s (fv :: kvs) ->
  f (view now d id) = (Some (rSplit r, s), Lifecycle.answer a) -> s <> rStatus r ->
  follows f now id d (kept id (fv :: kvs) now d1, a).
Proof.
  intros V Dc Same Cl E N. destruct fv as [fl v]. destruct (kept_res id ((fl, v) :: kvs) now d1) as [K1 K2].
  unfold follows. cbv zeta. rewrite E. cbn [fst snd]. split_and!; [|reflexivity| |].
  - unfold view. cbv zeta. rewrite K1, Same. destruct (Cl (res_hash now d id)) as [C1 C2].
    rewrite bool_decide_eq_false_2 by apply put_nonempty. rewrite C1, C2, (decodes_mode _ _ Dc).
    destruct s; reflexivity.
  - intros id' N'. unfold view. rewrite K2 by exact N'. rewrite Same. reflexivity.
  - rewrite V. intros [= Q]. congruence.
Qed.
End Reservations.

(** Runs the first step of a script. *)
Ltac lua_solve :=
  first [apply number_int; first [assumption|vm_compute; split; congruence]
        |apply read_now_run; assumption
        |apply refill_run|apply exists_run|apply hmget_run|apply save_run
        |apply number_some; eassumption|reflexivity].
Ltac lua_step := erewrite bind_ok; [|lua_solve].

(** Looks up a field in a reply of [HMGET]. *)
Ltac fields_of :=
  cbn [fmap list_fmap lookup_total list_lookup_total].

Ltac put_lookup :=
  unfold put; cbn [fold_left]; rewrite ?lookup_insert_ne by discriminate;
  rewrite ?lookup_insert_eq; reflexivity.

(** ** The answers *)

Lemma mapped_err {A} `{RedisLaws D} msg e (parse : any -> res A) :
  mapResErr (ErrOther msg) = e -> mapResErr (ErrOther ("ERR " +:+ msg)) = e ->
  match (match reply (LErr msg) with Ok raw => Ok raw | Err m => Err (ErrOther m) end) with
  | Err err => Err (mapResErr err) | Ok raw => parse raw
  end = Err e.
Proof. intros E1 E2. destruct (reply_err msg) as [->| ->]; congruence. Qed.

(** A reply of numbers and strings of the length [parse] expects is answered. *)
Lemma parsed_ok {A} `{RedisLaws D} vs (parse : any -> res A) :
  forallb scalar vs = true ->
  (forall rs, length rs = length vs -> Lifecycle.answer (parse (AList rs)) = inl tt) ->
  Lifecycle.answer
    match (match reply (LTable vs) with Ok raw => Ok raw | Err m => Err (ErrOther m) end) with
    | Err err => Err (mapResErr err) | Ok raw => parse raw
    end = inl tt.
Proof.
  intros Sc P. destruct (reply_scalars vs Sc) as (rs & -> & F). apply P. symmetry. eapply Forall2_length, F.
Qed.

Lemma parseSettle_ok rs id : length rs = 10%nat -> Lifecycle.answer (parseSettle (AList rs) id) = inl tt.
Proof. intros L. unfold parseSettle, array. rewrite L. reflexivity. Qed.

Lemma parseSettleIO_ok rs id : length rs = 14%nat -> Lifecycle.answer (parseSettleIO (AList rs) id) = inl tt.
Proof. intros L. unfold parseSettleIO, array. rewrite L. reflexivity. Qed.

(** Compares the texts of a known status. *)
Ltac texts :=
  repeat match goal with
  | |- context [holds_text (Some ?a) ?b] =>
      let v := eval vm_compute in (holds_text (Some a) b) in
      change (holds_text (Some a) b) with v
  end; cbv iota.

(** Names the bucket keys of [key] by their axes. *)
Ltac keys_of key :=
  change (base_key key +:+ ":rpm") with (axis_key RPM (base_key key));
  change (base_key key +:+ ":tpm") with (axis_key TPM (base_key key));
  change (base_key key +:+ ":itpm") with (axis_key ITPM (base_key key));
  change (base_key key +:+ ":otpm") with (axis_key OTPM (base_key key)).

(** The numbers a reservation's hash holds, in its mode. *)
Ltac decoded Dc Sp :=
  let am := fresh "Am" in let lm := fresh "Lm" in
  pose proof (dec_amount _ _ Dc) as am; pose proof (dec_limit _ _ Dc) as lm;
  rewrite Sp in am, lm;
  pose proof (am RPM eq_refl); pose proof (lm RPM eq_refl);
  try (pose proof (am TPM eq_refl); pose proof (lm TPM eq_refl));
  try (pose proof (am ITPM eq_refl); pose proof (lm ITPM eq_refl);
       pose proof (am OTPM eq_refl); pose proof (lm OTPM eq_refl));
  cbn [reserved_field limit_field] in *; clear am lm.

(** The script stops with the error reply of [e]; the reservation is not there. *)
Ltac refused V e :=
  cbn [lret]; rewrite (mapped_err _ e) by reflexivity; apply follows_still; rewrite V; reflexivity.
Ltac missing E V :=
  rewrite bool_decide_eq_true_2 by exact E; cbn [Z.eqb]; refused V ErrReservationNotFound.

(** A table of numbers and strings is parsed. *)
Ltac answered P :=
  erewrite parsed_ok; [reflexivity|reflexivity|]; intros rs L; apply P, L.

Ltac closes := intros h; split; put_lookup.

Section Close.
Context {D : Type} `{Redis D} `{!RedisLaws D}.
Context (now : Time) (d : D) (id : string) (Now : clock_ok now) (R : res_db now d).

Lemma settle_script_follows key actual :
  in_int64 actual ->
  follows (Lifecycle.settle false) now id d
    (let '(rpmKey, tpmKey) := bucketKeys key in
     let '(d, raw) := run settle_lua [reservationKey id; rpmKey; tpmKey]
       [FormatInt actual; FormatInt ttl_seconds] now d in
     (d, match raw with Err err => Err (mapResErr err) | Ok raw => parseSettle raw id end)).
Proof.
  intros Ha. unfold bucketKeys, run, settle_lua. cbv zeta.
  keys_of key.
  do 3 lua_step.
  destruct (view_cases now d id R) as [E V|r NE Dc V]; [missing E V|].
  rewrite bool_decide_eq_false_2 by exact NE. cbn [Z.eqb]. lua_step. cbv zeta. fields_of.
  rewrite (decodes_mode _ _ Dc). destruct (rSplit r) eqn:Sp; [refused V ErrWrongSettleMode|].
  rewrite (dec_status _ _ Dc). destruct (rStatus r) eqn:St; cbn [status_name]; texts.
  - decoded Dc Sp. do 6 lua_step. destruct (apply_delta _ _ _ _) as [t over]. do 4 lua_step. cbn [lret].
    eapply (follows_closes _ now id d _ r settled); [rewrite Sp, St; exact V|exact Dc| | | |congruence].
    + intros id'. rewrite !saved_res. reflexivity.
    + closes.
    + rewrite V, Sp. answered parseSettle_ok.
  - cbn [lret]. apply follows_still; rewrite V; [answered parseSettle_ok|reflexivity].
  - refused V ErrReservationRefunded.
Qed.

Lemma settle_io_script_follows key a b :
  in_int64 a -> in_int64 b ->
  follows (Lifecycle.settle true) now id d
    (let '(rpmKey, itpmKey, otpmKey) := bucketKeysIO key in
     let '(d, raw) := run settle_io_lua [reservationKey id; rpmKey; itpmKey; otpmKey]
       [FormatInt a; FormatInt b; FormatInt ttl_seconds] now d in
     (d, match raw with Err err => Err (mapResErr err) | Ok raw => parseSettleIO raw id end)).
Proof.
  intros Ha Hb. unfold bucketKeysIO, run, settle_io_lua. cbv zeta. keys_of key.
  do 4 lua_step. destruct (view_cases now d id R) as [E V|r NE Dc V]; [missing E V|].
  rewrite bool_decide_eq_false_2 by exact NE. cbn [Z.eqb]. lua_step. cbv zeta. fields_of.
  rewrite (decodes_mode _ _ Dc). destruct (rSplit r) eqn:Sp; cbn [negb]; [|refused V ErrWrongSettleMode].
  rewrite (dec_status _ _ Dc). destruct (rStatus r) eqn:St; cbn [status_name]; texts.
  - decoded Dc Sp. do 9 lua_step.
    destruct (apply_delta _ _ _ (clamp0 (of_int a))) as [t over].
    destruct (apply_delta _ _ _ (clamp0 (of_int b))) as [t' over']. do 5 lua_step. cbn [lret].
    eapply (follows_closes _ now id d _ r settled); [rewrite Sp, St; exact V|exact Dc| | | |congruence].
    + intros id'. rewrite !saved_res. reflexivity.
    + closes.
    + rewrite V, Sp. answered parseSettleIO_ok.
  - cbn [lret]. apply follows_still; rewrite V; [answered parseSettleIO_ok|reflexivity].
  - refused V ErrReservationRefunded.
Qed.

Lemma refund_script_follows key :
  (forall sp st, view now d id = Some (sp, st) -> sp = false) ->
  follows Lifecycle.refund now id d
    (let '(rpmKey, tpmKey) := bucketKeys key in
     let '(d, raw) := run refund_lua [reservationKey id; rpmKey; tpmKey] [FormatInt ttl_seconds] now d in
     (d, mapRes raw)).
Proof.
  intros Md. unfold bucketKeys, run, refund_lua, mapRes. cbv zeta. keys_of key.
  do 2 lua_step. destruct (view_cases now d id R) as [E V|r NE Dc V]; [missing E V|].
  rewrite bool_decide_eq_false_2 by exact NE. cbn [Z.eqb]. lua_step. cbv zeta. fields_of.
  rewrite (decodes_mode _ _ Dc). pose proof (Md _ _ V) as Sp. rewrite Sp in *.
  rewrite (dec_status _ _ Dc). destruct (rStatus r) eqn:St; cbn [status_name]; texts.
  - decoded Dc Sp. do 11 lua_step. cbn [lret].
    eapply (follows_closes _ now id d _ r refunded); [rewrite Sp, St; exact V|exact Dc| | | |congruence].
    + intros id'. rewrite !saved_res. reflexivity.
    + closes.
    + rewrite V, Sp. rewrite (parsed_ok (D := D) _ (fun _ => Ok tt)); reflexivity.
  - refused V ErrReservationSettled.
  - cbn [lret]. apply follows_still; rewrite V; [|reflexivity].
    rewrite (parsed_ok (D := D) _ (fun _ => Ok tt)); reflexivity.
Qed.

Lemma refund_io_script_follows key :
  (forall sp st, view now d id = Some (sp, st) -> sp = true) ->
  follows Lifecycle.refund now id d
    (let '(rpmKey, itpmKey, otpmKey) := bucketKeysIO key in
     let '(d, raw) := run refund_io_lua [reservationKey id; rpmKey; itpmKey; otpmKey]
       [FormatInt ttl_seconds] now d in
     (d, mapRes raw)).
Proof.
  intros Md. unfold bucketKeysIO, run, refund_io_lua, mapRes. cbv zeta. keys_of key.
  do 2 lua_step. destruct (view_cases now d id R) as [E V|r NE Dc V]; [missing E V|].
  rewrite bool_decide_eq_false_2 by exact NE. cbn [Z.eqb]. lua_step. cbv zeta. fields_of.
  rewrite (decodes_mode _ _ Dc). pose proof (Md _ _ V) as Sp. rewrite Sp in *. cbn [negb].
  rewrite (dec_status _ _ Dc). destruct (reply_num (of_int 1)) as (n1 & N1 & _).
  destruct (rStatus r) eqn:St; cbn [status_name]; texts.
  - decoded Dc Sp. do 12 lua_step. cbn [lret].
    eapply (follows_closes _ now id d _ r refunded); [rewrite Sp, St; exact V|exact Dc| | | |congruence].
    + intros id'. rewrite !saved_res. reflexivity.
    + closes.
    + rewrite V, Sp. unfold int. rewrite N1. reflexivity.
  - refused V ErrReservationSettled.
  - cbn [lret]. apply follows_still; rewrite V; [|reflexivity]. unfold int. rewrite N1. reflexivity.
Qed.
End Close.

(** ** The two round trips *)

Section Linearize.
Context {D : Type} `{Redis D} `{!RedisLaws D}.

(** The key a settlement works on: the model is already replaced by a dash. *)
Definition dashed (key : Key) : Key := mkKey (Subject key) (modelOrDash (Model key)).

Lemma base_dashed key : base_key (dashed key) = base_key key.
Proof.
  unfold base_key, dashed, modelOrDash. cbn [Subject Model].
  destruct (decide (Model key = "")) as [E|N]; [reflexivity|].
  destruct (decide (Model key = "")); [congruence|reflexivity].
Qed.

Lemma reservationMode_none now (d : D) id :
  res_hash now d id = ∅ -> reservationMode now d id = Err ErrReservationNotFound.
Proof.
  intros E. unfold reservationMode. rewrite HMGET_spec. cbv zeta. fields_of.
  unfold res_hash in E. rewrite E, lookup_empty. reflexivity.
Qed.

Lemma reservationMode_some now (d : D) id r :
  decodes (res_hash now d id) r ->
  reservationMode now d id = Ok (if rSplit r then "split" else "classic", dashed (rKey r)).
Proof.
  intros Dc. unfold reservationMode. rewrite HMGET_spec. cbv zeta. fields_of.
  fold (res_hash now d id). rewrite (dec_subject _ _ Dc), (dec_model _ _ Dc), (dec_mode _ _ Dc).
  cbn [default]. destruct (rSplit r); reflexivity.
Qed.

(** The call takes effect as [f] says either on the database [d] its script ran on,
    or on the database [d0] its first round trip read, with nothing written. *)
Definition linearizes {A} (f : Lifecycle.view -> Lifecycle.view * (unit + error))
    (now0 : Time) (d0 : D) (now : Time) (d : D) (id : string) (out : D * res A) : Prop :=
  follows f now id d out \/ (out.1 = d /\ follows f now0 id d0 (d0, out.2)).

Context (now0 : Time) (d0 : D) (now : Time) (d : D) (id : string).
Context (Now : clock_ok now) (R0 : res_db now0 d0) (R : res_db now d).

(** The first round trip found no reservation. *)
Lemma linearizes_missing {A} f (out : D * res A) :
  view now0 d0 id = None -> f None = (None, inr ErrReservationNotFound) ->
  out = (d, Err (mapResErr ErrReservationNotFound)) -> linearizes f now0 d0 now d id out.
Proof.
  intros V F ->. right. split; [reflexivity|]. apply follows_still; rewrite V, F; reflexivity.
Qed.

Lemma settle_linearizes actual :
  in_int64 actual ->
  linearizes (Lifecycle.settle false) now0 d0 now d id
    (settleRead (reservationMode now0 d0 id) now d id actual).
Proof.
  intros Ha. destruct (view_cases now0 d0 id R0) as [E V|r NE Dc V].
  - apply linearizes_missing; [exact V|reflexivity|]. rewrite reservationMode_none by exact E. reflexivity.
  - rewrite (reservationMode_some _ _ _ r Dc). unfold settleRead. destruct (rSplit r) eqn:Sp; cbn [decide].
    + right. split; [reflexivity|]. apply follows_still; rewrite V; reflexivity.
    + left. apply settle_script_follows; assumption.
Qed.

Lemma settle_io_linearizes a b :
  in_int64 a -> in_int64 b ->
  linearizes (Lifecycle.settle true) now0 d0 now d id
    (settleIORead (reservationMode now0 d0 id) now d id a b).
Proof.
  intros Ha Hb. destruct (view_cases now0 d0 id R0) as [E V|r NE Dc V].
  - apply linearizes_missing; [exact V|reflexivity|]. rewrite reservationMode_none by exact E. reflexivity.
  - rewrite (reservationMode_some _ _ _ r Dc). unfold settleIORead. destruct (rSplit r) eqn:Sp.
    + left. apply settle_io_script_follows; assumption.
    + right. split; [reflexivity|]. apply follows_still; rewrite V; reflexivity.
Qed.

Lemma refund_linearizes :
  (forall sp st sp0 st0, view now d id = Some (sp, st) -> view now0 d0 id = Some (sp0, st0) -> sp = sp0) ->
  linearizes Lifecycle.refund now0 d0 now d id (refundRead (reservationMode now0 d0 id) now d id).
Proof.
  intros Md. destruct (view_cases now0 d0 id R0) as [E V|r NE Dc V].
  - apply linearizes_missing; [exact V|reflexivity|]. rewrite reservationMode_none by exact E. reflexivity.
  - rewrite (reservationMode_some _ _ _ r Dc). unfold refundRead. left. destruct (rSplit r) eqn:Sp.
    + apply refund_io_script_follows; auto. intros sp st V1. apply (Md _ _ _ _ V1 V).
    + apply refund_script_follows; auto. intros sp st V1. apply (Md _ _ _ _ V1 V).
Qed.
End Linearize.
