(* ===== verification/RedisLaws.v ===== *)
(** * RedisLaws: the Redis store keeps the laws of [Store.StoreLaws]

    So every theorem about the limiter that is proved from the laws holds over
    Redis: loans cover what was asked, refusals name a limit, admissions carry the
    reservation's id. *)

From stdpp Require Import base tactics numbers strings gmap list.
From Stdlib Require Import ZArith Lia.
From S2P Require Import Prelude GoFloat GoString Api Bucket Budget Store RedisServer RedisScripts Redis.
From S2P Require Import RedisSpec.

(** ** Whole numbers in the scripts *)

Lemma clamp0_int n : exact_amount n -> clamp0 (of_int n) = Z.max 0 n * one.
Proof.
  intros [_ H]. unfold clamp0. pose proof one_pos.
  destruct (Z.le_gt_cases 0 n).
  - rewrite of_int_exact by lia. destruct (Z.ltb_spec (n * one) 0); [nia|].
    rewrite Z.max_r by lia. reflexivity.
  - pose proof (of_int_mono n (-1) ltac:(lia)). rewrite (of_int_exact (-1)) in * by lia.
    destruct (Z.ltb_spec (of_int n) 0); [|lia]. rewrite Z.max_l by lia. reflexivity.
Qed.

Lemma math_max_int m c : math_max (m * one) (c * one) = Z.max m c * one.
Proof.
  unfold math_max. pose proof one_pos. destruct (Z.ltb_spec (m * one) (c * one)); f_equal; nia.
Qed.

Lemma math_min_eq x y : math_min x y = Z.min x y.
Proof. unfold math_min. destruct (Z.ltb_spec y x); lia. Qed.

Lemma min_int t w : Z.min (ffloor t) (w * one) = Z.min (floorZ t) w * one.
Proof.
  rewrite ffloor_spec, <- floorZ_spec. pose proof one_pos.
  destruct (Z.min_spec (floorZ t) w) as [[? ->]|[? ->]]; [apply Z.min_l|apply Z.min_r]; nia.
Qed.

Lemma want_got_eq avail m c : want_got avail m c = Z.min avail (math_max m c).
Proof.
  unfold want_got, math_max. destruct (Z.ltb_spec m c);
    match goal with |- context [?a <? ?b] => destruct (Z.ltb_spec a b) end; lia.
Qed.

(** A loan computed by the script: at least the minimum, at most the want, and
    reported as it is. *)
Lemma loan_script t min chunk n :
  exact_amount min -> exact_amount chunk ->
  clamp0 (of_int min) <= ffloor t ->
  let got := Z.min (ffloor t) (math_max (clamp0 (of_int min)) (clamp0 (of_int chunk))) in
  (Z.abs got < 2 ^ 63 * one -> n = to_int64 got) -> loan n min chunk.
Proof.
  intros Hm Hc L got N. pose proof one_pos. subst got.
  rewrite !clamp0_int in * by assumption. rewrite math_max_int, min_int in N.
  rewrite ffloor_spec, <- floorZ_spec in L.
  assert (Z.max 0 min <= floorZ t) by nia. unfold exact_amount in *.
  set (g := Z.min (floorZ t) (Z.max (Z.max 0 min) (Z.max 0 chunk))) in *.
  assert (G : Z.max 0 min <= g <= 2 ^ 53) by lia.
  rewrite to_int64_int in N by (unfold in_int64, int64_min, int64_max; lia).
  rewrite N by nia. unfold loan. lia.
Qed.

Section Laws.
Context {D : Type} `{Redis D} `{!RedisLaws D}.

(** The clock is read without writing. *)
Lemma read_now_pure now (d : D) : exists r, read_now now d = (d, r).
Proof.
  unfold read_now, lbind, time, number. cbn [fst snd].
  destruct (tonumber (TIME now).1); [|eexists; reflexivity].
  cbn [lret]. destruct (tonumber (TIME now).2); eexists; reflexivity.
Qed.

(** Steps through the reads of a script that may fail. *)
Ltac lua_case E :=
  match type of E with
  | context [lbind (number ?x) _ _ _] =>
      let v := fresh "v" in let T := fresh "T" in
      destruct x as [v|] eqn:T; [|discriminate E];
      erewrite bind_ok in E by reflexivity
  | context [lbind read_now ?f ?now ?d] =>
      let r := fresh "now_ms" in let T := fresh "T" in
      destruct (read_now_pure now d) as [[r|?] T];
      [rewrite (bind_ok _ f now d d r T) in E|unfold lbind at 1 in E; rewrite T in E; discriminate E]
  | context [lbind (refill _ _ _) _ _ _] => erewrite bind_ok in E by apply refill_run
  | context [lbind (save _ _ _) _ _ _] => erewrite bind_ok in E by reflexivity
  | context [lbind (hmset _ _) _ _ _] => erewrite bind_ok in E by reflexivity
  | context [lbind (expire _ _) _ _ _] => erewrite bind_ok in E by reflexivity
  end.

(** A parsed table of numbers and strings. *)
Lemma parsed {A} vs (parse : any -> res A) (d d' : D) a :
  forallb scalar vs = true ->
  (d, match (match reply (LTable vs) with Ok raw => Ok raw | Err m => Err (ErrOther m) end) with
      | Err err => Err err | Ok raw => parse raw end) = (d', Ok a) ->
  exists rs, parse (AList rs) = Ok a /\ Forall2 replies vs rs.
Proof.
  intros Sc E. destruct (reply_scalars vs Sc) as (rs & R & F). rewrite R in E. injection E as _ E. eauto.
Qed.

Ltac parse_reply E :=
  let rs := fresh "rs" in let F := fresh "F" in
  apply parsed in E as (rs & E & F); [|reflexivity]; unfold replies, int in F; split_reply F.

(** The branch the script took, with the reply parsed. *)
Ltac finish E :=
  parse_reply E; injection E as <-;
  unfold int_at; cbn [bAllowed bLimitType GotRPM GotTPM GotITPM GotOTPM LimitType Allowed ReservationID
    lookup_total list_lookup_total toInt64 toString];
  repeat match goal with
  | P : Z.abs (of_int ?k) < _ -> ?n = _ |- _ => apply literal in P; [subst n|lia]
  end; cbn [Z.eqb Pos.eqb].

(** The numbers the script read from its arguments. *)
Ltac ints :=
  repeat match goal with
  | T : tonumber (FormatInt ?n) = Some ?v, X : exact_amount ?n |- _ =>
      rewrite (tonumber_int n) in T by (unfold exact_amount, in_int64, int64_max in *; lia);
      injection T as <-
  end.

Lemma Borrow_laws now (d : D) k l spec d' b :
  Borrow now d k l spec = (d', Ok b) ->
  (exact_spec spec -> bAllowed b = true -> grants l spec b) /\
  (bAllowed b = false -> bLimitType b <> LimitTypeNone).
Proof.
  unfold Borrow. destruct (Validate l); [discriminate|].
  destruct (decide (Subject k = "")); [discriminate|].
  unfold grants. destruct (Split l); intros E.
  - cbv zeta in E. cbn [bucketKeysIO] in E. unfold run, borrow_io_lua in E.
    repeat lua_case E. rewrite !want_got_eq in E. unfold remaining in E.
    set (t1 := refilled _ _ v) in *. set (t2 := refilled _ _ v0) in *. set (t3 := refilled _ _ v1) in *.
    destruct (Z.ltb_spec (ffloor t1) (clamp0 v2)); [|destruct (Z.ltb_spec (ffloor t2) (clamp0 v3));
      [|destruct (Z.ltb_spec (ffloor t3) (clamp0 v4))]].
    all: try solve [cbn [lret] in E; finish E; split; [discriminate|intros _; discriminate]].
    repeat lua_case E. cbn [lret] in E. finish E. split; [|discriminate].
    intros (M1 & _ & M3 & M4 & C1 & _ & C3 & C4) _. ints.
    split_and!; (reflexivity || (eapply loan_script; eassumption)).
  - cbn [bucketKeys] in E. unfold run, borrow_lua in E. cbv zeta in E.
    repeat lua_case E. rewrite !math_min_eq in E.
    set (t1 := refilled _ _ v) in *. set (t2 := refilled _ _ v0) in *.
    destruct (Z.ltb_spec (ffloor t1) (clamp0 v1)); [|destruct (Z.ltb_spec (ffloor t2) (clamp0 v2))].
    all: try solve [cbn [lret] in E; finish E; split; [discriminate|intros _; discriminate]].
    repeat lua_case E. cbn [lret] in E. finish E. split; [|discriminate].
    intros (M1 & M2 & _ & _ & C1 & C2 & _ & _) _. ints.
    split_and!; (reflexivity || (eapply loan_script; eassumption)).
Qed.

(** The id comes from the decision's branch alone. *)
Lemma parseDecision_allowed raw l id dec :
  parseDecision raw l id = Ok dec -> Allowed dec = true -> ReservationID dec = id /\ LimitType dec = LimitTypeNone.
Proof.
  unfold parseDecision. destruct (array _ _ _) as [arr|]; [|discriminate]. cbv zeta.
  destruct (int_at arr 0 =? 1); intros [= <-]; [split; reflexivity|discriminate].
Qed.

Lemma parseDecisionIO_allowed raw l id dec :
  parseDecisionIO raw l id = Ok dec -> Allowed dec = true -> ReservationID dec = id /\ LimitType dec = LimitTypeNone.
Proof.
  unfold parseDecisionIO. destruct (array _ _ _) as [arr|]; [|discriminate]. cbv zeta.
  destruct (int_at arr 0 =? 1); intros [= <-]; [split; reflexivity|discriminate].
Qed.

Lemma Check_law now (d : D) k l c id d' dec :
  Check now d k l c id = (d', Ok dec) -> Allowed dec = true ->
  ReservationID dec = id /\ LimitType dec = LimitTypeNone.
Proof.
  unfold Check. destruct (Validate l); [discriminate|].
  destruct (decide (Subject k = "")); [discriminate|]. destruct (decide (id = "")); [discriminate|].
  destruct (Split l); cbn [bucketKeys bucketKeysIO]; destruct (run _ _ _ _ _) as [? [raw|e]]; intros [= _ E];
    [exact (parseDecisionIO_allowed _ _ _ _ E)|exact (parseDecision_allowed _ _ _ _ E)].
Qed.

#[export] Instance Redis_StoreLaws : StoreLaws D.
Proof.
  split; cbn [sBorrow sCheck Redis_Store].
  - intros t s k l spec s' b X E A. exact (proj1 (Borrow_laws _ _ _ _ _ _ _ E) X A).
  - intros t s k l spec s' b E A. exact (proj2 (Borrow_laws _ _ _ _ _ _ _ E) A).
  - intros t s k l c id s' dec. apply Check_law.
Qed.
End Laws.
