(* ===== verification/RedisBuckets.v ===== *)
(** * RedisBuckets: the token buckets the scripts keep

    The scripts carry a copy of the bucket arithmetic of pkg/bucket in Lua.  On the
    snapshots the scripts write it computes the same numbers: a bucket's hash is a
    [Bucket.State], [refill] is [Bucket.Refill], a return is [Bucket.Credit], and a
    settlement's [apply_delta] is the in-process store's [settleAxis]. *)

From stdpp Require Import base tactics numbers strings gmap list.
From Stdlib Require Import ZArith Lia.
From S2P Require Import Prelude GoFloat GoString Api Bucket Budget Store Memory MemorySpec MemoryBudget.
From S2P Require Import RedisServer RedisScripts Redis RedisSpec RedisLifecycle RedisLaws.

(** ** Lua's arithmetic and Go's *)

Lemma number_range n : Z.abs n <= 2 ^ 53 -> in_int64 n.
Proof. unfold in_int64, int64_min, int64_max. lia. Qed.

Lemma clamp0_of_int n : clamp0 (of_int n) = of_int (Z.max 0 n).
Proof.
  unfold clamp0. destruct (Z.le_gt_cases 0 n).
  - pose proof (of_int_nonneg n ltac:(lia)). rewrite Z.max_r by lia.
    destruct (Z.ltb_spec (of_int n) 0); [lia|reflexivity].
  - pose proof (of_int_mono n (-1) ltac:(lia)). rewrite (of_int_exact (-1)) in * by lia.
    pose proof one_pos. rewrite Z.max_l, of_int_0 by lia. destruct (Z.ltb_spec (of_int n) 0); [reflexivity|lia].
Qed.

(** Comparing with an integer below [2^53] compares the integers. *)
Lemma of_int_le_inv n c : of_int n <= of_int c -> 0 <= c < 2 ^ 53 -> n <= c.
Proof.
  intros H Hc. destruct (Z.le_gt_cases n c) as [|G]; [assumption|exfalso].
  pose proof (of_int_mono (c + 1) n ltac:(lia)). pose proof one_pos.
  rewrite (of_int_exact c), (of_int_exact (c + 1)) in * by lia. nia.
Qed.

Section Arithmetic.
Context (c nowMs : Z) (st : State).
Context (Hc : 0 < c < 2 ^ 53) (Tok : time_ok nowMs) (N0 : nowMs <> 0).
Context (F : fresh nowMs c st).

Let Refill_st : Refill st nowMs = st.
Proof. apply (fresh_Refill nowMs N0 c); [unfold limit_ok, max_capacity; lia|exact F|lia]. Qed.

(** What the script admits the bucket admits, and both debit the same. *)
Lemma lua_admits x :
  0 <= x <= int64_max ->
  (stTokens st <? of_int x) || (of_int c <? of_int x) = false ->
  TryConsume st nowMs x =
    (mkState (fsub (stTokens st) (of_int x)) nowMs c, (TryConsume st nowMs x).2) /\
  rAllowed (TryConsume st nowMs x).2 = true /\ x <= c.
Proof.
  intros Hx E. bool_to_prop. assert (Xc : x <= c) by (apply of_int_le_inv; lia).
  unfold TryConsume. rewrite Refill_st, clamp_max, Z.max_r by lia. destruct F as (W & L & C).
  rewrite C, L. destruct (Z.ltb_spec c x); [lia|].
  pose proof (fadd_ge _ _ (wf_float _ W) (Z.lt_le_incl _ _ eps_pos)).
  destruct (Z.ltb_spec (fadd (stTokens st) eps) (of_int x)); [lia|]. cbn [snd rAllowed]. auto.
Qed.

Lemma lua_credit x :
  0 <= x -> math_min (of_int c) (fadd (stTokens st) (of_int x)) = stTokens (Credit st nowMs x).
Proof.
  intros Hx. unfold Credit. rewrite Refill_st, math_min_eq. destruct F as (W & L & C).
  destruct (Z.leb_spec x 0); cbn [stTokens]; [|rewrite fmin_eq, C; reflexivity].
  replace x with 0 by lia. destruct W as [Fl _ U]. rewrite C, Z.max_r in U by (apply of_int_nonneg; lia).
  rewrite of_int_0, fadd_exact; rewrite Z.add_0_r; [lia|exact Fl].
Qed.

Lemma of_int_sub a b : Z.abs a <= 2 ^ 53 -> Z.abs b <= 2 ^ 53 -> Z.abs (a - b) <= 2 ^ 53 ->
  fsub (of_int a) (of_int b) = of_int (a - b).
Proof.
  intros Ha Hb Hd. rewrite !of_int_exact by lia. rewrite fsub_exact;
    rewrite <- Z.mul_sub_distr_r; [reflexivity|apply int_is_float; lia].
Qed.

Lemma lua_settle reserved actual :
  0 <= reserved <= 2 ^ 53 -> 0 <= actual < 2 ^ 53 ->
  apply_delta (stTokens st) (of_int c) (of_int reserved) (of_int actual) =
    (stTokens (settleAxis st nowMs reserved actual).1, of_int (settleAxis st nowMs reserved actual).2) /\
  0 <= (settleAxis st nowMs reserved actual).2 <= 2 ^ 53.
Proof.
  intros Hr Ha. unfold apply_delta, settleAxis. cbv zeta. pose proof one_pos.
  rewrite of_int_sub by lia. rewrite (wrap64_id (reserved - actual)) by (apply number_range; lia).
  rewrite (of_int_exact (reserved - actual)) by lia.
  destruct (Z.ltb_spec 0 (reserved - actual)).
  { destruct (Z.ltb_spec 0 ((reserved - actual) * one)); [|nia]. cbn [fst snd].
    rewrite <- of_int_exact, lua_credit, of_int_0 by lia. split; [reflexivity|lia]. }
  destruct (Z.ltb_spec 0 ((reserved - actual) * one)); [nia|].
  destruct (Z.ltb_spec (reserved - actual) 0).
  2:{ destruct (Z.ltb_spec ((reserved - actual) * one) 0); [nia|]. cbn [fst snd].
      rewrite of_int_0. split; [reflexivity|lia]. }
  destruct (Z.ltb_spec ((reserved - actual) * one) 0); [|nia].
  rewrite wrap64_id by (apply number_range; lia). set (x := - (reserved - actual)).
  replace (- ((reserved - actual) * one)) with (x * one) by (unfold x; ring).
  assert (X : 0 < x < 2 ^ 53) by (unfold x; lia). clearbody x.
  destruct F as (W & L & C).
  pose proof (wf_bounds st ltac:(unfold max_capacity; lia) W) as B.
  pose proof (floor_le_cap _ W ltac:(unfold max_capacity; lia)) as Fc. rewrite C in Fc.
  pose proof (floor_ge_m1 _ W) as Fm. pose proof (floorZ_bounds (stTokens st)) as Fb.
  unfold DebitFloor. rewrite Refill_st. destruct (Z.leb_spec x 0); [lia|]. cbv zeta.
  change (to_int64 (ffloor (stTokens st))) with (RemainingInt (stTokens st)).
  rewrite RemainingInt_floor by exact B.
  assert (Fe : ffloor (stTokens st) = floorZ (stTokens st) * one) by (rewrite ffloor_spec, floorZ_spec; reflexivity).
  rewrite Fe. set (f := floorZ (stTokens st)) in *.
  assert (Cmp : (x * one <=? f * one) = (x <=? f)).
  { apply eq_true_iff_eq. rewrite !Z.leb_le. symmetry. apply Z.mul_le_mono_pos_r. assumption. }
  rewrite Cmp. clear Cmp. destruct (Z.leb_spec x f); cbn [fst snd stTokens].
  - rewrite of_int_exact, of_int_0 by lia. split; [reflexivity|lia].
  - rewrite (of_int_exact f) by lia. rewrite wrap64_id by (apply number_range; lia).
    replace (fsub (x * one) (f * one)) with (of_int (x - f)).
    2:{ rewrite <- (of_int_exact x), <- (of_int_exact f) by lia. rewrite of_int_sub; [reflexivity|lia..]. }
    destruct (fsub _ _ <? 0); (split; [reflexivity|lia]).
Qed.
End Arithmetic.

(** ** A bucket's hash *)

(** The hash holds the snapshot. *)
Definition holds_state `{Redis D} (h : gmap string string) (st : State) : Prop :=
  tonum (h !! "tokens") = Some (stTokens st) /\ tonum (h !! "last_ms") = Some (of_int (LastMs st)).

Section Buckets.
Context {D : Type} `{Redis D} `{!RedisLaws D}.

(** The script's [refill] is the bucket's. *)
Lemma refilled_Refill h st m :
  holds_state h st -> wf st -> 0 < Capacity st < 2 ^ 53 -> 0 < LastMs st <= m -> m <= 2 ^ 53 ->
  refilled (of_int m) h (of_int (Capacity st)) = stTokens (Refill st m).
Proof.
  intros [E1 E2] W Hc Hl Hm. unfold refilled. rewrite E1, E2. pose proof one_pos.
  assert (Cp : 0 < of_int (Capacity st)) by (apply of_int_pos; lia).
  destruct (Z.ltb_spec 0 (of_int (Capacity st))); [|lia].
  rewrite (of_int_exact m), (of_int_exact (LastMs st)) by lia. rewrite andb_true_r.
  destruct (Z.ltb_spec (LastMs st * one) (m * one)).
  2:{ replace m with (LastMs st) by nia. rewrite Refill_same by (assumption || lia). reflexivity. }
  rewrite <- !of_int_exact, of_int_sub, math_min_eq by lia.
  unfold Refill. destruct (Z.leb_spec (Capacity st) 0); [lia|].
  destruct (Z.eqb_spec (LastMs st) 0); [lia|]. destruct (Z.ltb_spec m (LastMs st)); [lia|].
  cbn [stTokens]. rewrite fmin_eq, RefillPerSec_eq, wrap64_id by (apply number_range || idtac; lia).
  reflexivity.
Qed.

(** The balance of the bucket at key [k] for capacity [c]. *)
Definition level (now : Time) (d : D) (k : string) (c : Z) : float64 :=
  refilled (of_int (toUnixMilli now)) (contents now d k) (of_int c).

(** The bucket at [k]: never written, or kept for good with a snapshot of capacity
    [c] written by millisecond [T]. *)
Definition bucket_ok (T c : Z) (d : D) (k : string) : Prop :=
  contents (UnixMilli T) d k = ∅ \/
  deadline d k = None /\
  exists st, holds_state (contents (UnixMilli T) d k) st /\ wf st /\ 0 < LastMs st <= T /\ Capacity st = c.

Lemma toUnixMilli_UnixMilli m : toUnixMilli (UnixMilli m) = m.
Proof. unfold toUnixMilli, UnixMilli, Millisecond. apply Z.div_mul. lia. Qed.

(** Only the millisecond of the clock counts. *)
Lemma contents_ms now now' (d : D) k :
  toUnixMilli now = toUnixMilli now' -> contents now d k = contents now' d k.
Proof.
  intros E. pose proof (contents_later now' now d k ltac:(lia)) as E1.
  pose proof (contents_later now' now' d k ltac:(lia)) as E2. rewrite E, <- E2 in E1. exact E1.
Qed.

(** The hash of a bucket in the next calls: what was there, or nothing if nothing
    was there. *)
Lemma contents_kept now now' (d : D) k :
  toUnixMilli now <= toUnixMilli now' -> contents now d k = ∅ \/ deadline d k = None ->
  contents now' d k = contents now d k.
Proof.
  intros L [E|E]; rewrite (contents_later now now') by exact L.
  - destruct (deadline d k); [case_if|]; congruence.
  - rewrite E. reflexivity.
Qed.

Lemma bucket_ok_at T c d k now :
  bucket_ok T c d k -> T <= toUnixMilli now ->
  contents now d k = contents (UnixMilli T) d k /\
  (contents now d k = ∅ \/ deadline d k = None /\
   exists st, holds_state (contents now d k) st /\ wf st /\ 0 < LastMs st <= T /\ Capacity st = c).
Proof.
  intros B L. assert (E : contents now d k = contents (UnixMilli T) d k).
  { apply contents_kept; [rewrite toUnixMilli_UnixMilli; exact L|]. destruct B as [B|[B _]]; auto. }
  split; [exact E|]. rewrite E. exact B.
Qed.

Lemma bucket_ok_later T T' c d k : bucket_ok T c d k -> T <= T' -> bucket_ok T' c d k.
Proof.
  intros B L. destruct (bucket_ok_at T c d k (UnixMilli T') B) as [E [B'|(B1 & st & B2 & B3 & B4 & B5)]];
    [rewrite toUnixMilli_UnixMilli; exact L|left; exact B'|].
  right. split; [exact B1|]. exists st. split_and!; (assumption || lia).
Qed.

(** A bucket's balance is a well-formed snapshot. *)
Lemma level_fresh T c d k now :
  bucket_ok T c d k -> 0 < c < 2 ^ 53 -> 0 < toUnixMilli now <= 2 ^ 53 -> T <= toUnixMilli now ->
  fresh (toUnixMilli now) c (mkState (level now d k c) (toUnixMilli now) c).
Proof.
  intros B Hc Hn L. split; [|split; reflexivity]. unfold level.
  destruct (bucket_ok_at T c d k now B L) as [_ [E|(_ & st & Hs & W & Hl & C)]].
  - rewrite E. unfold refilled. rewrite !lookup_empty. cbn [tonum mbind option_bind].
    apply wf_of_int; unfold max_capacity; lia.
  - rewrite <- C in *. rewrite (refilled_Refill _ st) by (assumption || lia).
    assert (T1 : time_ok (LastMs st)) by (unfold time_ok, int64_max; lia).
    assert (T2 : time_ok (toUnixMilli now)) by (unfold time_ok, int64_max; lia).
    pose proof (Refill_wf st _ T1 T2 W) as W'. pose proof (Refill_Capacity st (toUnixMilli now)) as E.
    destruct W' as [W1 W2 W3]. rewrite E in W3. split; cbn [stTokens Capacity]; assumption.
Qed.

(** ** What a write does to a bucket *)

Definition same_bucket (now : Time) (d d' : D) (k : string) : Prop :=
  contents now d' k = contents now d k /\ deadline d' k = deadline d k.

(** The snapshot with [t] tokens was written at [now]. *)
Definition wrote (now : Time) (d d' : D) (k : string) (t : float64) : Prop :=
  contents now d' k =
    put [("tokens", tostr t); ("last_ms", tostr (of_int (toUnixMilli now)))] (contents now d k) /\
  deadline d' k = if bool_decide (contents now d k = ∅) then None else deadline d k.

Lemma same_refl now d k : same_bucket now d d k.
Proof. split; reflexivity. Qed.

Lemma same_saved now now_ms t (d d' : D) k k' :
  same_bucket now d d' k -> k <> k' -> same_bucket now d (saved now_ms k' t now d') k.
Proof.
  intros [E1 E2] N. destruct (HMSET_other now d' k' [("tokens", tostr t); ("last_ms", tostr now_ms)] k N) as [F1 F2].
  unfold same_bucket, saved. rewrite F1, F2. auto.
Qed.

Lemma wrote_saved now t (d d' : D) k :
  same_bucket now d d' k -> wrote now d (saved (of_int (toUnixMilli now)) k t now d') k t.
Proof.
  intros [E1 E2]. unfold wrote, saved. rewrite HMSET_same, HMSET_deadline, E1, E2. auto.
Qed.

Lemma wrote_other now now_ms t t' (d d' : D) k k' :
  wrote now d d' k t -> k <> k' -> wrote now d (saved now_ms k' t' now d') k t.
Proof.
  intros [E1 E2] N. destruct (HMSET_other now d' k' [("tokens", tostr t'); ("last_ms", tostr now_ms)] k N) as [F1 F2].
  unfold wrote, saved. rewrite F1, F2. auto.
Qed.

(** Reservations are written elsewhere. *)
Lemma kept_bucket id kvs now (d : D) a base :
  contents now (kept id kvs now d) (axis_key a base) = contents now d (axis_key a base) /\
  deadline (kept id kvs now d) (axis_key a base) = deadline d (axis_key a base) \/
  reservationKey id = axis_key a base.
Proof.
  destruct (decide (reservationKey id = axis_key a base)) as [E|N]; [right; exact E|left].
  unfold kept. rewrite (EXPIRE_contents _ _ _ _ ttl_seconds) by (reflexivity || (vm_compute; split; congruence)).
  rewrite EXPIRE_other by congruence. apply HMSET_other. congruence.
Qed.

Lemma same_kept id kvs now (d d' : D) a key :
  same_bucket now d d' (axis_key a (base_key key)) -> same_bucket now d (kept id kvs now d') (axis_key a (base_key key)).
Proof.
  intros [E1 E2]. destruct (kept_bucket id kvs now d' a (base_key key)) as [[F1 F2]|F];
    [|destruct (reservation_bucket id a key F)]. unfold same_bucket. rewrite F1, F2. auto.
Qed.

Lemma wrote_kept id kvs now (d d' : D) a key t :
  wrote now d d' (axis_key a (base_key key)) t -> wrote now d (kept id kvs now d') (axis_key a (base_key key)) t.
Proof.
  intros [E1 E2]. destruct (kept_bucket id kvs now d' a (base_key key)) as [[F1 F2]|F];
    [|destruct (reservation_bucket id a key F)]. unfold wrote. rewrite F1, F2. auto.
Qed.

(** Left alone, a bucket stays well formed and worth the same. *)
Lemma same_bucket_ok T c now (d d' : D) k :
  bucket_ok T c d k -> T <= toUnixMilli now -> same_bucket now d d' k ->
  bucket_ok (toUnixMilli now) c d' k /\
  forall m, toUnixMilli now <= m -> level (UnixMilli m) d' k c = level (UnixMilli m) d k c.
Proof.
  intros B L [E1 E2]. destruct (bucket_ok_at T c d k now B L) as [_ B'].
  assert (M : toUnixMilli (UnixMilli (toUnixMilli now)) = toUnixMilli now) by apply toUnixMilli_UnixMilli.
  split.
  - unfold bucket_ok. rewrite (contents_ms _ now) by exact M. rewrite E1, E2.
    destruct B' as [B'|(B1 & st & B2 & B3 & B4 & B5)]; [left; exact B'|right]. split; [exact B1|].
    exists st. split_and!; (assumption || lia).
  - intros m Hm. unfold level. rewrite !toUnixMilli_UnixMilli.
    assert (Lm : toUnixMilli now <= toUnixMilli (UnixMilli m)) by (rewrite toUnixMilli_UnixMilli; exact Hm).
    rewrite (contents_kept now (UnixMilli m) d'), (contents_kept now (UnixMilli m) d), E1; try exact Lm;
      [reflexivity|destruct B' as [B'|[B' _]]; auto|rewrite E1, E2; destruct B' as [B'|[B' _]]; auto].
Qed.

(** Written, it holds the new snapshot. *)
Lemma wrote_bucket_ok T c now (d d' : D) k st :
  bucket_ok T c d k -> T <= toUnixMilli now -> 0 < toUnixMilli now <= 2 ^ 53 -> 0 < c < 2 ^ 53 ->
  fresh (toUnixMilli now) c st -> wrote now d d' k (stTokens st) ->
  bucket_ok (toUnixMilli now) c d' k /\
  forall m, toUnixMilli now <= m <= 2 ^ 53 -> level (UnixMilli m) d' k c = stTokens (Refill st m).
Proof.
  intros B L Hn Hc (W & E & C) [E1 E2]. destruct (bucket_ok_at T c d k now B L) as [_ B'].
  assert (Dl : deadline d' k = None).
  { rewrite E2. destruct B' as [->|[-> _]]; [reflexivity|case_bool_decide; reflexivity]. }
  pose proof (wf_bounds st ltac:(unfold max_capacity; lia) W) as Bd. pose proof slack_small. pose proof one_pos.
  assert (Hs : holds_state (contents now d' k) st).
  { rewrite E1. unfold holds_state, put. cbn [fold_left]. rewrite lookup_insert_ne by discriminate.
    rewrite !lookup_insert_eq. cbn [tonum mbind option_bind]. rewrite E. split; apply tonumber_tostr.
    - apply W.
    - lia.
    - apply of_int_float.
    - rewrite of_int_exact, Z.abs_mul, (Z.abs_eq one) by lia. apply Z.mul_le_mono_nonneg_r; lia. }
  split.
  - right. split; [exact Dl|]. exists st.
    rewrite (contents_ms _ now) by apply toUnixMilli_UnixMilli. split_and!; (assumption || lia).
  - intros m Hm. unfold level. rewrite !toUnixMilli_UnixMilli.
    rewrite (contents_kept now (UnixMilli m) d') by (rewrite ?toUnixMilli_UnixMilli; auto; lia).
    rewrite <- C. apply refilled_Refill; (assumption || lia).
Qed.
End Buckets.
