(* ===== verification/RedisEffects.v ===== *)
(** * RedisEffects: what each script writes

    Every script either writes nothing or writes the buckets of one key, an axis at
    a time, and then a reservation; [effect] says by how much each bucket changes,
    in the terms of [Budget.acts], and what the reservation becomes. *)

From stdpp Require Import base tactics numbers strings gmap list.
From Stdlib Require Import ZArith Lia.
From S2P Require Import Prelude GoFloat GoString Api Bucket Budget Store Memory MemorySpec MemoryBudget.
From S2P Require Import RedisServer RedisScripts Redis RedisSpec RedisLifecycle RedisLaws RedisBuckets.

(** ** Keys of buckets *)

Lemma axis_key_inj a b x y : axis_key a x = axis_key b y -> a = b /\ x = y.
Proof.
  assert (P : forall (x y : string) c (t u : string), String.length t = String.length u -> t <> u ->
    x +:+ String.String c t = y +:+ u -> False).
  { intros x' y' c t u L N E. change (String.String c t) with (String.String c "" +:+ t) in E.
    rewrite str_app_assoc in E. apply app_inj_length in E as [_ E]; auto. }
  unfold axis_key. intros E.
  destruct a, b; try (apply app_inj_length in E as [-> E]; [discriminate || auto|reflexivity]).
  all: exfalso; first [refine (P _ _ _ _ _ _ _ E); (reflexivity || discriminate)
                      |refine (P _ _ _ _ _ _ _ (eq_sym E)); (reflexivity || discriminate)].
Qed.

(** ** One bucket *)

Section Acts.
Context (c n t : Z) (Hc : 0 < c < 2 ^ 53) (Tok : time_ok n) (N0 : n <> 0).
Context (F : fresh n c (mkState t n c)).

Let Cap : 0 < c <= max_capacity.
Proof. unfold max_capacity. lia. Qed.

Lemma acts_to st q : acts c n (mkState t n c) st q -> acts c n (mkState t n c) (mkState (stTokens st) n c) q.
Proof. intros A. pose proof A as ((_ & L & C) & _). destruct st; cbn in *. subst. exact A. Qed.

Lemma acts_debit x :
  0 <= x <= int64_max -> (t <? of_int x) || (of_int c <? of_int x) = false ->
  acts c n (mkState t n c) (mkState (fsub t (of_int x)) n c) x.
Proof.
  intros Hx E. destruct (lua_admits c n _ Hc N0 F x Hx E) as (E1 & E2 & _).
  pose proof (acts_TryConsume c n _ Cap Tok N0 F x Hx) as A. rewrite E2, E1 in A. exact A.
Qed.

(** A loan takes whole tokens that are there. *)
Lemma acts_loan x :
  0 <= x -> x <= floorZ t -> acts c n (mkState t n c) (mkState (fsub t (of_int x)) n c) x.
Proof.
  intros H0 Hx. pose proof (floorZ_bounds t). pose proof one_pos. destruct F as (W & _ & _).
  pose proof (floor_le_cap _ W ltac:(cbn; lia)) as Fc. cbn in Fc.
  apply acts_debit; [unfold int64_max; lia|]. rewrite !of_int_exact by lia.
  destruct (Z.ltb_spec t (x * one)), (Z.ltb_spec (c * one) (x * one)); (reflexivity || nia).
Qed.

Lemma acts_return x :
  0 <= x <= int64_max ->
  acts c n (mkState t n c) (mkState (math_min (of_int c) (fadd t (of_int x))) n c) (- x).
Proof.
  intros Hx. pose proof (acts_Credit c n _ Cap Tok N0 F x ltac:(lia)) as A.
  rewrite clampCost_id in A by lia. apply acts_to in A.
  change t with (stTokens (mkState t n c)) at 2. rewrite (lua_credit c n) by (assumption || lia). exact A.
Qed.

Lemma acts_settle reserved actual :
  0 <= reserved <= 2 ^ 53 -> 0 <= actual < 2 ^ 53 ->
  let '(t', over) := apply_delta t (of_int c) (of_int reserved) (of_int actual) in
  acts c n (mkState t n c) (mkState t' n c) (actual - reserved - to_int64 over).
Proof.
  intros Hr Ha. pose proof (lua_settle c n _ Hc N0 F reserved actual Hr Ha) as [E B]. cbn [stTokens] in E.
  rewrite E. pose proof (acts_settleAxis c n _ Cap Tok N0 F reserved actual) as A.
  destruct (settleAxis _ _ _ _) as [st over]. cbn [fst snd] in *.
  rewrite of_int_exact, to_int64_int by (lia || (apply number_range; lia)).
  apply acts_to, A; unfold cost_ok, int64_max; lia.
Qed.

Lemma acts_kept : acts c n (mkState t n c) (mkState t n c) 0.
Proof. apply acts_same; assumption. Qed.
End Acts.

(** Names the balances a script has computed. *)
Ltac levels key :=
  repeat match goal with
  | |- context [refilled ?n (contents ?now ?d (axis_key ?a (base_key key))) (of_int ?c)] =>
      change (refilled n (contents now d (axis_key a (base_key key))) (of_int c))
        with (level now d (axis_key a (base_key key)) c)
  end.

(** ** The writes of a script *)

(** One axis: the capacity it was refilled for, the tokens written, the charge. *)
Record write := mkWrite { wAxis : axis; wCap : Z; wTokens : float64; wCharge : Z }.

(** A reservation rewritten or created: its id, the fields, and what it holds then. *)
Record rewrite := mkRewrite { wId : string; wFields : list (string * string); wStored : stored }.

Section Effects.
Context {D : Type} `{Redis D} `{!RedisLaws D}.

Fixpoint puts (base : string) (ws : list write) (now : Time) (d : D) : D :=
  match ws with
  | [] => d
  | w :: ws =>
      puts base ws now
        (saved (of_int (toUnixMilli now)) (axis_key (wAxis w) base) (wTokens w) now d)
  end.

Definition rewritten (w : option rewrite) (now : Time) (d : D) : D :=
  match w with Some w => kept (wId w) (wFields w) now d | None => d end.

(** The tokens written are the bucket's balance less the charge. *)
Definition write_acts (now : Time) (d : D) (base : string) (w : write) : Prop :=
  let n := toUnixMilli now in
  let st := mkState (level now d (axis_key (wAxis w) base) (wCap w)) n (wCap w) in
  0 < wCap w < 2 ^ 53 -> fresh n (wCap w) st ->
  acts (wCap w) n st (mkState (wTokens w) n (wCap w)) (wCharge w).

(** What a call does to the database: nothing, or writes to the buckets of [key]
    on axes of the mode [sp] that charge each as [charge] says for a capacity in
    [cap], and a reservation written so that [P] holds of it. *)
Variant effect (now : Time) (d : D) (P : string -> stored -> Prop) (key : Key) (sp : bool)
    (cap : axis -> Z -> Prop) (charge : axis -> Z) (d' : D) : Prop :=
| eff_none : d' = d -> (forall a, charge a = 0) -> effect now d P key sp cap charge d'
| eff_some ws rs :
    d' = rewritten rs now (puts (base_key key) ws now d) ->
    NoDup (wAxis <$> ws) ->
    (forall a, match find (fun w => bool_decide (wAxis w = a)) ws with
               | Some w => counts a sp = true /\ write_acts now d (base_key key) w /\
                           cap a (wCap w) /\ wCharge w = charge a
               | None => charge a = 0
               end) ->
    (forall w, rs = Some w -> P (wId w) (wStored w) /\
       decodes (put (wFields w) (res_hash now d (wId w))) (wStored w)) ->
    effect now d P key sp cap charge d'.

(** ** What an effect means for a bucket *)

(** The store's reservations, each with the property [P] of its id. *)
Definition res_inv (P : string -> stored -> Prop) (now : Time) (d : D) : Prop :=
  forall id, res_hash now d id = ∅ \/ exists r, decodes (res_hash now d id) r /\ P id r.

Lemma res_inv_db P now d : res_inv P now d -> res_db now d.
Proof. intros R id. destruct (R id) as [E|(r & Dc & _)]; eauto. Qed.

(** Reservations only expire as time passes. *)
Lemma res_inv_later P now now' d :
  res_inv P now d -> toUnixMilli now <= toUnixMilli now' -> res_inv P now' d.
Proof.
  intros R L id. unfold res_hash. rewrite (contents_later now now') by exact L.
  destruct (deadline d (reservationKey id)) as [t|]; [case_if; [left; reflexivity|]|]; apply R.
Qed.

Section Bucket.
Context (now : Time) (d : D) (a : axis) (key : Key).
Let k := axis_key a (base_key key).

Lemma puts_res base ws d0 key0 id :
  base = base_key key0 -> res_hash now (puts base ws now d0) id = res_hash now d0 id.
Proof.
  intros ->. revert d0. induction ws as [|w ws IH]; intros d0; [reflexivity|].
  cbn [puts]. rewrite IH. apply saved_res.
Qed.

Lemma puts_same base ws d1 :
  same_bucket now d d1 k -> base <> base_key key \/ find (fun w => bool_decide (wAxis w = a)) ws = None ->
  same_bucket now d (puts base ws now d1) k.
Proof.
  revert d1. induction ws as [|w ws IH]; intros d1 Sm N; [exact Sm|]. cbn [puts]. apply IH.
  - apply same_saved; [exact Sm|]. intros [E1 E2]%axis_key_inj. destruct N as [N|N]; [congruence|].
    cbn [find] in N. rewrite bool_decide_eq_true_2 in N by congruence. discriminate.
  - destruct N as [N|N]; [left; exact N|right]. cbn [find] in N. case_bool_decide; [discriminate|exact N].
Qed.

Lemma puts_wrote ws d1 t :
  wrote now d d1 k t -> find (fun w => bool_decide (wAxis w = a)) ws = None ->
  wrote now d (puts (base_key key) ws now d1) k t.
Proof.
  revert d1. induction ws as [|w ws IH]; intros d1 Wr N; [exact Wr|]. cbn [puts find] in *.
  case_bool_decide as E; [discriminate|]. apply IH; [|exact N].
  apply wrote_other; [exact Wr|]. intros [E1 _]%axis_key_inj. congruence.
Qed.

Lemma puts_found ws d1 w :
  same_bucket now d d1 k -> NoDup (wAxis <$> ws) -> find (fun w => bool_decide (wAxis w = a)) ws = Some w ->
  wrote now d (puts (base_key key) ws now d1) k (wTokens w).
Proof.
  revert d1. induction ws as [|v ws IH]; intros d1 Sm Nd F; [discriminate|]. cbn [puts find] in *.
  apply NoDup_cons in Nd as [Nv Nd]. case_bool_decide as E.
  - injection F as ->. rewrite E. apply puts_wrote; [apply wrote_saved; exact Sm|].
    destruct (find _ ws) as [v|] eqn:F; [|reflexivity]. apply find_some in F as [I B].
    apply bool_decide_eq_true_1 in B. exfalso. apply Nv. rewrite E, <- B. apply list_elem_of_fmap_2, list_elem_of_In, I.
  - apply IH; [|exact Nd|exact F]. apply same_saved; [exact Sm|]. intros [E1 _]%axis_key_inj. congruence.
Qed.

Lemma same_rewritten rs d1 : same_bucket now d d1 k -> same_bucket now d (rewritten rs now d1) k.
Proof. destruct rs; [apply same_kept|auto]. Qed.

Lemma wrote_rewritten rs d1 t : wrote now d d1 k t -> wrote now d (rewritten rs now d1) k t.
Proof. destruct rs; [apply wrote_kept|auto]. Qed.

(** The bucket of axis [a] of [key] is metered by the charge of the call, if the
    call is on the same base key, with the bucket's capacity. *)
Lemma effect_metered T c u P key' sp cap charge d' :
  effect now d P key' sp cap charge d' -> bucket_ok T c d k ->
  0 < c < 2 ^ 53 -> T <= toUnixMilli now <= u -> 0 < toUnixMilli now -> u <= 2 ^ 53 ->
  (forall x, cap a x -> base_key key' = base_key key -> counts a sp = true -> x = c) ->
  bucket_ok (toUnixMilli now) c d' k /\
  metered (fun d m => level (UnixMilli m) d k c) c u (toUnixMilli now) d d'
    (if bool_decide (base_key key' = base_key key) then charge a else 0).
Proof.
  intros Ef B Hc Hn N0 Hu Lim.
  assert (Same : forall q, q = 0 -> same_bucket now d d' k ->
    bucket_ok (toUnixMilli now) c d' k /\
    metered (fun d m => level (UnixMilli m) d k c) c u (toUnixMilli now) d d' q).
  { intros q -> Sm. destruct (same_bucket_ok T c now d d' k B ltac:(lia) Sm) as [B' E].
    split; [exact B'|]. apply meter_kept; [reflexivity|]. intros m Hm. apply E. lia. }
  destruct Ef as [-> Z0|ws rs -> Nd Fd _].
  { apply Same; [case_bool_decide; auto|apply same_refl]. }
  specialize (Fd a). destruct (decide (base_key key' = base_key key)) as [Eb|Nb].
  2:{ apply Same; [case_bool_decide; congruence|]. apply same_rewritten, puts_same; [apply same_refl|left; exact Nb]. }
  rewrite bool_decide_eq_true_2 by exact Eb. rewrite Eb in *.
  destruct (find _ ws) as [w|] eqn:F.
  2:{ apply Same; [exact Fd|]. apply same_rewritten, puts_same; [apply same_refl|right; exact F]. }
  destruct Fd as (Ct & Wa & Cp & Cg). apply Lim in Cp; [|reflexivity|exact Ct].
  pose proof F as [_ Ax]%find_some. apply bool_decide_eq_true_1 in Ax.
  unfold write_acts in Wa. rewrite Ax, Cp in Wa. fold k in Wa. cbv zeta in Wa.
  pose proof (level_fresh T c d k now B Hc ltac:(lia) ltac:(lia)) as Fr.
  destruct (Wa Hc Fr) as [Fr' Q]. rewrite Cg in Q.
  pose proof (wrote_rewritten rs _ _ (puts_found ws d w (same_refl now d k) Nd F)) as Wr.
  destruct (wrote_bucket_ok T c now d _ k (mkState (wTokens w) (toUnixMilli now) c) B ltac:(lia) ltac:(lia) Hc Fr' Wr)
    as [B' E].
  split; [exact B'|]. eapply meter_rewritten; [exact Fr'| |].
  - intros m Hm. apply E. lia.
  - cbn [stTokens] in *. unfold level in *. rewrite toUnixMilli_UnixMilli.
    rewrite (contents_ms (UnixMilli (toUnixMilli now)) now) by apply toUnixMilli_UnixMilli. exact Q.
Qed.
End Bucket.

(** ** What an effect means for the reservations *)

Lemma effect_res now d P key sp cap charge d' :
  effect now d P key sp cap charge d' -> res_inv P now d -> res_inv P now d'.
Proof.
  intros [-> _|ws rs -> _ _ Rw] R; [exact R|]. intros id.
  destruct rs as [w|]; cbn [rewritten].
  2:{ rewrite (puts_res now _ ws d key) by reflexivity. apply R. }
  destruct (Rw w eq_refl) as (Pw & Dc).
  destruct (kept_res (wId w) (wFields w) now (puts (base_key key) ws now d)) as [K1 K2].
  destruct (decide (id = wId w)) as [->|N].
  - right. exists (wStored w). rewrite K1, (puts_res now _ ws d key) by reflexivity. auto.
  - rewrite K2, (puts_res now _ ws d key) by (reflexivity || exact N). apply R.
Qed.
End Effects.
