(* ===== verification/RedisCalls.v ===== *)
(** * RedisCalls: the effect of each call of the Redis store *)

From stdpp Require Import base tactics numbers strings gmap list.
From Stdlib Require Import ZArith Lia.
From S2P Require Import Prelude GoFloat GoString Api Bucket Budget Store Memory MemorySpec MemoryBudget.
From S2P Require Import RedisServer RedisScripts Redis RedisSpec RedisLifecycle RedisLaws RedisBuckets RedisEffects.

(** Limits whose integers, and the next one, are [float64] values. *)
Definition rlimits_ok (l : Limits) : Prop := forall a, 0 <= limit_of a l < 2 ^ 53.

Definition rcosts_ok (c : Cost) : Prop := forall a, in_int64 (cost_of a c).

Lemma rlimits_check l :
  forallb (fun a => (0 <=? limit_of a l) && (limit_of a l <? 2 ^ 53)) [RPM; TPM; ITPM; OTPM] = true -> rlimits_ok l.
Proof. intros E a. rewrite forallb_forall in E. specialize (E a ltac:(destruct a; cbn; tauto)). bool_to_prop. lia. Qed.

Lemma rcosts_check c :
  forallb (fun a => bool_decide (in_int64 (cost_of a c))) [RPM; TPM; ITPM; OTPM] = true -> rcosts_ok c.
Proof.
  intros E a. rewrite forallb_forall in E. specialize (E a ltac:(destruct a; cbn; tauto)).
  apply bool_decide_eq_true_1 in E. exact E.
Qed.

(** The reservation a Check creates. *)
Definition new_stored (key : Key) (l : Limits) (c : Cost) : stored :=
  mkStored key (Split l) pending (fun a => Z.max 0 (cost_of a c)) (fun a => limit_of a l).

Lemma limit_int64 n : 0 <= n < 2 ^ 53 -> in_int64 n.
Proof. unfold in_int64, int64_min, int64_max. lia. Qed.

Section Calls.
Context {D : Type} `{Redis D} `{!RedisLaws D}.
Context (now : Time) (d : D) (Now : clock_ok now) (N0 : 0 < toUnixMilli now).
Context (P : string -> stored -> Prop).

Lemma Tok : time_ok (toUnixMilli now).
Proof. destruct Now. unfold time_ok, int64_max. lia. Qed.

(** ** The writes *)

(** The axis written with what [Budget.acts] allows for it. *)
Lemma write_debit base b cap x :
  in_int64 x -> 0 <= x ->
  let t := level now d (axis_key b base) cap in
  (t <? of_int x) || (of_int cap <? of_int x) = false ->
  write_acts now d base (mkWrite b cap (fsub t (of_int x)) x).
Proof.
  intros I H0 t E Hc F. cbn [wAxis wCap wTokens wCharge] in *. apply acts_debit; auto using Tok.
  - lia.
  - unfold in_int64 in I. lia.
Qed.

(** The text of a number is read back as it was written. *)
Lemma stored_number x : is_float x -> Z.abs x <= 2 ^ 64 * one -> tonum (Some (tostr x)) = Some x.
Proof. intros F B. cbn. apply tonumber_tostr; assumption. Qed.

Lemma stored_int n : in_int64 n -> tonum (Some (tostr (of_int n))) = Some (of_int n).
Proof.
  intros I. apply stored_number; [apply of_int_float|].
  pose proof (of_int_range n ltac:(unfold in_int64, int64_min, int64_max in I; lia)). lia.
Qed.

(** A decision is answered, admitting by its first number. *)
Lemma answer_decision (parse : any -> res Decision) k vs :
  Z.abs k <= 2 ^ 53 -> forallb scalar vs = true ->
  (forall r rs, length rs = length vs ->
     exists dec, parse (AList (r :: rs)) = Ok dec /\ Allowed dec = (toInt64 r =? 1)) ->
  admitted match (match reply (LTable (int k :: vs)) with Ok raw => Ok raw | Err m => Err (ErrOther m) end) with
           | Err err => Err err | Ok raw => parse raw
           end = (k =? 1).
Proof.
  intros Hk Sc Pa. destruct (answer_table (int k :: vs) parse (fun e => e)) as (rs & F & E); [exact Sc|].
  cbv beta in E. rewrite E. apply Forall2_cons_inv_l in F as (r & rs' & (n & -> & R) & F & ->).
  destruct (Pa (AInt n) rs') as (dec & -> & A); [symmetry; eapply Forall2_length, F|].
  cbn [admitted]. rewrite A. cbn [toInt64]. f_equal. apply literal; assumption.
Qed.

(** The tables of the check scripts are parsed. *)
Lemma parseDecision_reads l id r rs : length rs = 7%nat ->
  exists dec, parseDecision (AList (r :: rs)) l id = Ok dec /\ Allowed dec = (toInt64 r =? 1).
Proof.
  intros L. unfold parseDecision, array. cbn [length]. rewrite L. cbn. eexists. split; [reflexivity|].
  unfold int_at. cbn. destruct (toInt64 r =? 1); reflexivity.
Qed.

Lemma parseDecisionIO_reads l id r rs : length rs = 8%nat ->
  exists dec, parseDecisionIO (AList (r :: rs)) l id = Ok dec /\ Allowed dec = (toInt64 r =? 1).
Proof.
  intros L. unfold parseDecisionIO, array. cbn [length]. rewrite L. cbn. eexists. split; [reflexivity|].
  unfold int_at. cbn. destruct (toInt64 r =? 1); reflexivity.
Qed.

(** An axis that was not refused covers its cost. *)
Lemma admitted_range x cap t :
  0 <= cap < 2 ^ 53 -> (t <? of_int (Z.max 0 x)) || (of_int cap <? of_int (Z.max 0 x)) = false ->
  0 <= Z.max 0 x <= cap.
Proof. intros Hc E. bool_to_prop. split; [lia|]. apply of_int_le_inv; lia. Qed.

Lemma max_int64 n : in_int64 n -> in_int64 (Z.max 0 n).
Proof. unfold in_int64, int64_min, int64_max. lia. Qed.

(** The axes a script writes are distinct. *)
Ltac distinct := cbn; apply (bool_decide_unpack _); exact Logic.I.

(** The writes of a script, axis by axis. *)
Ltac each_write tac :=
  intros []; cbn; try reflexivity; (split; [reflexivity|split; [tac|split; reflexivity]]).

(** The script refuses: nothing is written. *)
Ltac check_refused reads :=
  cbn [lret fst snd]; apply eff_none; [reflexivity|]; intros ?;
  rewrite answer_decision by (reflexivity || lia || (intros; apply reads; assumption)); reflexivity.

Ltac decode_new L :=
  split; cbn [rKey rSplit rStatus rAmount rLimit]; [put_lookup..| | |];
  intros [] Ct; try discriminate Ct;
  lazymatch goal with
  | |- tonum _ = _ =>
      cbn [reserved_field limit_field]; unfold put; cbn [fold_left];
      rewrite ?lookup_insert_ne by discriminate; rewrite lookup_insert_eq;
      apply stored_int; auto using max_int64
  | |- _ => split; [eapply admitted_range; eassumption|apply L]
  end.

Lemma Check_classic key l c id :
  Validate l = None -> Subject key <> "" -> id <> "" -> Split l = false ->
  rlimits_ok l -> rcosts_ok c -> P id (new_stored key l c) ->
  let out := Check now d key l c id in
  effect now d P key false (fun a x => x = limit_of a l)
    (fun a => if admitted out.2 && counts a false then Z.max 0 (cost_of a c) else 0) out.1.
Proof.
  intros V S Id Sp L C Pn. unfold new_stored in Pn. rewrite Sp in Pn. unfold Check. rewrite V, Sp.
  destruct (decide (Subject key = "")); [congruence|].
  destruct (decide (id = "")); [congruence|]. unfold bucketKeys, run, check_lua. cbv zeta. keys_of key.
  pose proof (L RPM). pose proof (L TPM).
  pose proof (limit_int64 _ (L RPM)). pose proof (limit_int64 _ (L TPM)).
  pose proof (C RPM). pose proof (C TPM). cbn [limit_of cost_of] in *.
  do 8 lua_step. rewrite !clamp0_of_int.
  levels key.
  destruct ((level _ _ _ (RequestsPerMinute l) <? _) || _) eqn:E1; [check_refused parseDecision_reads|].
  destruct ((level _ _ _ (TokensPerMinute l) <? _) || _) eqn:E2; [check_refused parseDecision_reads|].
  do 4 lua_step. cbn [lret fst snd].
  rewrite answer_decision by (reflexivity || lia || (intros; apply parseDecision_reads; assumption)).
  eapply eff_some with
    (ws := [mkWrite RPM (RequestsPerMinute l) _ (Z.max 0 (Requests c));
            mkWrite TPM (TokensPerMinute l) _ (Z.max 0 (Tokens c))])
    (rs := Some (mkRewrite id _ (mkStored key false pending (fun a => Z.max 0 (cost_of a c)) (fun a => limit_of a l)))).
  - reflexivity.
  - distinct.
  - each_write ltac:(apply write_debit; auto using max_int64; lia).
  - intros ? [= <-]. cbn [wId wStored wFields]. split; [exact Pn|]. decode_new L.
Qed.
Lemma Check_split key l c id :
  Validate l = None -> Subject key <> "" -> id <> "" -> Split l = true ->
  rlimits_ok l -> rcosts_ok c -> P id (new_stored key l c) ->
  let out := Check now d key l c id in
  effect now d P key true (fun a x => x = limit_of a l)
    (fun a => if admitted out.2 && counts a true then Z.max 0 (cost_of a c) else 0) out.1.
Proof.
  intros V S Id Sp L C Pn. unfold new_stored in Pn. rewrite Sp in Pn. unfold Check. rewrite V, Sp.
  destruct (decide (Subject key = "")); [congruence|].
  destruct (decide (id = "")); [congruence|]. unfold bucketKeysIO, run, check_io_lua. cbv zeta. keys_of key.
  pose proof (L RPM). pose proof (L ITPM). pose proof (L OTPM).
  pose proof (limit_int64 _ (L RPM)). pose proof (limit_int64 _ (L ITPM)). pose proof (limit_int64 _ (L OTPM)).
  pose proof (C RPM). pose proof (C ITPM). pose proof (C OTPM). cbn [limit_of cost_of] in *.
  do 11 lua_step. rewrite !clamp0_of_int.
  levels key.
  destruct ((level _ _ _ (RequestsPerMinute l) <? _) || _) eqn:E1; [check_refused parseDecisionIO_reads|].
  destruct ((level _ _ _ (InputTokensPerMinute l) <? _) || _) eqn:E2; [check_refused parseDecisionIO_reads|].
  destruct ((level _ _ _ (OutputTokensPerMinute l) <? _) || _) eqn:E3; [check_refused parseDecisionIO_reads|].
  do 5 lua_step. cbn [lret fst snd].
  rewrite answer_decision by (reflexivity || lia || (intros; apply parseDecisionIO_reads; assumption)).
  eapply eff_some with
    (ws := [mkWrite RPM (RequestsPerMinute l) _ (Z.max 0 (Requests c));
            mkWrite ITPM (InputTokensPerMinute l) _ (Z.max 0 (InputTokens c));
            mkWrite OTPM (OutputTokensPerMinute l) _ (Z.max 0 (OutputTokens c))])
    (rs := Some (mkRewrite id _ (mkStored key true pending (fun a => Z.max 0 (cost_of a c)) (fun a => limit_of a l)))).
  - reflexivity.
  - distinct.
  - each_write ltac:(apply write_debit; auto using max_int64; lia).
  - intros ? [= <-]. cbn [wId wStored wFields]. split; [exact Pn|]. decode_new L.
Qed.

Lemma Check_effect key l c id :
  rlimits_ok l -> rcosts_ok c -> P id (new_stored key l c) ->
  let out := Check now d key l c id in
  effect now d P key (Split l) (fun a x => x = limit_of a l)
    (fun a => if admitted out.2 && counts a (Split l) then Z.max 0 (cost_of a c) else 0) out.1.
Proof.
  intros L C Pn. cbv zeta.
  destruct (Validate l) eqn:V; [unfold Check; rewrite V; apply eff_none; reflexivity|].
  destruct (decide (Subject key = "")) as [E|S];
    [unfold Check; rewrite V, decide_True by exact E; apply eff_none; reflexivity|].
  destruct (decide (id = "")) as [E|Id];
    [unfold Check; rewrite V, decide_False, decide_True by assumption; apply eff_none; reflexivity|].
  destruct (Split l) eqn:Sp; [apply Check_split|apply Check_classic]; assumption.
Qed.

(** ** Loans *)

(** The reply of the script is parsed by [parse]. *)
Ltac answer_with parse f :=
  match goal with
  | |- context [reply (LTable ?vs)] =>
      let rs := fresh "rs" in let F := fresh "F" in let E := fresh "E" in
      destruct (answer_table vs parse f eq_refl) as (rs & F & E);
      cbv beta in E; rewrite !E; clear E; unfold replies, int in F; split_reply F
  end.
Ltac answer parse := answer_with parse (fun e : error => e).

Lemma write_loan base b cap g :
  let t := level now d (axis_key b base) cap in
  0 <= g -> g <= floorZ t -> write_acts now d base (mkWrite b cap (fsub t (g * one)) g).
Proof.
  intros t G0 G Hc F. cbn [wAxis wCap wTokens wCharge] in *. fold t in F |- *.
  destruct F as (W & _ & _). pose proof (floor_le_cap _ W ltac:(cbn; unfold max_capacity; lia)) as Fc. cbn in Fc.
  rewrite <- of_int_exact by lia. pose proof Tok. apply acts_loan; auto; [lia|].
  split; [exact W|split; reflexivity].
Qed.

(** What a loan takes, in whole tokens. *)
Definition lent (t : float64) (min chunk : Z) : Z := Z.min (floorZ t) (Z.max (Z.max 0 min) (Z.max 0 chunk)).

Lemma lent_script t min chunk :
  exact_amount min -> exact_amount chunk ->
  Z.min (ffloor t) (math_max (clamp0 (of_int min)) (clamp0 (of_int chunk))) = lent t min chunk * one.
Proof. intros Hm Hc. rewrite !clamp0_int, math_max_int, min_int by assumption. reflexivity. Qed.

Lemma lent_bounds t min chunk :
  exact_amount min -> exact_amount chunk -> (ffloor t <? clamp0 (of_int min)) = false ->
  0 <= lent t min chunk <= floorZ t /\ lent t min chunk <= 2 ^ 53.
Proof.
  intros Hm Hc E. bool_to_prop. rewrite clamp0_int in E by assumption.
  rewrite ffloor_spec, <- floorZ_spec in E. pose proof one_pos.
  assert (Z.max 0 min <= floorZ t) by nia. unfold lent, exact_amount in *. lia.
Qed.

(** The loan is reported as it was taken. *)
Lemma lent_report t min chunk n :
  0 <= lent t min chunk <= 2 ^ 53 -> (Z.abs (lent t min chunk * one) < 2 ^ 63 * one -> n = to_int64 (lent t min chunk * one)) ->
  n = lent t min chunk.
Proof.
  intros B E. rewrite E by (pose proof one_pos; nia). apply to_int64_int.
  unfold in_int64, int64_min, int64_max. lia.
Qed.

(** What a Borrow charges to an axis. *)
Definition borrow_charge (sp : bool) (r : res BorrowResult) (a : axis) : Z :=
  match r with Ok b => if bAllowed b && counts a sp then got_of a b else 0 | Err _ => 0 end.

Lemma exact_int64 n : exact_amount n -> in_int64 n.
Proof. unfold exact_amount, in_int64, int64_max. lia. Qed.

Ltac borrow_refused parse :=
  cbn [lret fst snd]; answer parse; apply eff_none; [reflexivity|]; intros ?;
  cbn; unfold int_at; cbn;
  match goal with R : _ -> ?n = to_int64 (of_int 0) |- context [?n =? 1] =>
    rewrite (literal 0 n) by (lia || exact R) end; reflexivity.

(** The numbers of an allowed loan's reply. *)
Ltac reported :=
  repeat match goal with
  | R : Z.abs (of_int ?k) < _ -> ?n = _ |- _ => apply literal in R; [subst n|lia]
  | R : Z.abs (lent _ _ _ * one) < _ -> ?n = _ |- _ => apply lent_report in R; [subst n|lia]
  end;
  cbn [parseBorrow parseBorrowIO array length Nat.ltb Nat.leb borrow_charge];
  unfold int_at; cbn [lookup_total list_lookup_total toInt64 bAllowed got_of GotRPM GotTPM GotITPM GotOTPM Z.eqb Pos.eqb andb].

Lemma Borrow_classic key l spec :
  Validate l = None -> Subject key <> "" -> Split l = false -> rlimits_ok l -> exact_spec spec ->
  let out := Borrow now d key l spec in
  effect now d P key false (fun a x => x = limit_of a l) (borrow_charge false out.2) out.1.
Proof.
  intros V S Sp L (M1 & M2 & _ & _ & C1 & C2 & _ & _). unfold Borrow. rewrite V, Sp.
  destruct (decide (Subject key = "")); [congruence|]. unfold bucketKeys, run, borrow_lua. cbv zeta. keys_of key.
  pose proof (L RPM). pose proof (L TPM).
  pose proof (limit_int64 _ (L RPM)). pose proof (limit_int64 _ (L TPM)).
  pose proof (exact_int64 _ M1). pose proof (exact_int64 _ M2).
  pose proof (exact_int64 _ C1). pose proof (exact_int64 _ C2). cbn [limit_of] in *.
  do 9 lua_step. levels key. rewrite !math_min_eq.
  set (t1 := level _ _ (axis_key RPM _) _). set (t2 := level _ _ (axis_key TPM _) _).
  destruct (ffloor t1 <? _) eqn:E1; [borrow_refused (fun raw => parseBorrow raw l)|].
  destruct (ffloor t2 <? _) eqn:E2; [borrow_refused (fun raw => parseBorrow raw l)|].
  rewrite !lent_script by assumption.
  pose proof (lent_bounds _ _ _ M1 C1 E1). pose proof (lent_bounds _ _ _ M2 C2 E2).
  do 2 lua_step. cbn [lret fst snd]. answer (fun raw => parseBorrow raw l). reported.
  eapply eff_some with
    (ws := [mkWrite RPM (RequestsPerMinute l) _ (lent t1 (MinRPM spec) (ChunkRPM spec));
            mkWrite TPM (TokensPerMinute l) _ (lent t2 (MinTPM spec) (ChunkTPM spec))]) (rs := None).
  - reflexivity.
  - distinct.
  - each_write ltac:(apply write_loan; tauto).
  - discriminate.
Qed.
Lemma Borrow_split key l spec :
  Validate l = None -> Subject key <> "" -> Split l = true -> rlimits_ok l -> exact_spec spec ->
  let out := Borrow now d key l spec in
  effect now d P key true (fun a x => x = limit_of a l) (borrow_charge true out.2) out.1.
Proof.
  intros V S Sp L (M1 & _ & M2 & M3 & C1 & _ & C2 & C3). unfold Borrow. rewrite V, Sp.
  destruct (decide (Subject key = "")); [congruence|]. unfold bucketKeysIO, run, borrow_io_lua. cbv zeta. keys_of key.
  pose proof (L RPM). pose proof (L ITPM). pose proof (L OTPM).
  pose proof (limit_int64 _ (L RPM)). pose proof (limit_int64 _ (L ITPM)).
  pose proof (limit_int64 _ (L OTPM)).
  pose proof (exact_int64 _ M1). pose proof (exact_int64 _ M2). pose proof (exact_int64 _ M3).
  pose proof (exact_int64 _ C1). pose proof (exact_int64 _ C2). pose proof (exact_int64 _ C3). cbn [limit_of] in *.
  do 13 lua_step. levels key. unfold remaining. rewrite !want_got_eq.
  set (t1 := level _ _ (axis_key RPM _) _). set (t2 := level _ _ (axis_key ITPM _) _).
  set (t3 := level _ _ (axis_key OTPM _) _).
  destruct (ffloor t1 <? _) eqn:E1; [borrow_refused (fun raw => parseBorrowIO raw l)|].
  destruct (ffloor t2 <? _) eqn:E2; [borrow_refused (fun raw => parseBorrowIO raw l)|].
  destruct (ffloor t3 <? _) eqn:E3; [borrow_refused (fun raw => parseBorrowIO raw l)|].
  rewrite !lent_script by assumption.
  pose proof (lent_bounds _ _ _ M1 C1 E1). pose proof (lent_bounds _ _ _ M2 C2 E2).
  pose proof (lent_bounds _ _ _ M3 C3 E3).
  do 3 lua_step. cbn [lret fst snd]. answer (fun raw => parseBorrowIO raw l). reported.
  eapply eff_some with
    (ws := [mkWrite RPM (RequestsPerMinute l) _ (lent t1 (MinRPM spec) (ChunkRPM spec));
            mkWrite ITPM (InputTokensPerMinute l) _ (lent t2 (MinITPM spec) (ChunkITPM spec));
            mkWrite OTPM (OutputTokensPerMinute l) _ (lent t3 (MinOTPM spec) (ChunkOTPM spec))]) (rs := None).
  - reflexivity.
  - distinct.
  - each_write ltac:(apply write_loan; tauto).
  - discriminate.
Qed.
Lemma Borrow_effect key l spec :
  rlimits_ok l -> exact_spec spec ->
  let out := Borrow now d key l spec in
  effect now d P key (Split l) (fun a x => x = limit_of a l) (borrow_charge (Split l) out.2) out.1.
Proof.
  intros L X. cbv zeta.
  destruct (Validate l) eqn:V; [unfold Borrow; rewrite V; apply eff_none; reflexivity|].
  destruct (decide (Subject key = "")) as [E|S];
    [unfold Borrow; rewrite V, decide_True by exact E; apply eff_none; reflexivity|].
  destruct (Split l) eqn:Sp; [apply Borrow_split|apply Borrow_classic]; assumption.
Qed.

(** ** Returns *)

Lemma write_return base b cap x :
  in_int64 x -> 0 <= x ->
  let t := level now d (axis_key b base) cap in
  write_acts now d base (mkWrite b cap (math_min (of_int cap) (fadd t (of_int x))) (- x)).
Proof.
  intros I H0 t Hc F. cbn [wAxis wCap wTokens wCharge] in *. pose proof Tok. apply acts_return; auto; [lia|].
  unfold in_int64 in I. lia.
Qed.

(** The amount of a Return on an axis. *)
Definition amount_of (a : axis) (r t i o : Z) : Z := match a with RPM => r | TPM => t | ITPM => i | OTPM => o end.

Definition return_charge (sp : bool) (r : res unit) (rpm tpm itpm otpm : Z) (a : axis) : Z :=
  if is_ok r && counts a sp then - Z.max 0 (amount_of a rpm tpm itpm otpm) else 0.

Lemma Return_effect key l r t i o :
  rlimits_ok l -> in_int64 r -> in_int64 t -> in_int64 i -> in_int64 o ->
  let out := Return now d key l r t i o in
  effect now d P key (Split l) (fun a x => x = limit_of a l) (return_charge (Split l) out.2 r t i o) out.1.
Proof.
  intros L Ir It Ii Io. unfold Return.
  destruct (decide (Subject key = "")); [apply eff_none; reflexivity|].
  destruct (_ && _ && _ && _) eqn:Neg.
  { apply eff_none; [reflexivity|]. bool_to_prop. unfold return_charge, amount_of. intros a.
    destruct (is_ok _ && _); [|reflexivity]. destruct a; lia. }
  pose proof (limit_int64 _ (L RPM)). pose proof (limit_int64 _ (L TPM)).
  pose proof (limit_int64 _ (L ITPM)). pose proof (limit_int64 _ (L OTPM)). cbn [limit_of] in *.
  destruct (Split l); cbv zeta.
  - unfold bucketKeysIO, run, return_io_lua. keys_of key. cbv zeta. do 6 lua_step. rewrite !clamp0_of_int.
    destruct ((_ =? 0) && _ && _) eqn:Z0.
    + cbn [lret fst snd]. destruct (reply_num (of_int 1)) as (n1 & N1 & _). unfold int. rewrite N1.
      apply eff_none; [reflexivity|]. bool_to_prop. unfold return_charge. cbn [is_ok andb].
      assert (Zz : forall x, of_int (Z.max 0 x) = 0 -> Z.max 0 x = 0).
      { intros x E. destruct (Z.le_gt_cases x 0); [lia|]. pose proof (of_int_pos (Z.max 0 x) ltac:(lia)). lia. }
      intros []; cbn [counts amount_of]; rewrite ?Zz by assumption; reflexivity.
    + do 7 lua_step. cbn [lret fst snd]. destruct (reply_num (of_int 1)) as (n1 & N1 & _). unfold int. rewrite N1.
      levels key. eapply eff_some with
        (ws := [mkWrite RPM (RequestsPerMinute l) _ (- Z.max 0 r); mkWrite ITPM (InputTokensPerMinute l) _ (- Z.max 0 i);
                mkWrite OTPM (OutputTokensPerMinute l) _ (- Z.max 0 o)]) (rs := None).
      * reflexivity.
      * distinct.
      * each_write ltac:(apply write_return; [apply max_int64; assumption|lia]).
      * discriminate.
  - unfold bucketKeys, run, return_lua. keys_of key. cbv zeta. do 9 lua_step. cbn [lret fst snd].
    rewrite !clamp0_of_int. levels key. answer (fun _ : any => Ok tt : res unit).
    eapply eff_some with
      (ws := [mkWrite RPM (RequestsPerMinute l) _ (- Z.max 0 r); mkWrite TPM (TokensPerMinute l) _ (- Z.max 0 t)])
      (rs := None).
    + reflexivity.
    + distinct.
    + each_write ltac:(apply write_return; [apply max_int64; assumption|lia]).
    + discriminate.
Qed.

(** ** Closing a reservation *)

Definition closed (r : stored) (s : status) : stored := mkStored (rKey r) (rSplit r) s (rAmount r) (rLimit r).

(** The fields that say what was reserved, for whom, and under which limits. *)
Definition identity_fields : list string :=
  ["subject"; "model"; "mode"; "rpm_cost"; "tpm_reserved"; "itpm_reserved"; "otpm_reserved";
   "limit_rpm"; "limit_tpm"; "limit_itpm"; "limit_otpm"].

Lemma put_other f kvs (h : gmap string string) : f ∉ kvs.*1 -> put kvs h !! f = h !! f.
Proof.
  unfold put. revert h. induction kvs as [|[g v] kvs IH]; intros h N; cbn in *; [reflexivity|].
  apply not_elem_of_cons in N as [N1 N2]. rewrite IH by exact N2. apply lookup_insert_ne. congruence.
Qed.

Lemma decodes_closed kvs h r s :
  decodes h r -> put kvs h !! "status" = Some (status_name s) ->
  forallb (fun f => negb (bool_decide (f ∈ kvs.*1))) identity_fields = true ->
  decodes (put kvs h) (closed r s).
Proof.
  intros Dc St Fs.
  assert (K : forall f, In f identity_fields -> put kvs h !! f = h !! f).
  { intros f If. apply put_other. rewrite forallb_forall in Fs. specialize (Fs f If).
    apply negb_true_iff, bool_decide_eq_false_1 in Fs. exact Fs. }
  split; cbn [rKey rSplit rStatus rAmount rLimit closed]; try rewrite K by (cbn; tauto).
  - exact (dec_subject _ _ Dc).
  - exact (dec_model _ _ Dc).
  - exact (dec_mode _ _ Dc).
  - exact St.
  - intros a Ct. rewrite K by (destruct a; cbn; tauto). exact (dec_amount _ _ Dc a Ct).
  - intros a Ct. rewrite K by (destruct a; cbn; tauto). exact (dec_limit _ _ Dc a Ct).
  - exact (dec_range _ _ Dc).
Qed.

(** The amounts a reservation's hash holds. *)
Definition reserved_at (id : string) (a : axis) : Z := to_int64 (tonum0 (res_hash now d id !! reserved_field a)).

Lemma reserved_decodes id r a :
  decodes (res_hash now d id) r -> counts a (rSplit r) = true -> reserved_at id a = rAmount r a.
Proof.
  intros Dc Ct. unfold reserved_at, tonum0. rewrite (dec_amount _ _ Dc a Ct). cbn [default from_option].
  pose proof (dec_range _ _ Dc a Ct) as [? ?]. rewrite of_int_exact by lia.
  apply to_int64_int, number_range. lia.
Qed.

(** The capacities a closing script works with: the limits of the reservation. *)
Definition closing_cap (id : string) (sp : bool) (a : axis) (x : Z) : Prop :=
  exists r, decodes (res_hash now d id) r /\ P id r /\ rSplit r = sp /\ rLimit r a = x.

(** What a settlement charges: the actual amounts above the reservation, less the
    overshoot that could not be debited. *)
Definition settle_charge (sp : bool) (id : string) (actual : axis -> Z) (r : res Decision) (a : axis) : Z :=
  match a, view now d id, r with
  | RPM, _, _ => 0
  | _, Some (sp', pending), Ok dec =>
      if Bool.eqb sp' sp && counts a sp
      then Z.max 0 (actual a) - reserved_at id a - overshoot_of a dec else 0
  | _, _, _ => 0
  end.

Definition refund_charge (sp : bool) (id : string) (a : axis) : Z :=
  match view now d id with
  | Some (sp', pending) => if Bool.eqb sp' sp && counts a sp then - reserved_at id a else 0
  | _ => 0
  end.

Lemma settle_charge_none sp id actual r a v :
  view now d id = v -> v <> Some (sp, pending) -> settle_charge sp id actual r a = 0.
Proof.
  intros V N. unfold settle_charge. rewrite V. destruct a; [reflexivity|..]; destruct v as [[sp' []]|]; try reflexivity;
    destruct r; try reflexivity; destruct sp', sp; (reflexivity || congruence).
Qed.

Lemma settle_charge_closing sp id actual dec r a :
  view now d id = Some (sp, pending) -> decodes (res_hash now d id) r -> rSplit r = sp ->
  counts a sp = true -> a <> RPM ->
  settle_charge sp id actual (Ok dec) a = Z.max 0 (actual a) - rAmount r a - overshoot_of a dec.
Proof.
  intros V Dc Sp Ct N. unfold settle_charge. rewrite V, Ct. rewrite <- Sp in Ct.
  rewrite (reserved_decodes _ _ _ Dc Ct). destruct a; [congruence|..]; rewrite Bool.eqb_reflx; reflexivity.
Qed.

(** The overshoots a settlement's reply reports. *)
Lemma parseSettle_reads rs id : length rs = 10%nat ->
  exists dec, parseSettle (AList rs) id = Ok dec /\ OvershootTPM dec = int_at rs 7.
Proof.
  intros L. do 10 (destruct rs as [|? rs]; [discriminate L|]). destruct rs; [|discriminate L].
  eexists. split; reflexivity.
Qed.

Lemma parseSettleIO_reads rs id : length rs = 14%nat ->
  exists dec, parseSettleIO (AList rs) id = Ok dec /\
    OvershootITPM dec = int_at rs 9 /\ OvershootOTPM dec = int_at rs 10.
Proof.
  intros L. do 14 (destruct rs as [|? rs]; [discriminate L|]). destruct rs; [|discriminate L].
  eexists. split; [reflexivity|]. split; reflexivity.
Qed.

Lemma write_kept base b cap :
  let t := level now d (axis_key b base) cap in write_acts now d base (mkWrite b cap t 0).
Proof. intros t Hc F. apply acts_kept; assumption. Qed.

Lemma write_settle base b cap reserved actual n :
  let '(t', over) := apply_delta (level now d (axis_key b base) cap) (of_int cap) (of_int reserved) (of_int actual) in
  0 <= reserved <= 2 ^ 53 -> 0 <= actual < 2 ^ 53 ->
  (Z.abs over < 2 ^ 63 * one -> n = to_int64 over) ->
  write_acts now d base (mkWrite b cap t' (actual - reserved - n)).
Proof.
  destruct (apply_delta _ _ _ _) as [t' over] eqn:E. intros Hr Ha R Hc F.
  cbn [wAxis wCap wTokens wCharge] in *. pose proof Tok.
  pose proof (acts_settle cap (toUnixMilli now) _ Hc ltac:(assumption) ltac:(lia) F reserved actual Hr Ha) as A.
  pose proof (lua_settle cap (toUnixMilli now) _ Hc ltac:(lia) F reserved actual Hr Ha) as [E' B].
  cbn [stTokens] in E'. rewrite E in A, E'. injection E' as _ Eo.
  rewrite R; [exact A|]. rewrite Eo, of_int_exact by lia. pose proof one_pos. nia.
Qed.
Context (R : res_inv P now d) (Pc : forall id r s, P id r -> P id (closed r s)).

(** The reservation with the status written. *)
Ltac rewrite_closed Dc Pr :=
  intros ? [= <-]; cbn [wId wStored wFields]; split; [apply Pc, Pr|];
  apply decodes_closed; [exact Dc|lazymatch goal with |- context [res_hash now d ?i] => generalize (res_hash now d i) end; clear; intros h; put_lookup|lazy; reflexivity].

(** The writes of a closing script; leaves what each does to its bucket. *)
Ltac closing_write Dc Sp V :=
  intros []; cbn [find wAxis];
  repeat match goal with
  | |- context [bool_decide (?a = ?b)] =>
      let v := eval vm_compute in (bool_decide (a = b)) in change (bool_decide (a = b)) with v
  end; cbv iota;
  lazymatch goal with
  | |- _ /\ _ =>
      split; [reflexivity|]; split; [|split; cbn [wCap wCharge];
        [eexists; split; [exact Dc|]; split; [eassumption|]; split; [exact Sp|reflexivity]|]];
      [|lazymatch goal with
        | |- _ = settle_charge _ _ _ _ RPM => reflexivity
        | |- _ = settle_charge _ _ _ _ _ =>
            symmetry; rewrite (settle_charge_closing _ _ _ _ _ _ V Dc Sp) by (reflexivity || discriminate); reflexivity
        | |- _ = refund_charge _ _ _ =>
            unfold refund_charge; rewrite V; cbn [counts negb Bool.eqb andb];
            rewrite (reserved_decodes _ _ _ Dc) by (rewrite Sp; reflexivity); reflexivity
        end]
  | |- settle_charge _ _ _ _ RPM = 0 => reflexivity
  | |- settle_charge _ _ _ _ _ = 0 => unfold settle_charge; rewrite V; cbn [counts negb Bool.eqb andb]; reflexivity
  | |- refund_charge _ _ _ = 0 => unfold refund_charge; rewrite V; reflexivity
  end.

Ltac same_db := cbn [lret fst snd]; apply eff_none; [reflexivity|].

Lemma amount_range r h a :
  decodes h r -> counts a (rSplit r) = true -> 0 <= rAmount r a <= 2 ^ 53.
Proof. intros Dc Ct. pose proof (dec_range _ _ Dc a Ct). lia. Qed.

Lemma actual_range x : in_int64 x -> x < 2 ^ 53 -> 0 <= Z.max 0 x < 2 ^ 53.
Proof. unfold in_int64. lia. Qed.

Lemma settle_effect key id actual :
  in_int64 actual -> actual < 2 ^ 53 ->
  let out := (let '(rpmKey, tpmKey) := bucketKeys key in
     let '(d, raw) := run settle_lua [reservationKey id; rpmKey; tpmKey]
       [FormatInt actual; FormatInt ttl_seconds] now d in
     (d, match raw with Err err => Err (mapResErr err) | Ok raw => parseSettle raw id end)) in
  effect now d P key false (closing_cap id false) (settle_charge false id (fun _ => actual) out.2) out.1.
Proof.
  intros Ia Ha. unfold bucketKeys, run, settle_lua. cbv zeta. keys_of key. do 3 lua_step.
  destruct (view_cases now d id (res_inv_db _ _ _ R)) as [E V|r0 NE Dc0 V0].
  { rewrite bool_decide_eq_true_2 by exact E. cbn [Z.eqb]. same_db. intros a. apply (settle_charge_none _ _ _ _ _ None V). discriminate. }
  rewrite bool_decide_eq_false_2 by exact NE. cbn [Z.eqb]. lua_step. cbv zeta. fields_of.
  destruct (R id) as [E|(r & Dc & Pr)]; [congruence|]. pose proof (decodes_view _ _ _ _ Dc) as V. clear dependent r0.
  rewrite (decodes_mode _ _ Dc). destruct (rSplit r) eqn:Sp.
  { same_db. intros a. apply (settle_charge_none _ _ _ _ _ _ V). congruence. }
  rewrite (dec_status _ _ Dc). destruct (rStatus r) eqn:St; cbn [status_name]; texts.
  2, 3: same_db; intros a; apply (settle_charge_none _ _ _ _ _ _ V); discriminate.
  decoded Dc Sp. rewrite clamp0_of_int. do 6 lua_step. levels key.
  pose proof (fun n => write_settle (base_key key) TPM (rLimit r TPM) (rAmount r TPM) (Z.max 0 actual) n) as Ws.
  pose proof (amount_range r _ TPM Dc ltac:(rewrite Sp; reflexivity)) as B1.
  pose proof (actual_range actual Ia Ha) as B2.
  destruct (apply_delta _ _ _ _) as [t over]. do 4 lua_step. cbn [lret fst snd].
  answer_with (fun raw => parseSettle raw id) mapResErr.
  match goal with |- context [parseSettle (AList ?rs) id] =>
    destruct (parseSettle_reads rs id eq_refl) as (dec & E & Ov); rewrite !E; clear E end.
  eapply eff_some with
    (ws := [mkWrite TPM (rLimit r TPM) _ (Z.max 0 actual - rAmount r TPM - OvershootTPM dec);
            mkWrite RPM (rLimit r RPM) _ 0])
    (rs := Some (mkRewrite id _ (closed r settled))).
  - reflexivity.
  - distinct.
  - closing_write Dc Sp V; [apply write_kept|apply Ws; [exact B1|exact B2|]]. rewrite Ov. assumption.
  - rewrite_closed Dc Pr.
Qed.
Lemma settle_io_effect key id ai ao :
  in_int64 ai -> in_int64 ao -> ai < 2 ^ 53 -> ao < 2 ^ 53 ->
  let out := (let '(rpmKey, itpmKey, otpmKey) := bucketKeysIO key in
     let '(d, raw) := run settle_io_lua [reservationKey id; rpmKey; itpmKey; otpmKey]
       [FormatInt ai; FormatInt ao; FormatInt ttl_seconds] now d in
     (d, match raw with Err err => Err (mapResErr err) | Ok raw => parseSettleIO raw id end)) in
  effect now d P key true (closing_cap id true)
    (settle_charge true id (fun a => match a with ITPM => ai | _ => ao end) out.2) out.1.
Proof.
  intros Ii Io Hi Ho. unfold bucketKeysIO, run, settle_io_lua. cbv zeta. keys_of key. do 4 lua_step.
  destruct (view_cases now d id (res_inv_db _ _ _ R)) as [E V|r0 NE Dc0 V0].
  { rewrite bool_decide_eq_true_2 by exact E. cbn [Z.eqb]. same_db.
    intros a. apply (settle_charge_none _ _ _ _ _ None V). discriminate. }
  rewrite bool_decide_eq_false_2 by exact NE. cbn [Z.eqb]. lua_step. cbv zeta. fields_of.
  destruct (R id) as [E|(r & Dc & Pr)]; [congruence|]. pose proof (decodes_view _ _ _ _ Dc) as V. clear dependent r0.
  rewrite (decodes_mode _ _ Dc). destruct (rSplit r) eqn:Sp; cbn [negb].
  2: { same_db. intros a. apply (settle_charge_none _ _ _ _ _ _ V). congruence. }
  rewrite (dec_status _ _ Dc). destruct (rStatus r) eqn:St; cbn [status_name]; texts.
  2, 3: same_db; intros a; apply (settle_charge_none _ _ _ _ _ _ V); discriminate.
  decoded Dc Sp. rewrite !clamp0_of_int. do 9 lua_step. levels key.
  pose proof (fun n => write_settle (base_key key) ITPM (rLimit r ITPM) (rAmount r ITPM) (Z.max 0 ai) n) as W1.
  pose proof (fun n => write_settle (base_key key) OTPM (rLimit r OTPM) (rAmount r OTPM) (Z.max 0 ao) n) as W2.
  pose proof (amount_range r _ ITPM Dc ltac:(rewrite Sp; reflexivity)) as A1.
  pose proof (amount_range r _ OTPM Dc ltac:(rewrite Sp; reflexivity)) as A2.
  pose proof (actual_range ai Ii Hi) as B1. pose proof (actual_range ao Io Ho) as B2.
  destruct (apply_delta _ _ _ (of_int (Z.max 0 ai))) as [t over].
  destruct (apply_delta _ _ _ (of_int (Z.max 0 ao))) as [t' over']. do 5 lua_step. cbn [lret fst snd].
  answer_with (fun raw => parseSettleIO raw id) mapResErr.
  match goal with |- context [parseSettleIO (AList ?rs) id] =>
    destruct (parseSettleIO_reads rs id eq_refl) as (dec & E & O1 & O2); rewrite !E; clear E end.
  eapply eff_some with
    (ws := [mkWrite RPM (rLimit r RPM) _ 0;
            mkWrite ITPM (rLimit r ITPM) _ (Z.max 0 ai - rAmount r ITPM - OvershootITPM dec);
            mkWrite OTPM (rLimit r OTPM) _ (Z.max 0 ao - rAmount r OTPM - OvershootOTPM dec)])
    (rs := Some (mkRewrite id _ (closed r settled))).
  - reflexivity.
  - distinct.
  - closing_write Dc Sp V; [apply write_kept|apply W1; [exact A1|exact B1|rewrite O1]
      |apply W2; [exact A2|exact B2|rewrite O2]]; assumption.
  - rewrite_closed Dc Pr.
Qed.

(** ** Refunds *)

Lemma write_refund base b cap x :
  0 <= x <= 2 ^ 53 ->
  let t := level now d (axis_key b base) cap in
  write_acts now d base (mkWrite b cap (math_min (of_int cap) (fadd t (of_int x))) (- x)).
Proof. intros Hx. apply write_return; [apply number_range|]; lia. Qed.

Lemma refund_charge_none sp id a v :
  view now d id = v -> v <> Some (sp, pending) -> refund_charge sp id a = 0.
Proof.
  intros V N. unfold refund_charge. rewrite V. destruct v as [[sp' []]|]; try reflexivity.
  destruct sp', sp; (reflexivity || congruence).
Qed.

Lemma refund_effect key id :
  let out := (let '(rpmKey, tpmKey) := bucketKeys key in
     let '(d, raw) := run refund_lua [reservationKey id; rpmKey; tpmKey] [FormatInt ttl_seconds] now d in
     (d, mapRes raw)) in
  effect now d P key false (closing_cap id false) (refund_charge false id) out.1.
Proof.
  unfold bucketKeys, run, refund_lua. cbv zeta. keys_of key. do 2 lua_step.
  destruct (R id) as [E|(r & Dc & Pr)].
  { rewrite bool_decide_eq_true_2 by exact E. cbn [Z.eqb]. same_db. intros a.
    apply (refund_charge_none _ _ _ None); [unfold view; rewrite E; reflexivity|discriminate]. }
  pose proof (decodes_nonempty _ _ Dc) as NE. pose proof (decodes_view _ _ _ _ Dc) as V.
  rewrite bool_decide_eq_false_2 by exact NE. cbn [Z.eqb]. lua_step. cbv zeta. fields_of.
  rewrite (decodes_mode _ _ Dc).
  rewrite (dec_status _ _ Dc). destruct (rStatus r) eqn:St; cbn [status_name]; texts.
  2, 3: same_db; intros a; apply (refund_charge_none _ _ _ _ V); discriminate.
  destruct (rSplit r) eqn:Sp.
  1: { same_db. intros a. apply (refund_charge_none _ _ _ _ V). congruence. }
  decoded Dc Sp. do 11 lua_step. levels key. cbn [lret fst snd].
  eapply eff_some with
    (ws := [mkWrite RPM (rLimit r RPM) _ (- rAmount r RPM); mkWrite TPM (rLimit r TPM) _ (- rAmount r TPM)])
    (rs := Some (mkRewrite id _ (closed r refunded))).
  - reflexivity.
  - distinct.
  - closing_write Dc Sp V; apply write_refund, (amount_range _ _ _ Dc); rewrite Sp; reflexivity.
  - rewrite_closed Dc Pr.
Qed.

Lemma refund_io_effect key id :
  let out := (let '(rpmKey, itpmKey, otpmKey) := bucketKeysIO key in
     let '(d, raw) := run refund_io_lua [reservationKey id; rpmKey; itpmKey; otpmKey]
       [FormatInt ttl_seconds] now d in
     (d, mapRes raw)) in
  effect now d P key true (closing_cap id true) (refund_charge true id) out.1.
Proof.
  unfold bucketKeysIO, run, refund_io_lua. cbv zeta. keys_of key. do 2 lua_step.
  destruct (R id) as [E|(r & Dc & Pr)].
  { rewrite bool_decide_eq_true_2 by exact E. cbn [Z.eqb]. same_db. intros a.
    apply (refund_charge_none _ _ _ None); [unfold view; rewrite E; reflexivity|discriminate]. }
  pose proof (decodes_nonempty _ _ Dc) as NE. pose proof (decodes_view _ _ _ _ Dc) as V.
  rewrite bool_decide_eq_false_2 by exact NE. cbn [Z.eqb]. lua_step. cbv zeta. fields_of.
  rewrite (decodes_mode _ _ Dc).
  rewrite (dec_status _ _ Dc). destruct (rStatus r) eqn:St; cbn [status_name]; texts.
  2, 3: same_db; intros a; apply (refund_charge_none _ _ _ _ V); discriminate.
  destruct (rSplit r) eqn:Sp; cbn [negb].
  2: { same_db. intros a. apply (refund_charge_none _ _ _ _ V). congruence. }
  decoded Dc Sp. unfold tonum0.
  repeat match goal with E : tonum ?x = Some _ |- context [default 0 (tonum ?x)] => rewrite E; cbn [default from_option] end.
  do 12 lua_step. levels key. cbn [lret fst snd].
  eapply eff_some with
    (ws := [mkWrite RPM (rLimit r RPM) _ (- rAmount r RPM); mkWrite ITPM (rLimit r ITPM) _ (- rAmount r ITPM);
            mkWrite OTPM (rLimit r OTPM) _ (- rAmount r OTPM)])
    (rs := Some (mkRewrite id _ (closed r refunded))).
  - reflexivity.
  - distinct.
  - closing_write Dc Sp V; apply write_refund, (amount_range _ _ _ Dc); rewrite Sp; reflexivity.
  - rewrite_closed Dc Pr.
Qed.
End Calls.
