(* ===== verification/RedisBudget.v ===== *)
(** * RedisBudget: the per-minute budget of a key kept in Redis

    The steps of the Redis store are the runs of its scripts; between the two round
    trips of a settlement or a refund other clients run theirs.  The store meters
    every bucket in the sense of [Budget], so [Budget.metered_budget] holds of it. *)

From stdpp Require Import base tactics numbers strings gmap list.
From Stdlib Require Import ZArith Lia.
From S2P Require Import Prelude GoFloat GoString Api Bucket Budget Store Memory MemorySpec MemoryBudget.
From S2P Require Import RedisServer RedisScripts Redis RedisSpec RedisLifecycle RedisLaws RedisBuckets.
From S2P Require Import RedisEffects RedisCalls.

(** One script run; [read] is what the first round trip of the call has read. *)
Inductive rop : Type :=
| RCheck (key : Key) (limits : Limits) (cost : Cost) (id : string)
| RSettle (read : res (string * Key)) (id : string) (actualTokens : Z)
| RSettleIO (read : res (string * Key)) (id : string) (actualInput actualOutput : Z)
| RRefund (read : res (string * Key)) (id : string)
| RBorrow (key : Key) (limits : Limits) (spec : BorrowSpec)
| RReturn (key : Key) (limits : Limits) (rpm tpm itpm otpm : Z).

Section Steps.
Context {D : Type} `{Redis D}.

Definition rstep (now : Time) (d : D) (o : rop) : D :=
  match o with
  | RCheck k l c id => (Check now d k l c id).1
  | RSettle read id n => (settleRead read now d id n).1
  | RSettleIO read id i o => (settleIORead read now d id i o).1
  | RRefund read id => (refundRead read now d id).1
  | RBorrow k l spec => (Borrow now d k l spec).1
  | RReturn k l r t i o => (Return now d k l r t i o).1
  end.

(** What a call on [key'] charges to the bucket of [a] and [key]. *)
Definition on (key key' : Key) (q : Z) : Z := if bool_decide (base_key key' = base_key key) then q else 0.

Definition on_read (key : Key) (read : res (string * Key)) (q : string -> Z) : Z :=
  match read with Ok (mode, key') => on key key' (q mode) | Err _ => 0 end.

(** The tokens a run takes from the bucket of axis [a] of [key], negative when it
    gives tokens back. *)
Definition rcharge (a : axis) (key : Key) (now : Time) (d : D) (o : rop) : Z :=
  match o with
  | RCheck k l c id =>
      on key k (if admitted (Check now d k l c id).2 && counts a (Split l) then Z.max 0 (cost_of a c) else 0)
  | RSettle read id n =>
      on_read key read (fun _ => settle_charge now d false id (fun _ => n) (settleRead read now d id n).2 a)
  | RSettleIO read id i o =>
      on_read key read (fun _ => settle_charge now d true id (fun a => match a with ITPM => i | _ => o end)
                                   (settleIORead read now d id i o).2 a)
  | RRefund read id => on_read key read (fun mode => refund_charge now d (bool_decide (mode = "split")) id a)
  | RBorrow k l spec => on key k (borrow_charge (Split l) (Borrow now d k l spec).2 a)
  | RReturn k l r t i o => on key k (return_charge (Split l) (Return now d k l r t i o).2 r t i o a)
  end.
End Steps.

(** Every use of a reservation's id is for one key, [own id]: the limiter draws ids
    at random. *)
Definition owned (own : string -> Key) (id : string) (key : Key) : Prop := dashed key = dashed (own id).

Definition read_owned (own : string -> Key) (id : string) (read : res (string * Key)) : Prop :=
  match read with Ok (_, key) => owned own id key | Err _ => True end.

(** Capacity [c] is used on the bucket of axis [a] of [key]. *)
Definition agrees (a : axis) (key : Key) (c : Z) (k : Key) (sp : bool) (limit : Z) : Prop :=
  base_key k = base_key key -> counts a sp = true -> limit = c.

(** The arguments of a run: limits below [2^53], [int64] costs, amounts the
    scripts' numbers hold exactly. *)
Definition rop_ok (o : rop) : Prop :=
  match o with
  | RCheck _ l c _ => rlimits_ok l /\ rcosts_ok c
  | RSettle _ _ n => in_int64 n /\ n < 2 ^ 53
  | RSettleIO _ _ i o => (in_int64 i /\ i < 2 ^ 53) /\ in_int64 o /\ o < 2 ^ 53
  | RRefund _ _ => True
  | RBorrow _ l spec => rlimits_ok l /\ exact_spec spec
  | RReturn _ l r t i o => rlimits_ok l /\ in_int64 r /\ in_int64 t /\ in_int64 i /\ in_int64 o
  end.

Definition rop_uses (own : string -> Key) (a : axis) (key : Key) (c : Z) (o : rop) : Prop :=
  match o with
  | RCheck k l _ id => owned own id k /\ agrees a key c k (Split l) (limit_of a l)
  | RSettle read id _ | RSettleIO read id _ _ | RRefund read id => read_owned own id read
  | RBorrow k l _ | RReturn k l _ _ _ _ => agrees a key c k (Split l) (limit_of a l)
  end.

(** A reservation of the key and the capacity. *)
Definition res_of (own : string -> Key) (a : axis) (key : Key) (c : Z) (id : string) (r : stored) : Prop :=
  owned own id (rKey r) /\ agrees a key c (rKey r) (rSplit r) (rLimit r a).

(** ** The effect of a run *)

Section Runs.
Context {D : Type} `{Redis D} `{!RedisLaws D}.
Context (P : string -> stored -> Prop) (Pc : forall id r s, P id r -> P id (closed r s)).

(** A reservation the run creates satisfies [P]. *)
Definition makes (o : rop) : Prop :=
  match o with RCheck k l c id => P id (new_stored k l c) | _ => True end.

(** The capacities a run on [k] in mode [sp] works with: the limits of the call, or
    those of the reservation. *)
Definition run_cap (o : rop) (k : Key) (sp : bool) (a : axis) (x : Z) : Prop :=
  match o with
  | RCheck k' l _ _ | RBorrow k' l _ | RReturn k' l _ _ _ _ => k = k' /\ sp = Split l /\ x = limit_of a l
  | RSettle read id _ | RSettleIO read id _ _ | RRefund read id =>
      exists mode r, read = Ok (mode, k) /\ P id r /\ rSplit r = sp /\ rLimit r a = x
  end.

(** The run [o] leads to [d'] and charges [q] to the bucket of [a] and [key]. *)
Definition does (a : axis) (key : Key) (now : Time) (d : D) (o : rop) (d' : D) (q : Z) : Prop :=
  exists k sp cap ch, effect now d P k sp cap ch d' /\ q = on key k (ch a) /\
    forall x, cap a x -> run_cap o k sp a x.

Lemma settle_charge_err now (d : D) sp id actual e b : settle_charge now d sp id actual (Err e) b = 0.
Proof. unfold settle_charge. destruct b, (view now d id) as [[? []]|]; reflexivity. Qed.

Lemma on_zero key k : on key k 0 = 0.
Proof. unfold on. case_bool_decide; reflexivity. Qed.

Lemma does_nothing a key now (d : D) o q : q = 0 -> does a key now d o d q.
Proof.
  intros ->. exists key, false, (fun _ _ => False), (fun _ => 0).
  split; [apply eff_none; reflexivity|]. rewrite on_zero. tauto.
Qed.

Lemma rstep_does a key now (d : D) o :
  clock_ok now -> 0 < toUnixMilli now -> res_inv P now d -> rop_ok o -> makes o ->
  does a key now d o (rstep now d o) (rcharge a key now d o).
Proof.
  intros Now N0 R Ok Mk.
  destruct o as [k l cost id|read id n|read id i o|read id|k l spec|k l r t i o]; cbn [rstep rcharge rop_ok makes] in *.
  - destruct Ok as [L C]. exists k, (Split l), (fun a x => x = limit_of a l). eexists.
    split; [apply Check_effect; auto|]. split; [reflexivity|]. cbn [run_cap]. auto.
  - destruct Ok as [In Hn]. destruct read as [[mode k]|e]; [|apply does_nothing; reflexivity].
    unfold settleRead. cbn [on_read]. destruct (decide (mode = "split")) as [|N];
      [apply does_nothing; cbn [snd]; rewrite settle_charge_err; apply on_zero|].
    exists k, false, (closing_cap now d P id false). eexists.
    split; [apply (settle_effect now d Now N0 _ R Pc k id n In Hn)|].
    split; [reflexivity|]. intros x (r & _ & Pr & Sp & Lx). exists mode, r. auto.
  - destruct Ok as ([Ii Hi] & Io & Ho). destruct read as [[mode k]|e]; [|apply does_nothing; reflexivity].
    unfold settleIORead. cbn [on_read]. destruct (negb _);
      [apply does_nothing; cbn [snd]; rewrite settle_charge_err; apply on_zero|].
    exists k, true, (closing_cap now d P id true). eexists.
    split; [apply (settle_io_effect now d Now N0 _ R Pc k id i o Ii Io Hi Ho)|].
    split; [reflexivity|]. intros x (r & _ & Pr & Sp & Lx). exists mode, r. auto.
  - destruct read as [[mode k]|e]; [|apply does_nothing; reflexivity].
    unfold refundRead. cbn [on_read]. destruct (decide (mode = "split")) as [E|N];
      [rewrite bool_decide_eq_true_2 by exact E; set (sp := true)|
       rewrite bool_decide_eq_false_2 by exact N; set (sp := false)];
      (exists k, sp, (closing_cap now d P id sp); eexists;
       split; [apply (refund_effect now d Now N0 _ R Pc k id) || apply (refund_io_effect now d Now N0 _ R Pc k id)|];
       split; [reflexivity|]; intros x (r & _ & Pr & Sp & Lx); exists mode, r; auto).
  - destruct Ok as [L X]. exists k, (Split l), (fun a x => x = limit_of a l). eexists.
    split; [apply Borrow_effect; assumption|]. split; [reflexivity|]. cbn [run_cap]. auto.
  - destruct Ok as (L & I1 & I2 & I3 & I4). exists k, (Split l), (fun a x => x = limit_of a l). eexists.
    split; [apply Return_effect; assumption|]. split; [reflexivity|]. cbn [run_cap]. auto.
Qed.

Lemma clock_of now : 0 < toUnixMilli now <= 2 ^ 53 -> clock_ok now.
Proof.
  intros Hn. split; [|lia]. unfold toUnixMilli, Millisecond in Hn. apply Z.nlt_ge. intros L.
  pose proof (Z.div_lt_upper_bound now 1000000 0 ltac:(lia) ltac:(lia)). lia.
Qed.

Lemma res_inv_ms now now' (d : D) :
  toUnixMilli now = toUnixMilli now' -> res_inv P now d -> res_inv P now' d.
Proof. intros E R id. unfold res_hash. rewrite (contents_ms now' now) by congruence. apply R. Qed.

(** Every run keeps the reservations. *)
Lemma rstep_res now (d : D) o :
  0 < toUnixMilli now <= 2 ^ 53 -> res_inv P now d -> rop_ok o -> makes o -> res_inv P now (rstep now d o).
Proof.
  intros Hn R Ok Mk.
  destruct (rstep_does RPM (mkKey "" "") now d o (clock_of _ Hn) ltac:(lia) R Ok Mk) as (k & sp & cap & ch & Ef & _).
  eapply effect_res; eassumption.
Qed.
End Runs.

(** ** The budget *)

Section Budget.
Context {D : Type} `{Redis D} `{!RedisLaws D}.
Context (own : string -> Key) (a : axis) (key : Key) (c : Z) (Hc : 0 < c < 2 ^ 53).

Lemma dashed_base k k' : dashed k = dashed k' -> base_key k = base_key k'.
Proof. intros E. rewrite <- (base_dashed k), <- (base_dashed k'), E. reflexivity. Qed.

Lemma closed_of id r s : res_of own a key c id r -> res_of own a key c id (closed r s).
Proof. exact (fun R => R). Qed.

(** A run that uses capacity [c] on the bucket works with it. *)
Lemma uses_cap o k sp x :
  rop_uses own a key c o -> run_cap (res_of own a key c) o k sp a x -> agrees a key c k sp x.
Proof.
  intros Us Rc. destruct o; cbn [rop_uses run_cap] in *.
  1, 5, 6: destruct Rc as (-> & -> & ->); tauto.
  all: destruct Rc as (mode & r & -> & [Ow Ag] & <- & <-); cbn [read_owned] in Us;
    intros B Ct; apply Ag; [|exact Ct]; rewrite <- B; apply dashed_base; unfold owned in *; congruence.
Qed.

Lemma uses_makes o : rop_uses own a key c o -> makes (res_of own a key c) o.
Proof. destruct o; cbn; try tauto. intros [Ow Ag]. split; [exact Ow|exact Ag]. Qed.

(** The store between runs, at millisecond [T]. *)
Definition redis_inv (T : Z) (d : D) : Prop :=
  res_inv (res_of own a key c) (UnixMilli T) d /\ bucket_ok T c d (axis_key a (base_key key)).

Lemma rstep_metered u T (d : D) now o :
  u <= 2 ^ 53 -> redis_inv T d -> 0 < T -> T <= toUnixMilli now <= u -> rop_ok o /\ rop_uses own a key c o ->
  redis_inv (toUnixMilli now) (rstep now d o) /\
  metered (fun d m => level (UnixMilli m) d (axis_key a (base_key key)) c) c u (toUnixMilli now) d
    (rstep now d o) (rcharge a key now d o).
Proof.
  intros Hu [R B] HT Hn [Ok Us].
  apply (res_inv_later _ _ now) in R; [|rewrite toUnixMilli_UnixMilli; lia].
  destruct (rstep_does _ closed_of a key now d o (clock_of now ltac:(lia)) ltac:(lia) R Ok (uses_makes o Us))
    as (k & sp & cap & ch & Ef & Q & Ag).
  destruct (effect_metered now d a key T c u _ k sp cap ch _ Ef B Hc Hn ltac:(lia) Hu) as [B' M].
  { intros x Cx. exact (uses_cap o k sp x Us (Ag x Cx)). }
  split; [split; [|exact B']|].
  - apply (res_inv_ms _ now); [symmetry; apply toUnixMilli_UnixMilli|]. eapply effect_res; eassumption.
  - rewrite Q. exact M.
Qed.

(** The charges of a history of runs. *)
Definition rcharges (d : D) (h : list (Time * rop)) : Z := total rstep (rcharge a key) d h.

Definition rwindow (T : Z) (h : list (Time * rop)) (u : Z) : Prop :=
  timed (fun o => rop_ok o /\ rop_uses own a key c o) u T h.

Lemma redis_budget_bound T u (d : D) h :
  redis_inv T d -> 0 < T -> rwindow T h u ->
  c <= 2 ^ 30 -> u <= 2 ^ 53 -> u - T <= 2 ^ 32 -> Z.of_nat (length h) <= 2 ^ 20 ->
  60000 * rcharges d h <= 60000 * (c + 1) + (u - T) * c.
Proof.
  intros I HT W Hc' Hu Hd Hn.
  eapply (metered_budget rstep (rcharge a key) (fun d m => level (UnixMilli m) d (axis_key a (base_key key)) c)
    redis_inv (fun o => rop_ok o /\ rop_uses own a key c o) c u); try eassumption.
  - unfold max_capacity. lia.
  - intros. eapply rstep_metered; eassumption.
  - intros T' d' n [_ B] T0 Hn'.
    destruct (level_fresh T' c d' _ (UnixMilli n) B Hc) as (Wf & _ & C); try (rewrite toUnixMilli_UnixMilli; lia).
    apply (wf_full _) in Wf; [exact Wf|unfold max_capacity; cbn; lia].
Qed.
End Budget.

(** ** Databases the store has written *)

Section Reach.
Context {D : Type} `{Redis D} `{!RedisLaws D}.

(** A database without any key of the store. *)
Definition empty_db (T : Z) (d : D) : Prop := forall k, contents (UnixMilli T) d k = ∅.

Fixpoint runs (d : D) (h : list (Time * rop)) : D :=
  match h with [] => d | (now, o) :: h => runs (rstep now d o) h end.

(** What runs in time order make of an empty database; [T] is the millisecond of
    the last run. *)
Inductive redis_reachable : Z -> D -> Prop :=
| rr_empty T d : 0 < T -> empty_db T d -> redis_reachable T d
| rr_run T d now o : redis_reachable T d -> T <= toUnixMilli now <= 2 ^ 53 -> rop_ok o ->
    redis_reachable (toUnixMilli now) (rstep now d o).

Lemma makes_any o : makes (fun _ _ => True) o.
Proof. destruct o; exact I. Qed.

Lemma reachable_res T d : redis_reachable T d -> 0 < T /\ res_inv (fun _ _ => True) (UnixMilli T) d.
Proof.
  induction 1 as [T d HT E|T d now o _ [HT R] Hn Ok].
  - split; [exact HT|]. intros id. left. apply E.
  - split; [lia|]. apply (res_inv_ms _ now); [symmetry; apply toUnixMilli_UnixMilli|].
    apply (rstep_res _ (fun _ _ _ _ => I)); [lia| |exact Ok|apply makes_any].
    apply (res_inv_later _ _ _ _ R). rewrite toUnixMilli_UnixMilli. lia.
Qed.

(** Every reservation of a reachable database was written by the store. *)
Lemma reachable_db T d now : redis_reachable T d -> T <= toUnixMilli now -> res_db now d.
Proof.
  intros [_ R]%reachable_res Hn. apply (res_inv_db (fun _ _ => True)), (res_inv_later _ _ _ _ R).
  rewrite toUnixMilli_UnixMilli. exact Hn.
Qed.

Lemma runs_inv own a key c T u d h :
  0 < c < 2 ^ 53 -> u <= 2 ^ 53 -> redis_inv own a key c T d -> 0 < T -> rwindow own a key c T h u ->
  redis_inv own a key c u (runs d h).
Proof.
  intros Hc Hu. revert T d. induction h as [|[now o] h IH]; intros T d I HT W; unfold rwindow in *; cbn [timed runs] in *.
  - destruct I as [R B]. split; [|eapply bucket_ok_later; eassumption].
    apply (res_inv_later _ _ _ _ R). rewrite !toUnixMilli_UnixMilli. exact W.
  - destruct W as (L & Lg & W). pose proof (timed_le _ _ _ _ W) as Le.
    destruct (rstep_metered own a key c Hc u T d now o Hu I HT ltac:(lia) Lg) as [I' _].
    apply (IH _ _ I'); [lia|exact W].
Qed.

Lemma empty_inv own a key c T d : empty_db T d -> redis_inv own a key c T d.
Proof. intros E. split; [intros id; left; apply E|left; apply E]. Qed.
End Reach.
