(* ===== verification/RedisProps.v ===== *)
(** * RedisProps: the properties of the Redis store *)

From stdpp Require Import base tactics numbers strings gmap list.
From Stdlib Require Import ZArith Lia Ascii.
From S2P Require Import Prelude GoFloat GoString Api Bucket Budget Store Memory MemorySpec MemoryBudget.
From S2P Require Import RedisServer RedisScripts Redis RedisSpec RedisLifecycle RedisLaws RedisBuckets.
From S2P Require Import RedisEffects RedisCalls RedisBudget.

(** ** Keys *)

(** A subject without a closing brace. *)
Fixpoint brace_free (x : string) : bool :=
  match x with
  | EmptyString => true
  | String.String c x => negb (Ascii.eqb c "}"%char) && brace_free x
  end.

Lemma brace_free_prefix x y s t :
  brace_free x = true -> brace_free y = true ->
  x +:+ "}}}:" +:+ s = y +:+ "}}}:" +:+ t -> x = y /\ s = t.
Proof.
  revert y. induction x as [|u x IH]; intros [|v y] Hx Hy E; cbn in E, Hx, Hy; bool_to_prop.
  - injection E as E. auto.
  - injection E as <- _. discriminate.
  - injection E as -> _. discriminate.
  - injection E as -> E. destruct (IH y) as [-> ->]; auto.
Qed.

Lemma base_key_inj k k' :
  brace_free (Subject k) = true -> brace_free (Subject k') = true ->
  base_key k = base_key k' -> dashed k = dashed k'.
Proof.
  unfold base_key, dashed. intros B B' E.
  change (String.String "r" (String.String "l" (String.String ":" (String.String "{"
    (String.String "{" (String.String "{" (Subject k +:+ "}}}:" +:+ modelOrDash (Model k)))))))
    = String.String "r" (String.String "l" (String.String ":" (String.String "{"
    (String.String "{" (String.String "{" (Subject k' +:+ "}}}:" +:+ modelOrDash (Model k')))))))) in E.
  injection E as E. apply brace_free_prefix in E as [-> ->]; auto.
Qed.

(** ** The verdict of a Check *)

Section Verdict.
Context {D : Type} `{Redis D} `{!RedisLaws D}.

(** The axis admits its cost: within the limit, and covered by the balance. *)
Definition redis_admits (now : Time) (d : D) (key : Key) (l : Limits) (c : Cost) (a : axis) : bool :=
  let cost := of_int (Z.max 0 (cost_of a c)) in
  negb ((level now d (axis_key a (base_key key)) (limit_of a l) <? cost) || (of_int (limit_of a l) <? cost)).

(** A Check answers the verdict [v]: the first axis that does not admit its cost, or
    the reservation; a refusal writes nothing. *)
Definition answers (v : option axis) (id : string) (d d' : D) (r : res Decision) : Prop :=
  exists dec, r = Ok dec /\
  match v with
  | None => Allowed dec = true /\ LimitType dec = LimitTypeNone /\ ReservationID dec = id
  | Some a => Allowed dec = false /\ LimitType dec = axis_type a /\ ReservationID dec = "" /\ d' = d
  end.

(** What a parser of decisions makes of a table that starts with a flag and a
    limit. *)
Definition reads_decision (parse : any -> res Decision) (id : string) (len : nat) : Prop :=
  forall n s rs, length rs = len -> exists dec, parse (AList (AInt n :: AStr s :: rs)) = Ok dec /\
    Allowed dec = (n =? 1) /\ LimitType dec = (if n =? 1 then LimitTypeNone else s) /\
    ReservationID dec = (if n =? 1 then id else "").

Lemma parseDecision_flag l id : reads_decision (fun raw => parseDecision raw l id) id 6.
Proof.
  intros n s rs L. unfold parseDecision, array. cbn [length]. rewrite L. cbn. eexists. split; [reflexivity|].
  unfold int_at. cbn. destruct (n =? 1); auto.
Qed.

Lemma parseDecisionIO_flag l id : reads_decision (fun raw => parseDecisionIO raw l id) id 7.
Proof.
  intros n s rs L. unfold parseDecisionIO, array. cbn [length]. rewrite L. cbn. eexists. split; [reflexivity|].
  unfold int_at. cbn. destruct (n =? 1); auto.
Qed.

Lemma answer_flag parse id k s vs :
  Z.abs k <= 2 ^ 53 -> forallb scalar vs = true -> reads_decision parse id (length vs) ->
  exists dec,
    match (match reply (LTable (int k :: LStr s :: vs)) with Ok raw => Ok raw | Err m => Err (ErrOther m) end) with
    | Err err => Err err | Ok raw => parse raw
    end = Ok dec /\
    Allowed dec = (k =? 1) /\ LimitType dec = (if k =? 1 then LimitTypeNone else s) /\
    ReservationID dec = (if k =? 1 then id else "").
Proof.
  intros Hk Sc Rd. destruct (answer_table (int k :: LStr s :: vs) parse (fun e => e)) as (rs & F & E); [exact Sc|].
  cbv beta in E. rewrite E. apply Forall2_cons_inv_l in F as (r & rs' & (n & -> & R) & F & ->).
  apply Forall2_cons_inv_l in F as (r & rs & -> & F & ->). apply literal in R; [subst n|exact Hk].
  apply Rd. symmetry. eapply Forall2_length, F.
Qed.

(** The answer of the branch the script took. *)
Ltac flagged lem :=
  cbn [lret fst snd];
  match goal with
  | |- context [reply (LTable (int ?k :: LStr ?s :: ?vs))] =>
      let Ax := fresh "Ax" in
      pose proof (answer_flag _ _ k s vs ltac:(lia) eq_refl lem) as Ax;
      cbv beta in Ax; cbn [Z.eqb Pos.eqb] in Ax;
      let dec := fresh "dec" in let E := fresh "E" in let R := fresh "R" in
      destruct Ax as (dec & E & R); rewrite !E; exists dec; split; [reflexivity|]; cbn [find negb axis_type]; tauto
  end.

Lemma Check_verdict now (d : D) key l c id :
  clock_ok now -> rlimits_ok l -> rcosts_ok c ->
  Validate l = None -> Subject key <> "" -> id <> "" ->
  let out := Check now d key l c id in
  answers (find (fun a => negb (redis_admits now d key l c a)) (axes (Split l))) id d out.1 out.2.
Proof.
  intros Now L C V S Id. unfold Check. rewrite V. destruct (decide (Subject key = "")); [congruence|].
  destruct (decide (id = "")); [congruence|]. unfold answers.
  pose proof (limit_int64 _ (L RPM)). pose proof (limit_int64 _ (L TPM)).
  pose proof (limit_int64 _ (L ITPM)). pose proof (limit_int64 _ (L OTPM)).
  pose proof (C RPM). pose proof (C TPM). pose proof (C ITPM). pose proof (C OTPM).
  cbn [limit_of cost_of] in *. destruct (Split l); cbn [axes find]; unfold redis_admits; cbn [limit_of cost_of].
  - unfold bucketKeysIO, run, check_io_lua. cbv zeta. keys_of key. do 11 lua_step. rewrite !clamp0_of_int.
    levels key. rewrite !negb_involutive.
    destruct ((level _ _ _ (RequestsPerMinute l) <? _) || _); [flagged (parseDecisionIO_flag l id)|].
    destruct ((level _ _ _ (InputTokensPerMinute l) <? _) || _); [flagged (parseDecisionIO_flag l id)|].
    destruct ((level _ _ _ (OutputTokensPerMinute l) <? _) || _); [flagged (parseDecisionIO_flag l id)|].
    do 5 lua_step. flagged (parseDecisionIO_flag l id).
  - unfold bucketKeys, run, check_lua. cbv zeta. keys_of key. do 8 lua_step. rewrite !clamp0_of_int.
    levels key. rewrite !negb_involutive.
    destruct ((level _ _ _ (RequestsPerMinute l) <? _) || _); [flagged (parseDecision_flag l id)|].
    destruct ((level _ _ _ (TokensPerMinute l) <? _) || _); [flagged (parseDecision_flag l id)|].
    do 4 lua_step. flagged (parseDecision_flag l id).
Qed.
End Verdict.

(** ** Properties *)

(** C7: the per-minute budget of a key in Redis.  Whatever script runs any number of
    clients make, in any interleaving of their round trips, over an empty database
    ([warm]) and then over a window from [T] to [u] milliseconds ([h]), the tokens
    the window takes from the key's bucket on an axis (admitted requests, loans,
    settlements above the reservation, less what refunds, returns and settlements
    give back) are at most its per-minute limit, what the limit earns in the window,
    and one token for all the rounding.  Every reservation id belongs to one key;
    calls on other keys, modes and reservations are unrestricted. *)
Theorem redis_key_budget {D : Type} `{Redis D} `{!RedisLaws D} own a key c T0 T u (d : D) warm h :
  empty_db T0 d -> 0 < T0 -> rwindow own a key c T0 warm T -> rwindow own a key c T h u ->
  0 < c <= 2 ^ 30 -> u <= 2 ^ 53 -> u - T <= 2 ^ 32 -> Z.of_nat (length h) <= 2 ^ 20 ->
  60000 * rcharges a key (runs d warm) h <= 60000 * (c + 1) + (u - T) * c.
Proof.
  intros E HT0 W0 W Hc Hu Hd Hn. pose proof (timed_le _ _ _ _ W0). pose proof (timed_le _ _ _ _ W).
  apply (redis_budget_bound own a key c ltac:(lia)); try (assumption || lia).
  apply (runs_inv own a key c T0); try (assumption || lia). apply empty_inv, E.
Qed.

Definition redis_key : Key := mkKey "alice" "gpt".
Definition redis_limits : Limits := mkLimits 10 1000 0 0.

Definition redis_warm : list (Time * rop) :=
  [(1700000000000000000, RCheck redis_key redis_limits (mkCost 1 100 0 0) "r1");
   (1700000000100000000, RCheck redis_key redis_limits (mkCost 1 300 0 0) "r2")].

(** The first round trip of the settlement came before the refund. *)
Definition redis_history : list (Time * rop) :=
  [(1700000000500000000, RBorrow redis_key redis_limits (mkBorrowSpec 1 10 0 0 2 500 0 0));
   (1700000000600000000, RRefund (Ok ("classic", redis_key)) "r1");
   (1700000000700000000, RSettle (Ok ("classic", redis_key)) "r1" 140);
   (1700000000800000000, RSettle (Ok ("classic", redis_key)) "r2" 350);
   (1700000000900000000, RReturn redis_key redis_limits 1 100 0 0)].

(** The conditions on the arguments of concrete runs. *)
Ltac concrete :=
  first
    [apply rlimits_check; vm_compute; reflexivity
    |apply rcosts_check; vm_compute; reflexivity
    |reflexivity
    |unfold agrees; intros _ _; reflexivity
    |unfold exact_spec, exact_amount, in_int64, int64_min, int64_max; cbn; lia
    |vm_compute; congruence].

Lemma redis_key_budget_witness :
  60000 * rcharges RPM redis_key (runs (∅ : Server) redis_warm) redis_history
    <= 60000 * (10 + 1) + (1700000001000 - 1700000000200) * 10.
Proof.
  apply (redis_key_budget (fun _ => redis_key) RPM redis_key 10 1699999999999 1700000000200 1700000001000 ∅
           redis_warm redis_history).
  - intros k. reflexivity.
  - lia.
  - unfold rwindow. cbn [timed redis_warm rop_ok rop_uses]. split_and!; concrete.
  - unfold rwindow. cbn [timed redis_history rop_ok rop_uses read_owned]. split_and!; concrete.
  - lia.
  - lia.
  - lia.
  - vm_compute. congruence.
Defined.

(** C8: settlements and refunds of the Redis store are linearizable.  Between the
    round trip of Settle, SettleIO or Refund that reads the reservation ([d0]) and
    the one that runs the script ([d]) any clients may run any calls.  Whatever they
    did, the call answers and moves the reservation as [Store.Lifecycle] says,
    atomically at its script or, writing nothing, at its first read: a reservation
    closes once, and a retry answers as the first call did.  (A refund assumes that
    the id was not reused in another mode in between.) *)
Theorem redis_calls_linearize {D : Type} `{Redis D} `{!RedisLaws D} T0 T (d0 d : D) now0 now id :
  redis_reachable T0 d0 -> T0 <= toUnixMilli now0 ->
  redis_reachable T d -> T <= toUnixMilli now -> clock_ok now ->
  (forall n, in_int64 n ->
     linearizes (Lifecycle.settle false) now0 d0 now d id
       (settleRead (reservationMode now0 d0 id) now d id n)) /\
  (forall i o, in_int64 i -> in_int64 o ->
     linearizes (Lifecycle.settle true) now0 d0 now d id
       (settleIORead (reservationMode now0 d0 id) now d id i o)) /\
  ((forall sp st sp0 st0, view now d id = Some (sp, st) -> view now0 d0 id = Some (sp0, st0) -> sp = sp0) ->
     linearizes Lifecycle.refund now0 d0 now d id (refundRead (reservationMode now0 d0 id) now d id)).
Proof.
  intros R0 H0 R1 H1 Now. pose proof (reachable_db _ _ _ R0 H0). pose proof (reachable_db _ _ _ R1 H1).
  split_and!; intros; [apply settle_linearizes|apply settle_io_linearizes|apply refund_linearizes]; assumption.
Qed.

(** The database after a Check, and after another client settled its reservation. *)
Definition redis_checked : Server :=
  rstep 1700000000000000000 ∅ (RCheck redis_key redis_limits (mkCost 1 100 0 0) "r1").
Definition redis_settled : Server :=
  rstep 1700000000500000000 redis_checked (RSettle (Ok ("classic", redis_key)) "r1" 140).

Lemma redis_checked_reachable : redis_reachable 1700000000000 redis_checked.
Proof.
  apply (rr_run 1699999999999 ∅ 1700000000000000000); [apply rr_empty; [lia|intros k; reflexivity]| |].
  - vm_compute. split; congruence.
  - split; concrete.
Qed.

Lemma redis_settled_reachable : redis_reachable 1700000000500 redis_settled.
Proof.
  apply (rr_run 1700000000000 redis_checked 1700000000500000000); [apply redis_checked_reachable| |].
  - vm_compute. split; congruence.
  - split; concrete.
Qed.

(** A refund that read the pending reservation, and lost to a settlement. *)
Lemma redis_calls_linearize_witness :
  linearizes Lifecycle.refund 1700000000000000000 redis_checked 1700000000500000000 redis_settled "r1"
    (refundRead (reservationMode 1700000000000000000 redis_checked "r1") 1700000000500000000 redis_settled "r1").
Proof.
  apply (redis_calls_linearize 1700000000000 1700000000500 redis_checked redis_settled
           1700000000000000000 1700000000500000000 "r1").
  - apply redis_checked_reachable.
  - vm_compute. congruence.
  - apply redis_settled_reachable.
  - vm_compute. congruence.
  - vm_compute. split; congruence.
  - intros sp st sp0 st0. vm_compute. congruence.
Defined.

(** C12: a Check of the Redis store decides by the balances before it.  It is
    admitted exactly when every axis of its mode covers its cost within the limit;
    a refusal names the first axis, in the order requests, input, output (or total)
    tokens, that does not, and writes nothing. *)
Theorem redis_check_decides {D : Type} `{Redis D} `{!RedisLaws D} now (d : D) key l c id d' dec :
  clock_ok now -> rlimits_ok l -> rcosts_ok c -> Check now d key l c id = (d', Ok dec) ->
  match find (fun a => negb (redis_admits now d key l c a)) (axes (Split l)) with
  | None => Allowed dec = true /\ LimitType dec = LimitTypeNone /\ ReservationID dec = id
  | Some a => Allowed dec = false /\ LimitType dec = axis_type a /\ ReservationID dec = "" /\ d' = d
  end.
Proof.
  intros Now L C E. pose proof (Check_verdict now d key l c id Now L C) as V. rewrite E in V.
  unfold Check in E. destruct (Validate l); [discriminate|].
  destruct (decide (Subject key = "")); [discriminate|]. destruct (decide (id = "")); [discriminate|].
  destruct V as (dec' & [= ->] & V); auto.
Qed.

(** The decision of a call that did not fail. *)
Definition decided (r : res Decision) : Decision := match r with Ok dec => dec | Err _ => zeroDecision end.

Lemma decided_ok {S} (out : S * res Decision) : is_ok out.2 = true -> out = (out.1, Ok (decided out.2)).
Proof. destruct out as [s [dec|e]]; [reflexivity|discriminate]. Qed.

Definition redis_denied : Server * res Decision :=
  Check 1700000000500000000 redis_checked redis_key redis_limits (mkCost 1 950 0 0) "r9".

Lemma redis_check_decides_witness :
  LimitType (decided redis_denied.2) = LimitTypeTokens /\ redis_denied.1 = redis_checked.
Proof.
  pose proof (redis_check_decides 1700000000500000000 redis_checked redis_key redis_limits (mkCost 1 950 0 0) "r9"
    redis_denied.1 (decided redis_denied.2)) as W.
  specialize (W ltac:(vm_compute; split; congruence) ltac:(concrete) ltac:(concrete)).
  specialize (W (decided_ok redis_denied ltac:(vm_compute; reflexivity))).
  replace (find _ _) with (Some TPM) in W by (vm_compute; reflexivity).
  exact (conj (proj1 (proj2 W)) (proj2 (proj2 (proj2 W)))).
Defined.

(** C11: the Lua scripts compute what pkg/bucket computes.  For a bucket whose hash
    holds a snapshot, the scripts' [refill] gives the balance of [Bucket.Refill]; a
    request the scripts admit is admitted by [TryConsume], which leaves the same
    balance; a return or refund gives the balance of [Credit]; and a settlement
    gives the balance and the overshoot of the in-process store's [settleAxis],
    number for number. *)
Theorem lua_bucket_equivalence {D : Type} `{Redis D} `{!RedisLaws D} h st m :
  holds_state h st -> wf st -> 0 < Capacity st < 2 ^ 53 -> 0 < LastMs st <= m -> m <= 2 ^ 53 ->
  let c := Capacity st in
  let t := refilled (of_int m) h (of_int c) in
  let st' := Refill st m in
  t = stTokens st' /\
  (forall x, 0 <= x <= int64_max -> (t <? of_int x) || (of_int c <? of_int x) = false ->
     rAllowed (TryConsume st' m x).2 = true /\ fsub t (of_int x) = stTokens (TryConsume st' m x).1) /\
  (forall x, 0 <= x -> math_min (of_int c) (fadd t (of_int x)) = stTokens (Credit st' m x)) /\
  (forall reserved actual, 0 <= reserved <= 2 ^ 53 -> 0 <= actual < 2 ^ 53 ->
     apply_delta t (of_int c) (of_int reserved) (of_int actual) =
       (stTokens (settleAxis st' m reserved actual).1, of_int (settleAxis st' m reserved actual).2)).
Proof.
  intros Hs W Hc Hl Hm c t st'.
  assert (E : t = stTokens st') by (apply refilled_Refill; assumption).
  assert (F : fresh m c st').
  { split; [|split; [apply Refill_LastMs|apply Refill_Capacity]].
    apply Refill_wf; unfold time_ok, int64_max; (lia || exact W). }
  split; [exact E|]. rewrite E. split_and!.
  - intros x Hx Ad. destruct (lua_admits c m st' Hc ltac:(lia) F x Hx Ad) as (E1 & E2 & _).
    split; [exact E2|]. rewrite E1. reflexivity.
  - intros x Hx. apply (lua_credit c m st'); (assumption || lia).
  - intros r a Hr Ha. apply (lua_settle c m st' Hc ltac:(lia) F r a Hr Ha).
Qed.

Definition lua_hash : gmap string string := {[ "tokens" := "7"; "last_ms" := "1700000000000" ]}.
Definition lua_snapshot : State := mkState (of_int 7) 1700000000000 10.

Lemma lua_bucket_equivalence_witness :
  refilled (D := Server) (of_int 1700000006000) lua_hash (of_int 10) = stTokens (Refill lua_snapshot 1700000006000).
Proof.
  refine (proj1 (lua_bucket_equivalence (D := Server) lua_hash lua_snapshot 1700000006000 _ _ _ _ _)).
  - vm_compute. split; reflexivity.
  - apply wf_of_int; unfold max_capacity; lia.
  - vm_compute. split; reflexivity.
  - vm_compute. split; congruence.
  - vm_compute. congruence.
Defined.

(** The key of the bucket of an axis. *)
Definition bucket_key (a : axis) (key : Key) : string :=
  match a with
  | RPM => (bucketKeys key).1 | TPM => (bucketKeys key).2
  | ITPM => (bucketKeysIO key).1.2 | OTPM => (bucketKeysIO key).2
  end.

(** C13: keys keep tenants, axes and reservations apart.  For subjects without a
    closing brace two buckets share a Redis key only if they are the same axis of
    the same subject and model (an empty model is the model "-"); no bucket shares
    the key of a reservation; no two reservations share a key.  The requests bucket
    of the classic and of the split mode are one, and a settlement, which reads the
    model back with the dash, works on the buckets of its Check. *)
Theorem redis_keys_separate a b k k' id id' :
  brace_free (Subject k) = true -> brace_free (Subject k') = true ->
  (bucket_key a k = bucket_key b k' ->
     a = b /\ Subject k = Subject k' /\ modelOrDash (Model k) = modelOrDash (Model k')) /\
  (bucketKeysIO k).1.1 = bucket_key RPM k /\
  bucket_key a (mkKey (Subject k) (modelOrDash (Model k))) = bucket_key a k /\
  reservationKey id <> bucket_key a k /\
  (reservationKey id = reservationKey id' -> id = id').
Proof.
  intros B B'. assert (Eq : forall a k, bucket_key a k = axis_key a (base_key k)) by (intros [] ?; reflexivity).
  rewrite !Eq. split_and!.
  - intros [-> E]%axis_key_inj. split; [reflexivity|]. apply base_key_inj in E; [|assumption..].
    unfold dashed in E. injection E as E1 E2. auto.
  - reflexivity.
  - change (mkKey (Subject k) (modelOrDash (Model k))) with (dashed k). rewrite base_dashed. reflexivity.
  - apply reservation_bucket.
  - apply reservationKey_inj.
Qed.

Lemma redis_keys_separate_witness :
  reservationKey "r1" <> bucket_key TPM redis_key /\
  bucket_key TPM (mkKey "bob" (modelOrDash "")) = bucket_key TPM (mkKey "bob" "").
Proof.
  split.
  - apply (redis_keys_separate TPM TPM redis_key redis_key "r1" "r1"); reflexivity.
  - apply (redis_keys_separate TPM TPM (mkKey "bob" "") redis_key "r1" "r1"); reflexivity.
Defined.

(** With a closing brace two tenants can share a bucket. *)
Lemma redis_keys_collide :
  bucket_key TPM (mkKey "a" "b}}}:c") = bucket_key TPM (mkKey "a}}}:b" "c").
Proof. reflexivity. Qed.
