(* ===== verification/Observe.v ===== *)
(** * Observe: pkg/metrics/metrics.go, the instrumented limiter

    The operations on the counters are those of a metrics library, which the wrapper
    only calls: the state keeps them as a log, in order, and [adds] collects what one
    series of it receives. *)

From stdpp Require Import base tactics numbers strings list.
From Stdlib Require Import ZArith Lia.
From S2P Require Import Prelude GoFloat Api Lease ApiLimiter.

(** An operation on a metric: the name of the metric, its labels, the amount. *)
Inductive metric_op : Type :=
| MObserve (name : string) (v : float64)
| MAdd (name : string) (labels : list string) (v : float64).

Definition Inc (name : string) (labels : list string) : metric_op := MAdd name labels one.

Definition checks : string := "valve_checks_total".
Definition settles : string := "valve_settles_total".
Definition refunds : string := "valve_refunds_total".
Definition dur : string := "valve_check_duration_seconds".
Definition overshoot : string := "valve_overshoot_tokens_total".
Definition storeErrs : string := "valve_store_errors_total".

(** [d.Seconds()] *)
Definition Seconds (d : Duration) : float64 :=
  fadd (of_int (Z.quot d Second)) (fdiv (of_int (Z.rem d Second)) (of_int 1000000000)).

(** The labels of the outcome of a check. *)
Definition result_label (d : Decision) : string := if Allowed d then "allow" else "deny".

Definition type_label (d : Decision) : string :=
  if decide (LimitType d = "") then "none" else LimitType d.

Section Observed.
Context {W : Type} `{ApiLimiter W}.
(** [time.Now()] at its n-th reading by the wrapper. *)
Context (clock : nat -> Time).

(** The wrapped limiter, the clock readings so far, and the operations on the metrics. *)
Record Observed := mkObserved { oinner : W; oticks : nat; olog : list metric_op }.

Definition emit (o : Observed) (ops : list metric_op) : Observed :=
  mkObserved (oinner o) (oticks o) (olog o ++ ops).

Definition Check (key : Key) (limits : Limits) (cost : Cost) (o : Observed) : Observed * res Decision :=
  let start := clock (oticks o) in
  let '(w, r) := lCheck key limits cost (oinner o) in
  let since := Sub (clock (S (oticks o))) start in
  let o := emit (mkObserved w (S (S (oticks o))) (olog o)) [MObserve dur (Seconds since)] in
  match r with
  | Err err => (emit o [Inc storeErrs []], Err err)
  | Ok d => (emit o [Inc checks [result_label d; type_label d]], Ok d)
  end.

Definition Settle (reservationID : string) (actualTokens : Z) (o : Observed) : Observed * res Decision :=
  let '(w, r) := lSettle reservationID actualTokens (oinner o) in
  let o := mkObserved w (oticks o) (olog o) in
  match r with
  | Err err => (emit (emit o [Inc storeErrs []]) [Inc settles ["error"]], Err err)
  | Ok d =>
      let o := emit o [Inc settles ["ok"]] in
      let o := if 0 <? OvershootTPM d then emit o [MAdd overshoot [] (of_int (OvershootTPM d))] else o in
      (o, Ok d)
  end.

Definition SettleIO (reservationID : string) (actualInput actualOutput : Z) (o : Observed)
    : Observed * res Decision :=
  let '(w, r) := lSettleIO reservationID actualInput actualOutput (oinner o) in
  let o := mkObserved w (oticks o) (olog o) in
  match r with
  | Err err => (emit (emit o [Inc storeErrs []]) [Inc settles ["error"]], Err err)
  | Ok d =>
      let o := emit o [Inc settles ["ok"]] in
      let o := if 0 <? OvershootITPM d then emit o [MAdd overshoot [] (of_int (OvershootITPM d))] else o in
      let o := if 0 <? OvershootOTPM d then emit o [MAdd overshoot [] (of_int (OvershootOTPM d))] else o in
      (o, Ok d)
  end.

Definition Refund (reservationID : string) (o : Observed) : Observed * res unit :=
  let '(w, r) := lRefund reservationID (oinner o) in
  let o := emit (mkObserved w (oticks o) (olog o)) [Inc refunds []] in
  match r with
  | Err err => (emit o [Inc storeErrs []], Err err)
  | Ok u => (o, Ok u)
  end.

#[export] Instance Observed_ApiLimiter : ApiLimiter Observed := {|
  lCheck := Check; lSettle := Settle; lSettleIO := SettleIO; lRefund := Refund
|}.

(** [New] over a fresh registry. *)
Definition New (inner : W) : Observed := mkObserved inner 0 [].
End Observed.

(** The gauge of the lease hit ratio: the pool of the fast path, if there is one. *)
Definition leaseGauge (hits : option Pool) : float64 :=
  match hits with Some p => HitRatio p | None => 0 end.

(** ** What the wrapper guarantees *)

(** The amounts added to one series, in order. *)
Fixpoint adds (name : string) (labels : list string) (ops : list metric_op) : list float64 :=
  match ops with
  | [] => []
  | MAdd n ls v :: ops =>
      if decide (n = name /\ ls = labels) then v :: adds name labels ops else adds name labels ops
  | MObserve _ _ :: ops => adds name labels ops
  end.

Lemma adds_app name labels a b : adds name labels (a ++ b) = adds name labels a ++ adds name labels b.
Proof.
  induction a as [|[n v|n ls v] a IH]; cbn; [reflexivity|exact IH|]. destruct (decide _); cbn; rewrite IH; reflexivity.
Qed.

Definition count (f : call * answer -> bool) (l : list (call * answer)) : nat := List.length (List.filter f l).

Definition erred (ca : call * answer) : bool := negb (answer_ok ca.2).

Definition refunding (ca : call * answer) : bool := match ca.1 with CRefund _ => true | _ => false end.

(** A check answered with this outcome. *)
Definition checked (r t : string) (ca : call * answer) : bool :=
  match ca with
  | (CCheck _ _ _, ADecision (Ok d)) => bool_decide (result_label d = r /\ type_label d = t)
  | _ => false
  end.

Definition settling (ok : bool) (ca : call * answer) : bool :=
  match ca with
  | (CSettle _ _, a) | (CSettleIO _ _ _, a) => Bool.eqb (answer_ok a) ok
  | _ => false
  end.

Definition positive (n : Z) : list float64 := if 0 <? n then [of_int n] else [].

(** The overshoots a settlement reports. *)
Definition overshoots (ca : call * answer) : list float64 :=
  match ca with
  | (CSettle _ _, ADecision (Ok d)) => positive (OvershootTPM d)
  | (CSettleIO _ _ _, ADecision (Ok d)) => positive (OvershootITPM d) ++ positive (OvershootOTPM d)
  | _ => []
  end.

(** The operations of one call; the observed duration is [v]. *)
Definition emitted (v : float64) (ca : call * answer) : list metric_op :=
  match ca with
  | (CCheck _ _ _, ADecision (Ok d)) => [MObserve dur v; Inc checks [result_label d; type_label d]]
  | (CCheck _ _ _, a) => MObserve dur v :: if answer_ok a then [] else [Inc storeErrs []]
  | (CRefund _, a) => Inc refunds [] :: if answer_ok a then [] else [Inc storeErrs []]
  | (_, a) => if answer_ok a then Inc settles ["ok"] :: map (MAdd overshoot []) (overshoots ca)
              else [Inc storeErrs []; Inc settles ["error"]]
  end.

Section Transparent.
Context {W : Type} `{ApiLimiter W}.
Context (clock : nat -> Time).
Local Existing Instance Observed_ApiLimiter.

Lemma perform_observed c (o : Observed (W := W)) :
  let r := perform (H := Observed_ApiLimiter clock) c o in
  perform c (oinner o) = (oinner r.1, r.2) /\ exists v, olog r.1 = olog o ++ emitted v (c, r.2).
Proof.
  destruct c as [key l c|id n|id i ou|id]; cbn [perform lCheck lSettle lSettleIO lRefund Observed_ApiLimiter];
    unfold Check, Settle, SettleIO, Refund.
  - destruct (lCheck key l c (oinner o)) as [w [d|e]]; cbn; (split; [reflexivity|]); rewrite <- app_assoc;
      eexists; reflexivity.
  - destruct (lSettle id n (oinner o)) as [w [d|e]]; cbn; unfold positive.
    + destruct (0 <? OvershootTPM d); cbn; (split; [reflexivity|]); rewrite <- ?app_assoc; exists 0; reflexivity.
    + split; [reflexivity|]. rewrite <- app_assoc. exists 0. reflexivity.
  - destruct (lSettleIO id i ou (oinner o)) as [w [d|e]]; cbn; unfold positive.
    + destruct (0 <? OvershootITPM d), (0 <? OvershootOTPM d); cbn; (split; [reflexivity|]);
        rewrite <- ?app_assoc; exists 0; reflexivity.
    + split; [reflexivity|]. rewrite <- app_assoc. exists 0. reflexivity.
  - destruct (lRefund id (oinner o)) as [w [u|e]]; cbn; (split; [reflexivity|]); rewrite <- ?app_assoc;
      exists 0; reflexivity.
Qed.

Lemma performs_observed cs (o : Observed (W := W)) :
  let r := performs (H := Observed_ApiLimiter clock) cs o in
  performs cs (oinner o) = (oinner r.1, r.2) /\
  exists vs, List.length vs = List.length r.2 /\
    olog r.1 = olog o ++ List.concat (zip_with emitted vs r.2).
Proof.
  revert o. induction cs as [|c cs IH]; intros o; cbn [performs].
  - split; [reflexivity|]. exists []. split; [reflexivity|]. cbn. rewrite app_nil_r. reflexivity.
  - pose proof (perform_observed c o) as [E [v V]]. rewrite E.
    destruct (perform _ o) as [o1 a]. cbn [fst snd] in *. specialize (IH o1). cbn zeta in IH.
    destruct IH as [E' [vs [L V']]]. rewrite E'. destruct (performs _ o1) as [o2 l]. cbn [fst snd] in *.
    split; [reflexivity|]. exists (v :: vs). cbn. split; [lia|]. rewrite V', V, <- app_assoc. reflexivity.
Qed.

Ltac same_series :=
  cbn [overshoots]; unfold Inc, positive;
  repeat match goal with |- context [if 0 <? ?n then _ else _] => destruct (0 <? n) end;
  cbn [adds app map checked settling refunding answer_ok is_ok Bool.eqb];
  repeat match goal with
  | |- context [bool_decide ?P] => destruct (bool_decide_reflect P) as [[? ?]|]; simplify_eq
  | |- context [decide ?P] => destruct (decide P) as [[? ?]|]; try discriminate; simplify_eq; try solve [exfalso; auto]
  end.

(** What each series receives from one call. *)
Lemma emitted_adds v ca :
  adds storeErrs [] (emitted v ca) = (if erred ca then [one] else []) /\
  adds refunds [] (emitted v ca) = (if refunding ca then [one] else []) /\
  (forall r t, adds checks [r; t] (emitted v ca) = if checked r t ca then [one] else []) /\
  adds settles ["ok"] (emitted v ca) = (if settling true ca then [one] else []) /\
  adds settles ["error"] (emitted v ca) = (if settling false ca then [one] else []) /\
  adds overshoot [] (emitted v ca) = overshoots ca.
Proof.
  destruct ca as [[key l c|id n|id i o|id] [[d|e]|[u|e]]]; unfold erred; cbn [emitted answer_ok snd fst is_ok negb];
    repeat split; intros; same_series; reflexivity.
Qed.

(** Over a sequence of calls: a series receives what the calls send it, in order. *)
Lemma adds_concat name labels (f : call * answer -> list float64) vs l :
  List.length vs = List.length l -> (forall v ca, adds name labels (emitted v ca) = f ca) ->
  adds name labels (List.concat (zip_with emitted vs l)) = List.flat_map f l.
Proof.
  intros L E. revert l L. induction vs as [|v vs IH]; intros [|ca l] L; cbn in L; try lia; [reflexivity|].
  cbn. rewrite adds_app, E, IH by lia. reflexivity.
Qed.

Lemma length_flat_map_if {A} (f : call * answer -> bool) (x : A) l :
  List.length (List.flat_map (fun ca => if f ca then [x] else []) l) = count f l.
Proof.
  unfold count. induction l as [|ca l IH]; [reflexivity|]. cbn. rewrite length_app, IH. destruct (f ca); reflexivity.
Qed.

(** C20: the instrumented limiter is the limiter it wraps.  Any sequence of calls gets
    the same answers and leaves the wrapped limiter in the same state as without the
    wrapper, and the metrics tell what happened: one error counted per call that
    erred, one refund per Refund, one check per answered Check under its outcome and
    limit type, one settlement per Settle or SettleIO under its outcome, and the
    overshoot counter receives exactly the positive overshoots reported, in order. *)
Theorem observed_refines_inner cs (o : Observed (W := W)) :
  exists ops,
  let l := (performs cs (oinner o)).2 in
  let o' := (performs (H := Observed_ApiLimiter clock) cs o).1 in
  performs (H := Observed_ApiLimiter clock) cs o = (o', l) /\
  oinner o' = (performs cs (oinner o)).1 /\ olog o' = olog o ++ ops /\
  List.length (adds storeErrs [] ops) = count erred l /\
  List.length (adds refunds [] ops) = count refunding l /\
  (forall r t, List.length (adds checks [r; t] ops) = count (checked r t) l) /\
  List.length (adds settles ["ok"] ops) = count (settling true) l /\
  List.length (adds settles ["error"] ops) = count (settling false) l /\
  adds overshoot [] ops = List.flat_map overshoots l.
Proof.
  pose proof (performs_observed cs o) as [E [vs [L V]]]. cbv zeta.
  destruct (performs (H := Observed_ApiLimiter clock) cs o) as [o' l]. cbn [fst snd] in *. rewrite E. cbn [fst snd].
  exists (List.concat (zip_with emitted vs l)). pose proof emitted_adds as A.
  split; [reflexivity|]. split; [reflexivity|]. split; [exact V|].
  repeat split; intros; rewrite <- ?length_flat_map_if with (x := one); try f_equal;
    apply adds_concat; try exact L; intros v ca; apply A.
Qed.
End Transparent.
