(* ===== verification/Headers.v ===== *)
(** * Headers: pkg/headers/headers.go

    The rate-limit headers of a response, over net/http's header maps. *)

From stdpp Require Import base tactics numbers strings gmap list.
From Stdlib Require Import ZArith Lia Ascii.
From S2P Require Import Prelude GoString Api.

(** ** net/http headers *)

(** [textproto.CanonicalMIMEHeaderKey]: upper case at the start and after hyphens,
    lower case elsewhere; a key with a byte that no header name has is left alone. *)
Definition token_char (c : ascii) : bool :=
  let b := byte_of c in
  ((48 <=? b) && (b <=? 57)) || ((65 <=? b) && (b <=? 90)) || ((97 <=? b) && (b <=? 122))
  || bool_decide (b ∈ [33; 35; 36; 37; 38; 39; 42; 43; 45; 46; 94; 95; 96; 124; 126]).

Fixpoint all_token (s : string) : bool :=
  match s with String.String c s => token_char c && all_token s | EmptyString => true end.

Fixpoint capitalize (upper : bool) (s : string) : string :=
  match s with
  | String.String c s =>
      let b := byte_of c in
      let c' := if upper && (97 <=? b) && (b <=? 122) then ascii_byte (b - 32)
                else if negb upper && (65 <=? b) && (b <=? 90) then ascii_byte (b + 32)
                else c in
      String.String c' (capitalize (b =? 45) s)
  | EmptyString => ""
  end.

Definition CanonicalHeaderKey (s : string) : string := if all_token s then capitalize true s else s.

Definition Header : Type := gmap string (list string).

Definition Set_ (h : Header) (key value : string) : Header := <[CanonicalHeaderKey key := [value]]> h.

Definition AddValue (h : Header) (key value : string) : Header :=
  let k := CanonicalHeaderKey key in <[k := default [] (h !! k) ++ [value]]> h.

(** [h.Get(key)] *)
Definition Get (h : Header) (key : string) : string :=
  match h !! CanonicalHeaderKey key with Some (v :: _) => v | _ => "" end.

(** ** Rounding durations *)

(** [d.Round(m)]: half away from zero, saturating. *)
Definition Round (d m : Duration) : Duration :=
  if m <=? 0 then d
  else let r := Z.rem d m in
       if d <? 0 then
         let r := - r in
         if r + r <? m then d + r
         else let d1 := wrap64 (d - m + r) in if d1 <? d then d1 else int64_min
       else if r + r <? m then d - r
            else let d1 := wrap64 (d + m - r) in if d <? d1 then d1 else int64_max.

(** [int(d.Round(time.Second) / time.Second)] *)
Definition round_seconds (d : Duration) : Z := Z.quot (Round d Second) Second.

(** ** headers.go *)

Definition LimitRequests : string := "x-ratelimit-limit-requests".
Definition RemainingRequests : string := "x-ratelimit-remaining-requests".
Definition ResetRequests : string := "x-ratelimit-reset-requests".
Definition LimitTokens : string := "x-ratelimit-limit-tokens".
Definition RemainingTokens : string := "x-ratelimit-remaining-tokens".
Definition ResetTokens : string := "x-ratelimit-reset-tokens".
Definition LimitInputTokens : string := "x-ratelimit-limit-input-tokens".
Definition RemainingInputTokens : string := "x-ratelimit-remaining-input-tokens".
Definition ResetInputTokens : string := "x-ratelimit-reset-input-tokens".
Definition LimitOutputTokens : string := "x-ratelimit-limit-output-tokens".
Definition RemainingOutputTokens : string := "x-ratelimit-remaining-output-tokens".
Definition ResetOutputTokens : string := "x-ratelimit-reset-output-tokens".
Definition RetryAfterHeader : string := "Retry-After".

Section Write.
(** [time.Now()] at its n-th reading. *)
Context (clock : nat -> Time).

Definition formatReset (now t : Time) : string :=
  let d := Sub t now in
  let d := if d <? 0 then 0 else d in
  FormatInt (round_seconds d) +:+ "s".

(** [h.Set(name, formatReset(t))], unless [t] is the zero time. *)
Definition setReset (name : string) (t : Time) (hn : Header * nat) : Header * nat :=
  let '(h, n) := hn in
  if IsZero t then (h, n) else (Set_ h name (formatReset (clock n) t), S n).

(** The headers after [Write], and the clock readings so far. *)
Definition Write (h : Header) (n : nat) (d : Decision) : Header * nat :=
  let h := Set_ h LimitRequests (FormatInt (LimitRPM d)) in
  let h := Set_ h RemainingRequests (FormatInt (RemainingRPM d)) in
  let h := Set_ h LimitTokens (FormatInt (LimitTPM d)) in
  let h := Set_ h RemainingTokens (FormatInt (RemainingTPM d)) in
  let '(h, n) := setReset ResetRequests (ResetRPM d) (h, n) in
  let '(h, n) := setReset ResetTokens (ResetTPM d) (h, n) in
  let '(h, n) :=
    if (0 <? LimitITPM d) || (0 <? RemainingITPM d) || negb (IsZero (ResetITPM d)) then
      let h := Set_ h LimitInputTokens (FormatInt (LimitITPM d)) in
      let h := Set_ h RemainingInputTokens (FormatInt (RemainingITPM d)) in
      setReset ResetInputTokens (ResetITPM d) (h, n)
    else (h, n) in
  let '(h, n) :=
    if (0 <? LimitOTPM d) || (0 <? RemainingOTPM d) || negb (IsZero (ResetOTPM d)) then
      let h := Set_ h LimitOutputTokens (FormatInt (LimitOTPM d)) in
      let h := Set_ h RemainingOutputTokens (FormatInt (RemainingOTPM d)) in
      setReset ResetOutputTokens (ResetOTPM d) (h, n)
    else (h, n) in
  if 0 <? RetryAfter d then
    let secs := round_seconds (RetryAfter d) in
    let secs := if secs <? 1 then 1 else secs in
    (Set_ h RetryAfterHeader (FormatInt secs), n)
  else (h, n).
End Write.

Example canonical_names :
  map CanonicalHeaderKey [LimitRequests; RetryAfterHeader; "content-TYPE"; "bad key"]
  = ["X-Ratelimit-Limit-Requests"; "Retry-After"; "Content-Type"; "bad key"].
Proof. vm_compute. reflexivity. Qed.

(** ** What the headers say *)

(** Conditional assignments, in order. *)
Fixpoint puts (kvs : list (string * option string)) (h : Header) : Header :=
  match kvs with
  | [] => h
  | (k, Some v) :: kvs => puts kvs (Set_ h k v)
  | (_, None) :: kvs => puts kvs h
  end.

Lemma puts_other kvs h key :
  key ∉ map (fun kv => CanonicalHeaderKey kv.1) kvs -> puts kvs h !! key = h !! key.
Proof.
  revert h. induction kvs as [|[k [v|]] kvs IH]; intros h N; cbn in *; [reflexivity|..];
    apply not_elem_of_cons in N as [Nk N]; rewrite IH by exact N; [|reflexivity].
  apply lookup_insert_ne. congruence.
Qed.

Lemma puts_lookup kvs h i k o :
  NoDup (map (fun kv => CanonicalHeaderKey kv.1) kvs) -> kvs !! i = Some (k, o) ->
  puts kvs h !! CanonicalHeaderKey k = match o with Some v => Some [v] | None => h !! CanonicalHeaderKey k end.
Proof.
  revert h i. induction kvs as [|[k' o'] kvs IH]; intros h [|i] D E; cbn in *; try discriminate;
    apply NoDup_cons in D as [N D].
  - injection E as -> ->. destruct o as [v|]; rewrite puts_other by exact N; [|reflexivity]. apply lookup_insert_eq.
  - assert (Nk : CanonicalHeaderKey k' <> CanonicalHeaderKey k).
    { intros Ek. apply N. rewrite Ek. apply list_elem_of_In, in_map_iff. exists (k, o).
      split; [reflexivity|]. apply list_elem_of_In, list_elem_of_lookup. eauto. }
    destruct o' as [v'|]; rewrite (IH _ i D E); destruct o; try reflexivity. apply lookup_insert_ne. exact Nk.
Qed.

Section Spec.
Context (clock : nat -> Time).

Definition in_split (d : Decision) : bool :=
  (0 <? LimitITPM d) || (0 <? RemainingITPM d) || negb (IsZero (ResetITPM d)).
Definition out_split (d : Decision) : bool :=
  (0 <? LimitOTPM d) || (0 <? RemainingOTPM d) || negb (IsZero (ResetOTPM d)).

(** The text of a reset header, which reads the clock, if the time is set. *)
Definition reset (n : nat) (t : Time) : option string :=
  if IsZero t then None else Some (formatReset (clock n) t).
Definition read (n : nat) (t : Time) : nat := if IsZero t then n else S n.

Definition wait_seconds (d : Duration) : Z := let secs := round_seconds d in if secs <? 1 then 1 else secs.

(** The thirteen headers of a decision, each with its text if it is set. *)
Definition header_texts (n : nat) (d : Decision) : list (string * option string) :=
  let n1 := read n (ResetRPM d) in
  let n2 := read n1 (ResetTPM d) in
  let n3 := if in_split d then read n2 (ResetITPM d) else n2 in
  let on (b : bool) (v : Z) := if b then Some (FormatInt v) else None in
  [(LimitRequests, Some (FormatInt (LimitRPM d))); (RemainingRequests, Some (FormatInt (RemainingRPM d)));
   (LimitTokens, Some (FormatInt (LimitTPM d))); (RemainingTokens, Some (FormatInt (RemainingTPM d)));
   (ResetRequests, reset n (ResetRPM d)); (ResetTokens, reset n1 (ResetTPM d));
   (LimitInputTokens, on (in_split d) (LimitITPM d)); (RemainingInputTokens, on (in_split d) (RemainingITPM d));
   (ResetInputTokens, reset n2 (ResetITPM d));
   (LimitOutputTokens, on (out_split d) (LimitOTPM d)); (RemainingOutputTokens, on (out_split d) (RemainingOTPM d));
   (ResetOutputTokens, reset n3 (ResetOTPM d));
   (RetryAfterHeader, on (0 <? RetryAfter d) (wait_seconds (RetryAfter d)))].

Lemma Write_texts h n d : (Write clock h n d).1 = puts (header_texts n d) h.
Proof.
  unfold Write, setReset, header_texts, reset, read. fold (in_split d) (out_split d).
  assert (I : in_split d = false -> IsZero (ResetITPM d) = true).
  { unfold in_split. destruct (IsZero (ResetITPM d)); [reflexivity|]. rewrite orb_true_r. discriminate. }
  assert (O : out_split d = false -> IsZero (ResetOTPM d) = true).
  { unfold out_split. destruct (IsZero (ResetOTPM d)); [reflexivity|]. rewrite orb_true_r. discriminate. }
  destruct (in_split d); [clear I|rewrite (I eq_refl)]; (destruct (out_split d); [clear O|rewrite (O eq_refl)]);
    destruct (0 <? RetryAfter d);
    repeat match goal with |- context [IsZero ?t] => destruct (IsZero t) end; reflexivity.
Qed.

Lemma header_names_differ n d : NoDup (map (fun kv => CanonicalHeaderKey kv.1) (header_texts n d)).
Proof. apply (bool_decide_unpack _). vm_compute. exact I. Qed.

Lemma Write_lookup h n d i k o :
  header_texts n d !! i = Some (k, o) ->
  (Write clock h n d).1 !! CanonicalHeaderKey k = match o with Some v => Some [v] | None => h !! CanonicalHeaderKey k end.
Proof. intros E. rewrite Write_texts. exact (puts_lookup _ h i k o (header_names_differ n d) E). Qed.

(** Rounding to whole seconds. *)
Lemma round_seconds_near d :
  0 <= d <= int64_max - Second -> - Second < 2 * (round_seconds d * Second - d) <= Second /\ 0 <= round_seconds d.
Proof.
  intros B. unfold round_seconds, Round. change (Second <=? 0) with false. cbv iota.
  destruct (Z.ltb_spec d 0); [lia|]. pose proof (Z.quot_rem' d Second) as Q.
  pose proof (Z.rem_bound_pos d Second) as R. unfold Second, int64_max in *. specialize (R ltac:(lia) ltac:(lia)).
  assert (P : 0 <= Z.quot d 1000000000) by (apply Z.quot_pos; lia).
  cbv zeta. destruct (Z.ltb_spec (Z.rem d 1000000000 + Z.rem d 1000000000) 1000000000).
  - replace (d - Z.rem d 1000000000) with (Z.quot d 1000000000 * 1000000000) by lia.
    rewrite Z.quot_mul by lia. lia.
  - rewrite wrap64_id by (unfold in_int64, int64_min, int64_max; lia).
    destruct (Z.ltb_spec d (d + 1000000000 - Z.rem d 1000000000)); [|lia].
    replace (d + 1000000000 - Z.rem d 1000000000) with ((Z.quot d 1000000000 + 1) * 1000000000) by lia.
    rewrite Z.quot_mul by lia. lia.
Qed.

Lemma Write_get h n d i k v :
  header_texts n d !! i = Some (k, Some v) -> Get (Write clock h n d).1 k = v.
Proof. intros E. unfold Get. rewrite (Write_lookup h n d i k _ E). reflexivity. Qed.

(** The reset text of a time ahead of the clock. *)
Lemma formatReset_near now t :
  0 <= t - now <= int64_max - Second ->
  exists secs, formatReset now t = FormatInt secs +:+ "s" /\
    - Second < 2 * (secs * Second - (t - now)) <= Second.
Proof.
  intros B. exists (round_seconds (t - now)). unfold formatReset, Sub.
  replace (Z.max int64_min (Z.min int64_max (t - now))) with (t - now) by
    (unfold int64_min, int64_max, Second in *; lia).
  cbv zeta. destruct (Z.ltb_spec (t - now) 0); [lia|]. split; [reflexivity|]. apply round_seconds_near, B.
Qed.
End Spec.

(** The budget numbers of a decision are [int64] values. *)
Definition int64_budgets (d : Decision) : Prop :=
  Forall in_int64 [LimitRPM d; RemainingRPM d; LimitTPM d; RemainingTPM d; LimitITPM d; RemainingITPM d;
                   LimitOTPM d; RemainingOTPM d].

(** What a client reads of a reset time: nothing new when it is unset; "0s" when it is
    past; else whole seconds, off by at most half a second. *)
Definition tells_reset (clock : nat -> Time) (h h' : Header) (n : nat) (name : string) (t : Time) : Prop :=
  if IsZero t then h' !! CanonicalHeaderKey name = h !! CanonicalHeaderKey name
  else exists m, (n <= m <= n + 3)%nat /\
    (t <= clock m -> Get h' name = "0s") /\
    (0 <= t - clock m <= int64_max - Second -> exists secs,
      Get h' name = FormatInt secs +:+ "s" /\ - Second < 2 * (secs * Second - (t - clock m)) <= Second).

Lemma reset_told clock h n d i name m t :
  header_texts clock n d !! i = Some (name, reset clock m t) -> (n <= m <= n + 3)%nat ->
  tells_reset clock h (Write clock h n d).1 n name t.
Proof.
  intros E B. unfold tells_reset. unfold reset in E. destruct (IsZero t).
  - exact (Write_lookup clock h n d i name None E).
  - exists m. split; [exact B|]. rewrite (Write_get clock h n d i name _ E). split; [|apply formatReset_near].
    intros P. unfold formatReset, Sub. cbv zeta.
    set (u := Z.max _ _). assert (Z0 : u <= 0) by (unfold u, int64_min, int64_max; lia). clearbody u.
    destruct (Z.ltb_spec u 0); [|replace u with 0 by lia]; vm_compute; reflexivity.
Qed.

Lemma read_le n t : (n <= read n t <= S n)%nat.
Proof. unfold read. destruct (IsZero t); lia. Qed.

(** C25: a client that parses the headers gets the decision back.  The request and
    token headers read as the decision's limits and remaining budgets, the input and
    output ones too when the decision has such budgets; each of the four reset times
    that is set is given in whole seconds from when the headers are written, off by at
    most half a second, a past one as zero; the wait of a refusal is given in whole
    seconds, off by at most half a second unless it is shorter than that, and then as
    one; and every other header of the response is untouched. *)
Theorem headers_roundtrip clock h n d :
  int64_budgets d -> 0 <= RetryAfter d <= int64_max - Second ->
  let h' := (Write clock h n d).1 in
  let reads name v := ParseInt (Get h' name) = (v, None) in
  (reads LimitRequests (LimitRPM d) /\ reads RemainingRequests (RemainingRPM d) /\
   reads LimitTokens (LimitTPM d) /\ reads RemainingTokens (RemainingTPM d)) /\
  (in_split d = true -> reads LimitInputTokens (LimitITPM d) /\ reads RemainingInputTokens (RemainingITPM d)) /\
  (out_split d = true -> reads LimitOutputTokens (LimitOTPM d) /\ reads RemainingOutputTokens (RemainingOTPM d)) /\
  (tells_reset clock h h' n ResetRequests (ResetRPM d) /\ tells_reset clock h h' n ResetTokens (ResetTPM d) /\
   tells_reset clock h h' n ResetInputTokens (ResetITPM d) /\ tells_reset clock h h' n ResetOutputTokens (ResetOTPM d)) /\
  (0 < RetryAfter d -> exists secs, reads RetryAfterHeader secs /\
     (- Second < 2 * (secs * Second - RetryAfter d) <= Second \/ (secs = 1 /\ 2 * RetryAfter d < Second))) /\
  (RetryAfter d = 0 -> h' !! CanonicalHeaderKey RetryAfterHeader = h !! CanonicalHeaderKey RetryAfterHeader) /\
  (forall key, key ∉ map (fun kv => CanonicalHeaderKey kv.1) (header_texts clock n d) -> h' !! key = h !! key).
Proof.
  intros R W h' reads. unfold int64_budgets in R. rewrite !Forall_cons in R.
  destruct R as (R1 & R2 & R3 & R4 & R5 & R6 & R7 & R8 & _).
  assert (G : forall i k v, header_texts clock n d !! i = Some (k, Some (FormatInt v)) -> in_int64 v -> reads k v).
  { intros i k v E B. unfold reads, h'. rewrite (Write_get clock h n d i k _ E). apply ParseInt_FormatInt, B. }
  pose proof (round_seconds_near (RetryAfter d) W) as N.
  pose proof (read_le n (ResetRPM d)) as N1. pose proof (read_le (read n (ResetRPM d)) (ResetTPM d)) as N2.
  pose proof (read_le (read (read n (ResetRPM d)) (ResetTPM d)) (ResetITPM d)) as N3.
  split; [split_and!|split; [|split; [|split; [split_and!|split; [|split]]]]].
  - apply (G 0%nat); [reflexivity|assumption].
  - apply (G 1%nat); [reflexivity|assumption].
  - apply (G 2%nat); [reflexivity|assumption].
  - apply (G 3%nat); [reflexivity|assumption].
  - intros I. split; [apply (G 6%nat)|apply (G 7%nat)]; try assumption; cbn; rewrite I; reflexivity.
  - intros O. split; [apply (G 9%nat)|apply (G 10%nat)]; try assumption; cbn; rewrite O; reflexivity.
  - apply (reset_told clock h n d 4%nat _ n); [reflexivity|lia].
  - apply (reset_told clock h n d 5%nat _ (read n (ResetRPM d))); [reflexivity|lia].
  - apply (reset_told clock h n d 8%nat _ (read (read n (ResetRPM d)) (ResetTPM d))); [reflexivity|lia].
  - apply (reset_told clock h n d 11%nat _ (if in_split d then read (read (read n (ResetRPM d)) (ResetTPM d)) (ResetITPM d)
      else read (read n (ResetRPM d)) (ResetTPM d))); [reflexivity|]. destruct (in_split d); lia.
  - intros P. exists (wait_seconds (RetryAfter d)).
    assert (Ws : wait_seconds (RetryAfter d) = Z.max 1 (round_seconds (RetryAfter d))).
    { unfold wait_seconds. cbv zeta. destruct (Z.ltb_spec (round_seconds (RetryAfter d)) 1); lia. }
    rewrite Ws. split; [rewrite <- Ws; apply (G 12%nat)|].
    + cbn. destruct (Z.ltb_spec 0 (RetryAfter d)); [reflexivity|lia].
    + rewrite Ws. unfold in_int64, int64_min, int64_max, Second in *. lia.
    + unfold Second in *. lia.
  - intros Z. unfold h'. rewrite (Write_lookup clock h n d 12%nat RetryAfterHeader None); [reflexivity|].
    cbn. rewrite Z. reflexivity.
  - intros key K. unfold h'. rewrite Write_texts. apply puts_other, K.
Qed.

(** A refusal that asks to wait 1.4 seconds tells the client to come back in one. *)
Lemma headers_roundtrip_witness :
  let d := zeroDecision <| LimitRPM := 60 |> <| RetryAfter := 1400000000 |> in
  let h' := (Write (fun _ => 0) ∅ 0 d).1 in
  ParseInt (Get h' LimitRequests) = (60, None) /\ ParseInt (Get h' RetryAfterHeader) = (1, None).
Proof.
  cbv zeta. split; [|vm_compute; reflexivity].
  destruct (headers_roundtrip (fun _ => 0) ∅ 0%nat (zeroDecision <| LimitRPM := 60 |> <| RetryAfter := 1400000000 |>))
    as [[P _] _].
  - unfold int64_budgets, in_int64, int64_min, int64_max. cbn. repeat constructor; lia.
  - cbn. unfold int64_max, Second. lia.
  - exact P.
Defined.
