(* ===== verification/GoHttp.v ===== *)
(** * GoHttp: net/http as the handlers use it *)

From stdpp Require Import base tactics numbers strings gmap list.
From Stdlib Require Import ZArith Lia Ascii.
From S2P Require Import Prelude GoString GoJson GoEncode Api Headers.

(** A response being written: the header map a handler sees, the status and headers
    sent with the first [WriteHeader] or [Write], and the body. *)
Record Response := mkResponse {
  rHeader : Header;
  rSent : option (Z * Header);
  rBody : string
}.

#[export] Instance eta_Response : Eta Response := fun r => mkResponse (rHeader r) (rSent r) (rBody r).

Definition newResponse : Response := mkResponse ∅ None "".

Definition SetHeader (r : Response) (key value : string) : Response :=
  r <| rHeader := Set_ (rHeader r) key value |>.

(** Statuses of three digits; [w.WriteHeader] panics on any other. *)
Definition validStatus (code : Z) : bool := (100 <=? code) && (code <=? 999).

(** Statuses sent ahead of the response proper. *)
Definition informational (code : Z) : bool := (100 <=? code) && (code <=? 199) && negb (code =? 101).

(** [w.WriteHeader(code)] panics: it checks the status unless one was sent before. *)
Definition panics (r : Response) (code : Z) : bool :=
  match rSent r with Some _ => false | None => negb (validStatus code) end.

(** [w.WriteHeader(code)] for a status it does not panic on: only the first call has an
    effect, and an informational status is no response yet. *)
Definition WriteHeader (r : Response) (code : Z) : Response :=
  match rSent r with
  | Some _ => r
  | None => if informational code then r else r <| rSent := Some (code, rHeader r) |>
  end.

Definition StatusOK : Z := 200.
Definition StatusBadRequest : Z := 400.
Definition StatusRequestEntityTooLarge : Z := 413.
Definition StatusTooManyRequests : Z := 429.
Definition StatusInternalServerError : Z := 500.
Definition StatusBadGateway : Z := 502.
Definition StatusServiceUnavailable : Z := 503.

(** The status a client sees once the handler has returned. *)
Definition status_of (r : Response) : Z := match rSent r with Some (code, _) => code | None => StatusOK end.

Definition bodyAllowedForStatus (status : Z) : bool :=
  negb ((100 <=? status) && (status <=? 199) || (status =? 204) || (status =? 304)).

(** [w.Write(data)]; it fails when the status has no body. *)
Definition WriteBody (r : Response) (data : string) : Response :=
  let r := WriteHeader r StatusOK in
  if bodyAllowedForStatus (status_of r) then r <| rBody := rBody r +:+ data |> else r.

(** [http.Error(w, msg, code)] *)
Definition Error (r : Response) (msg : string) (code : Z) : Response :=
  let r := r <| rHeader := delete "Content-Length" (rHeader r) |> in
  let r := SetHeader r "Content-Type" "text/plain; charset=utf-8" in
  let r := SetHeader r "X-Content-Type-Options" "nosniff" in
  let r := WriteHeader r code in
  WriteBody r (msg +:+ newline).

(** [json.NewEncoder(w).Encode(v)] *)
Definition EncodeBody (r : Response) (v : any) : Response := WriteBody r (encode v +:+ newline).

(** ** Facts *)

(** A write changes no status, and adds its data if the status has a body. *)
Lemma WriteBody_spec r data :
  status_of (WriteBody r data) = status_of r /\
  (bodyAllowedForStatus (status_of r) = true -> rBody (WriteBody r data) = rBody r +:+ data).
Proof.
  destruct r as [h [[code h']|] b]; unfold WriteBody, WriteHeader, status_of; cbn [rSent rHeader rBody].
  - destruct (bodyAllowedForStatus code); split; try reflexivity. discriminate.
  - split; reflexivity.
Qed.

Lemma WriteHeader_unsent r code :
  rSent r = None -> status_of (WriteHeader r code) = (if informational code then StatusOK else code) /\
  rBody (WriteHeader r code) = rBody r.
Proof.
  destruct r as [h s b]. cbn [rSent]. intros ->. unfold WriteHeader, status_of. cbn [rSent].
  destruct (informational code); auto.
Qed.

(** The statuses [http.Error] is called with. *)
Lemma Error_unsent r msg code :
  rSent r = None -> 200 <= code -> bodyAllowedForStatus code = true ->
  status_of (Error r msg code) = code /\ rBody (Error r msg code) = rBody r +:+ (msg +:+ newline).
Proof.
  intros E L B. unfold Error. set (r' := SetHeader _ _ _).
  assert (E' : rSent r' = None /\ rBody r' = rBody r) by (split; [exact E|reflexivity]). clearbody r'.
  destruct E' as [E' Eb]. destruct (WriteHeader_unsent r' code E') as [S1 B1].
  assert (I : informational code = false).
  { unfold informational. destruct (Z.leb_spec code 199); [lia|]. rewrite andb_false_r. reflexivity. }
  rewrite I in S1. destruct (WriteBody_spec (WriteHeader r' code) (msg +:+ newline)) as [S2 B2].
  rewrite S2, B2, B1, S1, Eb by (rewrite S1; exact B). auto.
Qed.
