(* ===== verification/Logx.v ===== *)
(** * Logx: pkg/logx/deny.go, the log of refusals *)

From stdpp Require Import base tactics numbers strings list.
From Stdlib Require Import ZArith Lia Ascii.
From S2P Require Import Prelude GoString GoJson GoJsonSpec GoEncode GoEncodeSpec Api.

Definition HashSubject (subject : string) : string := EncodeToString (firstn 8 (Sha256.Sum256 subject)).

Record DenyEvent := mkDenyEvent {
  evTime : string;
  evEvent : string;
  evSubjectHash : string;
  evModel : string;
  evLimitType : string;
  evRetryAfter : string
}.

(** The event of a refusal at [now]. *)
Definition denyEvent (now : Time) (key : Key) (d : Decision) : DenyEvent :=
  mkDenyEvent (RFC3339Nano now) "rate_limit_deny" (HashSubject (Subject key)) (Model key)
    (LimitType d) (DurationString (RetryAfter d)).

Definition event_json (ev : DenyEvent) : any :=
  AStruct [("time", AString (evTime ev)); ("event", AString (evEvent ev)); ("subject_hash", AString (evSubjectHash ev));
           ("model", AString (evModel ev)); ("limit_type", AString (evLimitType ev));
           ("retry_after", AString (evRetryAfter ev))].

(** The log after the event: one line more. *)
Definition Deny (now : Time) (log : string) (key : Key) (d : Decision) : string :=
  log +:+ (encode (event_json (denyEvent now key d)) +:+ newline).

(** ** What a log reader sees *)

(** C26: the log of refusals stays a log.  Whatever bytes subjects and models hold, an
    event adds exactly one line, without control characters, and that line is a JSON
    object whose event, model and limit type read back as they were (model and limit
    type as far as they are UTF-8); the subject enters it only through its hash. *)
Theorem deny_log_lines now log key d :
  exists line kvs,
    Deny now log key d = log +:+ (line +:+ newline) /\ printing line = true /\ parse line = Some (JObj kvs) /\
    option_map decode_string (find_key "event" kvs) = Some (Some "rate_limit_deny") /\
    (ValidString (Model key) = true -> option_map decode_string (find_key "model" kvs) = Some (Some (Model key))) /\
    (ValidString (LimitType d) = true ->
     option_map decode_string (find_key "limit_type" kvs) = Some (Some (LimitType d))) /\
    (forall s, HashSubject s = HashSubject (Subject key) ->
     Deny now log (mkKey s (Model key)) d = Deny now log key d).
Proof.
  set (ev := denyEvent now key d).
  set (ss := [("time", evTime ev); ("event", evEvent ev); ("subject_hash", evSubjectHash ev); ("model", evModel ev);
              ("limit_type", evLimitType ev); ("retry_after", evRetryAfter ev)]).
  exists (encode_object (string_members ss)), (string_members ss). split; [reflexivity|]. split; [|split].
  - apply string_members_printing.
  - apply parse_encode_object; [discriminate|]. apply string_members_values. reflexivity.
  - split; [|split; [|split]].
    + change (option_map _ _) with (Some (decode_string (encode_string "rate_limit_deny"))).
      rewrite decode_encode_string by reflexivity. reflexivity.
    + intros V. change (option_map _ _) with (Some (decode_string (encode_string (Model key)))).
      rewrite decode_encode_string by exact V. reflexivity.
    + intros V. change (option_map _ _) with (Some (decode_string (encode_string (LimitType d)))).
      rewrite decode_encode_string by exact V. reflexivity.
    + intros s E. unfold Deny, denyEvent. cbn [Subject Model]. rewrite E. reflexivity.
Qed.
