(* ===== verification/Middleware.v ===== *)
(** * Middleware: pkg/middleware, the HTTP and gRPC middlewares

    A handler runs in an environment: the limiter, the log of refusals, the clock
    readings so far and the application's own state.  Requests, and how keys, limits
    and costs are read off them, are the configuration's. *)

From stdpp Require Import base tactics numbers strings gmap list.
From Stdlib Require Import ZArith Lia Ascii.
From S2P Require Import Prelude GoString GoJson GoJsonSpec GoEncode GoEncodeSpec Api ApiLimiter Headers GoHttp Logx.

Record Env (W X : Type) := mkEnv { elim : W; elog : string; eticks : nat; eapp : X }.
Arguments mkEnv {W X}.
Arguments elim {W X}.
Arguments elog {W X}.
Arguments eticks {W X}.
Arguments eapp {W X}.

Section Middleware.
Context {W : Type} `{ApiLimiter W}.
Context {Request : Type}.
(** [time.Now()] at its n-th reading by the handlers. *)
Context (clock : nat -> Time).

Record Config := mkConfig {
  KeyFunc : Request -> Key;
  LimitsFunc : Request -> Limits;
  CostFunc : Request -> Cost
}.

(** The value a context holds under [reservationKey]. *)
Definition Ctx : Type := option string.

Definition withReservation (_ : Ctx) (id : string) : Ctx := Some id.

Definition ReservationIDFromContext (ctx : Ctx) : string := default "" ctx.

(** *** middleware/http *)

Definition Handler (X : Type) : Type := Ctx -> Request -> Env W X * Response -> Env W X * Response.

Definition denyBody (d : Decision) : any :=
  AMap [("error", AMap [("type", AString "rate_limit"); ("limit_type", AString (LimitType d))]);
        ("reservation_id", AString (ReservationID d))].

Definition Middleware {X} (cfg : Config) (next : Handler X) : Handler X := fun ctx r '(env, w) =>
  let key := KeyFunc cfg r in
  let limits := LimitsFunc cfg r in
  let cost := CostFunc cfg r in
  let '(lim, res) := lCheck key limits cost (elim env) in
  match res with
  | Err err =>
      (mkEnv lim (elog env) (eticks env) (eapp env), Error w (errMsg err) StatusInternalServerError)
  | Ok d =>
      let '(h, n) := Write clock (rHeader w) (eticks env) d in
      let w := w <| rHeader := h |> in
      if negb (Allowed d) then
        let env := mkEnv lim (Deny (clock n) (elog env) key d) (S n) (eapp env) in
        let w := SetHeader w "Content-Type" "application/json" in
        let w := WriteHeader w StatusTooManyRequests in
        (env, EncodeBody w (denyBody d))
      else next (withReservation ctx (ReservationID d)) r (mkEnv lim (elog env) n (eapp env), w)
  end.

(** *** middleware/grpc *)

Definition Internal : Z := 13.
Definition ResourceExhausted : Z := 8.
Definition InvalidArgument : Z := 3.

(** [(any, error)]: a reply, or a status with its code and message. *)
Definition UnaryHandler (Reply X : Type) : Type :=
  Ctx -> Request -> Env W X -> Env W X * result (Z * string) Reply.

Definition UnaryInterceptor {Reply X} (cfg : Config) (handler : UnaryHandler Reply X) : UnaryHandler Reply X :=
  fun ctx req env =>
  let key := KeyFunc cfg req in
  let limits := LimitsFunc cfg req in
  let cost := CostFunc cfg req in
  let '(lim, res) := lCheck key limits cost (elim env) in
  match res with
  | Err err => (mkEnv lim (elog env) (eticks env) (eapp env), Err (Internal, "valve: " +:+ errMsg err))
  | Ok d =>
      if negb (Allowed d) then
        (mkEnv lim (Deny (clock (eticks env)) (elog env) key d) (S (eticks env)) (eapp env),
         Err (ResourceExhausted, "rate limited: " +:+ LimitType d))
      else handler (withReservation ctx (ReservationID d)) req (mkEnv lim (elog env) (eticks env) (eapp env))
  end.

(** *** The adapters of the Gin and Echo examples *)

(** The rest of a framework's handler chain, as it runs when continued, and its abort:
    the application state beside the flag the adapter keeps. *)
Definition valveGin {X} (cfg : Config) (Next : Handler X) (Abort : X -> X) : Handler X := fun ctx r '(env, w) =>
  let next : Handler (bool * X) := fun ctx r '(env, w) =>
    let '(env', w) := Next ctx r (mkEnv (elim env) (elog env) (eticks env) (eapp env).2, w) in
    (mkEnv (elim env') (elog env') (eticks env') (true, eapp env'), w) in
  let '(env, w) := Middleware cfg next ctx r (mkEnv (elim env) (elog env) (eticks env) (false, eapp env), w) in
  let '(nextCalled, app) := eapp env in
  (mkEnv (elim env) (elog env) (eticks env) (if nextCalled : bool then app else Abort app), w).

(** Echo's handlers return an error, which the adapter passes on. *)
Definition valveEcho {X E} (cfg : Config)
    (next : Ctx -> Request -> Env W X * Response -> (Env W X * Response) * option E) :
    Ctx -> Request -> Env W X * Response -> (Env W X * Response) * option E := fun ctx r '(env, w) =>
  let inner : Handler (bool * option E * X) := fun ctx r '(env, w) =>
    let '((env', w), err) := next ctx r (mkEnv (elim env) (elog env) (eticks env) (eapp env).2, w) in
    (mkEnv (elim env') (elog env') (eticks env') (true, err, eapp env'), w) in
  let '(env, w) := Middleware cfg inner ctx r (mkEnv (elim env) (elog env) (eticks env) (false, None, eapp env), w) in
  let '(nextCalled, nextErr, app) := eapp env in
  let env := mkEnv (elim env) (elog env) (eticks env) app in
  if nextCalled : bool then ((env, w), nextErr) else ((env, w), None).
End Middleware.

(** ** Only admitted requests reach a handler *)

(** The decision of a check that let the request through. *)
Definition admitted (r : res Decision) : option Decision :=
  match r with Ok d => if Allowed d then Some d else None | Err _ => None end.

(** What a client reads off the body of a refusal. *)
Definition reads_refusal (body : string) (d : Decision) : Prop :=
  exists kvs err, parse body = Some (JObj kvs) /\
    find_key "error" kvs = Some err /\
    (exists ekvs, parse err = Some (JObj ekvs) /\
       (ValidString (LimitType d) = true ->
        option_map decode_string (find_key "limit_type" ekvs) = Some (Some (LimitType d)))) /\
    (ValidString (ReservationID d) = true ->
     option_map decode_string (find_key "reservation_id" kvs) = Some (Some (ReservationID d))).

Lemma denyBody_reads d : reads_refusal (encode (denyBody d) +:+ newline) d.
Proof.
  set (inner := string_members [("limit_type", LimitType d); ("type", "rate_limit")]).
  set (kvs := [("error", encode_object inner); ("reservation_id", encode_string (ReservationID d))]).
  assert (Vi : forall n, Forall (fun kv => safe kv.1 = true /\ value n kv.2) inner) by
    (intros n; apply string_members_values; reflexivity).
  exists kvs, (encode_object inner). split; [|split; [reflexivity|split]].
  - change (encode (denyBody d)) with (encode_object kvs). apply parse_encode_object_ws; [discriminate| |reflexivity].
    apply Forall_cons; split; [split; [reflexivity|]|apply Forall_singleton; split; [reflexivity|apply value_string]].
    apply value_encode_object; [discriminate|unfold maxNestingDepth; lia|apply Vi].
  - exists inner. split; [apply parse_encode_object; [discriminate|apply Vi]|]. intros V.
    change (option_map _ _) with (Some (decode_string (encode_string (LimitType d)))).
    rewrite decode_encode_string by exact V. reflexivity.
  - intros V. change (option_map _ _) with (Some (decode_string (encode_string (ReservationID d)))).
    rewrite decode_encode_string by exact V. reflexivity.
Qed.

Section Gate.
Context {W : Type} `{ApiLimiter W} {Request : Type} (clock : nat -> Time) (cfg : Config (Request := Request)).

Abbreviation check r env := (lCheck (KeyFunc cfg r) (LimitsFunc cfg r) (CostFunc cfg r) (elim env)).

Lemma Middleware_admits {X} (next : Handler X) ctx r (env : Env W X) w lim res d :
  check r env = (lim, res) -> admitted res = Some d ->
  Middleware clock cfg next ctx r (env, w) =
  next (Some (ReservationID d)) r
    (mkEnv lim (elog env) (Write clock (rHeader w) (eticks env) d).2 (eapp env),
     w <| rHeader := (Write clock (rHeader w) (eticks env) d).1 |>).
Proof.
  intros E A. unfold Middleware. rewrite E. destruct res as [d'|e]; [|discriminate]. cbn [admitted] in A.
  destruct (Allowed d') eqn:Al; [|discriminate]. injection A as ->.
  destruct (Write clock (rHeader w) (eticks env) d) as [h n]. reflexivity.
Qed.

(** A refusal does not run the handler, whichever it is. *)
Lemma Middleware_refuses {X} (next : Handler X) ctx r (env : Env W X) w lim res :
  check r env = (lim, res) -> admitted res = None -> rSent w = None -> rBody w = "" ->
  let out := Middleware clock cfg next ctx r (env, w) in
  (forall next', Middleware clock cfg next' ctx r (env, w) = out) /\
  elim out.1 = lim /\ eapp out.1 = eapp env /\
  match res with
  | Err err => status_of out.2 = StatusInternalServerError /\ rBody out.2 = errMsg err +:+ newline /\ elog out.1 = elog env
  | Ok d => status_of out.2 = StatusTooManyRequests /\ rBody out.2 = encode (denyBody d) +:+ newline /\
            exists now, elog out.1 = Deny now (elog env) (KeyFunc cfg r) d
  end.
Proof.
  intros E A S B. cbv zeta. unfold Middleware. rewrite E. destruct res as [d|e]; cbn [admitted] in A.
  - destruct (Allowed d) eqn:Al; [discriminate|]. destruct (Write clock (rHeader w) (eticks env) d) as [h n]. rewrite ?Al.
    cbn [negb fst snd elim eapp elog]. split; [reflexivity|]. split; [reflexivity|]. split; [reflexivity|].
    unfold EncodeBody. set (w' := SetHeader _ _ _). destruct (WriteHeader_unsent w' StatusTooManyRequests S) as [S1 B1].
    destruct (WriteBody_spec (WriteHeader w' StatusTooManyRequests) (encode (denyBody d) +:+ newline)) as [S2 B2].
    rewrite S2, B2, B1, S1 by (rewrite S1; reflexivity). change (rBody w') with (rBody w). rewrite B. split; [reflexivity|]. split; [reflexivity|eauto].
  - cbn [fst snd elim eapp elog]. split; [reflexivity|]. split; [reflexivity|]. split; [reflexivity|].
    destruct (Error_unsent w (errMsg e) StatusInternalServerError S) as [-> ->]; [discriminate|reflexivity|]. rewrite B.
    split; [reflexivity|]. split; reflexivity.
Qed.

Lemma Env_eta {X} (e : Env W X) : mkEnv (elim e) (elog e) (eticks e) (eapp e) = e.
Proof. destruct e. reflexivity. Qed.

Lemma Gin_admits {X} (Next : Handler X) Abort ctx r (env : Env W X) w lim res d :
  check r env = (lim, res) -> admitted res = Some d ->
  valveGin clock cfg Next Abort ctx r (env, w) = Middleware clock cfg Next ctx r (env, w).
Proof.
  intros E A. unfold valveGin.
  rewrite (Middleware_admits _ _ r (mkEnv (elim env) (elog env) (eticks env) (false, eapp env)) w lim res d E A).
  rewrite (Middleware_admits _ _ r env w lim res d E A). cbn [elim elog eticks eapp snd].
  destruct (Next _ _ _) as [e w']. cbn [elim elog eticks eapp]. rewrite Env_eta. reflexivity.
Qed.

Lemma Echo_admits {X E} (next : Ctx -> Request -> Env W X * Response -> (Env W X * Response) * option E)
    ctx r (env : Env W X) w lim res d :
  check r env = (lim, res) -> admitted res = Some d ->
  valveEcho clock cfg next ctx r (env, w) =
  next (Some (ReservationID d)) r
    (mkEnv lim (elog env) (Write clock (rHeader w) (eticks env) d).2 (eapp env),
     w <| rHeader := (Write clock (rHeader w) (eticks env) d).1 |>).
Proof.
  intros Ec A. unfold valveEcho.
  rewrite (Middleware_admits _ _ r (mkEnv (elim env) (elog env) (eticks env) (false, None, eapp env)) w lim res d Ec A).
  cbn [elim elog eticks eapp snd]. destruct (next _ _ _) as [[e w'] err].
  cbn [elim elog eticks eapp]. rewrite Env_eta. reflexivity.
Qed.

(** C19: only admitted requests reach a handler.  When the limiter admits the request,
    the HTTP middleware, its Gin and Echo adapters and the gRPC interceptor all are the
    handler itself, run once with the reservation's id in its context; otherwise none of
    them runs it: the limiter has been asked exactly once, the application's state is
    untouched but for Gin's abort, the client gets 500 with the error or 429 with a body
    that reads as the refusal, and gRPC's Internal or ResourceExhausted, and a refusal,
    and nothing else, is logged. *)
Theorem handlers_run_iff_admitted {X E Reply} (next : Handler X) Abort
    (next_e : Ctx -> Request -> Env W X * Response -> (Env W X * Response) * option E)
    (handler : UnaryHandler Reply X) ctx r (env : Env W X) h :
  let w := mkResponse h None "" in
  let '(lim, res) := check r env in
  let '(env1, w1) := Middleware clock cfg next ctx r (env, w) in
  match admitted res with
  | Some d =>
      let ctx' := Some (ReservationID d) in
      let '(h', n) := Write clock h (eticks env) d in
      let env' := mkEnv lim (elog env) n (eapp env) in
      (env1, w1) = next ctx' r (env', mkResponse h' None "") /\
      valveGin clock cfg next Abort ctx r (env, w) = (env1, w1) /\
      valveEcho clock cfg next_e ctx r (env, w) = next_e ctx' r (env', mkResponse h' None "") /\
      UnaryInterceptor clock cfg handler ctx r env = handler ctx' r (mkEnv lim (elog env) (eticks env) (eapp env))
  | None =>
      (forall next', Middleware clock cfg next' ctx r (env, w) = (env1, w1)) /\ elim env1 = lim /\
      (exists e, valveGin clock cfg next Abort ctx r (env, w) = (e, w1) /\ eapp e = Abort (eapp env)) /\
      (exists e, valveEcho clock cfg next_e ctx r (env, w) = ((e, w1), None) /\ eapp e = eapp env) /\
      (exists e, UnaryInterceptor clock cfg handler ctx r env =
         (e, match res with
             | Err err => Err (Internal, "valve: " +:+ errMsg err)
             | Ok d => Err (ResourceExhausted, "rate limited: " +:+ LimitType d)
             end) /\ elim e = lim /\ eapp e = eapp env) /\
      match res with
      | Err err => status_of w1 = StatusInternalServerError /\ rBody w1 = errMsg err +:+ newline /\ elog env1 = elog env
      | Ok d => status_of w1 = StatusTooManyRequests /\ reads_refusal (rBody w1) d /\
                exists now, elog env1 = Deny now (elog env) (KeyFunc cfg r) d
      end
  end.
Proof.
  cbv zeta. destruct (check r env) as [lim res] eqn:Ec. set (w := mkResponse h None "").
  destruct (admitted res) as [d|] eqn:A.
  - pose proof (Middleware_admits next ctx r env w lim res d Ec A) as M.
    pose proof (Gin_admits next Abort ctx r env w lim res d Ec A) as G.
    pose proof (Echo_admits next_e ctx r env w lim res d Ec A) as Eo. subst w. cbn [rHeader rSent rBody] in *.
    destruct (Write clock h (eticks env) d) as [h' n]. cbn [fst snd] in *. rewrite G, <- M.
    destruct (Middleware clock cfg next ctx r (env, mkResponse h None "")) as [env1 w1].
    split; [reflexivity|]. split; [reflexivity|]. split; [exact Eo|].
    unfold UnaryInterceptor. rewrite Ec. destruct res as [d'|]; [|discriminate]. cbn [admitted] in A.
    destruct (Allowed d') eqn:Al; [|discriminate]. injection A as ->. reflexivity.
  - pose proof (Middleware_refuses next ctx r env w lim res Ec A eq_refl eq_refl) as M. cbv zeta in M.
    destruct M as (M1 & M2 & M3 & M4).
    assert (R : forall Y (y : Y) nxt, exists e,
      Middleware clock cfg nxt ctx r (mkEnv (elim env) (elog env) (eticks env) y, w) =
        (e, (Middleware clock cfg next ctx r (env, w)).2) /\ eapp e = y).
    { intros Y y nxt. unfold Middleware in *. cbn [elim elog eticks eapp] in *. rewrite Ec in *.
      destruct res as [d|e0]; cbn [admitted] in A; [|eexists; split; reflexivity].
      destruct (Allowed d) eqn:Al; [discriminate|]. destruct (Write clock (rHeader w) (eticks env) d) as [h' n].
      rewrite ?Al. eexists. split; reflexivity. }
    destruct (Middleware clock cfg next ctx r (env, w)) as [env1 w1]. cbn [fst snd] in *.
    split; [exact M1|]. split; [exact M2|]. split; [|split; [|split]].
    + unfold valveGin. match goal with |- context [Middleware clock cfg ?n ctx r _] =>
        destruct (R _ (false, eapp env) n) as (e & -> & Ea) end.
      rewrite Ea. eexists. split; reflexivity.
    + unfold valveEcho. match goal with |- context [Middleware clock cfg ?n ctx r _] =>
        destruct (R _ (false, None, eapp env) n) as (e & -> & Ea) end.
      rewrite Ea. eexists. split; reflexivity.
    + unfold UnaryInterceptor. rewrite Ec. destruct res as [d|e0]; cbn [admitted] in A.
      * destruct (Allowed d); [discriminate|]. cbn [negb]. eexists. repeat split; reflexivity.
      * eexists. repeat split; reflexivity.
    + destruct res as [d|e0]; [|exact M4]. destruct M4 as (S & B & L). split; [exact S|]. split; [|exact L].
      rewrite B. apply denyBody_reads.
Qed.
End Gate.
