(* ===== verification/Server.v ===== *)
(** * Server: cmd/valved, the HTTP and gRPC front ends and the configuration

    Both front ends turn a message into a call of the limiter and its answer into a
    message.  They run in the environment of [Middleware]: limiter, log, clock. *)

From stdpp Require Import base tactics numbers strings gmap list.
From Stdlib Require Import ZArith Lia Ascii.
From S2P Require Import Prelude GoString GoJson GoEncode Api Store Lease Limiter ApiLimiter Observe Headers GoHttp Logx Middleware.

(** ** convert.go *)

(** Messages of the generated package: a message field is a pointer. *)
Record pbDecision := mkPbDecision {
  PbAllowed : bool; PbLimitType : string;
  PbRemainingRpm : Z; PbRemainingTpm : Z; PbRemainingItpm : Z; PbRemainingOtpm : Z;
  PbLimitRpm : Z; PbLimitTpm : Z; PbLimitItpm : Z; PbLimitOtpm : Z;
  PbRetryAfterMs : Z; PbReservationId : string;
  PbOvershootTpm : Z; PbOvershootItpm : Z; PbOvershootOtpm : Z
}.

Record pbKey := mkPbKey { PbSubject : string; PbModel : string }.
Record pbLimits := mkPbLimits {
  PbRequestsPerMinute : Z; PbTokensPerMinute : Z; PbInputTokensPerMinute : Z; PbOutputTokensPerMinute : Z
}.
Record pbCost := mkPbCost { PbRequests : Z; PbTokens : Z; PbInputTokens : Z; PbOutputTokens : Z }.

Record CheckRequest := mkCheckRequest {
  reqKey : option pbKey; reqLimits : option pbLimits; reqCost : option pbCost
}.
Record SettleRequest := mkSettleRequest {
  reqReservationId : string;
  reqActualTokens : option Z; reqActualInputTokens : option Z; reqActualOutputTokens : option Z
}.

(** [d.Milliseconds()] *)
Definition Milliseconds (d : Duration) : Z := Z.quot d Millisecond.

Definition decisionToPB (d : Decision) : pbDecision :=
  mkPbDecision (Allowed d) (LimitType d)
    (RemainingRPM d) (RemainingTPM d) (RemainingITPM d) (RemainingOTPM d)
    (LimitRPM d) (LimitTPM d) (LimitITPM d) (LimitOTPM d)
    (Milliseconds (RetryAfter d)) (ReservationID d)
    (OvershootTPM d) (OvershootITPM d) (OvershootOTPM d).

(** The entries for one of the split budgets, when the decision has something to say of it. *)
Definition ioEntries (name : string) (limit remaining over : Z) (reset : Time) : list (string * any) :=
  if (0 <? limit) || (0 <? remaining) || (0 <? over) || negb (IsZero reset) then
    [("remaining_" +:+ name, AInt remaining); ("limit_" +:+ name, AInt limit);
     ("overshoot_" +:+ name, AInt over); ("reset_" +:+ name, AString (RFC3339Nano reset))]
  else [].

Definition decisionFromHTTP (d : Decision) : any :=
  AMap ([("allowed", ABool (Allowed d)); ("limit_type", AString (LimitType d));
         ("remaining_rpm", AInt (RemainingRPM d)); ("remaining_tpm", AInt (RemainingTPM d));
         ("limit_rpm", AInt (LimitRPM d)); ("limit_tpm", AInt (LimitTPM d));
         ("retry_after_ms", AInt (Milliseconds (RetryAfter d))); ("reservation_id", AString (ReservationID d));
         ("overshoot_tpm", AInt (OvershootTPM d));
         ("reset_rpm", AString (RFC3339Nano (ResetRPM d))); ("reset_tpm", AString (RFC3339Nano (ResetTPM d)))]
        ++ ioEntries "itpm" (LimitITPM d) (RemainingITPM d) (OvershootITPM d) (ResetITPM d)
        ++ ioEntries "otpm" (LimitOTPM d) (RemainingOTPM d) (OvershootOTPM d) (ResetOTPM d)).

Definition keyFromPB (k : option pbKey) : Key :=
  match k with Some k => mkKey (PbSubject k) (PbModel k) | None => mkKey "" "" end.

Definition limitsFromPB (l : option pbLimits) : Limits :=
  match l with
  | Some l => mkLimits (PbRequestsPerMinute l) (PbTokensPerMinute l) (PbInputTokensPerMinute l) (PbOutputTokensPerMinute l)
  | None => mkLimits 0 0 0 0
  end.

Definition costFromPB (c : option pbCost) : Cost :=
  match c with
  | Some c => mkCost (PbRequests c) (PbTokens c) (PbInputTokens c) (PbOutputTokens c)
  | None => mkCost 0 0 0 0
  end.

(** ** http.go: the bodies *)

Record checkBody := mkCheckBody { bodyKey : Key; bodyLimits : Limits; bodyCost : Cost }.

Definition key_fields : list (field Key) :=
  [("subject", string_field (fun s k => mkKey s (Model k))); ("model", string_field (fun m k => mkKey (Subject k) m))].

Definition limits_fields : list (field Limits) :=
  [("requests_per_minute", int_field (fun n l =>
      mkLimits n (TokensPerMinute l) (InputTokensPerMinute l) (OutputTokensPerMinute l)));
   ("tokens_per_minute", int_field (fun n l =>
      mkLimits (RequestsPerMinute l) n (InputTokensPerMinute l) (OutputTokensPerMinute l)));
   ("input_tokens_per_minute", int_field (fun n l =>
      mkLimits (RequestsPerMinute l) (TokensPerMinute l) n (OutputTokensPerMinute l)));
   ("output_tokens_per_minute", int_field (fun n l =>
      mkLimits (RequestsPerMinute l) (TokensPerMinute l) (InputTokensPerMinute l) n))].

Definition cost_fields : list (field Cost) :=
  [("requests", int_field (fun n c => mkCost n (Tokens c) (InputTokens c) (OutputTokens c)));
   ("tokens", int_field (fun n c => mkCost (Requests c) n (InputTokens c) (OutputTokens c)));
   ("input_tokens", int_field (fun n c => mkCost (Requests c) (Tokens c) n (OutputTokens c)));
   ("output_tokens", int_field (fun n c => mkCost (Requests c) (Tokens c) (InputTokens c) n))].

Definition checkBody_fields : list (field checkBody) :=
  [("key", struct_field key_fields bodyKey (fun k b => mkCheckBody k (bodyLimits b) (bodyCost b)));
   ("limits", struct_field limits_fields bodyLimits (fun l b => mkCheckBody (bodyKey b) l (bodyCost b)));
   ("cost", struct_field cost_fields bodyCost (fun c b => mkCheckBody (bodyKey b) (bodyLimits b) c))].

Definition toAPI (b : checkBody) : Key * Limits * Cost := (bodyKey b, bodyLimits b, bodyCost b).

Record settleBody := mkSettleBody {
  ReservationID_ : string;
  ActualTokens : option Z; ActualInputTokens : option Z; ActualOutputTokens : option Z
}.

Definition settleBody_fields : list (field settleBody) :=
  [("reservation_id", string_field (fun s b =>
      mkSettleBody s (ActualTokens b) (ActualInputTokens b) (ActualOutputTokens b)));
   ("actual_tokens", int_ptr_field (fun n b =>
      mkSettleBody (ReservationID_ b) n (ActualInputTokens b) (ActualOutputTokens b)));
   ("actual_input_tokens", int_ptr_field (fun n b =>
      mkSettleBody (ReservationID_ b) (ActualTokens b) n (ActualOutputTokens b)));
   ("actual_output_tokens", int_ptr_field (fun n b =>
      mkSettleBody (ReservationID_ b) (ActualTokens b) (ActualInputTokens b) n))].

(** The one field of [refundBody]. *)
Definition refundBody_fields : list (field string) := [("reservation_id", string_field (fun s _ => s))].

Section Server.
Context {W X : Type} `{ApiLimiter W}.
(** [time.Now()] at its n-th reading by the handlers. *)
Context (clock : nat -> Time).
(** The text of encoding/json's error for a body that does not decode. *)
Context (jsonError : string -> string).
(** The ping of the backing store, if there is one, and its error. *)
Context (ready : option (option string)).

Implicit Types env : Env W X.

(** The environment after a call of the limiter. *)
Definition called (env : Env W X) (lim : W) : Env W X := mkEnv lim (elog env) (eticks env) (eapp env).

Definition logDeny (env : Env W X) (key : Key) (d : Decision) : Env W X :=
  if Allowed d then env
  else mkEnv (elim env) (Deny (clock (eticks env)) (elog env) key d) (S (eticks env)) (eapp env).

(** ** http.go: the handlers *)

Definition writeJSON (w : Response) (code : Z) (v : any) : Response :=
  let w := SetHeader w "Content-Type" "application/json" in
  EncodeBody (WriteHeader w code) v.

Definition check (body : string) (env : Env W X) (w : Response) : Env W X * Response :=
  match Decode checkBody_fields (mkCheckBody (mkKey "" "") (mkLimits 0 0 0 0) (mkCost 0 0 0 0)) body with
  | None => (env, Error w (jsonError body) StatusBadRequest)
  | Some b =>
      let '(key, limits, cost) := toAPI b in
      let '(lim, r) := lCheck key limits cost (elim env) in
      let env := called env lim in
      match r with
      | Err err => (env, Error w (errMsg err) StatusInternalServerError)
      | Ok d => (logDeny env key d, writeJSON w StatusOK (decisionFromHTTP d))
      end
  end.

Definition is_some {A} (o : option A) : bool := match o with Some _ => true | None => false end.

Definition settle (body : string) (env : Env W X) (w : Response) : Env W X * Response :=
  match Decode settleBody_fields (mkSettleBody "" None None None) body with
  | None => (env, Error w (jsonError body) StatusBadRequest)
  | Some b =>
      let '(lim, r) :=
        if is_some (ActualInputTokens b) || is_some (ActualOutputTokens b) then
          lSettleIO (ReservationID_ b) (default 0 (ActualInputTokens b)) (default 0 (ActualOutputTokens b)) (elim env)
        else lSettle (ReservationID_ b) (default 0 (ActualTokens b)) (elim env) in
      let env := called env lim in
      match r with
      | Err err => (env, Error w (errMsg err) StatusBadRequest)
      | Ok d => (env, writeJSON w StatusOK (decisionFromHTTP d))
      end
  end.

Definition refund (body : string) (env : Env W X) (w : Response) : Env W X * Response :=
  match Decode refundBody_fields "" body with
  | None => (env, Error w (jsonError body) StatusBadRequest)
  | Some id =>
      let '(lim, r) := lRefund id (elim env) in
      let env := called env lim in
      match r with
      | Err err => (env, Error w (errMsg err) StatusBadRequest)
      | Ok _ => (env, writeJSON w StatusOK (AMap []))
      end
  end.

Definition healthz (w : Response) : Response := WriteBody (WriteHeader w StatusOK) "ok".

Definition readyz (w : Response) : Response :=
  match ready with
  | Some (Some err) => Error w err StatusServiceUnavailable
  | _ => WriteBody (WriteHeader w StatusOK) "ready"
  end.

(** The handler a request is routed to; a GET pattern serves HEAD too.  The metrics page
    and the multiplexer's own answers are the library's. *)
Definition routes (method path : string) : option (string -> Env W X -> Response -> Env W X * Response) :=
  if decide (method = "POST") then
    if decide (path = "/v1/check") then Some check
    else if decide (path = "/v1/settle") then Some settle
    else if decide (path = "/v1/refund") then Some refund
    else None
  else if decide (method = "GET" \/ method = "HEAD") then
    if decide (path = "/healthz") then Some (fun _ env w => (env, healthz w))
    else if decide (path = "/readyz") then Some (fun _ env w => (env, readyz w))
    else None
  else None.

(** ** grpc.go *)

Definition grpcCheck (req : CheckRequest) (env : Env W X) : Env W X * result (Z * string) pbDecision :=
  let key := keyFromPB (reqKey req) in
  let '(lim, r) := lCheck key (limitsFromPB (reqLimits req)) (costFromPB (reqCost req)) (elim env) in
  let env := called env lim in
  match r with
  | Err err => (env, Err (Internal, errMsg err))
  | Ok d => (logDeny env key d, Ok (decisionToPB d))
  end.

Definition grpcSettle (req : SettleRequest) (env : Env W X) : Env W X * result (Z * string) pbDecision :=
  let '(lim, r) :=
    if is_some (reqActualInputTokens req) || is_some (reqActualOutputTokens req) then
      lSettleIO (reqReservationId req) (default 0 (reqActualInputTokens req))
        (default 0 (reqActualOutputTokens req)) (elim env)
    else lSettle (reqReservationId req) (default 0 (reqActualTokens req)) (elim env) in
  let env := called env lim in
  match r with
  | Err err => (env, Err (InvalidArgument, errMsg err))
  | Ok d => (env, Ok (decisionToPB d))
  end.

Definition grpcRefund (id : string) (env : Env W X) : Env W X * result (Z * string) unit :=
  let '(lim, r) := lRefund id (elim env) in
  let env := called env lim in
  match r with
  | Err err => (env, Err (InvalidArgument, errMsg err))
  | Ok _ => (env, Ok tt)
  end.
End Server.

(** ** main.go: the configuration *)

(** [strconv.ParseBool] *)
Definition ParseBool (s : string) : option bool :=
  if decide (s ∈ ["1"; "t"; "T"; "TRUE"; "true"; "True"]) then Some true
  else if decide (s ∈ ["0"; "f"; "F"; "FALSE"; "false"; "False"]) then Some false
  else None.

Section Main.
(** [os.Getenv] *)
Context (getenv : string -> string).

Definition env (k def : string) : string := if decide (getenv k = "") then def else getenv k.

Definition envBool (k : string) (def : bool) : bool :=
  if decide (getenv k = "") then def else default def (ParseBool (getenv k)).

Definition envInt64 (k : string) (def : Z) : Z :=
  if decide (getenv k = "") then def
  else match ParseInt (getenv k) with (n, None) => n | (_, Some _) => def end.

(** The part of [main] before it opens sockets: the addresses, the fail mode, the
    configuration of the fast path if it is on, and the Redis address if there is one. *)
Record settings := mkSettings {
  listen : string;
  grpcListen : string;
  failMode : FailMode;
  fastPath : option Lease.Config;
  redisAddr : option string
}.

Definition main_settings : settings :=
  mkSettings (env "LISTEN" ":8080") (env "GRPC_LISTEN" ":9090")
    (if decide (env "FAIL_MODE" "closed" = "open") then FailOpen else FailClosed)
    (if envBool "FAST_PATH" true then
       Some (Lease.mkConfig (envInt64 "RPM_CHUNK" 5) (envInt64 "TPM_CHUNK" 500) 0 0
               (wrap64 (envInt64 "LEASE_TTL_MS" 2000 * Millisecond)))
     else None)
    (if decide (getenv "REDIS_ADDR" = "") then None else Some (getenv "REDIS_ADDR")).
End Main.

(** [inner]: the limiter [main] builds over a store, [rand] its source of ids. *)
Definition valved_inner {S} (s : settings) (rand : nat -> res (list Z)) (store : S) : limiter (S := S) :=
  Limiter.New rand store
    (WithFailMode (failMode s) :: match fastPath s with Some c => [WithFastPath c] | None => [] end).

(** [lim]: the instrumentation around it. *)
Definition valved_limiter {S} `{Store S} (s : settings) (rand : nat -> res (list Z)) (store : S)
    (clock observed : nat -> Time) : ApiLimiter (Observed (W := World (S := S))) :=
  Observed_ApiLimiter (H := built (valved_inner s rand store) clock) observed.

(** Its state at start-up. *)
Definition valved_start {S} (s : settings) (rand : nat -> res (list Z)) (store : S) : Observed (W := World (S := S)) :=
  Observe.New (initial (valved_inner s rand store)).

(** The shutdown: the leases are returned. *)
Definition valved_stop {S} `{Store S} (s : settings) (rand : nat -> res (list Z)) (store : S) (clock : nat -> Time)
    (visit : Pool -> list (string * localBucket)) (o : Observed (W := World (S := S))) :=
  exec clock (lnewID (valved_inner s rand store)) (Limiter.Close (is_some (fastPath s)) visit) (oinner o).
