(* ===== verification/ServerSpec.v ===== *)
(** * ServerSpec: the HTTP and gRPC front ends agree *)

From stdpp Require Import base tactics numbers strings gmap list.
From Stdlib Require Import ZArith Lia Ascii.
From S2P Require Import Prelude GoString GoJson GoJsonSpec GoEncode GoEncodeSpec Api ApiLimiter Headers GoHttp Logx.
From S2P Require Import Middleware Server.

(** ** Fields *)

Lemma string_field_encode {A} (put : string -> A -> A) s a :
  ValidString s = true -> string_field put (encode_string s) a = Some (put s a).
Proof. intros V. unfold string_field. rewrite parse_encode_string by exact V. reflexivity. Qed.

Lemma int_field_encode {A} (put : Z -> A -> A) n a :
  in_int64 n -> int_field put (FormatInt n) a = Some (put n a).
Proof. intros R. unfold int_field. rewrite parse_FormatInt, ParseInt_FormatInt by exact R. reflexivity. Qed.

Lemma int_ptr_field_encode {A} (put : option Z -> A -> A) n a :
  in_int64 n -> int_ptr_field put (FormatInt n) a = Some (put (Some n) a).
Proof. intros R. unfold int_ptr_field. rewrite parse_FormatInt, ParseInt_FormatInt by exact R. reflexivity. Qed.

(** A null leaves a pointer nil. *)
Definition opt_text (n : option Z) : string := match n with Some n => FormatInt n | None => "null" end.

Lemma int_ptr_field_opt {A} (put : option Z -> A -> A) n a :
  match n with Some n => in_int64 n | None => True end -> int_ptr_field put (opt_text n) a = Some (put n a).
Proof. destruct n as [n|]; [apply int_ptr_field_encode|intros _; reflexivity]. Qed.

Lemma value_opt d n : value d (opt_text n).
Proof.
  destruct n as [n|]; [apply value_FormatInt|]. intros k rest L Dl. split; [reflexivity|].
  destruct k as [|k]; [cbn in L; lia|]. eexists. reflexivity.
Qed.

Lemma decode_struct_encode {A} (fields : list (field A)) kvs a :
  kvs <> [] -> Forall (fun kv => safe kv.1 = true /\ value 1 kv.2) kvs ->
  decode_struct fields (encode_object kvs) a = decode_members fields kvs a.
Proof. intros N F. unfold decode_struct. rewrite parse_encode_object by assumption. reflexivity. Qed.

(** A whole body is decoded, whatever follows it in the stream. *)
Lemma Decode_encode {A} (fields : list (field A)) zero kvs rest :
  kvs <> [] -> Forall (fun kv => safe kv.1 = true /\ value 1 kv.2) kvs ->
  Decode fields zero (encode_object kvs +:+ rest) = decode_members fields kvs zero.
Proof.
  intros N F. unfold Decode, first_value. pose proof (decode_struct_encode fields kvs zero N F) as D.
  rewrite encode_object_obj in * by (eapply Forall_impl; [exact F|]; intros ? []; assumption).
  change (skip_ws (obj kvs +:+ rest)) with (obj kvs +:+ rest). rewrite scan_obj.
  - rewrite before_app. exact D.
  - exact N.
  - unfold maxNestingDepth. lia.
  - eapply Forall_impl; [exact F|]. intros kv []. split; [apply safe_plain|]; assumption.
  - rewrite length_app. lia.
Qed.

(** ** Requests as JSON *)

Definition int_texts (ints : list (string * Z)) : list (string * string) :=
  map (fun kn => (kn.1, FormatInt kn.2)) ints.

Lemma int_texts_values d ints :
  forallb (fun kn => safe kn.1) ints = true -> Forall (fun kv => safe kv.1 = true /\ value d kv.2) (int_texts ints).
Proof.
  rewrite forallb_forall. intros S. apply Forall_map, List.Forall_forall. intros kn I. split; [exact (S kn I)|].
  apply value_FormatInt.
Qed.

Definition key_members (k : Key) := string_members [("subject", Subject k); ("model", Model k)].
Definition limits_members (l : Limits) := int_texts
  [("requests_per_minute", RequestsPerMinute l); ("tokens_per_minute", TokensPerMinute l);
   ("input_tokens_per_minute", InputTokensPerMinute l); ("output_tokens_per_minute", OutputTokensPerMinute l)].
Definition cost_members (c : Cost) := int_texts
  [("requests", Requests c); ("tokens", Tokens c); ("input_tokens", InputTokens c); ("output_tokens", OutputTokens c)].

(** The body a client sends to /v1/check. *)
Definition check_json (k : Key) (l : Limits) (c : Cost) : string :=
  encode_object [("key", encode_object (key_members k)); ("limits", encode_object (limits_members l));
                 ("cost", encode_object (cost_members c))].

Definition typed_key (k : Key) : Prop := ValidString (Subject k) = true /\ ValidString (Model k) = true.
Definition typed_limits (l : Limits) : Prop :=
  in_int64 (RequestsPerMinute l) /\ in_int64 (TokensPerMinute l) /\
  in_int64 (InputTokensPerMinute l) /\ in_int64 (OutputTokensPerMinute l).
Definition typed_cost (c : Cost) : Prop :=
  in_int64 (Requests c) /\ in_int64 (Tokens c) /\ in_int64 (InputTokens c) /\ in_int64 (OutputTokens c).

Definition zeroBody : checkBody := mkCheckBody (mkKey "" "") (mkLimits 0 0 0 0) (mkCost 0 0 0 0).

(** Setters run one after the other. *)
Fixpoint set_all {A} (sets : list (A -> option A)) (a : A) : option A :=
  match sets with [] => Some a | set :: sets => match set a with Some a => set_all sets a | None => None end end.

Lemma decode_next {A} (fields : list (field A)) k v kvs a f set :
  fields !! f = Some (k, set) -> field_named fields k = Some set ->
  decode_members fields ((k, v) :: kvs) a =
  match set v a with Some a => decode_members fields kvs a | None => None end.
Proof. intros _ E. cbn [decode_members]. rewrite E. reflexivity. Qed.

Lemma key_fields_read k : typed_key k -> decode_struct key_fields (encode_object (key_members k)) (mkKey "" "") = Some k.
Proof.
  intros [V1 V2]. rewrite decode_struct_encode; [|discriminate|apply string_members_values; reflexivity].
  destruct k as [s m]. cbn [Subject Model] in *.
  change (set_all [string_field (fun s k => mkKey s (Model k)) (encode_string s);
                   string_field (fun m k => mkKey (Subject k) m) (encode_string m)] (mkKey "" "") = Some (mkKey s m)).
  cbn [set_all]. rewrite !string_field_encode by assumption. reflexivity.
Qed.

Lemma limits_fields_read l :
  typed_limits l -> decode_struct limits_fields (encode_object (limits_members l)) (mkLimits 0 0 0 0) = Some l.
Proof.
  intros (R1 & R2 & R3 & R4). rewrite decode_struct_encode; [|discriminate|apply int_texts_values; reflexivity].
  destruct l as [r t i o]. cbn [RequestsPerMinute TokensPerMinute InputTokensPerMinute OutputTokensPerMinute] in *.
  change (set_all (zip_with (fun f n => f.2 (FormatInt n)) limits_fields [r; t; i; o]) (mkLimits 0 0 0 0)
          = Some (mkLimits r t i o)).
  cbn [zip_with limits_fields set_all snd]. rewrite !int_field_encode by assumption. reflexivity.
Qed.

Lemma cost_fields_read c :
  typed_cost c -> decode_struct cost_fields (encode_object (cost_members c)) (mkCost 0 0 0 0) = Some c.
Proof.
  intros (R1 & R2 & R3 & R4). rewrite decode_struct_encode; [|discriminate|apply int_texts_values; reflexivity].
  destruct c as [r t i o]. cbn [Requests Tokens InputTokens OutputTokens] in *.
  change (set_all (zip_with (fun f n => f.2 (FormatInt n)) cost_fields [r; t; i; o]) (mkCost 0 0 0 0)
          = Some (mkCost r t i o)).
  cbn [zip_with cost_fields set_all snd]. rewrite !int_field_encode by assumption. reflexivity.
Qed.

(** The body of a check is read back. *)
Lemma check_json_read k l c rest :
  typed_key k -> typed_limits l -> typed_cost c ->
  Decode checkBody_fields zeroBody (check_json k l c +:+ rest) = Some (mkCheckBody k l c).
Proof.
  intros Tk Tl Tc. unfold check_json. rewrite Decode_encode; [|discriminate|].
  - erewrite (decode_next checkBody_fields "key" _ _ _ 0%nat) by reflexivity.
    unfold struct_field at 1. cbn [bodyKey zeroBody]. rewrite key_fields_read by exact Tk. cbv beta iota.
    erewrite (decode_next checkBody_fields "limits" _ _ _ 1%nat) by reflexivity.
    unfold struct_field at 1. cbn [bodyLimits bodyKey bodyCost zeroBody]. rewrite limits_fields_read by exact Tl. cbv beta iota.
    erewrite (decode_next checkBody_fields "cost" _ _ _ 2%nat) by reflexivity.
    unfold struct_field at 1. cbn [bodyLimits bodyKey bodyCost zeroBody]. rewrite cost_fields_read by exact Tc. reflexivity.
  - assert (V : forall kvs, kvs <> [] -> Forall (fun kv => safe kv.1 = true /\ value 2 kv.2) kvs -> value 1 (encode_object kvs)).
    { intros kvs N F. apply value_encode_object; [exact N|unfold maxNestingDepth; lia|exact F]. }
    repeat apply Forall_cons_2; [..|apply Forall_nil_2]; (split; [reflexivity|]); apply V; try discriminate;
      [apply string_members_values|apply int_texts_values..]; reflexivity.
Qed.

(** The body of a settlement, and of a refund. *)
Definition settle_json (b : settleBody) : string :=
  encode_object [("reservation_id", encode_string (ReservationID_ b)); ("actual_tokens", opt_text (ActualTokens b));
                 ("actual_input_tokens", opt_text (ActualInputTokens b));
                 ("actual_output_tokens", opt_text (ActualOutputTokens b))].

Definition refund_json (id : string) : string := encode_object [("reservation_id", encode_string id)].

Definition typed_opt (n : option Z) : Prop := match n with Some n => in_int64 n | None => True end.

Lemma settle_json_read b rest :
  ValidString (ReservationID_ b) = true -> typed_opt (ActualTokens b) -> typed_opt (ActualInputTokens b) ->
  typed_opt (ActualOutputTokens b) ->
  Decode settleBody_fields (mkSettleBody "" None None None) (settle_json b +:+ rest) = Some b.
Proof.
  intros V T1 T2 T3. unfold settle_json. rewrite Decode_encode; [|discriminate|].
  - destruct b as [id t i o]. cbn [ReservationID_ ActualTokens ActualInputTokens ActualOutputTokens] in *.
    change (set_all (zip_with (fun f v => f.2 v) settleBody_fields
      [encode_string id; opt_text t; opt_text i; opt_text o]) (mkSettleBody "" None None None)
      = Some (mkSettleBody id t i o)).
    cbn [zip_with settleBody_fields set_all snd]. rewrite string_field_encode by exact V.
    rewrite !int_ptr_field_opt by assumption. reflexivity.
  - repeat apply Forall_cons_2; [..|apply Forall_nil_2]; (split; [reflexivity|]); [apply value_string|apply value_opt..].
Qed.

Lemma refund_json_read id rest :
  ValidString id = true -> Decode refundBody_fields "" (refund_json id +:+ rest) = Some id.
Proof.
  intros V. unfold refund_json. rewrite Decode_encode; [|discriminate|].
  - change (set_all (zip_with (fun f v => f.2 v) refundBody_fields [encode_string id]) "" = Some id).
    cbn [zip_with refundBody_fields set_all snd]. rewrite string_field_encode by exact V. reflexivity.
  - apply Forall_singleton. split; [reflexivity|apply value_string].
Qed.

(** ** Reading decisions *)

(** The member of this name reads as [n]; one that is absent stands for a value that is
    not positive. *)
Definition reads_int (kvs : list (string * string)) (name : string) (n : Z) : Prop :=
  match find_key name kvs with Some t => decode_int64 t = Some n | None => n <= 0 end.

(** What a client reads off the JSON form of a decision is the message gRPC sends. *)
Definition reads_decision (body : string) (m : pbDecision) : Prop :=
  exists kvs, parse body = Some (JObj kvs) /\
    option_map decode_bool (find_key "allowed" kvs) = Some (Some (PbAllowed m)) /\
    option_map decode_string (find_key "limit_type" kvs) = Some (Some (PbLimitType m)) /\
    option_map decode_string (find_key "reservation_id" kvs) = Some (Some (PbReservationId m)) /\
    Forall (fun '(name, n) => reads_int kvs name n)
      [("remaining_rpm", PbRemainingRpm m); ("remaining_tpm", PbRemainingTpm m);
       ("limit_rpm", PbLimitRpm m); ("limit_tpm", PbLimitTpm m);
       ("retry_after_ms", PbRetryAfterMs m); ("overshoot_tpm", PbOvershootTpm m);
       ("remaining_itpm", PbRemainingItpm m); ("limit_itpm", PbLimitItpm m); ("overshoot_itpm", PbOvershootItpm m);
       ("remaining_otpm", PbRemainingOtpm m); ("limit_otpm", PbLimitOtpm m); ("overshoot_otpm", PbOvershootOtpm m)].

(** The message is one that Go's types and UTF-8 allow. *)
Definition typed_decision (m : pbDecision) : Prop :=
  ValidString (PbLimitType m) = true /\ ValidString (PbReservationId m) = true /\
  Forall in_int64 [PbRemainingRpm m; PbRemainingTpm m; PbLimitRpm m; PbLimitTpm m; PbRetryAfterMs m; PbOvershootTpm m;
                   PbRemainingItpm m; PbLimitItpm m; PbOvershootItpm m;
                   PbRemainingOtpm m; PbLimitOtpm m; PbOvershootOtpm m].

(** The members of a decision as texts. *)
Definition decision_members (d : Decision) : list (string * string) :=
  [("allowed", bool_text (Allowed d)); ("limit_type", encode_string (LimitType d));
   ("remaining_rpm", FormatInt (RemainingRPM d)); ("remaining_tpm", FormatInt (RemainingTPM d));
   ("limit_rpm", FormatInt (LimitRPM d)); ("limit_tpm", FormatInt (LimitTPM d));
   ("retry_after_ms", FormatInt (Milliseconds (RetryAfter d))); ("reservation_id", encode_string (ReservationID d));
   ("overshoot_tpm", FormatInt (OvershootTPM d));
   ("reset_rpm", encode_string (RFC3339Nano (ResetRPM d))); ("reset_tpm", encode_string (RFC3339Nano (ResetTPM d)))].

Definition entries_texts (kvs : list (string * any)) : list (string * string) := map (fun kv => (kv.1, encode kv.2)) kvs.

Definition io_members (d : Decision) : list (string * string) :=
  entries_texts (ioEntries "itpm" (LimitITPM d) (RemainingITPM d) (OvershootITPM d) (ResetITPM d))
  ++ entries_texts (ioEntries "otpm" (LimitOTPM d) (RemainingOTPM d) (OvershootOTPM d) (ResetOTPM d)).

Lemma encode_decision d :
  encode (decisionFromHTTP d) = encode_object (sort_keys (decision_members d ++ io_members d)).
Proof.
  unfold decisionFromHTTP, decision_members, io_members, ioEntries.
  destruct (_ || _ || _ || _); destruct (_ || _ || _ || _); reflexivity.
Qed.

Lemma decision_members_values n d :
  Forall (fun kv => safe kv.1 = true /\ value n kv.2) (decision_members d ++ io_members d).
Proof.
  assert (I : forall name limit remaining over reset, safe name = true ->
    Forall (fun kv => safe kv.1 = true /\ value n kv.2) (entries_texts (ioEntries name limit remaining over reset))).
  { intros name limit remaining over reset S. unfold ioEntries. destruct (_ || _ || _ || _); [|constructor].
    repeat apply Forall_cons_2; [..|apply Forall_nil_2]; (split; [exact S|]);
      [apply value_FormatInt..|apply value_string]. }
  apply Forall_app. split; [|apply Forall_app; split; apply I; reflexivity].
  unfold decision_members.
  repeat apply Forall_cons_2; [..|apply Forall_nil_2]; (split; [reflexivity|]);
    first [apply value_bool | apply value_FormatInt | apply value_string].
Qed.

Lemma decision_members_keys d : NoDup (map fst (decision_members d ++ io_members d)).
Proof.
  unfold io_members, ioEntries. destruct (_ || _ || _ || _); destruct (_ || _ || _ || _);
    apply (bool_decide_unpack _); vm_compute; exact I.
Qed.

Lemma reads_present kvs name n :
  NoDup (map fst kvs) -> In (name, FormatInt n) kvs -> in_int64 n -> reads_int kvs name n.
Proof. intros N I R. unfold reads_int. rewrite (find_key_in _ _ _ N I). apply decode_int64_FormatInt, R. Qed.

Lemma reads_absent kvs name n : name ∉ map fst kvs -> n <= 0 -> reads_int kvs name n.
Proof. intros N L. unfold reads_int. rewrite find_key_out by exact N. exact L. Qed.

(** Finds a member by its name. *)
Ltac find_member :=
  match goal with
  | |- In (?n, _) ((?m, _) :: _) => tryif unify n m then (left; reflexivity) else (right; find_member)
  end.
Ltac member := unfold decision_members, entries_texts; cbn [app map fst snd encode]; find_member.

Ltac no_member :=
  unfold decision_members, entries_texts; cbn [app map fst snd];
  let M := fresh in
  intros M; repeat (apply elem_of_cons in M as [M|M]; [discriminate M|]); inversion M.

Lemma decision_reads_ints d kvs :
  typed_decision (decisionToPB d) -> kvs = decision_members d ++ io_members d ->
  Forall (fun '(name, n) => reads_int kvs name n)
    [("remaining_rpm", RemainingRPM d); ("remaining_tpm", RemainingTPM d);
     ("limit_rpm", LimitRPM d); ("limit_tpm", LimitTPM d);
     ("retry_after_ms", Milliseconds (RetryAfter d)); ("overshoot_tpm", OvershootTPM d);
     ("remaining_itpm", RemainingITPM d); ("limit_itpm", LimitITPM d); ("overshoot_itpm", OvershootITPM d);
     ("remaining_otpm", RemainingOTPM d); ("limit_otpm", LimitOTPM d); ("overshoot_otpm", OvershootOTPM d)].
Proof.
  intros (_ & _ & R) ->. rewrite !Forall_cons in R. destruct R as (R1 & R2 & R3 & R4 & R5 & R6 & R7 & R8 & R9 & R10 & R11 & R12 & _).
  pose proof (decision_members_keys d) as N. unfold io_members, ioEntries in *.
  destruct ((0 <? LimitITPM d) || (0 <? RemainingITPM d) || (0 <? OvershootITPM d) || negb (IsZero (ResetITPM d))) eqn:Ei;
    destruct ((0 <? LimitOTPM d) || (0 <? RemainingOTPM d) || (0 <? OvershootOTPM d) || negb (IsZero (ResetOTPM d))) eqn:Eo;
    bool_to_prop;
    repeat apply Forall_cons_2; try apply Forall_nil_2;
    first [ apply reads_present; [exact N|member|assumption]
          | apply reads_absent; [no_member|assumption] ].
Qed.

(** The answer of the HTTP front end reads as the message of the gRPC one. *)
Lemma decision_reads d :
  typed_decision (decisionToPB d) -> reads_decision (encode (decisionFromHTTP d) +:+ newline) (decisionToPB d).
Proof.
  intros T. set (kvs := decision_members d ++ io_members d).
  pose proof (decision_members_keys d) as N. fold kvs in N.
  assert (F : forall name, find_key name (sort_keys kvs) = find_key name kvs) by (intros; apply find_key_sort, N).
  exists (sort_keys kvs). split; [|split; [|split; [|split]]].
  - rewrite encode_decision. apply parse_encode_object_ws; [|rewrite <- sort_keys_perm; apply decision_members_values|reflexivity].
    fold kvs. intros E. pose proof (sort_keys_perm kvs) as P. rewrite E in P. apply Permutation_nil_r in P. discriminate.
  - rewrite F, (find_key_in "allowed" (bool_text (Allowed d)) kvs N) by (left; reflexivity).
    cbn [option_map]. rewrite decode_bool_text. reflexivity.
  - rewrite F, (find_key_in "limit_type" (encode_string (LimitType d)) kvs N) by (unfold kvs, io_members, ioEntries; member).
    cbn [option_map]. rewrite decode_encode_string by apply T. reflexivity.
  - rewrite F, (find_key_in "reservation_id" (encode_string (ReservationID d)) kvs N) by (unfold kvs, io_members, ioEntries; member).
    cbn [option_map]. rewrite decode_encode_string by apply T. reflexivity.
  - pose proof (decision_reads_ints d kvs T eq_refl) as R. eapply Forall_impl; [exact R|]. intros [name n] H.
    unfold reads_int in *. rewrite F. exact H.
Qed.

(** ** The two front ends *)

(** The gRPC forms of a request. *)
Definition pb_check (k : Key) (l : Limits) (c : Cost) : CheckRequest :=
  mkCheckRequest (Some (mkPbKey (Subject k) (Model k)))
    (Some (mkPbLimits (RequestsPerMinute l) (TokensPerMinute l) (InputTokensPerMinute l) (OutputTokensPerMinute l)))
    (Some (mkPbCost (Requests c) (Tokens c) (InputTokens c) (OutputTokens c))).

Definition pb_settle (b : settleBody) : SettleRequest :=
  mkSettleRequest (ReservationID_ b) (ActualTokens b) (ActualInputTokens b) (ActualOutputTokens b).

(** An HTTP answer says what the gRPC one says; [status] is that of errors. *)
Definition same_answer (status : Z) (w : Response) (g : result (Z * string) pbDecision) : Prop :=
  match g with
  | Ok m => status_of w = StatusOK /\ (typed_decision m -> reads_decision (rBody w) m)
  | Err (_, msg) => status_of w = status /\ rBody w = msg +:+ newline
  end.

Section Agree.
Context {W X : Type} `{ApiLimiter W}.
Context (clock : nat -> Time) (jsonError : string -> string).
Implicit Types env : Env W X.

Lemma writeJSON_reads d : same_answer StatusOK (writeJSON newResponse StatusOK (decisionFromHTTP d)) (Ok (decisionToPB d)).
Proof. split; [reflexivity|]. exact (decision_reads d). Qed.

Lemma same_ok status d : same_answer status (writeJSON newResponse StatusOK (decisionFromHTTP d)) (Ok (decisionToPB d)).
Proof. exact (writeJSON_reads d). Qed.

Lemma same_err status code e :
  200 <= status -> bodyAllowedForStatus status = true ->
  same_answer status (Error newResponse (errMsg e) status) (Err (code, errMsg e)).
Proof. apply (Error_unsent newResponse (errMsg e) status eq_refl). Qed.

Lemma check_agrees env k l c rest :
  typed_key k -> typed_limits l -> typed_cost c ->
  let http := check clock jsonError (check_json k l c +:+ rest) env newResponse in
  let grpc := grpcCheck clock (pb_check k l c) env in
  http.1 = grpc.1 /\ same_answer StatusInternalServerError http.2 grpc.2.
Proof.
  intros Tk Tl Tc. cbv zeta. unfold check, grpcCheck, pb_check. fold zeroBody.
  rewrite check_json_read by assumption. destruct k as [s m], l as [l1 l2 l3 l4], c as [c1 c2 c3 c4].
  cbn [toAPI bodyKey bodyLimits bodyCost reqKey reqLimits reqCost keyFromPB limitsFromPB costFromPB PbSubject PbModel
    PbRequestsPerMinute PbTokensPerMinute PbInputTokensPerMinute PbOutputTokensPerMinute
    PbRequests PbTokens PbInputTokens PbOutputTokens Subject Model RequestsPerMinute TokensPerMinute
    InputTokensPerMinute OutputTokensPerMinute Requests Tokens InputTokens OutputTokens].
  destruct (lCheck _ _ _ (elim env)) as [lim [d|e]]; (split; [reflexivity|]); [apply same_ok|apply same_err; [discriminate|reflexivity]].
Qed.

Lemma settle_agrees env b rest :
  ValidString (ReservationID_ b) = true -> typed_opt (ActualTokens b) -> typed_opt (ActualInputTokens b) ->
  typed_opt (ActualOutputTokens b) ->
  let http := settle jsonError (settle_json b +:+ rest) env newResponse in
  let grpc := grpcSettle (pb_settle b) env in
  http.1 = grpc.1 /\ same_answer StatusBadRequest http.2 grpc.2.
Proof.
  intros V T1 T2 T3. cbv zeta. unfold settle, grpcSettle, pb_settle. rewrite settle_json_read by assumption.
  cbn [reqReservationId reqActualTokens reqActualInputTokens reqActualOutputTokens].
  destruct (if _ || _ then _ else _) as [lim [d|e]]; (split; [reflexivity|]); [apply same_ok|apply same_err; [discriminate|reflexivity]].
Qed.

(** C17: the HTTP and the gRPC front end are the same service.  A request sent as JSON,
    whatever follows it on the connection, and the same request sent as a message make the
    same call of the limiter - Settle or SettleIO by the fields that are present - and
    leave the same environment, refusals logged included; the JSON answer reads as the
    message field by field, and an error has the same text, under status 500 for Check
    and 400 for the others. *)
Theorem front_ends_agree env k l c b rest :
  typed_key k -> typed_limits l -> typed_cost c ->
  ValidString (ReservationID_ b) = true -> typed_opt (ActualTokens b) -> typed_opt (ActualInputTokens b) ->
  typed_opt (ActualOutputTokens b) ->
  (let http := check clock jsonError (check_json k l c +:+ rest) env newResponse in
   let grpc := grpcCheck clock (pb_check k l c) env in
   http.1 = grpc.1 /\ same_answer StatusInternalServerError http.2 grpc.2) /\
  (let http := settle jsonError (settle_json b +:+ rest) env newResponse in
   let grpc := grpcSettle (pb_settle b) env in
   http.1 = grpc.1 /\ same_answer StatusBadRequest http.2 grpc.2) /\
  (let http := refund jsonError (refund_json (ReservationID_ b) +:+ rest) env newResponse in
   let grpc := grpcRefund (ReservationID_ b) env in
   http.1 = grpc.1 /\
   match grpc.2 with
   | Ok _ => status_of http.2 = StatusOK /\ rBody http.2 = "{}" +:+ newline
   | Err (_, msg) => status_of http.2 = StatusBadRequest /\ rBody http.2 = msg +:+ newline
   end).
Proof.
  intros Tk Tl Tc V T1 T2 T3. split; [apply check_agrees; assumption|]. split; [apply settle_agrees; assumption|].
  cbv zeta. unfold refund, grpcRefund. rewrite refund_json_read by exact V.
  destruct (lRefund _ (elim env)) as [lim [u|e]]; (split; [reflexivity|]); [split; reflexivity|].
  apply (Error_unsent newResponse (errMsg e) StatusBadRequest eq_refl); [discriminate|reflexivity].
Qed.
End Agree.

Lemma front_ends_agree_witness :
  let k := mkKey "acme" "gpt" in
  let l := mkLimits 60 1000 0 0 in
  let c := mkCost 1 5 0 0 in
  let b := mkSettleBody "r1" (Some 3) None None in
  let env := mkEnv tt "" 0 tt : Env unit unit in
  let http := check (H := open_limiter) (fun _ => 0) (fun _ => "") (check_json k l c +:+ "") env newResponse in
  let grpc := grpcCheck (H := open_limiter) (fun _ => 0) (pb_check k l c) env in
  http.1 = grpc.1 /\ same_answer StatusInternalServerError http.2 grpc.2.
Proof.
  cbv zeta. apply (front_ends_agree (H := open_limiter) (fun _ => 0) (fun _ => "") (mkEnv tt "" 0%nat tt)
    (mkKey "acme" "gpt") (mkLimits 60 1000 0 0) (mkCost 1 5 0 0) (mkSettleBody "r1" (Some 3) None None) "").
  - split; reflexivity.
  - repeat split; vm_compute; discriminate.
  - repeat split; vm_compute; discriminate.
  - reflexivity.
  - split; vm_compute; discriminate.
  - exact I.
  - exact I.
Defined.
