(* ===== verification/Valved.v ===== *)
(** * Valved: cmd/valved end to end

    The daemon [main] puts together: the requests of both front ends, served by the
    instrumented limiter over the in-process store.  A request makes at most one call
    of the limiter and is answered from that call's answer, so the clients' budget is
    the one [LimiterBudget] bounds. *)

From stdpp Require Import base tactics numbers strings gmap list.
From Stdlib Require Import ZArith Lia Ascii.
From S2P Require Import Prelude GoString GoJson GoJsonSpec GoEncode GoEncodeSpec Api Bucket Budget Store Memory MemorySpec MemoryBudget.
From S2P Require Import Lease Limiter LimiterSpec ApiLimiter Ledger LimiterMemory LimiterLedger LimiterBudget Observe.
From S2P Require Import Headers GoHttp Logx Middleware Server ServerSpec.

(** ** Requests *)

Inductive request : Type :=
| HttpRequest (method path body : string)
| GrpcCheck (req : CheckRequest)
| GrpcSettle (req : SettleRequest)
| GrpcRefund (id : string).

(** [NotRouted] leaves the answer to the multiplexer. *)
Inductive reply : Type :=
| HttpReply (w : Response)
| GrpcDecision (r : result (Z * string) pbDecision)
| GrpcDone (r : result (Z * string) unit)
| NotRouted.

Section Serve.
Context {W X : Type} `{ApiLimiter W}.
Context (clock : nat -> Time) (jsonError : string -> string) (ready : option (option string)).
Implicit Types env : Env W X.

(** One request, on the port it came in. *)
Definition serve (r : request) env : Env W X * reply :=
  match r with
  | HttpRequest method path body =>
      match routes clock jsonError ready method path with
      | Some handler => let '(env, w) := handler body env newResponse in (env, HttpReply w)
      | None => (env, NotRouted)
      end
  | GrpcCheck req => let '(env, g) := grpcCheck clock req env in (env, GrpcDecision g)
  | GrpcSettle req => let '(env, g) := grpcSettle req env in (env, GrpcDecision g)
  | GrpcRefund id => let '(env, g) := grpcRefund id env in (env, GrpcDone g)
  end.

Fixpoint serves (rs : list request) env : Env W X * list reply :=
  match rs with
  | [] => (env, [])
  | r :: rs =>
      let '(env, rep) := serve r env in
      let '(env, reps) := serves rs env in
      (env, rep :: reps)
  end.

(** The reply to a request that made the call [c]. *)
Definition http_reply (c : call) (ans : answer) : Response :=
  let error e := Error newResponse (errMsg e)
    (match c with CCheck _ _ _ => StatusInternalServerError | _ => StatusBadRequest end) in
  match ans with
  | ADecision (Ok d) => writeJSON newResponse StatusOK (decisionFromHTTP d)
  | ADone (Ok _) => writeJSON newResponse StatusOK (AMap [])
  | ADecision (Err e) | ADone (Err e) => error e
  end.

Definition grpc_reply (c : call) (ans : answer) : reply :=
  let code := match c with CCheck _ _ _ => Internal | _ => InvalidArgument end in
  match ans with
  | ADecision (Ok d) => GrpcDecision (Ok (decisionToPB d))
  | ADecision (Err e) => GrpcDecision (Err (code, errMsg e))
  | ADone (Ok _) => GrpcDone (Ok tt)
  | ADone (Err e) => GrpcDone (Err (code, errMsg e))
  end.

Definition reply_of (r : request) (c : call) (ans : answer) : reply :=
  match r with
  | HttpRequest _ _ _ => HttpReply (http_reply c ans)
  | _ => grpc_reply c ans
  end.

(** A request leaves the limiter alone, or makes one call and reports its answer. *)
Variant served (r : request) env : Env W X * reply -> Prop :=
| served_without rep : served r env (env, rep)
| served_call c env' : elim env' = (perform c (elim env)).1 ->
    served r env (env', reply_of r c (perform c (elim env)).2).

Lemma elim_logDeny env k d : elim (logDeny clock env k d) = elim env.
Proof. unfold logDeny. destruct (Allowed d); reflexivity. Qed.

Lemma check_served m p body env :
  served (HttpRequest m p body) env
    (let '(env, w) := Server.check clock jsonError body env newResponse in (env, HttpReply w)).
Proof.
  unfold Server.check. destruct (Decode _ _ _) as [b|]; [|apply served_without].
  destruct (toAPI b) as [[key l] cost]. pose proof (served_call (HttpRequest m p body) env (CCheck key l cost)) as C.
  cbn [perform reply_of] in C. destruct (lCheck key l cost (elim env)) as [w [d|e]]; cbn [snd fst http_reply] in C;
    apply C; [apply elim_logDeny|reflexivity].
Qed.

Lemma settle_served m p body env :
  served (HttpRequest m p body) env
    (let '(env, w) := Server.settle jsonError body env newResponse in (env, HttpReply w)).
Proof.
  unfold Server.settle. destruct (Decode _ _ _) as [b|]; [|apply served_without].
  destruct (is_some (ActualInputTokens b) || is_some (ActualOutputTokens b)).
  - pose proof (served_call (HttpRequest m p body) env
      (CSettleIO (ReservationID_ b) (default 0 (ActualInputTokens b)) (default 0 (ActualOutputTokens b)))) as C.
    cbn [perform reply_of] in C. destruct (lSettleIO _ _ _ (elim env)) as [w [d|e]]; cbn [snd fst http_reply] in C;
      apply C; reflexivity.
  - pose proof (served_call (HttpRequest m p body) env (CSettle (ReservationID_ b) (default 0 (ActualTokens b)))) as C.
    cbn [perform reply_of] in C. destruct (lSettle _ _ (elim env)) as [w [d|e]]; cbn [snd fst http_reply] in C;
      apply C; reflexivity.
Qed.

Lemma refund_served m p body env :
  served (HttpRequest m p body) env
    (let '(env, w) := Server.refund jsonError body env newResponse in (env, HttpReply w)).
Proof.
  unfold Server.refund. destruct (Decode _ _ _) as [id|]; [|apply served_without].
  pose proof (served_call (HttpRequest m p body) env (CRefund id)) as C.
  cbn [perform reply_of] in C. destruct (lRefund _ (elim env)) as [w [d|e]]; cbn [snd fst http_reply] in C;
    apply C; reflexivity.
Qed.

Lemma serve_served r env : served r env (serve r env).
Proof.
  destruct r as [m p body|req|req|id]; cbn [serve].
  - unfold routes. destruct (decide (m = "POST")); [|destruct (decide (m = "GET" \/ m = "HEAD"))].
    + destruct (decide (p = "/v1/check")); [apply check_served|].
      destruct (decide (p = "/v1/settle")); [apply settle_served|].
      destruct (decide (p = "/v1/refund")); [apply refund_served|apply served_without].
    + destruct (decide (p = "/healthz")); [apply served_without|].
      destruct (decide (p = "/readyz")); apply served_without.
    + apply served_without.
  - unfold grpcCheck. set (key := keyFromPB _). set (l := limitsFromPB _). set (cost := costFromPB _).
    pose proof (served_call (GrpcCheck req) env (CCheck key l cost)) as C. cbn [perform reply_of] in C.
    destruct (lCheck key l cost (elim env)) as [w [d|e]]; cbn [snd fst grpc_reply] in C;
      apply C; [apply elim_logDeny|reflexivity].
  - unfold grpcSettle. destruct (is_some (reqActualInputTokens req) || is_some (reqActualOutputTokens req)).
    + pose proof (served_call (GrpcSettle req) env (CSettleIO (reqReservationId req)
        (default 0 (reqActualInputTokens req)) (default 0 (reqActualOutputTokens req)))) as C.
      cbn [perform reply_of] in C. destruct (lSettleIO _ _ _ (elim env)) as [w [d|e]]; cbn [snd fst grpc_reply] in C;
        apply C; reflexivity.
    + pose proof (served_call (GrpcSettle req) env (CSettle (reqReservationId req) (default 0 (reqActualTokens req)))) as C.
      cbn [perform reply_of] in C. destruct (lSettle _ _ (elim env)) as [w [d|e]]; cbn [snd fst grpc_reply] in C;
        apply C; reflexivity.
  - unfold grpcRefund. pose proof (served_call (GrpcRefund id) env (CRefund id)) as C. cbn [perform reply_of] in C.
    destruct (lRefund id (elim env)) as [w [[]|e]]; cbn [snd fst grpc_reply] in C; apply C; reflexivity.
Qed.
End Serve.

(** ** The record of a recording limiter *)

(** What clients were told: every call is reported by the reply to its request. *)
Inductive told : list request -> list (call * answer) -> list reply -> Prop :=
| told_none : told [] [] []
| told_without r rs h rep reps : told rs h reps -> told (r :: rs) h (rep :: reps)
| told_call r rs c ans h reps :
    told rs h reps -> told (r :: rs) ((c, ans) :: h) (reply_of r c ans :: reps).

Section Recorded.
Context {W X : Type} `{ApiLimiter W}.
Context (clock : nat -> Time) (jsonError : string -> string) (ready : option (option string)).

Lemma perform_recorded c (w : W) l :
  perform (H := Recorded_ApiLimiter) c (w, l) =
    let '(w', ans) := perform c w in ((w', l ++ [(c, ans)]), ans).
Proof.
  destruct c; cbn [perform lCheck lSettle lSettleIO lRefund Recorded_ApiLimiter fst snd]; unfold record.
  - destruct (lCheck _ _ _ _). reflexivity.
  - destruct (lSettle _ _ _). reflexivity.
  - destruct (lSettleIO _ _ _ _). reflexivity.
  - destruct (lRefund _ _). reflexivity.
Qed.

Lemma serves_recorded rs : forall (env : Env (W * list (call * answer)) X) w l,
  elim env = (w, l) ->
  exists cs, (length cs <= length rs)%nat /\
    let out := serves (H := Recorded_ApiLimiter) clock jsonError ready rs env in
    let '(w', h) := performs cs w in elim out.1 = (w', l ++ h) /\ told rs h out.2.
Proof.
  induction rs as [|r rs IH]; intros env w l E; cbn [serves].
  - exists []. split; [reflexivity|]. cbn. rewrite app_nil_r. split; [exact E|apply told_none].
  - pose proof (serve_served clock jsonError ready r env) as S. destruct S as [rep|c env' E'].
    + destruct (IH env w l E) as (cs & L & Q). exists cs. split; [cbn [length]; lia|].
      destruct (performs cs w) as [w' h]. destruct (serves clock jsonError ready rs env) as [env2 reps].
      cbn [fst snd] in *. destruct Q as [Q1 Q2]. split; [exact Q1|apply told_without, Q2].
    + rewrite E, perform_recorded in *. destruct (perform c w) as [w1 ans] eqn:P. cbn [fst snd] in *.
      destruct (IH env' w1 (l ++ [(c, ans)]) E') as (cs & L & Q). exists (c :: cs). split; [cbn [length]; lia|].
      cbn [performs]. rewrite P. destruct (performs cs w1) as [w' h].
      destruct (serves clock jsonError ready rs env') as [env2 reps]. cbn [fst snd] in *.
      destruct Q as [Q1 Q2]. split; [rewrite Q1, <- app_assoc; reflexivity|apply told_call, Q2].
Qed.
End Recorded.

(** ** The daemon *)

(** What [main]'s options make of the limiter. *)
Lemma inner_fields {S} s rand (store : S) :
  let l := valved_inner s rand store in
  lfailMode l = failMode s /\ hasPool l = is_some (fastPath s) /\
  initial l = mkWorld store (NewPool (default DefaultConfig (fastPath s))) 0 0.
Proof. unfold valved_inner. destruct (fastPath s); split_and!; reflexivity. Qed.

Section Daemon.
Context (getenv : string -> string).
Context (clock observed httpClock : nat -> Time) (rand : nat -> res (list Z)) (jsonError : string -> string).

(** What [main] makes of the environment variables, without Redis. *)
Definition valved_settings : settings := main_settings getenv.

Definition daemon : ApiLimiter (Observed (W := World (S := MemStore))) :=
  valved_limiter valved_settings rand Memory.New clock observed.

Definition daemon_start : Env (Observed (W := World (S := MemStore)) * list (call * answer)) unit :=
  mkEnv (valved_start valved_settings rand Memory.New, []) "" 0 tt.

(** The daemon after the requests, and its replies. *)
Definition daemon_serves (rs : list request) :=
  serves (H := Recorded_ApiLimiter (H := daemon)) httpClock jsonError None rs daemon_start.

(** The record of the daemon's calls, and the milliseconds it ran. *)
Definition daemon_record (rs : list request) : list (call * answer) := (elim (daemon_serves rs).1).2.

Definition daemon_ms (rs : list request) : Z :=
  ms clock (oinner (elim (daemon_serves rs).1).1) - ms clock (oinner (elim daemon_start).1).

(** C2: the budget of valved.  Start the daemon with any environment variables but the
    Redis address and send it any requests on either port - malformed ones, probes and
    unknown paths included.  Every call of its limiter is reported by the reply to its
    request; and by the record of these calls and answers, clients hold of each key and
    axis at most the per-minute limit, what the limit earns while it runs, and one
    token with FAST_PATH; without it, for FAIL_MODE=closed, that and one more token for
    each settlement above its reservation.  The clock must not go back, requests must
    give the key one limit [c], and limits, amounts and their number be at most what is
    stated. *)
Theorem valved_budget rs a k c A :
  let fast := is_some (fastPath valved_settings) in
  let h := daemon_record rs in
  told rs h (daemon_serves rs).2 /\
  (monotone clock -> 0 < ms clock (oinner (elim daemon_start).1) ->
   (match fastPath valved_settings with
    | Some C => chunks_ok A (normalized C)
    | None => failMode valved_settings = FailClosed
    end) ->
   Forall (call_fits a k c A) (map fst h) -> 0 <= A <= 2 ^ 40 -> 0 < c <= 2 ^ 30 ->
   Z.of_nat (length rs) <= 2 ^ 20 ->
   ms clock (oinner (elim (daemon_serves rs).1).1) <= 2 ^ 53 -> daemon_ms rs <= 2 ^ 32 ->
   60000 * (held a k ∅ h - if fast then 0 else overdrafts a k ∅ h)
     <= 60000 * (c + 1) + daemon_ms rs * c).
Proof.
  intros fast h. subst h. unfold daemon_record, daemon_ms.
  set (o := valved_start valved_settings rand Memory.New).
  destruct (serves_recorded (H := daemon) httpClock jsonError None rs daemon_start o [] eq_refl) as (cs & L & Q).
  cbv zeta in Q. fold (daemon_serves rs) in Q. pose proof (performs_calls (H := daemon) cs o) as Cs.
  set (inner := valved_inner valved_settings rand Memory.New).
  pose proof (performs_observed (H := built inner clock) observed cs o) as [O _]. cbv zeta in O.
  change (Observed_ApiLimiter observed) with daemon in O.
  destruct (performs (H := daemon) cs o) as [w' h]. cbn [fst snd] in *.
  destruct Q as [Q1 Q2]. rewrite Q1. cbn [fst snd app]. split; [exact Q2|].
  intros Mono H0 Ch F HA Hc Hn Hu Hd. rewrite Cs in F.
  destruct (inner_fields valved_settings rand Memory.New) as (E1 & E2 & E3). fold inner in E1, E2, E3.
  pose proof (ledger_bound (lfailMode inner) (hasPool inner) clock (lnewID inner) a k c A
    (default DefaultConfig (fastPath valved_settings)) Memory.New 0 0 cs Mono eq_refl) as B. cbv zeta in B.
  rewrite <- E3 in B. change (initial inner) with (oinner o) in B.
  change (Limiter_ApiLimiter (lfailMode inner) (hasPool inner) clock (lnewID inner)) with (built inner clock) in B.
  rewrite O, E1, E2 in B. cbn [fst snd] in B. apply B; auto using New_ok; [|lia].
  unfold fast. destruct (fastPath valved_settings); exact Ch.
Qed.
End Daemon.

(** ** A run of the daemon with its default settings *)

Definition no_env (_ : string) : string := "".

(** Blocks of random bytes that only differ in the last one, and their ids. *)
Definition sample_rand (n : nat) : res (list Z) := Ok (replicate 15 0 ++ [Z.of_nat n]).

Definition sample_id (n : nat) : string := EncodeToString (replicate 15 0 ++ [Z.of_nat n]).

Definition sample_requests : list request :=
  [HttpRequest "GET" "/healthz" "";
   HttpRequest "POST" "/v1/check" (check_json sample_key sample_limits (mkCost 1 300 0 0));
   GrpcCheck (pb_check sample_key sample_limits (mkCost 1 200 0 0));
   HttpRequest "POST" "/v1/settle" (settle_json (mkSettleBody (sample_id 0) (Some 120) None None));
   HttpRequest "POST" "/v1/settle" "no json"; GrpcRefund (sample_id 1); GrpcRefund (sample_id 9);
   HttpRequest "POST" "/v1/check" (check_json sample_key sample_limits (mkCost 8 900 0 0))].

Definition sample_daemon (getenv : string -> string) : list (call * answer) :=
  daemon_record getenv unix_clock unix_clock unix_clock sample_rand (fun _ => "invalid character") sample_requests.

(** Six of the eight requests reach the limiter; alice holds the 120 tokens and the
    request she settled. *)
Example sample_daemon_held :
  length (sample_daemon no_env) = 6%nat /\
  held TPM sample_key ∅ (sample_daemon no_env) = 120 /\ held RPM sample_key ∅ (sample_daemon no_env) = 1.
Proof. vm_compute. split_and!; reflexivity. Qed.

Definition slow_path (k : string) : string := if decide (k = "FAST_PATH") then "false" else "".

Lemma sample_daemon_fits getenv :
  getenv = no_env \/ getenv = slow_path ->
  Forall (call_fits TPM sample_key 1000 1000) (map fst (sample_daemon getenv)).
Proof.
  intros E. replace (map fst (sample_daemon getenv)) with
    [CCheck sample_key sample_limits (mkCost 1 300 0 0); CCheck sample_key sample_limits (mkCost 1 200 0 0);
     CSettle (sample_id 0) 120; CRefund (sample_id 1); CRefund (sample_id 9); CCheck sample_key sample_limits (mkCost 8 900 0 0)]
    by (destruct E as [-> | ->]; vm_compute; reflexivity).
  assert (Fit : limits_fit TPM (cacheKey sample_key) 1000 sample_key sample_limits).
  { split; [unfold limits_ok, limit_ok, max_capacity; cbn; lia|]. reflexivity. }
  repeat apply Forall_cons_2; try apply Forall_nil_2; cbn [call_fits]; try lia; try exact I;
    (split; [exact Fit|apply costs_within; cbn; lia]).
Qed.

Definition sample_ms (getenv : string -> string) : Z :=
  daemon_ms getenv unix_clock unix_clock unix_clock sample_rand (fun _ => "invalid character") sample_requests.

#[local] Opaque daemon_serves daemon_record daemon_ms held overdrafts.

Lemma valved_budget_witness :
  60000 * (held TPM sample_key ∅ (sample_daemon no_env) - 0) <= 60000 * (1000 + 1) + sample_ms no_env * 1000 /\
  60000 * (held TPM sample_key ∅ (sample_daemon slow_path) - overdrafts TPM sample_key ∅ (sample_daemon slow_path))
    <= 60000 * (1000 + 1) + sample_ms slow_path * 1000.
Proof.
  split.
  - pose proof (valved_budget no_env unix_clock unix_clock unix_clock sample_rand (fun _ => "invalid character")
      sample_requests TPM sample_key 1000 1000) as B. cbv zeta in B.
    fold (sample_daemon no_env) (sample_ms no_env) in B.
    change (is_some (fastPath (valved_settings no_env))) with true in B. cbv iota in B. destruct B as [_ B].
    apply B; [exact unix_clock_monotone|vm_compute; reflexivity|vm_compute; split_and!; congruence
      |apply sample_daemon_fits; left; reflexivity|lia|lia|vm_compute; congruence..].
  - pose proof (valved_budget slow_path unix_clock unix_clock unix_clock sample_rand (fun _ => "invalid character")
      sample_requests TPM sample_key 1000 1000) as B. cbv zeta in B.
    fold (sample_daemon slow_path) (sample_ms slow_path) in B.
    change (is_some (fastPath (valved_settings slow_path))) with false in B. cbv iota in B. destruct B as [_ B].
    apply B; [exact unix_clock_monotone|vm_compute; reflexivity|vm_compute; reflexivity
      |apply sample_daemon_fits; right; reflexivity|lia|lia|vm_compute; congruence..].
Defined.
