(* ===== verification/Proxy.v ===== *)
(** * Proxy: examples/openai-proxy/proxy.go, the rate-limited reverse proxy

    A request is checked with its estimate, forwarded, and settled with the usage the
    upstream reports.  The network is a parameter: what the client sends, whether the
    upstream answers and with what, and whether the client still takes what is written.
    The environment is that of [Middleware]; the application state is the package-level
    counters of pkg/llm. *)

From stdpp Require Import base tactics numbers strings gmap list.
From Stdlib Require Import ZArith Lia Ascii.
From S2P Require Import Prelude GoString GoJson GoEncode Api ApiLimiter Headers GoHttp Logx Llm Middleware Server.

(** What the handler sees of a request: its body is the bytes the client sends, and
    whether they end with an error. *)
Record Request := mkRequest {
  reqMethod : string; reqPath : string; reqRawQuery : string;
  reqHeader : Header;
  reqBody : string; reqBodyErr : bool
}.

(** The upstream's response: the body arrives in chunks and ends, or breaks off. *)
Record UpstreamResponse := mkUpstream {
  StatusCode : Z;
  upHeader : list (string * list string);
  upChunks : list string;
  upErr : bool
}.

Definition upBody (u : UpstreamResponse) : string := fold_right String.append "" (upChunks u).

Record ProxyConfig := mkProxyConfig {
  cfgLimits : Limits;
  cfgGate : Gate;
  cfgTokenizer : Tokenizer
}.

(** [io.ReadAll(io.LimitReader(r.Body, n))]; None is a read error. *)
Definition readLimited (body : string) (broken : bool) (n : Z) : option string :=
  if n <=? 0 then Some ""
  else if n <=? Z.of_nat (String.length body) then Some (take (Z.to_nat n) body)
  else if broken then None else Some body.

Definition hash_prefix (k : string) : string := EncodeToString (firstn 8 (Sha256.Sum256 k)).

Definition subjectFromRequest (r : Request) : string :=
  let k := Get (reqHeader r) "X-API-Key" in
  if decide (k <> "") then hash_prefix k
  else let a := Get (reqHeader r) "Authorization" in
       if decide (a <> "") then hash_prefix a else "anonymous".

Definition modelFromBody (body : string) : string :=
  match decode_struct [("model", string_field (fun m _ => m))] body "" with
  | Some m => if decide (m = "") then "-" else m
  | None => "-"
  end.

(** The error of [json.Unmarshal] is ignored: members that are no booleans leave the
    field as it is. *)
Definition stream_field (body : string) : bool :=
  match parse body with
  | Some (JObj kvs) =>
      fold_left (fun b text => match parse text with Some (JBool b') => b' | _ => b end) (fields "stream" kvs) false
  | _ => false
  end.

Definition isStream (body : string) (r : Request) : bool :=
  stream_field body || Contains (Get (reqHeader r) "Accept") "text/event-stream".

Definition denyBody (d : Decision) : any :=
  AMap [("error", AMap [("type", AString "rate_limit"); ("limit_type", AString (LimitType d))])].

(** The header copied from the upstream's response, but for its length. *)
Definition copyHeader (h : Header) (up : list (string * list string)) : Header :=
  fold_left (fun h '(k, vv) => if decide (fold_name k = fold_name "Content-Length") then h
                               else fold_left (fun h v => AddValue h k v) vv h) up h.

(** The handler returns, or panics, or waits forever.  net/http recovers a panic and
    closes the client's connection; nothing after the panic runs. *)
Inductive outcome : Type := Returned | Panicked | Stuck.

Section Proxy.
Context {W : Type} `{ApiLimiter W}.
Context (cfg : ProxyConfig).
(** [time.Now()] at its n-th reading by the handler. *)
Context (clock : nat -> Time).
(** Whether a request can be built for the upstream, and what the upstream answers. *)
Context (newRequest : Request -> bool) (Do : Request -> string -> option UpstreamResponse).
(** Whether the client takes the n-th chunk of a stream. *)
Context (accepts : nat -> bool).

Abbreviation PEnv := (Env W Metrics) (only parsing).

Definition withLimiter (env : PEnv) (lim : W) : PEnv := mkEnv lim (elog env) (eticks env) (eapp env).

Definition recordSettle (env : PEnv) (estimated actual : Z) : PEnv :=
  mkEnv (elim env) (elog env) (eticks env) (RecordSettle (eapp env) estimated actual).

(** [headers.Write(w.Header(), d)] *)
Definition writeHeaders (env : PEnv) (w : Response) (d : Decision) : PEnv * Response :=
  let '(h, n) := Write clock (rHeader w) (eticks env) d in
  (mkEnv (elim env) (elog env) n (eapp env), w <| rHeader := h |>).

(** What a response's usage says was used, or the estimate. *)
Definition actualTokens (u : option Usage) (estimated : Z) : Z :=
  match u with Some u => if 0 <? Total u then Total u else estimated | None => estimated end.

Definition handleJSON (env : PEnv) (w : Response) (up : UpstreamResponse) (dec : Decision) (estimated : Z)
    : PEnv * Response * outcome :=
  if upErr up then
    let '(lim, _) := lRefund (ReservationID dec) (elim env) in
    (withLimiter env lim, Error w "upstream read" StatusBadGateway, Returned)
  else
    let body := upBody up in
    let actual := actualTokens (ParseUsageJSON body) estimated in
    let '(lim, r) := lSettle (ReservationID dec) actual (elim env) in
    let env := withLimiter env lim in
    let '(env, sd) := match r with
                      | Err _ => (env, dec)
                      | Ok sd => (recordSettle env estimated actual, sd)
                      end in
    let '(env, w) := writeHeaders env w sd in
    if panics w (StatusCode up) then (env, w, Panicked)
    else (env, WriteBody (WriteHeader w (StatusCode up)) body, Returned).

(** The end of [io.Copy]. *)
Inductive copied : Type := CopyEOF | CopyErr | CopyBlocked.

(** A write to the pipe blocks while its reader, the usage scanner, has stopped reading
    and left bytes behind. *)
Definition blocked (fed : string) : bool := negb (bool_decide (Unread maxLine fed = "")).

(** [io.Copy] to the client and the pipe: what the client got, what the pipe was fed. *)
Fixpoint copy (broken : bool) (chunks : list string) (i : nat) (fed : string) (w : Response)
    : Response * string * copied :=
  match chunks with
  | [] => (w, fed, if broken then CopyErr else CopyEOF)
  | c :: chunks =>
      if decide (c = "") then copy broken chunks i fed w
      else if negb (accepts i && bodyAllowedForStatus (status_of w)) then (w, fed, CopyErr)
      else let w := WriteBody w c in
           let fed := fed +:+ c in
           if blocked fed then (w, fed, CopyBlocked)
           else copy broken chunks (S i) fed w
  end.

Definition handleStream (env : PEnv) (w : Response) (up : UpstreamResponse) (dec : Decision) (estimated : Z)
    : PEnv * Response * outcome :=
  let '(env, w) := writeHeaders env w dec in
  if panics w (StatusCode up) then (env, w, Panicked) else
  let w := WriteHeader w (StatusCode up) in
  let '(w, fed, e) := copy (upErr up) (upChunks up) 0 "" w in
  match e with
  | CopyBlocked => (env, w, Stuck)
  | _ =>
      let usage := ParseUsageSSE fed in
      let actual := actualTokens usage estimated in
      match e, usage with
      | CopyErr, None =>
          let '(lim, _) := lRefund (ReservationID dec) (elim env) in
          (withLimiter env lim, w, Returned)
      | _, _ =>
          let '(lim, r) := lSettle (ReservationID dec) actual (elim env) in
          let env := withLimiter env lim in
          match r with
          | Err _ => (env, w, Returned)
          | Ok _ => (recordSettle env estimated actual, w, Returned)
          end
      end
  end.

(** The estimate of a body: what it says, or its length in tokens. *)
Definition estimate (body : string) : ChatEstimate :=
  match EstimateChatRequest body (cfgTokenizer cfg) with
  | Some est => est
  | None => let n := EstimateTokens body in
            let n := if n <? 1 then 1 else n in
            mkChatEstimate n 0 n
  end.

Definition limitBytes : Z :=
  let n := MaxRequestBytes (cfgGate cfg) in if n <=? 0 then 8 * 2 ^ 20 else n.

Definition ServeHTTP (r : Request) (env : PEnv) (w : Response) : PEnv * Response * outcome :=
  match readLimited (reqBody r) (reqBodyErr r) (wrap64 (limitBytes + 1)) with
  | None => (env, Error w "read body" StatusBadRequest, Returned)
  | Some body =>
      match CheckBytes (cfgGate cfg) (Z.of_nat (String.length body)) with
      | Some err => (env, Error w (errMsg err) StatusRequestEntityTooLarge, Returned)
      | None =>
          let est := estimate body in
          match CheckInput (cfgGate cfg) (ceInputTokens est) with
          | Some err => (env, Error w (errMsg err) StatusRequestEntityTooLarge, Returned)
          | None =>
              let key := mkKey (subjectFromRequest r) (modelFromBody body) in
              let cost := mkCost 1 (ceTotalTokens est) 0 0 in
              let '(lim, res) := lCheck key (cfgLimits cfg) cost (elim env) in
              let env := withLimiter env lim in
              match res with
              | Err err => (env, Error w (errMsg err) StatusInternalServerError, Returned)
              | Ok dec =>
                  if negb (Allowed dec) then
                    let '(env, w) := writeHeaders env w dec in
                    let w := SetHeader w "Content-Type" "application/json" in
                    (env, EncodeBody (WriteHeader w StatusTooManyRequests) (denyBody dec), Returned)
                  else if negb (newRequest r) then
                    let '(lim, _) := lRefund (ReservationID dec) (elim env) in
                    (withLimiter env lim, Error w "upstream request" StatusBadGateway, Returned)
                  else match Do r body with
                       | None =>
                           let '(lim, _) := lRefund (ReservationID dec) (elim env) in
                           (withLimiter env lim, Error w "upstream error" StatusBadGateway, Returned)
                       | Some up =>
                           let w := w <| rHeader := copyHeader (rHeader w) (upHeader up) |> in
                           if isStream body r then handleStream env w up dec (ceTotalTokens est)
                           else handleJSON env w up dec (ceTotalTokens est)
                       end
              end
          end
      end
  end.
End Proxy.

(** ** main.go of the examples *)

(** The configuration of the proxy from its environment variables. *)
Definition proxy_main (getenv : string -> string) : ProxyConfig :=
  mkProxyConfig
    (mkLimits (envInt64 getenv "RPM" 60) (envInt64 getenv "TPM" 90000) 0 0)
    (mkGate (envInt64 getenv "MAX_INPUT_TOKENS" 128000) (envInt64 getenv "MAX_REQUEST_BYTES" (2 * 2 ^ 20)))
    None.

(** The middleware configuration of the Gin and Echo demos. *)
Definition demo_config : Middleware.Config (Request := Request) :=
  Middleware.mkConfig
    (fun r => let sub := Get (reqHeader r) "X-Subject" in mkKey (if decide (sub = "") then "anonymous" else sub) "demo")
    (fun _ => mkLimits 5 1000 0 0)
    (fun _ => mkCost 1 100 0 0).
