(* ===== verification/ProxySpec.v ===== *)
(** * ProxySpec: the proxy closes what it admits *)

From stdpp Require Import base tactics numbers strings gmap list.
From Stdlib Require Import ZArith Lia Ascii.
From S2P Require Import Prelude GoString GoJson GoJsonSpec GoEncode Api ApiLimiter Headers GoHttp Logx Llm LlmSpec.
From S2P Require Import Middleware Proxy.

Section Spec.
Context {W : Type} `{ApiLimiter W}.
Context (cfg : ProxyConfig) (clock : nat -> Time).
Context (newRequest : Request -> bool) (Do : Request -> string -> option UpstreamResponse).
Context (accepts : nat -> bool).

(** The calls the proxy has made of its limiter. *)
Definition calls (env : Env (W * list (call * answer)) Metrics) : list (call * answer) := (elim env).2.

Lemma writeHeaders_limiter (env : Env (W * list (call * answer)) Metrics) w d :
  elim (writeHeaders clock env w d).1 = elim env.
Proof. unfold writeHeaders. destruct (Write _ _ _ _) as [h n]. reflexivity. Qed.

(** The upstream or the client gave up, or the status has no body. *)
Definition failed (up : UpstreamResponse) : Prop :=
  upErr up = true \/ (exists i, accepts i = false) \/ bodyAllowedForStatus (StatusCode up) = false.

(** A call that closes the reservation [id] of [est] tokens: a refund when something
    failed, or a settlement of the tokens some usage report counts, or else of the
    estimate. *)
Definition closes (id : string) (est : Z) (failure : Prop) (c : call) : Prop :=
  match c with
  | CRefund id' => id' = id /\ failure
  | CSettle id' n => id' = id /\ 0 < n /\ (n = est \/ exists u, n = Total u)
  | _ => False
  end.

Lemma actualTokens_closes u est id F :
  1 <= est -> closes id est F (CSettle id (actualTokens u est)).
Proof.
  intros E. cbn. split; [reflexivity|]. unfold actualTokens. destruct u as [u|]; [|lia].
  destruct (Z.ltb_spec 0 (Total u)); [eauto|lia].
Qed.

(** What a handler that took over an admitted request has done. *)
Definition closed (before : list (call * answer)) (id : string) (est : Z) (F : Prop)
    (env : Env (W * list (call * answer)) Metrics) : Prop :=
  exists c a, calls env = before ++ [(c, a)] /\ closes id est F c.

Lemma writeHeaders_sent (env : Env (W * list (call * answer)) Metrics) w d :
  rSent (writeHeaders clock env w d).2 = rSent w /\ rBody (writeHeaders clock env w d).2 = rBody w.
Proof. unfold writeHeaders. destruct (Write _ _ _ _) as [h n]. auto. Qed.

(** How the handler of an upstream's plain answer ends. *)
Definition json_ending (up : UpstreamResponse) : outcome :=
  if upErr up then Returned else if validStatus (StatusCode up) then Returned else Panicked.

Lemma handleJSON_closes env w up dec est :
  1 <= est -> rSent w = None ->
  let '(env', w', out) := handleJSON (W := W * list (call * answer)) clock env w up dec est in
  out = json_ending up /\ closed (calls env) (ReservationID dec) est (failed up) env'.
Proof.
  intros E Sw. unfold handleJSON, json_ending, closed, calls. cbn [lRefund lSettle Recorded_ApiLimiter]. unfold record.
  destruct (upErr up) eqn:U.
  - destruct (lRefund _ _) as [lim r]. split; [reflexivity|]. eexists _, _. split; [reflexivity|].
    split; [reflexivity|]. left. exact U.
  - destruct (lSettle _ _ _) as [lim r].
    destruct (match r with Ok _ => _ | Err _ => _ end) as [env1 sd] eqn:E1.
    pose proof (writeHeaders_limiter env1 w sd) as Wl. pose proof (proj1 (writeHeaders_sent env1 w sd)) as Ws.
    destruct (writeHeaders clock env1 w sd) as [env2 w2]. cbn [fst snd] in Wl, Ws. unfold panics. rewrite Ws, Sw.
    assert (C : exists c a, (elim env2).2 = (elim env).2 ++ [(c, a)] /\ closes (ReservationID dec) est (failed up) c).
    { exists (CSettle (ReservationID dec) (actualTokens (ParseUsageJSON (upBody up)) est)).
      eexists. split; [|apply actualTokens_closes, E]. rewrite Wl. destruct r; injection E1 as <- <-; reflexivity. }
    destruct (validStatus (StatusCode up)); split; auto.
Qed.

(** *** Streams *)

(** What the client takes of the chunks, and whether that is all. *)
Fixpoint taken (allowed : bool) (chunks : list string) (i : nat) : string * bool :=
  match chunks with
  | [] => ("", true)
  | c :: chunks =>
      if decide (c = "") then taken allowed chunks i
      else if accepts i && allowed then let '(got, all) := taken allowed chunks (S i) in (c +:+ got, all)
      else ("", false)
  end.

Lemma taken_all chunks i :
  (forall i, accepts i = true) -> taken true chunks i = (fold_right String.append "" chunks, true).
Proof.
  intros A. revert i. induction chunks as [|c chunks IH]; intros i; cbn [taken fold_right]; [reflexivity|].
  destruct (decide (c = "")) as [->|N]; [apply IH|]. rewrite A, IH. reflexivity.
Qed.

Lemma taken_failed allowed chunks i :
  (taken allowed chunks i).2 = false -> (exists i, accepts i = false) \/ allowed = false.
Proof.
  revert i. induction chunks as [|c chunks IH]; intros i; cbn [taken]; [discriminate|].
  destruct (decide (c = "")); [apply IH|]. destruct (accepts i) eqn:A; [|eauto]. destruct allowed; [|auto].
  cbn [andb]. specialize (IH (S i)). destruct (taken true chunks (S i)) as [got all]. exact IH.
Qed.

(** Copying a stream that does not block: everything the client takes, and whether it
    was all; it blocks when that leaves the scanner with bytes behind. *)
Lemma copy_spec broken chunks i fed w allowed :
  bodyAllowedForStatus (status_of w) = allowed -> blocked fed = false ->
  let '(got, all) := taken allowed chunks i in
  let '(w', fed', e) := copy accepts broken chunks i fed w in
  if blocked (fed +:+ got) then e = CopyBlocked
  else e = (if all then if broken then CopyErr else CopyEOF else CopyErr) /\ fed' = fed +:+ got /\
    status_of w' = status_of w /\ rBody w' = rBody w +:+ got.
Proof.
  intros Al. revert i fed w Al. induction chunks as [|c chunks IH]; intros i fed w Al B; cbn [copy taken].
  - rewrite !str_app_nil, B. auto.
  - destruct (decide (c = "")) as [->|Nc]; [exact (IH i fed w Al B)|]. rewrite Al.
    destruct (accepts i && allowed) eqn:A; cbn [negb]; [|rewrite !str_app_nil, B; auto].
    apply andb_prop in A as [_ A]. destruct (WriteBody_spec w c) as [S' B']. specialize (B' ltac:(congruence)).
    specialize (IH (S i) (fed +:+ c) (WriteBody w c) ltac:(congruence)).
    destruct (taken allowed chunks (S i)) as [got all]. rewrite <- app_app.
    destruct (blocked (fed +:+ c)) eqn:Bc.
    + assert (Bg : blocked ((fed +:+ c) +:+ got) = true).
      { unfold blocked in *. apply negb_true_iff, bool_decide_eq_false in Bc.
        apply negb_true_iff, bool_decide_eq_false. apply Unread_app, Bc. }
      rewrite Bg. reflexivity.
    + specialize (IH eq_refl). destruct (copy _ _ _ _ _ _) as [[w' fed'] e].
      rewrite S', B', !app_app in IH. rewrite app_app. exact IH.
Qed.

(** What the client gets of a stream, and whether that is all. *)
Definition delivered (up : UpstreamResponse) : string * bool :=
  taken (bodyAllowedForStatus (if informational (StatusCode up) then StatusOK else StatusCode up)) (upChunks up) 0.

(** How the handler of a stream ends. *)
Definition stream_ending (up : UpstreamResponse) : outcome :=
  if negb (validStatus (StatusCode up)) then Panicked
  else if blocked (delivered up).1 then Stuck else Returned.

(** The call that closes the reservation of a stream once it has been copied. *)
Definition stream_call (up : UpstreamResponse) (id : string) (est : Z) : call :=
  let '(got, all) := delivered up in
  match ParseUsageSSE got with
  | None => if all && negb (upErr up) then CSettle id est else CRefund id
  | u => CSettle id (actualTokens u est)
  end.

(** The calls, the answer to the client and the end of a stream's handler. *)
Lemma handleStream_spec env w up dec est :
  rSent w = None ->
  let '(env', w', out) := handleStream (W := W * list (call * answer)) clock accepts env w up dec est in
  out = stream_ending up /\
  match out with
  | Returned =>
      (exists a, calls env' = calls env ++ [(stream_call up (ReservationID dec) est, a)]) /\
      status_of w' = (if informational (StatusCode up) then StatusOK else StatusCode up) /\
      rBody w' = rBody w +:+ (delivered up).1
  | _ => calls env' = calls env
  end.
Proof.
  intros Sw. unfold handleStream, stream_ending, stream_call, delivered. pose proof (writeHeaders_limiter env w dec) as Wl.
  pose proof (writeHeaders_sent env w dec) as [Ws Wb].
  destruct (writeHeaders clock env w dec) as [env1 w1]. cbn [fst snd] in Wl, Ws, Wb. rewrite Sw in Ws.
  unfold panics. rewrite Ws. destruct (validStatus (StatusCode up)); cbn [negb].
  2: { split; [reflexivity|]. unfold calls. rewrite Wl. reflexivity. }
  destruct (WriteHeader_unsent w1 (StatusCode up) Ws) as [St Bd]. rewrite Wb in Bd.
  pose proof (copy_spec (upErr up) (upChunks up) 0 "" (WriteHeader w1 (StatusCode up)) _ eq_refl eq_refl) as C.
  rewrite St in C. destruct (taken _ _ _) as [got all]. cbn [fst].
  destruct (copy _ _ _ _ _ _) as [[w2 fed] e]. change ("" +:+ got) with got in C.
  destruct (blocked got); [subst e; split; [reflexivity|unfold calls; rewrite Wl; reflexivity]|].
  destruct C as (-> & -> & Sc & Bc). rewrite Bd in Bc.
  cbn [lRefund lSettle Recorded_ApiLimiter]. unfold record, calls, withLimiter, recordSettle.
  destruct all, (upErr up), (ParseUsageSSE got) as [u|]; cbn [andb negb];
    try (destruct (lSettle _ _ _) as [lim [sd|err]]); try (destruct (lRefund _ _) as [lim x]);
    (split; [reflexivity|]); rewrite Wl; (split; [eexists; reflexivity|split; assumption]).
Qed.

Lemma stream_call_closes up id est :
  1 <= est -> closes id est (failed up) (stream_call up id est).
Proof.
  intros E. unfold stream_call. pose proof (taken_failed
    (bodyAllowedForStatus (if informational (StatusCode up) then StatusOK else StatusCode up)) (upChunks up) 0) as T.
  fold (delivered up) in T. destruct (delivered up) as [got all]. cbn [snd] in T.
  destruct (ParseUsageSSE got) as [u|]; [apply actualTokens_closes, E|]. destruct all.
  - destruct (upErr up) eqn:U; cbn [andb negb]; [split; [reflexivity|left; exact U]|]. exact (actualTokens_closes None est id _ E).
  - cbn [andb]. split; [reflexivity|]. right. destruct (T eq_refl) as [A|A]; [auto|]. right.
    destruct (informational (StatusCode up)) eqn:I; [discriminate|exact A].
Qed.

Lemma estimate_positive body : 1 <= ceTotalTokens (estimate cfg body).
Proof.
  unfold estimate. destruct (EstimateChatRequest body (cfgTokenizer cfg)) as [e|] eqn:E.
  - unfold EstimateChatRequest in E. destruct (decode_raw_map body) as [raw|]; [|discriminate].
    destruct (match find_key "messages" raw with Some _ => _ | None => _ end) as [input|]; [|discriminate].
    cbv zeta in E. injection E as <-. cbn. match goal with |- context [?a <? 1] => destruct (Z.ltb_spec a 1); lia end.
  - cbn. destruct (Z.ltb_spec (EstimateTokens body) 1); lia.
Qed.

(** What may have gone wrong for an admitted request. *)
Definition failure (r : Request) (body : string) : Prop :=
  newRequest r = false \/ Do r body = None \/ exists up, Do r body = Some up /\ failed up.

(** How the handler of an admitted request ends, by what the network does. *)
Definition ending (r : Request) (body : string) : outcome :=
  if newRequest r then
    match Do r body with
    | Some up => if isStream body r then stream_ending up else json_ending up
    | None => Returned
    end
  else Returned.

(** A stream's reservation is open until the stream is over. *)
Definition left_open (r : Request) (body : string) : bool :=
  isStream body r && match ending r body with Returned => false | _ => true end.

(** The calls made for one request, and how its handler ended. *)
Definition accounted (r : Request) (made : list (call * answer)) (out : outcome) : Prop :=
  match made with
  | [] => out = Returned
  | (CCheck key limits cost, ADecision res) :: rest =>
      limits = cfgLimits cfg /\ Requests cost = 1 /\ 1 <= Tokens cost /\
      match admitted res with
      | None => rest = [] /\ out = Returned
      | Some d =>
          exists body, readLimited (reqBody r) (reqBodyErr r) (wrap64 (limitBytes cfg + 1)) = Some body /\
          out = ending r body /\
          if left_open r body then rest = []
          else exists c a, rest = [(c, a)] /\ closes (ReservationID d) (Tokens cost) (failure r body) c
      end
  | _ => False
  end.

(** An upstream's response, passed on. *)
Lemma forward_accounted r body env w up d est :
  1 <= est -> rSent w = None -> newRequest r = true -> Do r body = Some up ->
  let '(env', _, out) :=
    if isStream body r then handleStream (W := W * list (call * answer)) clock accepts env w up d est
    else handleJSON clock env w up d est in
  out = ending r body /\
  if left_open r body then calls env' = calls env
  else exists c a, calls env' = calls env ++ [(c, a)] /\ closes (ReservationID d) est (failure r body) c.
Proof.
  intros Ep Sw Nr Du. unfold left_open, ending. rewrite Nr, Du.
  assert (Cl : forall c, closes (ReservationID d) est (failed up) c -> closes (ReservationID d) est (failure r body) c).
  { intros []; cbn; auto. intros [-> F]. split; [reflexivity|]. right. right. eauto. }
  destruct (isStream body r).
  - pose proof (handleStream_spec env w up d est Sw) as Hs. pose proof (stream_call_closes up (ReservationID d) est Ep) as Cc.
    destruct (handleStream _ _ _ _ _ _ _) as [[env2 w2] out]. destruct Hs as [-> Hs]. split; [reflexivity|].
    cbn [andb]. destruct (stream_ending up); [|exact Hs|exact Hs]. destruct Hs as [[a Ha] _].
    exists (stream_call up (ReservationID d) est), a. split; [exact Ha|apply Cl, Cc].
  - pose proof (handleJSON_closes env w up d est Ep Sw) as Hs.
    destruct (handleJSON _ _ _ _ _ _) as [[env2 w2] out]. destruct Hs as (-> & c & a & E & Cc).
    split; [reflexivity|]. exists c, a. split; [exact E|apply Cl, Cc].
Qed.

(** C15: the proxy closes every admission exactly once, unless a stream's handler does
    not get to it.  For whatever the client sends and the network does, the calls the
    proxy makes of its limiter are: none, for a request that is too large; one Check,
    with one request and at least one token, when it is refused; else that Check and
    exactly one call that closes its reservation - a settlement of a positive number of
    tokens, as reported or as estimated, or a refund, only if the upstream or the client
    gave up.  The exceptions are two streams, and there the reservation stays open: one
    whose upstream answers a status [WriteHeader] panics on (below 100), and one of
    which the client takes more than the usage scanner reads, whose handler never
    returns. *)
Theorem proxy_closes_admissions r env w :
  calls env = [] -> rSent w = None ->
  let '(env', _, out) := ServeHTTP (W := W * list (call * answer)) cfg clock newRequest Do accepts r env w in
  accounted r (calls env') out.
Proof.
  intros E0 Sw. unfold ServeHTTP, accounted. destruct (readLimited _ _ _) as [body|]; [|rewrite E0; reflexivity].
  destruct (CheckBytes _ _); [rewrite E0; reflexivity|]. cbv zeta. destruct (CheckInput _ _); [rewrite E0; reflexivity|].
  pose proof (estimate_positive body) as Ep. set (est := ceTotalTokens (estimate cfg body)) in *.
  set (key := mkKey _ _). set (cost := mkCost 1 est 0 0). cbn [lCheck lRefund Recorded_ApiLimiter]. unfold record.
  destruct (lCheck key (cfgLimits cfg) cost (elim env).1) as [lim res] eqn:Ec. unfold calls in E0.
  set (env1 := withLimiter env _).
  assert (C1 : calls env1 = [(CCheck key (cfgLimits cfg) cost, ADecision res)]) by (unfold calls; cbn; rewrite E0; reflexivity).
  clearbody env1. destruct res as [d|e].
  2: { rewrite C1. repeat split; try reflexivity. exact Ep. }
  assert (Ad : admitted (Ok d) = if Allowed d then Some d else None) by reflexivity.
  destruct (Allowed d); cbn [negb].
  2: { pose proof (writeHeaders_limiter env1 w d) as Wl. destruct (writeHeaders clock env1 w d) as [env2 w2].
       cbn [fst] in Wl. unfold calls in *. rewrite Wl, C1, Ad. repeat split; try reflexivity. exact Ep. }
  destruct (newRequest r) eqn:Nr; cbn [negb].
  2: { destruct (lRefund _ _) as [lim' r']. unfold calls in *. cbn [withLimiter elim snd]. rewrite C1. cbn [app].
       rewrite Ad. repeat split; try reflexivity; [exact Ep|]. exists body. unfold left_open, ending. rewrite Nr, andb_false_r.
       repeat split. eexists _, _. split; [reflexivity|]. split; [reflexivity|]. left. exact Nr. }
  destruct (Do r body) as [up|] eqn:Du.
  2: { destruct (lRefund _ _) as [lim' r']. unfold calls in *. cbn [withLimiter elim snd]. rewrite C1. cbn [app].
       rewrite Ad. repeat split; try reflexivity; [exact Ep|]. exists body. unfold left_open, ending. rewrite Nr, Du, andb_false_r.
       repeat split. eexists _, _. split; [reflexivity|]. split; [reflexivity|]. right. left. exact Du. }
  pose proof (forward_accounted r body env1 (w <| rHeader := copyHeader (rHeader w) (upHeader up) |>) up d est Ep Sw Nr Du) as F.
  destruct (if isStream body r then _ else _) as [[env2 w2] out]. destruct F as [Eo F]. rewrite C1 in F.
  destruct (left_open r body) eqn:Lo.
  - rewrite F, Ad. repeat split; try reflexivity; [exact Ep|]. exists body. rewrite Lo. auto.
  - destruct F as (c & a & -> & Cc). cbn [app]. rewrite Ad. repeat split; try reflexivity; [exact Ep|].
    exists body. rewrite Lo. eauto 6.
Qed.

Lemma stream_ending_cases up :
  (stream_ending up = Panicked <-> StatusCode up < 100 \/ 999 < StatusCode up) /\
  (stream_ending up = Stuck <-> 100 <= StatusCode up <= 999 /\ Unread maxLine (delivered up).1 <> "").
Proof.
  unfold stream_ending, validStatus, blocked.
  destruct (Z.leb_spec 100 (StatusCode up)), (Z.leb_spec (StatusCode up) 999); cbn [andb negb];
    try (split; split; intros C; first [discriminate|reflexivity|exfalso; lia|lia]).
  destruct (bool_decide_reflect (Unread maxLine (delivered up).1 = "")) as [U|U]; cbn [negb];
    (split; split; intros C; first [discriminate|reflexivity|exfalso; tauto|exfalso; lia|auto]).
Qed.

(** C16: how the handler of a stream ends, for any upstream and any client.  It panics,
    before the reservation is closed, when the upstream's status is no three-digit one;
    it never returns, and never closes the reservation, when what the client takes of
    the stream leaves bytes behind the usage scanner - a line of a mebibyte, and
    something after it; else it returns, having sent the client the upstream's status
    and what it takes of the body, and made the one call that closes the reservation: a
    settlement of what the stream reports or of the estimate, or, when the stream broke
    off without a report, a refund.  A client that takes everything gets the whole
    body. *)
Theorem stream_blocks_iff_overrun env h up dec est :
  let '(env', w', out) :=
    handleStream (W := W * list (call * answer)) clock accepts env (mkResponse h None "") up dec est in
  (out = Panicked <-> StatusCode up < 100 \/ 999 < StatusCode up) /\
  (out = Stuck <-> 100 <= StatusCode up <= 999 /\ Unread maxLine (delivered up).1 <> "") /\
  (out <> Returned -> calls env' = calls env) /\
  (out = Returned ->
   (exists a, calls env' = calls env ++ [(stream_call up (ReservationID dec) est, a)]) /\
   rBody w' = (delivered up).1 /\ (200 <= StatusCode up -> status_of w' = StatusCode up)) /\
  ((forall i, accepts i = true) -> 200 <= StatusCode up -> bodyAllowedForStatus (StatusCode up) = true ->
   delivered up = (upBody up, true)).
Proof.
  pose proof (handleStream_spec env (mkResponse h None "") up dec est eq_refl) as Hs.
  destruct (handleStream _ _ _ _ _ _ _) as [[env' w'] out]. destruct Hs as [-> Hs].
  destruct (stream_ending_cases up) as [EP ES]. split; [exact EP|]. split; [exact ES|].
  assert (Big : 200 <= StatusCode up -> informational (StatusCode up) = false).
  { intros L. unfold informational. destruct (Z.leb_spec (StatusCode up) 199); [lia|]. rewrite andb_false_r. reflexivity. }
  split; [|split].
  - destruct (stream_ending up); [congruence|intros _; exact Hs|intros _; exact Hs].
  - intros R. rewrite R in Hs. destruct Hs as (Ha & Hst & Hb). split; [exact Ha|]. split; [exact Hb|].
    intros L. rewrite Hst, Big by exact L. reflexivity.
  - intros A L B. unfold delivered. rewrite Big by exact L. rewrite B. apply taken_all, A.
Qed.
End Spec.

(** ** The properties at work *)

Definition sample_config : ProxyConfig :=
  mkProxyConfig (mkLimits 60 90000 0 0) (mkGate 128000 2097152) (Some (fun _ => 2)).

Definition sample_request : Request :=
  mkRequest "POST" "/v1/chat/completions" "" ∅ (obj [("prompt", quote +:+ "hi" +:+ quote); ("max_tokens", "100")]) false.

(** A response that reports 42 tokens. *)
Definition sample_response : UpstreamResponse :=
  mkUpstream 200 [] [response [] [] (int_members (chat_usage 12 30 42))] false.

(** A request estimated at 102 tokens and settled at the 42 it used. *)
Lemma proxy_closes_admissions_witness :
  let env := mkEnv (tt, []) "" 0%nat zeroMetrics in
  let run := ServeHTTP (W := unit * list (call * answer)) (H := Recorded_ApiLimiter (H := open_limiter))
    sample_config (fun _ => 0) (fun _ => true) (fun _ _ => Some sample_response) (fun _ => true) sample_request env newResponse in
  calls env = [] /\
  (let '(env', _, out) := run in
   accounted sample_config (fun _ => true) (fun _ _ => Some sample_response) (fun _ => true) sample_request (calls env') out) /\
  map fst (calls run.1.1) =
    [CCheck (mkKey "anonymous" "-") (mkLimits 60 90000 0 0) (mkCost 1 102 0 0); CSettle "r1" 42].
Proof.
  cbv zeta. split; [reflexivity|]. split; [|vm_compute; reflexivity].
  apply (proxy_closes_admissions (H := open_limiter)); reflexivity.
Defined.

Fixpoint xs (n : nat) : string := match n with O => "" | S n => String.String "x" (xs n) end.

Lemma xs_length n : String.length (xs n) = n.
Proof. induction n; cbn; auto. Qed.

Lemma xs_no_lf n : no_lf (xs n) = true.
Proof. induction n; cbn; auto. Qed.

(** A line of [n] bytes, then the usage. *)
Definition sample_stream (n : nat) : UpstreamResponse := mkUpstream 200 [] [xs n; "data: {}"] false.

Lemma sample_overruns n : (maxLine <= n)%nat -> Unread maxLine (upBody (sample_stream n)) <> "".
Proof.
  intros L. change (upBody (sample_stream n)) with (xs n +:+ ("data: {}" +:+ "")).
  apply Unread_overlong; rewrite ?length_app, ?xs_length.
  - apply xs_no_lf.
  - exact L.
  - cbn [String.length]. lia.
  - intros E. apply (f_equal String.length) in E. rewrite xs_length in E. change (String.length "") with 0%nat in E.
    pose proof maxLine_pos. lia.
Qed.

Lemma stream_blocks_iff_overrun_witness :
  let env := mkEnv (tt, []) "" 0%nat zeroMetrics in
  let '(env', _, out) :=
    handleStream (W := unit * list (call * answer)) (H := Recorded_ApiLimiter (H := open_limiter)) (fun _ => 0) (fun _ => true)
      env (mkResponse ∅ None "") (sample_stream maxLine) zeroDecision 102 in
  out = Stuck /\ calls env' = calls env.
Proof.
  cbv zeta. pose proof (stream_blocks_iff_overrun (H := open_limiter) (fun _ => 0) (fun _ => true)
    (mkEnv (tt, []) "" 0%nat zeroMetrics) ∅ (sample_stream maxLine) zeroDecision 102) as P.
  destruct (handleStream _ _ _ _ _ _ _) as [[env' w'] out]. destruct P as (_ & P2 & P3 & _ & P5).
  assert (U : out = Stuck).
  { apply P2. rewrite P5 by (reflexivity || discriminate). split; [split; discriminate|apply sample_overruns, le_n]. }
  split; [exact U|]. apply P3. rewrite U. discriminate.
Defined.

(** An upstream that answers a stream with status 042, which the HTTP client accepts:
    the reservation stays open. *)
Example bad_status_leaks :
  let run := handleStream (W := unit * list (call * answer)) (H := Recorded_ApiLimiter (H := open_limiter)) (fun _ => 0)
    (fun _ => true) (mkEnv (tt, []) "" 0%nat zeroMetrics) newResponse (mkUpstream 42 [] ["data: {}"] false) zeroDecision 102 in
  run.2 = Panicked /\ calls run.1.1 = [].
Proof. vm_compute. split; reflexivity. Qed.
